(* ===== verification/_CoqProject ===== *)
-Q . S2P
Prelude.v
Bytes.v
Primitives.v
Text.v
Hash.v
Toy.v
Messages.v
Validators.v
Rotation.v
SetChange.v
Governance.v
Signer.v
Payword.v
Lamport.v
Mandate.v
Merkle.v
Circuit.v
Pool.v
Notes.v
Assets.v
Tx.v
State.v
Spec.v
Envelope.v
Invariant.v
Demo.v
Account.v
Shielding.v
Eth.v
EthSpec.v
Attest.v
Bridge.v
Minting.v
BridgeDemo.v
Typed.v
Ledger.v
Channels.v
Conservation.v
Budget.v
Mempool.v
Proposer.v
Streaming.v
NodeParts.v
Wal.v
BlockLog.v
Batch.v
Seats.v
Apply.v
Snapshot.v
Codec.v
Node.v
Boot.v
Door.v
Explorer.v
ExplorerDemo.v
Receiving.v
NotesDemo.v
Chain.v
App.v
Lifecycle.v
Saving.v
World.v
LifeDemo.v
