(* ===== verification/Prelude.v ===== *)
(** * HashKinetics: a verification development

    HashKinetics is a blockchain node in Rust: a ledger with transparent
    accounts, hierarchical spending mandates, hash-chain payment channels,
    issued assets and shielded pools, run by a validator set with stateful
    hash-based signatures over a vendored BFT engine.  This library models the
    state machine, the cryptographic protocols around it, the validator set, and
    the node that keeps the chain on disk; it is translated from the sources
    under src/chain/crates and src/zkvm-bakeoff/circuit.

    ** Conventions

    A [Result] is [Bytes.res]; code that mutates the ledger and may fail or
    panic is a computation of the monad of State.v; a panic ([unwrap], checked
    arithmetic, an index out of range) is an outcome of its own, so a theorem
    that an operation succeeds also says that it does not panic.  Integers are
    [Z] with the width of the code written out ([wrapping], [saturating],
    [checked] operations of Bytes.v).  A [BTreeMap] or [HashMap] is a [gmap], its
    ordered iteration [map_to_list] sorted by the key's bytes.  Environment
    variables, clocks and files are arguments.  Timers and log lines are left out.

    Third-party code is a class: [Shake] and [Sha2] (crates sha3 and sha2: output
    lengths), [Hss] (hbs_lms), [RootScheme] (fips205), [Codecs], [StateCodecs] and the [StxWire],
    [BlockWire], [BatchWire], [LineText] classes (serde_json and bincode), [Keccak] and
    [Secp] (tiny-keccak, k256), [MlKem] (ml_kem), the STARK verifier as a boolean function.  What a theorem relies on beyond the output, the
    round trip of a codec or collision freedom at named inputs, is a hypothesis
    of its statement or a class of laws, and Toy.v, Demo.v and the [Sample]
    modules give instances that meet it.

    ** Files

    - Prelude, Bytes: automation, generic lemmas, integers, byte strings.
    - Primitives, Hash, Toy: hk-primitives, hk-crypto/hash.rs, toy hashes.
    - Messages, Validators, Rotation, SetChange, Governance: hk-consensus. Votes,
      proposals and their signed bytes; the ordered validator set, proposer
      selection and the quorum test of the engine; key rotation; changes of the
      set; and what holds of every history of these.
    - Signer: hk-crypto/hashsig.rs, fsutil.rs. The one-time-leaf signer over a
      file system with failing writes and power losses.
    - Payword, Lamport: hk-crypto/payword.rs, lamport.rs.
    - Mandate: hk-mandate. Budgets, two-phase spends, revocation.
    - Merkle, Circuit: zkvm-bakeoff/circuit. The statements proved in zero
      knowledge, the one-time keys and the wallet's witness builders.
    - Pool, Assets, Tx, State: hk-state. The data, all fifteen transaction
      handlers, the envelope, blocks, genesis, snapshots, the state commitment.
    - Spec: the abstract step relation, one rule per transaction kind, and its
      equivalence with the handlers. Envelope, Invariant: the same for the
      envelope and for blocks, and the invariant under which nothing panics.
    - Ledger, Channels, Conservation, Budget: the guarantees of the ledger.
    - Mempool, Proposer: hk-node/mempool.rs and the block builder of state.rs.
    - Streaming: hk-node/streaming.rs and the proposal half of state.rs.
    - NodeParts: receipt log, search index, history floor, rotation trigger,
      genesis tables (hk-node/state.rs, genesis.rs).
    - Wal, BlockLog: hk-node/store.rs. The mempool log and the block log.
    - Batch, Apply: hk-node/batch.rs and [apply_batch_to_chain] of state.rs.
    - Seats, Snapshot: the validator seats of the node (what certificates do to
      its set, history and signer) and the image files in their four formats.
    - Codec: hk-node/codec.rs, the wire structures and their conversions.
    - Node, Boot, App, Door: the application state of state.rs with [build_batch],
      [commit], persistence and serving; [HkApp::new], [set_genesis_digest] and
      [restore_from_store]; the message loop of app.rs; the doors and paged reads
      of rpc.rs.  The outcome of each disk write comes from a script in the
      state, so a theorem over all scripts is one over all failures.
    - Chain: the specification of a chain, the images its blocks lead to.
    - Lifecycle, Saving: replay, restart and commit against that specification;
      what each write of a commit leaves on disk, by triples that also cover a
      stop at that write.
    - World: a node, its disk and its peers as a step relation (messages,
      requests, compaction, failed writes, stops, power losses, restarts).
    - Typed: the ledger stays within the widths of its Rust types.
    - Text: decimal and hexadecimal text, the values of serde_json.
    - Account: the programs that pay from an account file (hk-node/account.rs,
      demo.rs, [hk_submit] of attest.rs, hk-wallet-core [send_payload]).
    - Eth, EthSpec: hk-node/eth.rs, and decoders of RLP and the ABI written from
      their specifications.
    - Attest, Bridge, Minting: hk-node/attest.rs. The ledger file of the bridge,
      the service that moves deposits and burns between the chains, and the life
      of that service over kills, cut writes, restarts and an operator.  Replies
      and the outcomes of writes come from a script, as those of disk writes do.
    - Explorer: blocks and transactions as JSON (rpc.rs), and the bridge's scan
      and the co-signer that believe it.
    - Notes: hk-crypto/noteenc.rs, mlkem.rs and hk-wallet. Stealth addresses, sealed
      outputs, the scanner, the spend a wallet builds, disclosure packages.
    - Shielding: hk-wallet-core/shield.rs, client.rs. The wallet's file with its
      one-time counters and caches, the pool feed, shielding, unshielding, paying;
      a life of calls cut off anywhere, failed writes and power losses.
    - Receiving: [hk_getPoolNotes] of rpc.rs against the wallet's scan.
    - Demo, LifeDemo, BridgeDemo, ExplorerDemo, NotesDemo: concrete chains, nodes and
      services for the witnesses.

    Every definition carries the name of the Rust item it translates; where one
    Rust function became several definitions, the parts are named after what
    they do and composed by the one that has the function's name.

    ** What the theorems show

    - The handlers implement the abstract transition rules guard for guard
      ([dispatch_refines_accepts], [apply_tx_refines_envelope]); blocks never
      halt the chain; replays, double spends and unauthorised debits are
      impossible; refused transactions leave nothing behind.
    - Value is conserved over chains of blocks; mandates bound what can be drawn
      under them; channels pay exactly what was claimed.
    - The incremental commitment tree is the padded Merkle tree; an honest spend
      satisfies the statement; the statement conserves value.
    - A one-time leaf never signs twice, across crashes and power losses.
    - Accepted set changes are exactly those the rule allows, rotations are not
      replayed, signed bytes bind every field.
    - The mempool is its queue; a block a node builds has bounded settlement
      cost; what the door admits applies; a proposal survives any reordering.
    - The block log keeps every block through compaction and power loss; the
      logs and wire messages round-trip; and the cases where the code loses or
      trusts what it should not are theorems too ([trusted_segment_loses_block],
      [forged_synced_value_is_committed]).
    - While the messages of its engine are honest ([honest_msg] of World.v), a node is
      always at some height of its chain, whatever its disk does; it can always restart, does not lose a block that was written, and answers
      every decision ([node_follows_chain], [restart_resumes],
      [written_block_survives], [decision_answered]).
    - The doors keep their queues bounded and verified, and their free checks
      refuse only what consensus refuses; paging reads every note once.
    - The bridge mints no deposit twice, whatever stops it, unless its operator sends a
      minted record back or a failed submission entered ([no_double_mint]); it
      reads the burns of a block exactly; its calls and transactions read back
      as what was meant; a co-signer signs only for a burn of its own chain.
      Where this fails is a theorem too: a lost reply ([lost_reply_mints_twice]), a
      deposit replaced by a reorganisation ([replaced_deposit_is_minted]), a burn
      included twice ([repeated_burn_never_bridged]), two payments made while the
      first is pending ([pending_payment_reuses_key]).

    - A payment reaches its owner: the scan of the wallet it is for finds it in the
      pages of a node, and the spend built from it is accepted
      ([payment_reaches_its_owner], [wallet_finds_every_payment]); a wallet uses no
      one-time leaf and no note secret twice ([no_leaf_or_tag_used_twice]); a
      disclosure tells the payment and cannot lie about the amount, but its memo is
      not bound ([disclosed_memo_is_not_bound]).

    ** Bounds and fuel

    Loops of the code are structural recursion where they walk a list; the
    mandate walk is bounded by the number of nodes of the tree (parents are
    created before children), the WOTS chains by their fixed length, the tree
    levels by the depth constants. Fuelled functions come with the lemma that
    their fuel suffices; the paging loops of a wallet have the number of replies
    left as fuel, since each turn takes one.

    ** Not modelled

    The transport of rpc.rs (connections, HTTP, the syntax of JSON) and those of
    its methods that copy fields of the state into an answer; gossip,
    configuration and key files, process start-up, the health page and the
    HTTP listener of the co-signer: input and output around the modelled state.
    The faucet, the facilitator, the screens of the wallets, the vault that seals
    their files, and the writing of disclosure packages to files: client programs. The provers of zkvm-bakeoff.
    The contracts on Ethereum.  The consensus engine (vendored), except the
    types, the assembly of proposal streams and the quorum test the chain
    calls. *)

From stdpp Require Export prelude gmap strings list fin_maps sorting.
From Stdlib Require Export ZArith Lia.
From Stdlib Require Import Init.Byte.

#[global] Set Default Goal Selector "!".
#[global] Set Printing Projections.

(** * Outcomes and the state-and-error monad

    A Rust method on [&mut self] that returns [Result<A, E>] is a function
    from the state to the state it leaves behind and an outcome.  The state is
    kept on the error path too, so "a refused transaction mutates nothing" is a
    theorem about the handlers and not a consequence of their type.  [Panic] is
    the outcome of [expect], [assert!] and out-of-range indexing. *)

Inductive res (E A : Type) : Type :=
  | Ok (a : A)
  | Err (e : E)
  | Panic.
Arguments Ok {E A} a.
Arguments Err {E A} e.
Arguments Panic {E A}.

Definition M (S E A : Type) : Type := S → S * res E A.

Declare Scope hk_scope.
Delimit Scope hk_scope with hk.

Definition retM {S E A} (a : A) : M S E A := λ s, (s, Ok a).
Definition failM {S E A} (e : E) : M S E A := λ s, (s, Err e).
Definition panicM {S E A} : M S E A := λ s, (s, Panic).
Definition getM {S E} : M S E S := λ s, (s, Ok s).
Definition modifyM {S E} (f : S → S) : M S E unit := λ s, (f s, Ok tt).

Definition bindM {S E A B} (m : M S E A) (k : A → M S E B) : M S E B :=
  λ s, match m s with
       | (s1, Ok a) => k a s1
       | (s1, Err e) => (s1, Err e)
       | (s1, Panic) => (s1, Panic)
       end.

(** Evaluate a read-only method of the current state. *)
Definition readM {S E A} (f : S → res E A) : M S E A := λ s, (s, f s).

(** [if c { return Err(e) }] *)
Definition refuse_if {S E} (c : bool) (e : E) : M S E unit :=
  if c then failM e else retM tt.

(** [o.ok_or(e)?] *)
Definition ok_or {S E A} (o : option A) (e : E) : M S E A :=
  match o with Some a => retM a | None => failM e end.

(** [o.expect(..)] on an option and on a [Result]. *)
Definition expect {S E A} (o : option A) : M S E A :=
  match o with Some a => retM a | None => panicM end.
Definition expectM {S E E' A} (m : M S E A) : M S E' A :=
  λ s, match m s with
       | (s1, Ok a) => (s1, Ok a)
       | (s1, Err _) => (s1, Panic)
       | (s1, Panic) => (s1, Panic)
       end.

(** Run a computation on a component of the state, converting its error
    ([self.mandates.spend(..)?] with [#[from]]). *)
Definition zoom {S T E E' A} (get : S → T) (put : T → S → S) (conv : E → E')
    (m : M T E A) : M S E' A :=
  λ s, match m (get s) with
       | (t, Ok a) => (put t s, Ok a)
       | (t, Err e) => (put t s, Err (conv e))
       | (t, Panic) => (put t s, Panic)
       end.

(** [match m { Ok(a) => a, Err(e) => { h(e); return Err(e) } }] *)
Definition on_errM {S E A} (m : M S E A) (h : S → S) : M S E A :=
  λ s, match m s with
       | (s1, Err e) => (h s1, Err e)
       | p => p
       end.

(** The [Result] as a value: [match m { Ok(a) => .., Err(e) => .. }]. *)
Definition tryM {S E E' A} (m : M S E A) : M S E' (E + A) :=
  λ s, match m s with
       | (s1, Ok a) => (s1, Ok (inr a))
       | (s1, Err e) => (s1, Ok (inl e))
       | (s1, Panic) => (s1, Panic)
       end.

Notation "'let*' x ':=' m 'in' k" := (bindM m (λ x, k))
  (at level 10, x name, m at level 100, k at level 200) : hk_scope.
Notation "'let*' ' p ':=' m 'in' k" := (bindM m (λ x, match x with p => k end))
  (at level 10, p strict pattern, m at level 100, k at level 200) : hk_scope.
Notation "m ;;; k" := (bindM m (λ _, k))
  (at level 100, k at level 200, right associativity) : hk_scope.
#[global] Open Scope hk_scope.

(** [for a in l { f(a)?; }] *)
Fixpoint for_eachM {S E A} (f : A → M S E unit) (l : list A) : M S E unit :=
  match l with
  | [] => retM tt
  | a :: l => f a ;;; for_eachM f l
  end.

(** [for a in l { any |= f(a)?; }] *)
Fixpoint anyM {S E A} (f : A → M S E bool) (l : list A) : M S E bool :=
  match l with
  | [] => retM false
  | a :: l => let* x := f a in let* y := anyM f l in retM (x || y)
  end.

(** The same, for read-only methods. *)
Definition bindR {E A B} (r : res E A) (k : A → res E B) : res E B :=
  match r with Ok a => k a | Err e => Err e | Panic => Panic end.
Definition ok_orR {E A} (o : option A) (e : E) : res E A :=
  match o with Some a => Ok a | None => Err e end.
Definition mapErr {E E' A} (f : E → E') (r : res E A) : res E' A :=
  match r with Ok a => Ok a | Err e => Err (f e) | Panic => Panic end.
Definition is_ok {E A} (r : res E A) : bool :=
  match r with Ok _ => true | _ => false end.

Notation "'let?' x ':=' m 'in' k" := (bindR m (λ x, k))
  (at level 10, x name, m at level 100, k at level 200) : hk_scope.

(** ** Inversion of monadic runs *)

Lemma bindM_inv {S E A B} (m : M S E A) (k : A → M S E B) s s' r :
  bindM m k s = (s', r) →
  (∃ s1 a, m s = (s1, Ok a) ∧ k a s1 = (s', r)) ∨
  (∃ e, m s = (s', Err e) ∧ r = Err e) ∨
  (m s = (s', Panic) ∧ r = Panic).
Proof.
  unfold bindM. destruct (m s) as [s1 [a|e|]]; intros H.
  - left. eauto.
  - right; left. simplify_eq. eauto.
  - right; right. by simplify_eq.
Qed.

Lemma bindM_ok {S E A B} (m : M S E A) (k : A → M S E B) s s' b :
  bindM m k s = (s', Ok b) →
  ∃ s1 a, m s = (s1, Ok a) ∧ k a s1 = (s', Ok b).
Proof.
  intros H. apply bindM_inv in H.
  destruct H as [?|[(e & _ & [=])|[_ [=]]]]; done.
Qed.

Lemma bindM_assoc {S E A B C} (m : M S E A) (k : A → M S E B) (l : B → M S E C) s :
  bindM (bindM m k) l s = bindM m (λ a, bindM (k a) l) s.
Proof. unfold bindM. by destruct (m s) as [s1 [a|e|]]. Qed.

Lemma bindM_ext {S E A B} (m m' : M S E A) (k k' : A → M S E B) s :
  m s = m' s → (∀ a s1, k a s1 = k' a s1) → bindM m k s = bindM m' k' s.
Proof. intros H Hk. unfold bindM. rewrite <-H. destruct (m s) as [? []]; by auto. Qed.
Lemma bindM_ret_l {S E A B} (a : A) (k : A → M S E B) s : bindM (retM a) k s = k a s.
Proof. done. Qed.

(** Inversion of the elementary actions; the tactic [mrun] uses them on every
    hypothesis that runs one of them. *)
Section inversions.
Context {S E A : Type}.
Implicit Types (s : S) (e : E).

Lemma refuse_if_ok c e s s' u :
  refuse_if (S := S) c e s = (s', Ok u) → s' = s ∧ c = false.
Proof. destruct c; cbv; naive_solver. Qed.
Lemma refuse_if_err c e s s' e' :
  refuse_if (S := S) c e s = (s', Err e') → s' = s ∧ c = true ∧ e' = e.
Proof. destruct c; cbv; naive_solver. Qed.
Lemma refuse_if_panic c e s s' : refuse_if (S := S) c e s ≠ (s', Panic).
Proof. destruct c; cbv; naive_solver. Qed.
Lemma ok_or_ok (o : option A) e s s' a :
  ok_or (S := S) o e s = (s', Ok a) → s' = s ∧ o = Some a.
Proof. destruct o; cbv; naive_solver. Qed.
Lemma ok_or_err (o : option A) e s s' e' :
  ok_or (S := S) o e s = (s', Err e') → s' = s ∧ o = None ∧ e' = e.
Proof. destruct o; cbv; naive_solver. Qed.
Lemma ok_or_panic (o : option A) e s s' : ok_or (S := S) o e s ≠ (s', Panic).
Proof. destruct o; cbv; naive_solver. Qed.
Lemma expect_ok (o : option A) s s' a :
  expect (E := E) o s = (s', Ok a) → s' = s ∧ o = Some a.
Proof. destruct o; cbv; naive_solver. Qed.
Lemma expect_panic (o : option A) s s' :
  expect (E := E) o s = (s', Panic) → s' = s ∧ o = None.
Proof. destruct o; cbv; naive_solver. Qed.
Lemma expect_err (o : option A) s s' e : expect (S := S) o s ≠ (s', Err e).
Proof. destruct o; cbv; naive_solver. Qed.
Lemma expectM_ok {E'} (m : M S E A) s s' a :
  expectM (E' := E') m s = (s', Ok a) → m s = (s', Ok a).
Proof. unfold expectM. destruct (m s) as [? []]; naive_solver. Qed.
Lemma expectM_err {E'} (m : M S E' A) s s' e :
  expectM (E' := E) m s ≠ (s', Err e).
Proof. unfold expectM. destruct (m s) as [? []]; naive_solver. Qed.
Lemma zoom_inv {T E'} (get : S → T) put (conv : E → E') (m : M T E A) s s' r :
  zoom get put conv m s = (s', r) →
  ∃ t r0, m (get s) = (t, r0) ∧ s' = put t s ∧ r = mapErr conv r0.
Proof. unfold zoom. destruct (m (get s)) as [t [a|e|]]; naive_solver. Qed.
Lemma readM_inv (f : S → res E A) s s' r : readM f s = (s', r) → s' = s ∧ r = f s.
Proof. cbv; naive_solver. Qed.
Lemma retM_inv (a : A) s s' r : retM (E := E) a s = (s', r) → s' = s ∧ r = Ok a.
Proof. cbv; naive_solver. Qed.
Lemma getM_inv s s' r : getM (E := E) s = (s', r) → s' = s ∧ r = Ok s.
Proof. cbv; naive_solver. Qed.
Lemma modifyM_inv (f : S → S) s s' r :
  modifyM (E := E) f s = (s', r) → s' = f s ∧ r = Ok tt.
Proof. cbv; naive_solver. Qed.
End inversions.

(** One inversion step on a run that ended in [Ok].  Guards become boolean
    equations, bound options become [Some] equations. *)
Ltac mrun_step :=
  match goal with
  | H : bindM _ _ _ = (_, Ok _) |- _ =>
      apply bindM_ok in H; destruct H as (? & ? & ? & H); cbn beta in *
  | H : refuse_if _ _ _ = (_, Ok _) |- _ => apply refuse_if_ok in H; destruct H as [-> H]
  | H : ok_or _ _ _ = (_, Ok _) |- _ => apply ok_or_ok in H; destruct H as [-> H]
  | H : expect _ _ = (_, Ok _) |- _ => apply expect_ok in H; destruct H as [-> H]
  | H : expectM _ _ = (_, Ok _) |- _ => apply expectM_ok in H
  | H : readM _ _ = (_, _) |- _ => apply readM_inv in H; destruct H as [-> H]
  | H : retM _ _ = (_, _) |- _ => apply retM_inv in H; destruct H as [-> H]
  | H : getM _ = (_, _) |- _ => apply getM_inv in H; destruct H as [-> H]
  | H : modifyM _ _ = (_, _) |- _ => apply modifyM_inv in H; destruct H as [-> H]
  | H : Ok _ = Ok _ |- _ => injection H as H; subst
  end.
Ltac mrun := repeat mrun_step.

(** ** Frame properties of computations

    [quiet m]: [m] never changes the state; [noerr m]: [m] never returns
    [Err]; [atomic m]: an [Err] leaves the state as it was; [respects R m]:
    every run relates the state before and after by [R], whatever the outcome. *)

Definition quiet {S E A} (m : M S E A) : Prop := ∀ s, fst (m s) = s.
Definition noerr {S E A} (m : M S E A) : Prop := ∀ s s' e, m s ≠ (s', Err e).
Definition atomic {S E A} (m : M S E A) : Prop :=
  ∀ s s' e, m s = (s', Err e) → s' = s.
Definition respects {S E A} (R : relation S) (m : M S E A) : Prop :=
  ∀ s, R s (fst (m s)).

Create HintDb hkframe.

Section frames.
Context {S E : Type}.

Lemma quiet_ret {A} (a : A) : quiet (retM (S := S) (E := E) a). Proof. done. Qed.
Lemma quiet_fail {A} e : quiet (failM (S := S) (E := E) (A := A) e). Proof. done. Qed.
Lemma quiet_panic {A} : quiet (panicM (S := S) (E := E) (A := A)). Proof. done. Qed.
Lemma quiet_get : quiet (getM (S := S) (E := E)). Proof. done. Qed.
Lemma quiet_read {A} (f : S → res E A) : quiet (readM f). Proof. done. Qed.
Lemma quiet_refuse_if c e : quiet (refuse_if (S := S) (E := E) c e).
Proof. by destruct c. Qed.
Lemma quiet_ok_or {A} (o : option A) e : quiet (ok_or (S := S) (E := E) o e).
Proof. by destruct o. Qed.
Lemma quiet_expect {A} (o : option A) : quiet (expect (S := S) (E := E) o).
Proof. by destruct o. Qed.
Lemma quiet_bind {A B} (m : M S E A) (k : A → M S E B) :
  quiet m → (∀ a, quiet (k a)) → quiet (bindM m k).
Proof.
  intros Hm Hk s. unfold bindM. specialize (Hm s).
  destruct (m s) as [s1 [a|e|]]; simpl in *; subst; [apply Hk|done|done].
Qed.

Lemma noerr_ret {A} (a : A) : noerr (retM (S := S) (E := E) a).
Proof. cbv; naive_solver. Qed.
Lemma noerr_panic {A} : noerr (panicM (S := S) (E := E) (A := A)).
Proof. cbv; naive_solver. Qed.
Lemma noerr_get : noerr (getM (S := S) (E := E)).
Proof. cbv; naive_solver. Qed.
Lemma noerr_modify f : noerr (modifyM (S := S) (E := E) f).
Proof. cbv; naive_solver. Qed.
Lemma noerr_expect {A} (o : option A) : noerr (expect (S := S) (E := E) o).
Proof. intros s s' e. apply expect_err. Qed.
Lemma noerr_expectM {E' A} (m : M S E' A) : noerr (expectM (E' := E) m).
Proof. intros s s' e. apply expectM_err. Qed.
Lemma noerr_bind {A B} (m : M S E A) (k : A → M S E B) :
  noerr m → (∀ a, noerr (k a)) → noerr (bindM m k).
Proof.
  intros Hm Hk s s' e H. apply bindM_inv in H.
  destruct H as [(s1 & a & H1 & H2)|[(e' & H1 & ?)|[H1 [=]]]].
  - by eapply Hk.
  - by eapply Hm.
Qed.

Lemma atomic_quiet {A} (m : M S E A) : quiet m → atomic m.
Proof. intros Hm s s' e H. specialize (Hm s). by rewrite H in Hm. Qed.
Lemma atomic_noerr {A} (m : M S E A) : noerr m → atomic m.
Proof. intros Hm s s' e H. by apply Hm in H. Qed.
Lemma atomic_bind_quiet {A B} (m : M S E A) (k : A → M S E B) :
  quiet m → (∀ a, atomic (k a)) → atomic (bindM m k).
Proof.
  intros Hm Hk s s' e H. specialize (Hm s).
  apply bindM_inv in H.
  destruct H as [(s1 & a & H1 & H2)|[(e' & H1 & ?)|[H1 [=]]]];
    rewrite H1 in Hm; simpl in Hm; subst; [by eapply Hk|done].
Qed.
Lemma atomic_bind_noerr {A B} (m : M S E A) (k : A → M S E B) :
  atomic m → (∀ a, noerr (k a)) → atomic (bindM m k).
Proof.
  intros Hm Hk s s' e H. apply bindM_inv in H.
  destruct H as [(s1 & a & H1 & H2)|[(e' & H1 & ?)|[H1 [=]]]].
  - by apply Hk in H2.
  - by eapply Hm.
Qed.

Lemma respects_quiet {A} (R : relation S) `{!Reflexive R} (m : M S E A) : quiet m → respects R m.
Proof. intros Hm s. by rewrite Hm. Qed.
Lemma respects_modify (R : relation S) f : (∀ s, R s (f s)) → respects (E := E) R (modifyM f).
Proof. intros H s. apply H. Qed.
Lemma respects_expectM {E' A} (R : relation S) (m : M S E' A) :
  respects R m → respects R (expectM (E' := E) m).
Proof.
  intros Hm s. specialize (Hm s). unfold expectM.
  by destruct (m s) as [? []].
Qed.
Lemma respects_bind {A B} (R : relation S) `{!Transitive R} (m : M S E A) (k : A → M S E B) :
  respects R m → (∀ a, respects R (k a)) → respects R (bindM m k).
Proof.
  intros Hm Hk s. specialize (Hm s). unfold bindM.
  destruct (m s) as [s1 [a|e|]]; simpl in *; [|done|done].
  etrans; [done|]. apply Hk.
Qed.
Lemma respects_any {A} (R : relation S) `{!PreOrder R} (f : A → M S E bool) l :
  (∀ a, respects R (f a)) → respects R (anyM f l).
Proof.
  intros Hf. induction l as [|a l IH]; cbn [anyM]; [by apply respects_quiet; [apply _|]|].
  apply respects_bind; [apply _|apply Hf|]. intros x. apply respects_bind; [apply _|apply IH|].
  intros y. by apply respects_quiet; [apply _|].
Qed.
Lemma respects_for_each {A} (R : relation S) `{!PreOrder R} (f : A → M S E unit) l :
  (∀ a, respects R (f a)) → respects R (for_eachM f l).
Proof.
  intros Hf. induction l as [|a l IH]; [intros s; reflexivity|]. apply respects_bind; [apply _|apply Hf|done].
Qed.

(** A run from [P] ends in [Q] with its value, or stops in [R]. *)
Definition run_to {A} (P : S → Prop) (m : M S E A) (Q : A → S → Prop) (R : S → Prop) : Prop :=
  ∀ s, P s → match m s with (s', Ok x) => Q x s' | (s', _) => R s' end.
Lemma run_to_bind {A B} P (m : M S E A) (k : A → M S E B) Q Q' R :
  run_to P m Q' R → (∀ x, run_to (Q' x) (k x) Q R) → run_to P (bindM m k) Q R.
Proof.
  intros Hm Hk s HP. specialize (Hm s HP). unfold bindM. destruct (m s) as [s1 [x|e|]]; [|done..]. by apply Hk.
Qed.
Lemma run_to_ret {A} (P : S → Prop) (x : A) (Q : A → S → Prop) R : (∀ s, P s → Q x s) → run_to P (retM x) Q R.
Proof. intros H s HP. by apply H. Qed.
Lemma run_to_get (P : S → Prop) R : run_to P getM (λ x s, P s ∧ x = s) R.
Proof. intros s HP. by split. Qed.
Lemma run_to_conseq {A} (P P' : S → Prop) (m : M S E A) (Q Q' : A → S → Prop) (R R' : S → Prop) :
  run_to P' m Q' R' → (∀ s, P s → P' s) → (∀ x s, Q' x s → Q x s) → (∀ s, R' s → R s) → run_to P m Q R.
Proof. intros Hm HP HQ HR s Hs. specialize (Hm s (HP _ Hs)). destruct (m s) as [s1 [x|e|]]; auto. Qed.
Lemma run_to_pre {A} (P P' : S → Prop) (m : M S E A) Q R : run_to P' m Q R → (∀ s, P s → P' s) → run_to P m Q R.
Proof. intros. by eapply run_to_conseq. Qed.
Lemma run_to_any {A} (P R : S → Prop) (m : M S E A) : run_to P m (λ _, R) R → ∀ s, P s → R (m s).1.
Proof. intros Hm s HP. specialize (Hm s HP). by destruct (m s) as [s1 [x|e|]]. Qed.
(** Each turn of a loop uses up one element of what [P] holds of. *)
Lemma run_to_for_each {A} (P : list A → S → Prop) (f : A → M S E unit) R l :
  (∀ a l, run_to (P (a :: l)) (f a) (λ _, P l) R) → run_to (P l) (for_eachM f l) (λ _, P []) R.
Proof.
  intros Hf. induction l as [|a l IH]; [by apply run_to_ret|]. eapply run_to_bind; [apply Hf|]. done.
Qed.
(** An unchanged frame is an invariant. *)
Lemma respects_run_to {A} (R : relation S) (P : S → Prop) (m : M S E A) :
  respects R m → (∀ s s', R s s' → P s → P s') → run_to P m (λ _, P) P.
Proof. intros Hm HR s HP. specialize (Hm s). destruct (m s) as [s1 [x|e|]]; cbn in Hm; eauto. Qed.
End frames.

#[export] Hint Resolve quiet_ret quiet_fail quiet_panic quiet_get quiet_read
  quiet_refuse_if quiet_ok_or quiet_expect quiet_bind
  noerr_ret noerr_panic noerr_get noerr_modify noerr_expect noerr_expectM noerr_bind : hkframe.

(** Walk a computation to its updates; [leaf] proves that each keeps [R]. *)
Ltac walk_respects leaf :=
  repeat first
    [ apply respects_bind; [apply _| |intros ?]
    | apply respects_any; [apply _|intros ?]
    | apply respects_quiet; [apply _|solve [auto with hkframe]]
    | apply respects_modify; intros ?; leaf
    | match goal with |- context [match ?x with _ => _ end] => destruct x end ].

(** ** Stable sorting

    [v.sort_by(cmp)] is a stable sort.  [le a b] says [cmp(a, b) != Greater]. *)
Section sort_by.
Context {A : Type} (le : A → A → bool).

Fixpoint sort_insert (x : A) (l : list A) : list A :=
  match l with
  | [] => [x]
  | y :: l' => if le x y then x :: l else y :: sort_insert x l'
  end.
Definition sort_by (l : list A) : list A := foldr sort_insert [] l.

Lemma sort_insert_perm x l : sort_insert x l ≡ₚ x :: l.
Proof.
  induction l as [|y l IH]; simpl; [done|]. destruct (le x y); [done|].
  rewrite IH. apply Permutation_swap.
Qed.
Lemma sort_by_perm l : sort_by l ≡ₚ l.
Proof. induction l as [|x l IH]; simpl; [done|]. by rewrite sort_insert_perm, IH. Qed.

Context (le_total : ∀ x y, le x y = true ∨ le y x = true).
Context (le_trans : ∀ x y z, le x y = true → le y z = true → le x z = true).

Lemma sort_insert_sorted x l :
  StronglySorted (λ a b, le a b = true) l → StronglySorted (λ a b, le a b = true) (sort_insert x l).
Proof.
  induction 1 as [|y l Hs IH Hf]; simpl; [by repeat constructor|].
  destruct (le x y) eqn:E.
  - constructor; [by constructor|]. constructor; [done|].
    eapply Forall_impl; [exact Hf|]. intros z. by apply le_trans.
  - constructor; [done|]. rewrite sort_insert_perm. constructor; [|done].
    destruct (le_total x y); congruence.
Qed.
Lemma sort_by_sorted l : StronglySorted (λ a b, le a b = true) (sort_by l).
Proof. induction l; simpl; [constructor|by apply sort_insert_sorted]. Qed.

(** Sorting twice, or sorting a sorted list, changes nothing. *)
Lemma sort_by_id l : StronglySorted (λ a b, le a b = true) l → sort_by l = l.
Proof.
  induction 1 as [|x l Hs IH Hf]; [done|]. simpl. rewrite IH.
  destruct Hf as [|y l Hxy]; simpl; [done|]. by rewrite Hxy.
Qed.
End sort_by.
