(* ===== verification/Bytes.v ===== *)
(** Machine integers and byte strings: the fixed-width arithmetic of the Rust
    code (saturating, checked, wrapping), little-endian encodings,
    length-prefixed concatenation and the byte-wise order that a [BTreeMap]
    iterates in. *)

From S2P Require Export Prelude.
From Stdlib Require Export Init.Byte.
From Stdlib Require Import Strings.Byte.
#[global] Open Scope Z_scope.

(** * Machine integers: a [uN] is a [Z] between [0] and [uN_max] *)

Definition u32_max : Z := 2 ^ 32 - 1.
Definition u64_max : Z := 2 ^ 64 - 1.
Definition u128_max : Z := 2 ^ 128 - 1.

Definition in_u8 (x : Z) : Prop := 0 ≤ x < 256.
Definition in_u32 (x : Z) : Prop := 0 ≤ x ≤ u32_max.
Definition in_u64 (x : Z) : Prop := 0 ≤ x ≤ u64_max.
Definition in_u128 (x : Z) : Prop := 0 ≤ x ≤ u128_max.

(** [saturating_add/mul/sub] on [u128] and [u64], [checked_add/mul], and the
    wrapping [-]/[+] of a release build (no overflow checks in the profile). *)
Definition sat_add (max x y : Z) : Z := Z.min (x + y) max.
Definition sat_mul (max x y : Z) : Z := Z.min (x * y) max.
Definition sat_sub (x y : Z) : Z := Z.max (x - y) 0.
Definition checked (max v : Z) : option Z := if v <=? max then Some v else None.
Definition wrapping (max v : Z) : Z := v mod (max + 1).

Lemma sat_add_le max x y : sat_add max x y ≤ max.
Proof. unfold sat_add. lia. Qed.
Lemma sat_add_small max x y : x + y ≤ max → sat_add max x y = x + y.
Proof. unfold sat_add. lia. Qed.
Lemma sat_add_nonneg max x y : 0 ≤ max → 0 ≤ x → 0 ≤ y → 0 ≤ sat_add max x y.
Proof. unfold sat_add. lia. Qed.
Lemma sat_mul_nonneg max x y : 0 ≤ max → 0 ≤ x → 0 ≤ y → 0 ≤ sat_mul max x y.
Proof. unfold sat_mul. nia. Qed.
Lemma sat_sub_small x y : y ≤ x → sat_sub x y = x - y.
Proof. unfold sat_sub. lia. Qed.
Lemma checked_some max v w : checked max v = Some w ↔ v ≤ max ∧ w = v.
Proof. unfold checked. destruct (Z.leb_spec v max); naive_solver lia. Qed.
Lemma checked_none max v : checked max v = None ↔ max < v.
Proof. unfold checked. destruct (Z.leb_spec v max); naive_solver lia. Qed.
Lemma wrapping_small max v : 0 ≤ v ≤ max → wrapping max v = v.
Proof. intros. unfold wrapping. apply Z.mod_small. lia. Qed.

Lemma wrapping_in_u64 v : in_u64 (wrapping u64_max v).
Proof.
  unfold wrapping, in_u64. pose proof (Z.mod_pos_bound v (u64_max + 1) ltac:(unfold u64_max; lia)). lia.
Qed.

Ltac ulia := unfold in_u8, in_u32, in_u64, in_u128, u32_max, u64_max, u128_max in *; lia.

(** * Bytes *)

Notation bytes := (list byte).

#[export] Instance byte_eq_dec : EqDecision byte := Byte.byte_eq_dec.
#[export] Instance byte_countable : Countable byte :=
  inj_countable Byte.to_N Byte.of_N Byte.of_to_N.
#[export] Instance byte_inhabited : Inhabited byte := populate x00.

Definition byte_val (b : byte) : Z := Z.of_N (Byte.to_N b).
Definition byte_of (z : Z) : byte := default x00 (Byte.of_N (Z.to_N (z mod 256))).

Lemma byte_val_bound b : 0 ≤ byte_val b < 256.
Proof. unfold byte_val. pose proof (Byte.to_N_bounded b). lia. Qed.
Lemma byte_val_of z : byte_val (byte_of z) = z mod 256.
Proof.
  unfold byte_val, byte_of.
  pose proof (Z.mod_pos_bound z 256 ltac:(lia)) as Hb.
  destruct (Byte.of_N (Z.to_N (z mod 256))) as [b|] eqn:E; simpl.
  - apply Byte.to_of_N in E. rewrite E. lia.
  - apply Byte.of_N_None_iff in E. lia.
Qed.
Lemma byte_of_val b : byte_of (byte_val b) = b.
Proof.
  unfold byte_of. rewrite Z.mod_small by apply byte_val_bound.
  unfold byte_val. by rewrite N2Z.id, Byte.of_to_N.
Qed.
#[export] Instance byte_val_inj : Inj (=) (=) byte_val.
Proof. intros a b H. by rewrite <-(byte_of_val a), H, byte_of_val. Qed.

(** [x.to_le_bytes()] of an [8*n]-bit integer, and its inverse. *)
Fixpoint le_bytes (n : nat) (z : Z) : bytes :=
  match n with
  | O => []
  | S n => byte_of z :: le_bytes n (z / 256)
  end.
Definition be_bytes (n : nat) (z : Z) : bytes := rev (le_bytes n z).
Fixpoint le_val (l : bytes) : Z :=
  match l with
  | [] => 0
  | b :: l => byte_val b + 256 * le_val l
  end.

Lemma length_le_bytes n z : length (le_bytes n z) = n.
Proof. revert z. induction n; intros; simpl; auto. Qed.
Lemma length_be_bytes n z : length (be_bytes n z) = n.
Proof. unfold be_bytes. by rewrite length_rev, length_le_bytes. Qed.
Lemma le_val_bound l : 0 ≤ le_val l < 256 ^ Z.of_nat (length l).
Proof.
  induction l as [|b l IH]; [done|]. cbn [le_val length]. pose proof (byte_val_bound b).
  rewrite Nat2Z.inj_succ, Z.pow_succ_r by lia. lia.
Qed.
Lemma le_val_bytes n z : le_val (le_bytes n z) = z mod 256 ^ Z.of_nat n.
Proof.
  revert z. induction n as [|n IH]; intros z.
  - simpl. by rewrite Z.mod_1_r.
  - cbn [le_bytes le_val]. rewrite byte_val_of, IH, Nat2Z.inj_succ, Z.pow_succ_r by lia.
    rewrite Z.rem_mul_r by lia. lia.
Qed.
Lemma le_bytes_inj n x y :
  0 ≤ x < 256 ^ Z.of_nat n → 0 ≤ y < 256 ^ Z.of_nat n →
  le_bytes n x = le_bytes n y → x = y.
Proof.
  intros Hx Hy H. apply (f_equal le_val) in H.
  rewrite !le_val_bytes in H. by rewrite !Z.mod_small in H by done.
Qed.
Lemma be_bytes_inj n x y :
  0 ≤ x < 256 ^ Z.of_nat n → 0 ≤ y < 256 ^ Z.of_nat n →
  be_bytes n x = be_bytes n y → x = y.
Proof.
  unfold be_bytes. intros Hx Hy H. apply (f_equal (@rev _)) in H.
  rewrite !rev_involutive in H. by eapply le_bytes_inj.
Qed.

(** [x.to_le_bytes()] for the widths the code uses. *)
Definition u32_le : Z → bytes := le_bytes 4.
Definition u64_le : Z → bytes := le_bytes 8.
Definition u128_le : Z → bytes := le_bytes 16.
Definition u32_be : Z → bytes := be_bytes 4.

Lemma length_u32_le z : length (u32_le z) = 4%nat. Proof. apply length_le_bytes. Qed.
Lemma length_u64_le z : length (u64_le z) = 8%nat. Proof. apply length_le_bytes. Qed.
Lemma length_u128_le z : length (u128_le z) = 16%nat. Proof. apply length_le_bytes. Qed.
Lemma u64_le_inj x y : in_u64 x → in_u64 y → u64_le x = u64_le y → x = y.
Proof. intros Hx Hy. apply le_bytes_inj; ulia. Qed.

(** [(b.len() as u64).to_le_bytes() ‖ b] *)
Definition len_prefixed (b : bytes) : bytes := u64_le (Z.of_nat (length b)) ++ b.
Definition short (b : bytes) : Prop := Z.of_nat (length b) ≤ u64_max.

(** Splitting equal concatenations: a part of known length, or a
    length-prefixed part, can be peeled off the front. *)
Lemma app_eq_len {A} (a b x y : list A) :
  length a = length b → a ++ x = b ++ y → a = b ∧ x = y.
Proof. intros Hl H. by apply app_inj_1 in H. Qed.
Lemma len_prefixed_inj a b x y :
  short a → short b → len_prefixed a ++ x = len_prefixed b ++ y → a = b ∧ x = y.
Proof.
  unfold len_prefixed, short. rewrite <-!app_assoc. intros Ha Hb H.
  apply app_eq_len in H as [H1 H2]; [|by rewrite !length_u64_le].
  apply u64_le_inj in H1; [|unfold in_u64; lia..].
  apply app_eq_len in H2; [done|lia].
Qed.

(** [s.as_bytes()] *)
Definition str_bytes (s : string) : bytes := String.list_byte_of_string s.
Lemma str_bytes_inj s t : str_bytes s = str_bytes t → s = t.
Proof.
  unfold str_bytes. intros H. apply (f_equal String.string_of_list_byte) in H.
  by rewrite !String.string_of_list_byte_of_string in H.
Qed.

(** * Order

    [derive(PartialOrd, Ord)] on a byte array is the lexicographic order; a
    [BTreeMap] iterates in the order of its keys. *)
Fixpoint bytes_leb (a b : bytes) : bool :=
  match a, b with
  | [], _ => true
  | _, [] => false
  | x :: a, y :: b =>
      if byte_val x <? byte_val y then true
      else if byte_val y <? byte_val x then false
      else bytes_leb a b
  end.

Lemma bytes_leb_total a b : bytes_leb a b = true ∨ bytes_leb b a = true.
Proof.
  revert b. induction a as [|x a IH]; intros [|y b]; simpl; try (by auto).
  destruct (Z.ltb_spec (byte_val x) (byte_val y)), (Z.ltb_spec (byte_val y) (byte_val x)); auto.
Qed.
Lemma bytes_leb_cons x y a b :
  bytes_leb (x :: a) (y :: b) = true ↔
  byte_val x < byte_val y ∨ x = y ∧ bytes_leb a b = true.
Proof.
  simpl. destruct (Z.ltb_spec (byte_val x) (byte_val y)) as [?|?].
  { split; [by left|done]. }
  destruct (Z.ltb_spec (byte_val y) (byte_val x)) as [?|?].
  { split; [done|]. intros [?|[-> _]]; lia. }
  assert (x = y) as -> by (apply (inj byte_val); lia).
  split; [by right|]. by intros [?|[_ ?]]; [lia|].
Qed.
Lemma bytes_leb_trans a b c : bytes_leb a b = true → bytes_leb b c = true → bytes_leb a c = true.
Proof.
  revert b c. induction a as [|x a IH]; intros [|y b] [|z c]; try done.
  rewrite !bytes_leb_cons. intros [?|[-> ?]] [?|[-> ?]]; [left; lia|by left..|right]. split; [done|by eapply IH].
Qed.
Lemma bytes_leb_antisym a b : bytes_leb a b = true → bytes_leb b a = true → a = b.
Proof.
  revert b. induction a as [|x a IH]; intros [|y b]; try done.
  rewrite !bytes_leb_cons. intros [?|[-> ?]] [?|[? ?]]; subst; [lia..|]. f_equal. auto.
Qed.

Class Ordered (K : Type) := leb : K → K → bool.

Definition le_key {K V} `{Ordered K} (a b : K * V) : Prop := leb a.1 b.1 = true.
#[export] Instance le_key_dec {K V} `{Ordered K} : RelDecision (@le_key K V _).
Proof. intros a b. unfold le_key. apply _. Defined.

(** [m.iter()] of a [BTreeMap]: the entries in key order. *)
Definition btree_iter {K V} `{Countable K, Ordered K} (m : gmap K V) : list (K * V) :=
  merge_sort le_key (map_to_list m).
Definition btree_keys {K} `{Countable K, Ordered K} (s : gset K) : list K :=
  (btree_iter (gset_to_gmap tt s)).*1.

Lemma btree_iter_perm {K V} `{Countable K, Ordered K} (m : gmap K V) :
  btree_iter m ≡ₚ map_to_list m.
Proof. apply merge_sort_Permutation. Qed.
Lemma elem_of_btree_iter {K V} `{Countable K, Ordered K} (m : gmap K V) k v :
  (k, v) ∈ btree_iter m ↔ m !! k = Some v.
Proof. by rewrite btree_iter_perm, elem_of_map_to_list. Qed.
