(* ===== verification/Primitives.v ===== *)
(** Core protocol types (chain/crates/hk-primitives): 32-byte identifiers,
    amounts, mandate nodes and channel state. *)

From S2P Require Export Bytes.
From Stdlib Require Import Eqdep_dec.

(** [pub struct H256(pub [u8; 32])]: a byte string whose length is 32 by type. *)
Record H256 := mkH256 {
  h256_bytes : bytes;
  h256_len : Nat.eqb (length h256_bytes) 32 = true;
}.

Lemma length_h256 (h : H256) : length (h256_bytes h) = 32%nat.
Proof. destruct h as [l H]. by apply Nat.eqb_eq. Qed.
Lemma h256_eq (a b : H256) : h256_bytes a = h256_bytes b → a = b.
Proof.
  destruct a as [la Ha], b as [lb Hb]; simpl. intros ->.
  f_equal. apply UIP_dec, Bool.bool_dec.
Qed.
#[export] Instance h256_bytes_inj : Inj (=) (=) h256_bytes.
Proof. intros a b. apply h256_eq. Qed.

Inductive PrimitiveError :=
  | BadLength (what : string) (got : Z).

(** [impl TryFrom<&[u8]> for H256] *)
Definition h256_try_from (v : bytes) : res PrimitiveError H256 :=
  match decide (Nat.eqb (length v) 32 = true) with
  | left H => Ok (mkH256 v H)
  | right _ => Err (BadLength "H256" (Z.of_nat (length v)))
  end.

Lemma h256_try_from_ok v h : h256_try_from v = Ok h ↔ v = h256_bytes h.
Proof.
  unfold h256_try_from. case_decide as H; split; intros Hv.
  - by injection Hv as <-.
  - f_equal. by apply h256_eq.
  - done.
  - subst. exfalso. apply H, Nat.eqb_eq, length_h256.
Qed.
Lemma h256_try_from_err v :
  length v ≠ 32%nat → h256_try_from v = Err (BadLength "H256" (Z.of_nat (length v))).
Proof.
  unfold h256_try_from. case_decide as H; [|done]. by pose proof (proj1 (Nat.eqb_eq _ _) H).
Qed.

Definition zero_h256 : H256 := mkH256 (replicate 32 x00) eq_refl.
(** [H256([b; 32])] *)
Definition h256_rep (b : byte) : H256 := mkH256 (replicate 32 b) eq_refl.

(** The 32-byte array with content [v]; [v] has 32 bytes at every use. *)
Definition h256_of (v : bytes) : H256 :=
  match h256_try_from v with Ok h => h | _ => zero_h256 end.
Lemma h256_of_bytes v : length v = 32%nat → h256_bytes (h256_of v) = v.
Proof.
  intros Hl. unfold h256_of, h256_try_from.
  case_decide as H; [done|]. exfalso. by apply H, Nat.eqb_eq.
Qed.
Lemma h256_of_id h : h256_of (h256_bytes h) = h.
Proof. apply h256_eq, h256_of_bytes, length_h256. Qed.

#[export] Instance h256_eq_dec : EqDecision H256.
Proof.
  refine (λ a b, cast_if (decide (h256_bytes a = h256_bytes b))); [by apply h256_eq|congruence].
Defined.
#[export] Instance h256_countable : Countable H256 :=
  inj_countable' h256_bytes h256_of h256_of_id.
#[export] Instance h256_inhabited : Inhabited H256 := populate zero_h256.
#[export] Instance h256_ordered : Ordered H256 :=
  λ a b, bytes_leb (h256_bytes a) (h256_bytes b).
#[export] Instance pair_ordered `{Ordered A, EqDecision A, Ordered B} : Ordered (A * B) :=
  λ p q, if decide (p.1 = q.1) then leb p.2 q.2 else leb p.1 q.1.

Notation Amount := Z (only parsing).
Notation Timestamp := Z (only parsing).
Notation AccountId := H256 (only parsing).
Notation MandateId := H256 (only parsing).
Notation AssetId := H256 (only parsing).
Notation ChannelId := H256 (only parsing).
Notation NoteCommitment := H256 (only parsing).
Notation Nullifier := H256 (only parsing).

Inductive SigScheme :=
  | SlhDsa192s | SlhDsa128s | Lms | Xmss | WotsPlus | LamportRatchetV0.
#[export] Instance SigScheme_eq_dec : EqDecision SigScheme.
Proof. solve_decision. Defined.

(** A mandate node: the consensus-enforced budget of one key.  (A parameter of
    a transaction keeps its Rust name; record fields carry a prefix because
    Rocq projections share one name space.) *)
Record MandateNode := mkMandateNode {
  mn_id : MandateId;
  mn_parent : option MandateId;
  mn_holder_key : bytes;
  mn_scheme : SigScheme;
  mn_asset : AssetId;
  mn_rate_per_sec : Amount;
  mn_buffer_max : Amount;
  mn_per_tx_max : Amount;
  mn_expiry : Timestamp;
  mn_revoked : bool;
  mn_buffer : Amount;
  mn_last_accrual : Timestamp;
  mn_tier : Z;
}.
#[export] Instance MandateNode_eq_dec : EqDecision MandateNode.
Proof. solve_decision. Defined.

(** The mutations of a node: [n.revoked = ..], [n.buffer = ..; n.last_accrual = ..]. *)
Definition mn_set_revoked (b : bool) (n : MandateNode) : MandateNode :=
  mkMandateNode n.(mn_id) n.(mn_parent) n.(mn_holder_key) n.(mn_scheme) n.(mn_asset)
    n.(mn_rate_per_sec) n.(mn_buffer_max) n.(mn_per_tx_max) n.(mn_expiry) b
    n.(mn_buffer) n.(mn_last_accrual) n.(mn_tier).
Definition mn_set_buffer (buf : Amount) (at_ : Timestamp) (n : MandateNode) : MandateNode :=
  mkMandateNode n.(mn_id) n.(mn_parent) n.(mn_holder_key) n.(mn_scheme) n.(mn_asset)
    n.(mn_rate_per_sec) n.(mn_buffer_max) n.(mn_per_tx_max) n.(mn_expiry) n.(mn_revoked)
    buf at_ n.(mn_tier).

(** PayWord channel anchor. *)
Record ChannelState := mkChannelState {
  cs_id : ChannelId;
  cs_payer : AccountId;
  cs_payee : AccountId;
  cs_asset : AssetId;
  cs_mandate : MandateId;
  cs_tip : H256;
  cs_unit_price : Amount;
  cs_max_steps : Z;
  cs_highest_step_settled : Z;
  cs_expiry : Timestamp;
}.
Definition cs_set_highest (k : Z) (c : ChannelState) : ChannelState :=
  mkChannelState c.(cs_id) c.(cs_payer) c.(cs_payee) c.(cs_asset) c.(cs_mandate)
    c.(cs_tip) c.(cs_unit_price) c.(cs_max_steps) k c.(cs_expiry).
#[export] Instance ChannelState_eq_dec : EqDecision ChannelState.
Proof. solve_decision. Defined.
