(* ===== verification/Text.v ===== *)
(** Text and JSON values: the decimal and hexadecimal forms the program prints
    and reads ([to_string] and [from_str_radix] of unsigned integers, the crate
    hex), and the values of serde_json, which both the node's answers and the
    services that read them are made of. *)

From S2P Require Export Primitives.
From stdpp Require Export pretty.
#[local] Open Scope Z_scope.

(** A [BTreeMap<String, _>] iterates in the order of the bytes. *)
#[export] Instance string_ordered : Ordered string := λ a b, bytes_leb (str_bytes a) (str_bytes b).

(** * Digits *)

Definition digit_of (base : Z) (c : Ascii.ascii) : option Z :=
  let n := Z.of_N (Ascii.N_of_ascii c) in
  let d := if (48 <=? n) && (n <=? 57) then n - 48
           else if (97 <=? n) && (n <=? 122) then n - 87
           else if (65 <=? n) && (n <=? 90) then n - 55 else base in
  if d <? base then Some d else None.
Fixpoint parse_digits (max base acc : Z) (s : string) : option Z :=
  match s with
  | EmptyString => Some acc
  | String c s => d ← digit_of base c; acc ← checked max (acc * base + d); parse_digits max base acc s
  end.
(** [from_str_radix] of an unsigned type: a sign is allowed, a lone one is not. *)
Definition parse_radix (max base : Z) (s : string) : option Z :=
  let s := match s with
           | String c (String _ _ as r) => if (Ascii.N_of_ascii c =? 43)%N then r else s
           | s => s
           end in
  match s with EmptyString => None | s => parse_digits max base 0 s end.
Definition parse_u64 : string → option Z := parse_radix u64_max 10.
Definition parse_u128 : string → option Z := parse_radix u128_max 10.

Lemma digit_of_pretty x : (x < 10)%N → digit_of 10 (pretty_N_char x) = Some (Z.of_N x).
Proof.
  intros H. assert (x = 0 ∨ x = 1 ∨ x = 2 ∨ x = 3 ∨ x = 4 ∨ x = 5 ∨ x = 6 ∨ x = 7 ∨ x = 8 ∨ x = 9)%N as E by lia.
  by repeat destruct E as [->|E]; subst.
Qed.
Lemma pretty_N_char_not_plus x : Ascii.N_of_ascii (pretty_N_char x) ≠ 43%N.
Proof. unfold pretty_N_char. by repeat case_match. Qed.
Lemma parse_digits_pretty max x s :
  0 ≤ max → Z.of_N x ≤ max → parse_digits max 10 0 (pretty_N_go x s) = parse_digits max 10 (Z.of_N x) s.
Proof.
  intros Hm. revert s. induction x as [x IH] using (well_founded_ind N.lt_wf_0). intros s Hx.
  destruct (decide (x = 0)%N) as [->|Hn]; [done|].
  rewrite pretty_N_go_step by lia. rewrite IH; [|apply N.div_lt; lia|].
  - cbn [parse_digits]. rewrite digit_of_pretty by (apply N.mod_lt; lia). cbn [mbind option_bind].
    assert (Z.of_N (x / 10) * 10 + Z.of_N (x mod 10) = Z.of_N x) as ->.
    { rewrite N2Z.inj_div, N2Z.inj_mod. pose proof (Z.div_mod (Z.of_N x) 10 ltac:(done)). lia. }
    unfold checked. rewrite (proj2 (Z.leb_le _ _)) by done. done.
  - rewrite N2Z.inj_div. pose proof (Z.div_le_upper_bound (Z.of_N x) 10 max). lia.
Qed.
Lemma pretty_N_go_shape x s : (0 < x)%N → ∃ c r, pretty_N_go x s = String c r ∧ Ascii.N_of_ascii c ≠ 43%N.
Proof.
  revert s. induction x as [x IH] using (well_founded_ind N.lt_wf_0). intros s Hx.
  rewrite pretty_N_go_step by done. destruct (decide (x / 10 = 0)%N) as [->|Hn].
  - rewrite pretty_N_go_0. eexists _, _. split; [done|apply pretty_N_char_not_plus].
  - apply IH; [apply N.div_lt; lia|]. by apply N.neq_0_lt_0.
Qed.
(** What is printed reads back. *)
Lemma parse_pretty max z : 0 ≤ z ≤ max → parse_radix max 10 (pretty z) = Some z.
Proof.
  intros [H0 H1]. destruct z as [|p|p]; [| |lia].
  { destruct max; [done|done|lia]. }
  change (pretty (Zpos p)) with (pretty_N_go (Npos p) EmptyString).
  destruct (pretty_N_go_shape (Npos p) EmptyString ltac:(lia)) as (c & r & E & Hc).
  pose proof (parse_digits_pretty max (Npos p) EmptyString ltac:(lia) ltac:(lia)) as Hp. rewrite E in Hp |- *.
  unfold parse_radix. destruct r as [|d r]; [done|]. by rewrite (proj2 (N.eqb_neq _ _) Hc).
Qed.

Lemma parse_radix_bounds max base s z : 0 ≤ base → parse_radix max base s = Some z → 0 ≤ z ≤ Z.max 0 max.
Proof.
  intros Hb. cut (∀ s acc, 0 ≤ acc ≤ Z.max 0 max → parse_digits max base acc s = Some z → 0 ≤ z ≤ Z.max 0 max).
  { intros H E. unfold parse_radix in E. repeat case_match; try discriminate E; subst; (eapply (H _ 0); [lia|exact E]). }
  clear s. induction s as [|c s IH]; intros acc Ha E; cbn in E; [congruence|].
  destruct (digit_of base c) as [d|] eqn:Ed; cbn in E; [|done].
  assert (0 ≤ d).
  { unfold digit_of in Ed. repeat case_match; simplify_eq; try lia.
    all: repeat match goal with H : _ && _ = true |- _ => apply andb_true_iff in H as [??] end; lia. }
  unfold checked in E. destruct (acc * base + d <=? max) eqn:El; cbn in E; [|done]. apply IH in E; nia.
Qed.

(** * Hexadecimal *)

Definition hex_digit (n : N) : Ascii.ascii :=
  Ascii.ascii_of_N (if (n <? 10)%N then 48 + n else 87 + n)%N.
(** [hex::encode] *)
Fixpoint hex (l : bytes) : string :=
  match l with
  | [] => ""
  | b :: l => String (hex_digit (Byte.to_N b / 16)) (String (hex_digit (Byte.to_N b mod 16)) (hex l))
  end.
(** [hex::decode] *)
Fixpoint hex_decode (s : string) : option bytes :=
  match s with
  | EmptyString => Some []
  | String a (String b s) =>
      x ← digit_of 16 a; y ← digit_of 16 b; l ← hex_decode s; Some (byte_of (x * 16 + y) :: l)
  | String _ EmptyString => None
  end.
Lemma hex_byte b :
  (x ← digit_of 16 (hex_digit (Byte.to_N b / 16)); y ← digit_of 16 (hex_digit (Byte.to_N b mod 16));
    Some (byte_of (x * 16 + y))) = Some b.
Proof. by destruct b. Qed.
Lemma hex_decode_hex l : hex_decode (hex l) = Some l.
Proof.
  induction l as [|b l IH]; [done|]. cbn [hex hex_decode]. pose proof (hex_byte b) as Hb.
  destruct (digit_of 16 (hex_digit (Byte.to_N b / 16))) as [x|]; [|done].
  destruct (digit_of 16 (hex_digit (Byte.to_N b mod 16))) as [y|]; [|done].
  cbn in Hb |- *. rewrite IH. cbn. congruence.
Qed.
#[export] Instance hex_inj : Inj (=) (=) hex.
Proof. intros x y H. apply (f_equal hex_decode) in H. rewrite !hex_decode_hex in H. congruence. Qed.
Lemma hex_length l : String.length (hex l) = (2 * length l)%nat.
Proof. induction l as [|b l IH]; [done|]. cbn. rewrite IH. lia. Qed.

(** * JSON values *)

(** [serde_json::Value]; of the numbers, only integers are told apart. *)
Inductive Value :=
  | VNull
  | VBool (b : bool)
  | VNum (n : Z)
  | VFloat
  | VStr (s : string)
  | VArr (l : list Value)
  | VObj (l : list (string * Value)).

(** [Map::get] and [Value::get] with a string. *)
Fixpoint vfield (k : string) (l : list (string * Value)) : option Value :=
  match l with
  | [] => None
  | (k', v) :: l => if bool_decide (k' = k) then Some v else vfield k l
  end.
Definition vget (k : string) (v : Value) : option Value :=
  match v with VObj l => vfield k l | _ => None end.
(** [v.get(k1)?.get(k2)?..] *)
Fixpoint vpath (ks : list string) (v : Value) : option Value :=
  match ks with [] => Some v | k :: ks => w ← vget k v; vpath ks w end.
Definition vstr (v : Value) : option string := match v with VStr s => Some s | _ => None end.
Definition vbool (v : Value) : option bool := match v with VBool b => Some b | _ => None end.
Definition vu64 (v : Value) : option Z :=
  match v with VNum n => if (0 <=? n) && (n <=? u64_max) then Some n else None | _ => None end.
Definition varr (v : Value) : option (list Value) := match v with VArr l => Some l | _ => None end.
Definition is_null (v : Value) : bool := match v with VNull => true | _ => false end.

Definition starts_with (p s : string) : bool := String.prefix p s.
(** [str::trim], of ASCII white space. *)
Definition is_space (c : Ascii.ascii) : bool :=
  let n := Ascii.N_of_ascii c in ((9 <=? n) && (n <=? 13) || (n =? 32))%N.
Fixpoint trim_start (s : string) : string :=
  match s with String c r => if is_space c then trim_start r else s | EmptyString => s end.
Fixpoint trim_end (s : string) : string :=
  match s with
  | EmptyString => EmptyString
  | String c r => match trim_end r with
                  | EmptyString => if is_space c then EmptyString else String c EmptyString
                  | r => String c r
                  end
  end.
Definition trim (s : string) : string := trim_end (trim_start s).
Lemma hex_digit_solid n : is_space (hex_digit (n mod 16)) = false.
Proof.
  assert (n mod 16 < 16)%N by (by apply N.mod_lt). revert H. generalize (n mod 16)%N. intros m Hm.
  assert (m = 0 ∨ m = 1 ∨ m = 2 ∨ m = 3 ∨ m = 4 ∨ m = 5 ∨ m = 6 ∨ m = 7 ∨ m = 8 ∨ m = 9 ∨ m = 10 ∨ m = 11 ∨
    m = 12 ∨ m = 13 ∨ m = 14 ∨ m = 15)%N as E by lia.
  by repeat destruct E as [->|E]; subst.
Qed.
Lemma trim_end_hex l : trim_end (hex l) = hex l.
Proof.
  induction l as [|b l IH]; [done|]. cbn [hex trim_end]. rewrite IH.
  destruct (hex l) eqn:E; [|done]. by rewrite hex_digit_solid.
Qed.
Lemma trim_hex l : trim (hex l) = hex l.
Proof.
  unfold trim. destruct l as [|b l]; [done|]. cbn [hex trim_start].
  assert (is_space (hex_digit (Byte.to_N b / 16)) = false) as -> by by destruct b. apply (trim_end_hex (b :: l)).
Qed.
(** Hex of 32 bytes. *)
Definition h256_of_hex (s : string) : option H256 :=
  b ← hex_decode s; match h256_try_from b with Ok h => Some h | _ => None end.
Lemma h256_of_hex_hex (h : H256) : h256_of_hex (hex (h256_bytes h)) = Some h.
Proof.
  unfold h256_of_hex. rewrite hex_decode_hex. cbn. by rewrite (proj2 (h256_try_from_ok _ _) eq_refl).
Qed.
