(* ===== verification/Hash.v ===== *)
(** Domain-separated hashing (chain/crates/hk-crypto/src/hash.rs).

    SHAKE-256 is the third-party crate [sha3] and SHA-256 the crate [sha2]:
    both are parameters, given by the classes [Shake] and [Sha2] that state
    what the code relies on (the output length).  What the repository itself
    defines, the framing of the hash input, is a definition. *)

From S2P Require Export Primitives.

Class Shake := {
  (** the first [n] bytes of the SHAKE-256 output stream on a message *)
  shake_xof : bytes → nat → bytes;
  shake_xof_len m n : length (shake_xof m n) = n;
}.

Class Sha2 := sha256 : bytes → H256.

(** Frozen v1 domain tags. *)
Definition DOM_PAYWORD_SEED : string := "hk/v1/payword-seed".
Definition DOM_PAYWORD_LINK : string := "hk/v1/payword-link".
Definition DOM_ACCOUNT_ID : string := "hk/v1/account-id".
Definition DOM_MANDATE_ID : string := "hk/v1/mandate-id".
Definition DOM_CHANNEL_ID : string := "hk/v1/channel-id".
Definition DOM_TX_MSG : string := "hk/v1/tx".
Definition DOM_LAMPORT_SK : string := "hk/v1/lamport-sk".
Definition DOM_LAMPORT_LEAF : string := "hk/v1/lamport-leaf".
Definition DOM_LAMPORT_PK : string := "hk/v1/lamport-pk-commit".
Definition DOM_STATE_COMMIT : string := "hk/v1/state-commit".
Definition DOM_AGG_COVER : string := "hk/v1/agg-cover".

(** The bytes fed to the XOF: domain, separator, then every part with its length. *)
Definition shake_input (domain : string) (parts : list bytes) : bytes :=
  str_bytes domain ++ [x00] ++ concat (len_prefixed <$> parts).

Section shake.
Context {SHAKE : Shake}.

Definition shake256_32 (domain : string) (parts : list bytes) : H256 :=
  h256_of (shake_xof (shake_input domain parts) 32).
Definition shake256_n (domain : string) (parts : list bytes) (n : nat) : bytes :=
  shake_xof (shake_input domain parts) n.

Lemma shake256_32_bytes d ps :
  h256_bytes (shake256_32 d ps) = shake_xof (shake_input d ps) 32.
Proof. apply h256_of_bytes, shake_xof_len. Qed.
End shake.

(** No domain tag contains the separator byte. *)
Definition no_nul (s : string) : Prop := x00 ∉ str_bytes s.

Lemma nul_split (a b x y : bytes) :
  x00 ∉ a → x00 ∉ b → a ++ x00 :: x = b ++ x00 :: y → a = b ∧ x = y.
Proof.
  revert b. induction a as [|c a IH]; intros [|d b] Ha Hb H; simplify_eq/=.
  - done.
  - set_solver.
  - set_solver.
  - destruct (IH b) as [-> ->]; set_solver.
Qed.

Lemma concat_len_prefixed_inj ps qs :
  Forall short ps → Forall short qs →
  concat (len_prefixed <$> ps) = concat (len_prefixed <$> qs) → ps = qs.
Proof.
  assert (Hn : ∀ b (l : bytes), len_prefixed b ++ l ≠ []).
  { intros b l H. apply (f_equal length) in H.
    unfold len_prefixed in H. rewrite !length_app, length_u64_le in H. simpl in H. lia. }
  intros Hp. revert qs. induction Hp as [|p ps Hp _ IH]; intros [|q qs] Hq H;
    try (inversion Hq; subst).
  - done.
  - symmetry in H. by apply Hn in H.
  - by apply Hn in H.
  - cbn [fmap list_fmap concat] in H.
    apply len_prefixed_inj in H as [-> H]; [|done..].
    f_equal. by apply IH.
Qed.

(** The framing is injective: two hash calls feed the XOF the same bytes only
    when the domain and every part agree ("no ambiguity between ["ab","c"] and
    ["a","bc"]"). *)
Lemma shake_input_inj d1 d2 ps qs :
  no_nul d1 → no_nul d2 → Forall short ps → Forall short qs →
  shake_input d1 ps = shake_input d2 qs → d1 = d2 ∧ ps = qs.
Proof.
  unfold shake_input. intros H1 H2 Hp Hq H.
  apply nul_split in H as [Hd H]; [|done..].
  split; [by apply str_bytes_inj|by apply concat_len_prefixed_inj].
Qed.
