(* ===== verification/Toy.v ===== *)
(** Concrete hash functions for the witnesses: a polynomial checksum and a
    truncation, which evaluate quickly.  The theorems hold for every instance of the hash
    classes; these instances show that their hypotheses can be met. *)

From S2P Require Export Hash.

Definition toy_sum (m : bytes) : Z :=
  foldl (λ acc b, Z.land (acc * 65599 + byte_val b + 1) (2 ^ 40 - 1)) 7 m.
Definition toy_xof (m : bytes) (n : nat) : bytes := take n (le_bytes 5 (toy_sum m) ++ replicate n x00).
Lemma length_toy_xof m n : length (toy_xof m n) = n.
Proof. unfold toy_xof. rewrite length_take, length_app, length_replicate. lia. Qed.

Definition toy_shake : Shake := {| shake_xof := toy_xof; shake_xof_len := length_toy_xof |}.
(** The first 32 bytes: enough where few messages are hashed, and cheap enough
    for the thousand chain steps of a one-time signature. *)
Definition toy_sha2 : Sha2 := λ m, h256_of (take 32 (m ++ replicate 32 x00)).

(** Small identifiers. *)
Definition id_of (n : Z) : H256 := h256_of (be_bytes 32 n).
