(* ===== verification/Messages.v ===== *)
(** Consensus objects (chain/crates/hk-consensus/src/context.rs, first half):
    addresses, heights, values, votes, proposals, proposal parts, and the bytes
    a validator signs for each of them.  [Round], [VoteType] and [NilOrVal] are
    the engine's types (vendor/external/malachite core-types). *)

From S2P Require Export Hash.

(** * Data *)

Definition DOM_VALIDATOR_ADDR : string := "hk/v1/validator-address".
Definition DOM_BLOCK_VALUE : string := "hk/v1/block-value".
Definition DOM_SIGN_VOTE : string := "hk/v1/consensus-vote".
Definition DOM_SIGN_PROPOSAL : string := "hk/v1/consensus-proposal".
Definition DOM_SIGN_PART : string := "hk/v1/consensus-proposal-part".

Definition ADDRESS_LENGTH : nat := 20.

(** [struct HkAddress([u8; 20])]: a byte string whose length is 20 by type. *)
Record HkAddress := mkHkAddress {
  ha_bytes : bytes;
  ha_len : Nat.eqb (length ha_bytes) ADDRESS_LENGTH = true;
}.
Lemma length_address (a : HkAddress) : length (ha_bytes a) = 20%nat.
Proof. destruct a as [l H]. by apply Nat.eqb_eq. Qed.
#[export] Instance ha_bytes_inj : Inj (=) (=) ha_bytes.
Proof.
  intros [la Ha] [lb Hb]; simpl. intros ->. f_equal. apply Eqdep_dec.UIP_dec, Bool.bool_dec.
Qed.
#[export] Instance HkAddress_eq_dec : EqDecision HkAddress.
Proof.
  refine (λ a b, cast_if (decide (ha_bytes a = ha_bytes b))); [by apply (inj ha_bytes)|congruence].
Defined.
(** [derive(Ord)] on the byte array. *)
#[export] Instance HkAddress_ordered : Ordered HkAddress := λ a b, bytes_leb (ha_bytes a) (ha_bytes b).

(** The first 20 bytes of a 32-byte digest. *)
Lemma take20_len (h : H256) : Nat.eqb (length (take 20 (h256_bytes h))) ADDRESS_LENGTH = true.
Proof. apply Nat.eqb_eq. rewrite length_take, length_h256. done. Qed.
Definition address_prefix (h : H256) : HkAddress := mkHkAddress (take 20 (h256_bytes h)) (take20_len h).

Definition HkPub : Type := bytes.
Definition HkSig : Type := bytes.
#[export] Instance HkPub_eq_dec : EqDecision HkPub := _.

(** [HkHeight(u64)]: the additions are those of a release build and wrap. *)
Notation HkHeight := Z (only parsing).
Definition height_increment (h : HkHeight) : HkHeight := wrapping u64_max (h + 1).
Definition height_increment_by (h n : Z) : HkHeight := wrapping u64_max (h + n).
Definition height_decrement_by (h n : Z) : option HkHeight := Some (sat_sub h n).

Inductive Round :=
  | RNil
  | RSome (r : Z).
#[export] Instance Round_eq_dec : EqDecision Round.
Proof. solve_decision. Defined.
Definition round_as_i64 (r : Round) : Z := match r with RNil => -1 | RSome r => r end.

Inductive VoteType := Prevote | Precommit.
Inductive NilOrVal (A : Type) := NVNil | NVVal (a : A).
Arguments NVNil {A}.
Arguments NVVal {A} a.

Record HkValue := mkHkValue { val_id : H256; val_txs : bytes }.

(** An extension is the engine's signed message: its bytes and their signature. *)
Record HkVote := mkHkVote {
  vote_typ : VoteType;
  vote_height : HkHeight;
  vote_round : Round;
  vote_value : NilOrVal H256;
  vote_address : HkAddress;
  vote_extension : option (bytes * HkSig);
}.

Record HkProposal := mkHkProposal {
  prop_height : HkHeight;
  prop_round : Round;
  prop_value : HkValue;
  prop_pol_round : Round;
  prop_address : HkAddress;
}.

Record HkProposalInit := mkHkProposalInit {
  init_height : HkHeight;
  init_round : Round;
  init_pol_round : Round;
  init_proposer : HkAddress;
}.
Inductive HkProposalPart :=
  | PartInit (init : HkProposalInit)
  | PartTxBatch (data : bytes)
  | PartFin (value_id : H256).

(** * Operations *)

(** [(x as i64).to_le_bytes()]: two's complement. *)
Definition i64_le (z : Z) : bytes := le_bytes 8 z.

Definition new_prevote (h : HkHeight) (r : Round) (v : NilOrVal H256) (a : HkAddress) : HkVote :=
  mkHkVote Prevote h r v a None.
Definition new_precommit (h : HkHeight) (r : Round) (v : NilOrVal H256) (a : HkAddress) : HkVote :=
  mkHkVote Precommit h r v a None.
Definition vote_extend (ext : bytes * HkSig) (v : HkVote) : HkVote :=
  mkHkVote v.(vote_typ) v.(vote_height) v.(vote_round) v.(vote_value) v.(vote_address) (Some ext).

Definition vote_sign_bytes (v : HkVote) : bytes :=
  str_bytes DOM_SIGN_VOTE ++ [x00] ++
  [match v.(vote_typ) with Prevote => x00 | Precommit => x01 end] ++
  u64_le v.(vote_height) ++
  i64_le (round_as_i64 v.(vote_round)) ++
  match v.(vote_value) with NVNil => [x00] | NVVal id => x01 :: h256_bytes id end ++
  ha_bytes v.(vote_address).

Definition proposal_sign_bytes (p : HkProposal) : bytes :=
  str_bytes DOM_SIGN_PROPOSAL ++ [x00] ++
  u64_le p.(prop_height) ++
  i64_le (round_as_i64 p.(prop_round)) ++
  i64_le (round_as_i64 p.(prop_pol_round)) ++
  h256_bytes p.(prop_value).(val_id) ++
  u64_le (Z.of_nat (length p.(prop_value).(val_txs))) ++ p.(prop_value).(val_txs) ++
  ha_bytes p.(prop_address).

Definition part_sign_bytes (p : HkProposalPart) : bytes :=
  str_bytes DOM_SIGN_PART ++ [x00] ++
  match p with
  | PartInit i =>
      [x00] ++ u64_le i.(init_height) ++ i64_le (round_as_i64 i.(init_round)) ++
      i64_le (round_as_i64 i.(init_pol_round)) ++ ha_bytes i.(init_proposer)
  | PartTxBatch data => [x01] ++ u64_le (Z.of_nat (length data)) ++ data
  | PartFin id => [x02] ++ h256_bytes id
  end.

Definition is_first (p : HkProposalPart) : bool := match p with PartInit _ => true | _ => false end.
Definition is_last (p : HkProposalPart) : bool := match p with PartFin _ => true | _ => false end.
Definition as_init (p : HkProposalPart) : option HkProposalInit :=
  match p with PartInit i => Some i | _ => None end.
Definition as_tx_batch (p : HkProposalPart) : option bytes :=
  match p with PartTxBatch d => Some d | _ => None end.
Definition as_fin (p : HkProposalPart) : option H256 :=
  match p with PartFin id => Some id | _ => None end.

Section hashed.
Context {SHAKE : Shake}.

(** [HkAddress::from_public_key], and [address_of] of hashsig_scheme.rs. *)
Definition from_public_key (pk : HkPub) : HkAddress :=
  address_prefix (shake256_32 DOM_VALIDATOR_ADDR [pk]).

(** [HkValue::new] *)
Definition value_new (txs : bytes) : HkValue := mkHkValue (shake256_32 DOM_BLOCK_VALUE [txs]) txs.
End hashed.

(** * The signed bytes determine the object *)

Definition round_ok (r : Round) : Prop := match r with RNil => True | RSome n => in_u32 n end.
Record vote_ok (v : HkVote) : Prop := mkVoteOk {
  vo_height : in_u64 v.(vote_height); vo_round : round_ok v.(vote_round) }.
Record proposal_ok (p : HkProposal) : Prop := mkProposalOk {
  po_height : in_u64 p.(prop_height); po_round : round_ok p.(prop_round);
  po_pol : round_ok p.(prop_pol_round); po_txs : short p.(prop_value).(val_txs) }.
Definition part_ok (p : HkProposalPart) : Prop :=
  match p with
  | PartInit i => in_u64 i.(init_height) ∧ round_ok i.(init_round) ∧ round_ok i.(init_pol_round)
  | PartTxBatch d => short d
  | PartFin _ => True
  end.

Lemma i64_le_inj x y : -2 ^ 63 ≤ x < 2 ^ 63 → -2 ^ 63 ≤ y < 2 ^ 63 → i64_le x = i64_le y → x = y.
Proof.
  intros Hx Hy H. apply (f_equal le_val) in H. unfold i64_le in H. rewrite !le_val_bytes in H.
  change (256 ^ Z.of_nat 8) with (2 ^ 64) in H.
  apply (f_equal (λ z, (z + 2 ^ 63) mod 2 ^ 64)) in H.
  rewrite !Zplus_mod_idemp_l in H. rewrite !Z.mod_small in H by lia. lia.
Qed.
Lemma length_i64_le z : length (i64_le z) = 8%nat. Proof. apply length_le_bytes. Qed.
Lemma round_le_inj r s :
  round_ok r → round_ok s → i64_le (round_as_i64 r) = i64_le (round_as_i64 s) → r = s.
Proof.
  intros Hr Hs H. apply i64_le_inj in H;
    destruct r, s; simpl in *; try (f_equal; ulia); ulia.
Qed.

(** Peel a part of fixed length off two equal byte strings. *)
Ltac peel H :=
  let E := fresh "E" in
  apply app_eq_len in H as [E H];
  [|by rewrite ?length_u64_le, ?length_i64_le, ?length_h256, ?length_address].

Lemma tagged_inj d (x y : bytes) : str_bytes d ++ [x00] ++ x = str_bytes d ++ [x00] ++ y → x = y.
Proof. intros H. by simplify_list_eq. Qed.

Lemma vote_sign_bytes_inj v w :
  vote_ok v → vote_ok w → vote_sign_bytes v = vote_sign_bytes w →
  (v.(vote_typ), v.(vote_height), v.(vote_round), v.(vote_value), v.(vote_address)) =
  (w.(vote_typ), w.(vote_height), w.(vote_round), w.(vote_value), w.(vote_address)).
Proof.
  intros [Hh Hr] [Hh' Hr'] H. apply tagged_inj in H.
  apply (app_eq_len [_] [_]) in H as [Ht H]; [|done].
  peel H. apply u64_le_inj in E; [|done..]. peel H. apply round_le_inj in E0; [|done..].
  assert (vote_typ v = vote_typ w) by (by destruct (vote_typ v), (vote_typ w)).
  assert (vote_value v = vote_value w ∧ vote_address v = vote_address w) as [? ?]; [|congruence].
  destruct (vote_value v) as [|i], (vote_value w) as [|j]; [|discriminate..|].
  - apply (app_eq_len [_] [_]) in H as [_ H]; [|done]. split; [done|]. by apply (inj ha_bytes).
  - apply (app_eq_len [_] [_]) in H as [_ H]; [|done]. peel H. split; [f_equal; by apply h256_eq|by apply (inj ha_bytes)].
Qed.

Lemma proposal_sign_bytes_inj p q :
  proposal_ok p → proposal_ok q → proposal_sign_bytes p = proposal_sign_bytes q → p = q.
Proof.
  intros [Hh Hr Hp Ht] [Hh' Hr' Hp' Ht'] H. apply tagged_inj in H.
  peel H. apply u64_le_inj in E; [|done..]. peel H. apply round_le_inj in E0; [|done..].
  peel H. apply round_le_inj in E1; [|done..]. peel H. apply h256_eq in E2.
  rewrite !(assoc_L (++) (u64_le _)) in H.
  apply (len_prefixed_inj (val_txs (prop_value p)) (val_txs (prop_value q))) in H as [H1 H2]; [|done..]. apply (inj ha_bytes) in H2.
  destruct p as [? ? [] ? ?], q as [? ? [] ? ?]; simpl in *. congruence.
Qed.

Lemma part_sign_bytes_inj p q :
  part_ok p → part_ok q → part_sign_bytes p = part_sign_bytes q → p = q.
Proof.
  intros Hp Hq H. apply tagged_inj in H.
  destruct p as [i|d|id], q as [j|e|jd]; try discriminate;
    apply (app_eq_len [_] [_]) in H as [_ H]; try done.
  - destruct Hp as (? & ? & ?), Hq as (? & ? & ?).
    peel H. apply u64_le_inj in E; [|done..]. peel H. apply round_le_inj in E0; [|done..].
    peel H. apply round_le_inj in E1; [|done..]. apply (inj ha_bytes) in H.
    destruct i, j; simpl in *. congruence.
  - f_equal. change (len_prefixed d = len_prefixed e) in H.
    apply (f_equal (λ l, l ++ [])) in H. by apply len_prefixed_inj in H as [? _].
  - f_equal. by apply h256_eq.
Qed.
