(* ===== verification/Validators.v ===== *)
(** The validator set (hk-consensus/src/context.rs, second half): the ordered
    set, its total power, proposer selection, the per-height history, and the
    engine's quorum test that runs over it (vendor/external/malachite
    core-types/src/threshold.rs). *)

From S2P Require Export Messages.

(** * Data *)

Record HkValidator := mkHkValidator {
  v_address : HkAddress;
  v_root_pk : bytes;
  v_public_key : HkPub;
  v_epoch : Z;
  v_power : Z;
}.
#[export] Instance HkValidator_eq_dec : EqDecision HkValidator.
Proof. solve_decision. Defined.

Record HkValidatorSet := mkHkValidatorSet { validators : list HkValidator }.

Definition v_set_key (pk : HkPub) (epoch : Z) (v : HkValidator) : HkValidator :=
  mkHkValidator v.(v_address) v.(v_root_pk) pk epoch v.(v_power).
Definition v_set_power (power : Z) (v : HkValidator) : HkValidator :=
  mkHkValidator v.(v_address) v.(v_root_pk) v.(v_public_key) v.(v_epoch) power.

(** * Operations *)

(** [b.voting_power.cmp(&a.voting_power).then_with(|| a.address.cmp(&b.address))]
    is not [Greater]. *)
Definition validator_leb (a b : HkValidator) : bool :=
  if b.(v_power) <? a.(v_power) then true
  else if a.(v_power) <? b.(v_power) then false
  else leb a.(v_address) b.(v_address).

(** [HkValidatorSet::new]; [Panic] is [assert!(!validators.is_empty())]. *)
Definition set_new {E} (l : list HkValidator) : res E HkValidatorSet :=
  match l with [] => Panic | _ => Ok (mkHkValidatorSet (sort_by validator_leb l)) end.

Definition set_len (s : HkValidatorSet) : Z := Z.of_nat (length s.(validators)).

(** The saturating fold of [total_voting_power]. *)
Definition sat_total (l : list HkValidator) : Z :=
  foldl (λ acc v, sat_add u64_max acc v.(v_power)) 0 l.
Definition total_voting_power (s : HkValidatorSet) : Z := sat_total s.(validators).

Definition get_by_address (a : HkAddress) (s : HkValidatorSet) : option HkValidator :=
  find (λ v, bool_decide (v.(v_address) = a)) s.(validators).
Definition get_by_index (i : Z) (s : HkValidatorSet) : option HkValidator :=
  if i <? 0 then None else s.(validators) !! Z.to_nat i.

(** [set.iter().find(|v| &v.root_pk == root_pk)] *)
Definition seat_of_root (root : bytes) (s : HkValidatorSet) : option HkValidator :=
  find (λ v, bool_decide (v.(v_root_pk) = root)) s.(validators).
Definition seated (root : bytes) (s : HkValidatorSet) : bool :=
  existsb (λ v, bool_decide (v.(v_root_pk) = root)) s.(validators).

Definition rotate_operational_key (a : HkAddress) (pk : HkPub) (s : HkValidatorSet) : HkValidatorSet :=
  mkHkValidatorSet ((λ v, if bool_decide (v.(v_address) = a) then v_set_key pk v.(v_epoch) v else v)
                      <$> s.(validators)).

(** [select_proposer]: round robin over height and round, on 64-bit [usize];
    [Panic] is one of the two assertions or the final [expect]. *)
Definition proposer_index (n : Z) (height : HkHeight) (round : Z) : Z :=
  wrapping u64_max (sat_sub height 1 + round) mod n.
Definition select_proposer {E} (s : HkValidatorSet) (height : HkHeight) (round : Round) : res E HkValidator :=
  if bool_decide (s.(validators) = []) then Panic
  else match round with
       | RNil => Panic
       | RSome r =>
           match get_by_index (proposer_index (set_len s) height r) s with
           | Some v => Ok v
           | None => Panic
           end
       end.

(** [HkContext::validator_set_at]: the last entry of the shared history whose
    height is not past the requested one; [None] without a history. *)
Definition SetHistory : Type := list (Z * HkValidatorSet).
Definition validator_set_at (hist : option SetHistory) (h : HkHeight) : option HkValidatorSet :=
  hist ≫= λ l, snd <$> find (λ p, p.1 <=? h) (rev l).

(** [HK_ABSTAIN_GAP]: the parsed environment variable, if any. *)
Definition abstain_threshold (env : option Z) : option Z :=
  match env with
  | Some n => if n =? 0 then None else Some n
  | None => Some 20
  end.

Definition placeholder_signature : option HkSig := Some [].

(** The engine's quorum test; [Panic] is [checked_mul(..).expect(..)]. *)
Definition TWO_F_PLUS_ONE : Z * Z := (2, 3).
Definition F_PLUS_ONE : Z * Z := (1, 3).
Definition is_met {E} (param : Z * Z) (weight total : Z) : res E bool :=
  match checked u64_max (weight * param.2), checked u64_max (total * param.1) with
  | Some lhs, Some rhs => Ok (rhs <? lhs)
  | _, _ => Panic
  end.

(** [setchange::quorum_power] *)
Definition quorum_power (total : Z) : Z := sat_add u64_max (sat_mul u64_max total 2 / 3) 1.
Definition MAX_VOTING_POWER : Z := 2 ^ 32.

Section hashed.
Context {SHAKE : Shake}.

(** [HkValidator::new]: the address is derived from the first operational key,
    once and for all. *)
Definition validator_new (root_pk : bytes) (pk : HkPub) (power : Z) : HkValidator :=
  mkHkValidator (from_public_key pk) root_pk pk 0 power.
End hashed.

(** * Order and lookups *)

Lemma validator_leb_total a b : validator_leb a b = true ∨ validator_leb b a = true.
Proof.
  unfold validator_leb.
  destruct (Z.ltb_spec (v_power b) (v_power a)), (Z.ltb_spec (v_power a) (v_power b)); auto.
  apply bytes_leb_total.
Qed.
Lemma validator_leb_trans a b c :
  validator_leb a b = true → validator_leb b c = true → validator_leb a c = true.
Proof.
  unfold validator_leb.
  destruct (Z.ltb_spec (v_power b) (v_power a)), (Z.ltb_spec (v_power a) (v_power b)),
    (Z.ltb_spec (v_power c) (v_power b)), (Z.ltb_spec (v_power b) (v_power c)),
    (Z.ltb_spec (v_power c) (v_power a)), (Z.ltb_spec (v_power a) (v_power c)); try done; try lia.
  apply bytes_leb_trans.
Qed.
Definition set_sorted (s : HkValidatorSet) : Prop :=
  StronglySorted (λ a b, validator_leb a b = true) s.(validators).

Lemma set_new_ok {E} l s : set_new (E := E) l = Ok s → validators s ≡ₚ l ∧ set_sorted s ∧ l ≠ [].
Proof.
  unfold set_new, set_sorted. destruct l as [|v l]; [done|]. intros H.
  assert (s = mkHkValidatorSet (sort_by validator_leb (v :: l))) as -> by congruence.
  cbn [validators]. split_and!; [apply sort_by_perm|apply sort_by_sorted, validator_leb_trans; apply validator_leb_total|done].
Qed.
Lemma set_new_total {E} l : l ≠ [] → ∃ s, set_new (E := E) l = Ok s.
Proof. destruct l; [done|eexists; reflexivity]. Qed.

Lemma find_some {A} (f : A → bool) l x : find f l = Some x → x ∈ l ∧ f x = true.
Proof. intros H. apply List.find_some in H as [? ?]. by rewrite list_elem_of_In. Qed.
Lemma find_none {A} (f : A → bool) l : find f l = None ↔ ∀ x, x ∈ l → f x = false.
Proof.
  split; [intros H x Hx; apply (List.find_none _ _ H), list_elem_of_In, Hx|].
  induction l as [|y l IH]; simpl; [done|]. intros H.
  rewrite (H y) by set_solver. apply IH. set_solver.
Qed.
Lemma seat_of_root_ok r s v :
  seat_of_root r s = Some v → v ∈ validators s ∧ v_root_pk v = r.
Proof. intros [H1 H2%bool_decide_eq_true]%find_some. by split. Qed.
Lemma seated_spec r s : seated r s = true ↔ ∃ v, v ∈ validators s ∧ v_root_pk v = r.
Proof.
  unfold seated. rewrite existsb_exists. setoid_rewrite bool_decide_eq_true.
  by setoid_rewrite <-list_elem_of_In.
Qed.
(** Roots are distinct, so the seat of a root is the only one with it. *)
Lemma nodup_fmap_eq {A B} (f : A → B) l x y : NoDup (f <$> l) → x ∈ l → y ∈ l → f x = f y → x = y.
Proof.
  intros Hn [i Hi]%list_elem_of_lookup [j Hj]%list_elem_of_lookup E.
  assert (i = j) as ->; [|congruence]. apply (NoDup_lookup (f <$> l) i j (f x)); [done|..];
    rewrite list_lookup_fmap, ?Hi, ?Hj; simpl; congruence.
Qed.
Lemma seat_of_root_intro s v :
  NoDup (v_root_pk <$> validators s) → v ∈ validators s → seat_of_root (v_root_pk v) s = Some v.
Proof.
  intros Hn Hv. destruct (seat_of_root (v_root_pk v) s) as [w|] eqn:E.
  - apply seat_of_root_ok in E as [Hw E]. f_equal. by eapply (nodup_fmap_eq v_root_pk).
  - unfold seat_of_root in E. rewrite find_none in E. specialize (E v Hv).
    by rewrite bool_decide_eq_true_2 in E.
Qed.

(** * Power and quorums *)

Definition power_sum (l : list HkValidator) : Z := foldr (λ v acc, v.(v_power) + acc) 0 l.
(** A seat's power in the range that genesis and every certificate enforce. *)
Definition power_ok (v : HkValidator) : Prop := 1 ≤ v.(v_power) ≤ MAX_VOTING_POWER.

#[export] Instance power_sum_perm : Proper ((≡ₚ) ==> (=)) power_sum.
Proof. intros l l' H. induction H; simpl; lia. Qed.
Lemma power_sum_cons v l : power_sum (v :: l) = v.(v_power) + power_sum l.
Proof. done. Qed.
Lemma power_sum_app l k : power_sum (l ++ k) = power_sum l + power_sum k.
Proof. induction l; simpl; lia. Qed.
Lemma power_sum_bounds l :
  Forall power_ok l → Z.of_nat (length l) ≤ power_sum l ≤ Z.of_nat (length l) * MAX_VOTING_POWER.
Proof. induction 1 as [|v l [? ?] _ IH]; simpl; unfold MAX_VOTING_POWER in *; lia. Qed.
Lemma power_sum_nonneg l : Forall power_ok l → 0 ≤ power_sum l.
Proof. intros Hl. pose proof (power_sum_bounds l Hl). lia. Qed.
(** The saturating fold is the sum as long as the sum fits. *)
Lemma sat_total_exact l : Forall power_ok l → power_sum l ≤ u64_max → sat_total l = power_sum l.
Proof.
  intros Hl. enough (∀ a, 0 ≤ a → a + power_sum l ≤ u64_max →
    foldl (λ acc v, sat_add u64_max acc v.(v_power)) a l = a + power_sum l) as H.
  { intros Hs. apply (H 0); lia. }
  induction Hl as [|v l [Hv _] Hl IH]; intros a Ha Hs; simpl in *; [lia|].
  pose proof (power_sum_bounds l Hl). unfold sat_add at 2. rewrite Z.min_l by lia.
  rewrite IH; lia.
Qed.
Lemma power_sum_sublist k l : k ⊆+ l → Forall power_ok l → power_sum k ≤ power_sum l.
Proof.
  intros [m Hm]%submseteq_Permutation Hl. rewrite Hm, power_sum_app.
  rewrite Hm, Forall_app in Hl. destruct Hl as [_ Hl]. pose proof (power_sum_bounds m Hl). lia.
Qed.
(** Inclusion and exclusion: two families of distinct seats of one set share at
    least the power by which they exceed the whole. *)
Lemma quorum_overlap a b l :
  NoDup a → NoDup b → a ⊆ l → b ⊆ l → NoDup l → Forall power_ok l →
  power_sum a + power_sum b ≤ power_sum l + power_sum (filter (.∈ b) a).
Proof.
  intros Ha Hb Hal Hbl Hl Hp.
  assert (filter (.∈ b) a ++ filter (.∉ b) a ≡ₚ a) as E.
  { clear. induction a as [|x a IH]; [done|]. rewrite !filter_cons.
    destruct (decide (x ∈ b)); [rewrite decide_False by auto|rewrite decide_True by auto].
    - simpl. by rewrite IH.
    - by rewrite <-Permutation_middle, IH. }
  assert (power_sum (filter (.∉ b) a ++ b) ≤ power_sum l) as H.
  { apply power_sum_sublist; [|done]. apply NoDup_submseteq.
    - apply NoDup_app. split_and!; [by apply NoDup_filter| |done].
      intros x [? _]%list_elem_of_filter. done.
    - intros x [[_ ?]%list_elem_of_filter|?]%elem_of_app; auto. }
  rewrite power_sum_app in H. rewrite <-E at 1. rewrite power_sum_app. lia.
Qed.

(** A well-formed set: what genesis establishes and every change keeps. *)
Record set_ok (s : HkValidatorSet) : Prop := mkSetOk {
  so_nonempty : s.(validators) ≠ [];
  so_sorted : set_sorted s;
  so_addresses : NoDup (v_address <$> s.(validators));
  so_roots : NoDup (v_root_pk <$> s.(validators));
  so_powers : Forall power_ok s.(validators);
}.
Lemma set_ok_nodup s : set_ok s → NoDup (validators s).
Proof. intros H. by eapply NoDup_fmap_1, so_roots. Qed.

(** [HkValidatorSet::new] on seats with distinct identities and sane powers. *)
Lemma set_new_set_ok {E} l s :
  set_new (E := E) l = Ok s → NoDup (v_address <$> l) → NoDup (v_root_pk <$> l) → Forall power_ok l → set_ok s.
Proof.
  intros (Hp & Hs & Hn)%set_new_ok Ha Hr Hf. constructor; rewrite ?Hp; try done.
  intros E0. rewrite E0 in Hp. by apply Permutation_nil in Hp.
Qed.

(** A set of at most 2^29 seats, far beyond any BFT set, has a total the
    arithmetic of the quorum tests cannot overflow. *)
Definition MAX_SEATS : Z := 2 ^ 29.
Lemma total_small s :
  set_ok s → set_len s ≤ MAX_SEATS →
  total_voting_power s = power_sum (validators s) ∧ 1 ≤ total_voting_power s ≤ 2 ^ 61.
Proof.
  intros Hs Hn. pose proof (power_sum_bounds _ (so_powers s Hs)) as Hb.
  unfold set_len, MAX_SEATS, MAX_VOTING_POWER in *.
  unfold total_voting_power. rewrite sat_total_exact; [|by apply so_powers|ulia].
  pose proof (so_nonempty s Hs). destruct (validators s); simpl length in *; [done|]. lia.
Qed.

(** * Properties *)

(** C31: the three quorum lines agree.  On every well-formed set of at most [MAX_SEATS]
    seats the engine's checked
    test never panics, and it accepts a weight exactly when the weight reaches
    [quorum_power], which is exactly when the saturating test of a set-change
    certificate does not refuse it. *)
Theorem quorum_lines_agree {E} s w :
  set_ok s → set_len s ≤ MAX_SEATS → 0 ≤ w ≤ total_voting_power s →
  is_met (E := E) TWO_F_PLUS_ONE w (total_voting_power s) =
    Ok (quorum_power (total_voting_power s) <=? w) ∧
  (quorum_power (total_voting_power s) <=? w) =
    negb (sat_mul u64_max w 3 <=? sat_mul u64_max (total_voting_power s) 2).
Proof.
  intros Hs Hn Hw. destruct (total_small s Hs Hn) as [_ Ht].
  set (t := total_voting_power s) in *. clearbody t.
  unfold is_met, TWO_F_PLUS_ONE, quorum_power, sat_add, sat_mul, checked; cbn [fst snd].
  rewrite (proj2 (Z.leb_le (w * 3) _)), (proj2 (Z.leb_le (t * 2) _)) by ulia.
  rewrite (Z.min_l (t * 2)), (Z.min_l (w * 3)) by ulia.
  pose proof (Z.div_mod (t * 2) 3 ltac:(lia)). pose proof (Z.mod_pos_bound (t * 2) 3 ltac:(lia)).
  rewrite Z.min_l by ulia. split; [f_equal|];
    destruct (Z.leb_spec (t * 2 / 3 + 1) w), (Z.leb_spec (w * 3) (t * 2)), (Z.ltb_spec (t * 2) (w * 3));
    try done; lia.
Qed.

Lemma rotate_perm {A} n (l : list A) : rotate n l ≡ₚ l.
Proof. unfold rotate. rewrite (comm (++)). by rewrite take_drop. Qed.
Lemma select_proposer_rotate {E} s h r i :
  set_ok s → 1 ≤ h → 0 ≤ r → h - 1 + r + i ≤ u64_max → 0 ≤ i < set_len s →
  ∃ v, select_proposer (E := E) s h (RSome (r + i)) = Ok v ∧
    rotate (Z.to_nat (h - 1 + r)) (validators s) !! Z.to_nat i = Some v.
Proof.
  intros Hs Hh Hr Hu Hi. unfold set_len in Hi.
  unfold select_proposer. rewrite bool_decide_eq_false_2 by apply so_nonempty, Hs.
  rewrite lookup_rotate_r by lia. unfold rotate_nat_add, get_by_index, proposer_index, set_len, sat_sub.
  rewrite Z.max_l, wrapping_small by ulia. rewrite (Z2Nat.id i), (Z2Nat.id (h - 1 + r)) by lia.
  replace (h - 1 + (r + i)) with (h - 1 + r + i) by lia.
  pose proof (Z.mod_pos_bound (h - 1 + r + i) (Z.of_nat (length (validators s))) ltac:(lia)).
  rewrite (proj2 (Z.ltb_ge _ 0)) by lia.
  destruct (lookup_lt_is_Some_2 (validators s)
    (Z.to_nat ((h - 1 + r + i) `mod` Z.of_nat (length (validators s))))) as [v Hv]; [lia|].
  exists v. by rewrite Hv.
Qed.

(** Proposers take turns.  In any window of as many consecutive rounds of a
    height as there are seats, every seat proposes exactly once, and selection
    never panics. *)
Theorem proposers_take_turns {E} s h r :
  set_ok s → 1 ≤ h → 0 ≤ r → h - 1 + r + set_len s ≤ u64_max →
  (λ i, select_proposer (E := E) s h (RSome (r + i))) <$> seqZ 0 (set_len s) ≡ₚ Ok <$> validators s.
Proof.
  intros Hs Hh Hr Hu.
  assert ((λ i, select_proposer (E := E) s h (RSome (r + i))) <$> seqZ 0 (set_len s) =
    Ok <$> rotate (Z.to_nat (h - 1 + r)) (validators s)) as ->.
  - apply list_eq. intros i. rewrite !list_lookup_fmap. destruct (decide (Z.of_nat i < set_len s)) as [Hi|Hi].
    + rewrite lookup_seqZ_lt by lia. simpl.
      destruct (select_proposer_rotate (E := E) s h r (Z.of_nat i)) as (v & E1 & E2); [done|lia..|].
      rewrite Nat2Z.id in E2. by rewrite Z.add_0_l, E1, E2.
    + rewrite lookup_seqZ_ge by lia. rewrite (proj2 (lookup_ge_None _ _)); [done|].
      rewrite length_rotate. unfold set_len in Hi. lia.
  - by rewrite rotate_perm.
Qed.

(** * Witnesses *)

Module SampleSet.
Definition addr (b : byte) : HkAddress := mkHkAddress (replicate 20 b) eq_refl.
Definition seat (b : byte) (power : Z) : HkValidator :=
  mkHkValidator (addr b) (replicate 48 b) [b] 0 power.
(** Three seats, the second one the heaviest. *)
Definition seats : list HkValidator := [seat x01 1; seat x02 4; seat x03 1].
Definition set : HkValidatorSet := mkHkValidatorSet [seat x02 4; seat x01 1; seat x03 1].
End SampleSet.
Lemma sample_set_new {E} : set_new (E := E) SampleSet.seats = Ok SampleSet.set.
Proof. reflexivity. Qed.
Lemma sample_set_ok : set_ok SampleSet.set.
Proof.
  eapply (set_new_set_ok (E := unit) SampleSet.seats); [reflexivity|..].
  - apply (bool_decide_eq_true_1 _). vm_compute. reflexivity.
  - apply (bool_decide_eq_true_1 _). vm_compute. reflexivity.
  - unfold SampleSet.seats, power_ok, MAX_VOTING_POWER. repeat constructor; simpl; lia.
Qed.
Lemma quorum_lines_agree_witness :
  is_met (E := unit) TWO_F_PLUS_ONE 5 (total_voting_power SampleSet.set) =
    Ok (quorum_power (total_voting_power SampleSet.set) <=? 5) ∧
  (quorum_power (total_voting_power SampleSet.set) <=? 5) =
    negb (sat_mul u64_max 5 3 <=? sat_mul u64_max (total_voting_power SampleSet.set) 2).
Proof.
  apply (quorum_lines_agree SampleSet.set 5 sample_set_ok).
  - unfold set_len, MAX_SEATS. simpl. lia.
  - vm_compute. split; discriminate.
Defined.
Lemma proposers_take_turns_witness :
  (λ i, select_proposer (E := unit) SampleSet.set 7 (RSome (2 + i))) <$> seqZ 0 (set_len SampleSet.set)
    ≡ₚ Ok <$> validators SampleSet.set.
Proof.
  apply (proposers_take_turns SampleSet.set 7 2 sample_set_ok); [lia..|].
  unfold set_len. simpl. ulia.
Defined.
