(* ===== verification/Rotation.v ===== *)
(** Operational-key rotation under a permanent root (hk-consensus/src/rotation.rs,
    [apply_rotation] of context.rs, and the root signature of
    hk-crypto/src/slhdsa_adapter.rs).  SLH-DSA itself is the crate [fips205] and a
    parameter.  A [Result<_, String>] of the code is a [res] whose error type has
    one constructor per message. *)

From S2P Require Export Validators.

(** * The root signature *)

(** The crate's key generation, signing and verification (which includes parsing
    the public key). *)
Class RootScheme := {
  slh_key : Type;
  slh_keygen : bytes → bytes → bytes → bytes * slh_key;
  slh_sign : slh_key → bytes → bytes;
  slh_verify : bytes → bytes → bytes → bool;
}.
Definition ROOT_PK_LEN : Z := 48.
Definition ROOT_SIG_LEN : Z := 16224.
Definition SLH_N : nat := 24.
Definition DOM_ROOT_SEED : string := "hk/v1/slhdsa-root-seed".
Definition byte_len (b : bytes) : Z := Z.of_nat (length b).

(** What the code relies on: sizes, and that a signature verifies. *)
Class RootLaws {ROOT : RootScheme} : Prop := {
  slh_pk_len a b c : byte_len (slh_keygen a b c).1 = ROOT_PK_LEN;
  slh_sig_len k m : byte_len (slh_sign k m) = ROOT_SIG_LEN;
  slh_correct a b c m :
    slh_verify (slh_keygen a b c).1 m (slh_sign (slh_keygen a b c).2 m) = true;
}.

(** * Data *)

Definition DOM_ROTATION_V1 : string := "hk/v1/rotation-cert".
Definition DOM_ROTATION_V2 : string := "hk/v2/rotation-cert".
Definition ROTATION_FRESHNESS_HORIZON : Z := 100000.

Inductive RotationDomain := RotV1 | RotV2.
#[export] Instance RotationDomain_eq_dec : EqDecision RotationDomain.
Proof. solve_decision. Defined.

Record RotationRules := mkRotationRules {
  rr_height : Z;
  rr_chain_id : string;
  rr_v2_from : Z;
}.
Record RotationCert := mkRotationCert {
  rc_root_pk : bytes;
  rc_new_op_pk : HkPub;
  rc_epoch : Z;
  rc_valid_from_height : Z;
  rc_root_sig : bytes;
}.
#[export] Instance RotationCert_eq_dec : EqDecision RotationCert.
Proof. solve_decision. Defined.

Inductive RotationError :=
  | NotRegisteredRoot
  | StaleEpoch (cert current : Z)
  | PastActivation (valid_from activation : Z)
  | StaleWindow (valid_from activation : Z)
  | InvalidV1 (cert current : Z)
  | SignedUnderV1 (v2_from epoch : Z) (chain_id : string)
  | InvalidV2 (cert current : Z) (chain_id : string)
  | NoSuchRoot.

(** * Operations *)

Definition rr_domain (r : RotationRules) : RotationDomain :=
  if r.(rr_v2_from) <=? r.(rr_height) then RotV2 else RotV1.
Definition rr_activation (r : RotationRules) : Z := sat_add u64_max r.(rr_height) 1.

(** [put_bytes] is the length-prefixed append. *)
Definition rotation_signing_bytes (d : RotationDomain) (chain_id : string) (root_pk : bytes)
    (op_pk : HkPub) (epoch valid_from : Z) : bytes :=
  match d with
  | RotV1 => str_bytes DOM_ROTATION_V1 ++ [x00]
  | RotV2 => str_bytes DOM_ROTATION_V2 ++ [x00] ++ len_prefixed (str_bytes chain_id)
  end ++ len_prefixed root_pk ++ len_prefixed op_pk ++ u64_le epoch ++ u64_le valid_from.

Definition check_window (c : RotationCert) (r : RotationRules) : res RotationError unit :=
  match rr_domain r with
  | RotV1 => Ok tt
  | RotV2 =>
      let activation := rr_activation r in
      if activation <? c.(rc_valid_from_height)
      then Err (PastActivation c.(rc_valid_from_height) activation)
      else if sat_add u64_max c.(rc_valid_from_height) ROTATION_FRESHNESS_HORIZON <? activation
      then Err (StaleWindow c.(rc_valid_from_height) activation)
      else Ok tt
  end.

Section root.
Context {SHAKE : Shake} {ROOT : RootScheme}.

Record RootSecret := mkRootSecret { root_sk : slh_key; root_pk_bytes : bytes }.

(** [RootSecret::from_seed]: three FIPS-205 seeds out of one. *)
Definition root_from_seed (seed32 : bytes) : RootSecret :=
  let m := shake256_n DOM_ROOT_SEED [seed32] (3 * SLH_N) in
  let '(pk, sk) := slh_keygen (take SLH_N m) (take SLH_N (drop SLH_N m)) (drop (2 * SLH_N) m) in
  mkRootSecret sk pk.
Definition root_sign (r : RootSecret) (msg : bytes) : bytes := slh_sign (root_sk r) msg.

Definition root_verify (pk msg sig : bytes) : bool :=
  if negb (byte_len pk =? ROOT_PK_LEN) || negb (byte_len sig =? ROOT_SIG_LEN) then false
  else slh_verify pk msg sig.

Definition rotation_issue (r : RootSecret) (d : RotationDomain) (chain_id : string) (op_pk : HkPub)
    (epoch valid_from : Z) : RotationCert :=
  mkRotationCert (root_pk_bytes r) op_pk epoch valid_from
    (root_sign r (rotation_signing_bytes d chain_id (root_pk_bytes r) op_pk epoch valid_from)).
Definition rotation_issue_for (r : RootSecret) (chain_id : string) (v2_from : Z) (op_pk : HkPub)
    (epoch valid_from : Z) : RotationCert :=
  rotation_issue r (if v2_from <=? valid_from then RotV2 else RotV1) chain_id op_pk epoch valid_from.

Definition verify_sig (c : RotationCert) (d : RotationDomain) (chain_id : string) : bool :=
  if negb (byte_len c.(rc_root_pk) =? ROOT_PK_LEN) || negb (byte_len c.(rc_root_sig) =? ROOT_SIG_LEN)
  then false
  else root_verify c.(rc_root_pk)
         (rotation_signing_bytes d chain_id c.(rc_root_pk) c.(rc_new_op_pk) c.(rc_epoch) c.(rc_valid_from_height))
         c.(rc_root_sig).

(** [if let Some(prev) = last_epoch { if self.epoch <= prev { return Err(..) } }] *)
Definition check_epoch (c : RotationCert) (last_epoch : option Z) : res RotationError unit :=
  match last_epoch with
  | Some prev => if c.(rc_epoch) <=? prev then Err (StaleEpoch c.(rc_epoch) prev) else Ok tt
  | None => Ok tt
  end.

(** [RotationCert::verify_against] *)
Definition rotation_verify_against (c : RotationCert) (registered : bytes) (last_epoch : option Z)
    (r : RotationRules) : res RotationError unit :=
  if negb (bool_decide (c.(rc_root_pk) = registered)) then Err NotRegisteredRoot
  else
    let? _ := check_epoch c last_epoch in
    let? _ := check_window c r in
    let current := default 0 last_epoch in
    match rr_domain r with
    | RotV1 =>
        if verify_sig c RotV1 "" then Ok tt else Err (InvalidV1 c.(rc_epoch) current)
    | RotV2 =>
        if verify_sig c RotV2 r.(rr_chain_id) then Ok tt
        else if verify_sig c RotV1 "" then Err (SignedUnderV1 r.(rr_v2_from) c.(rc_epoch) r.(rr_chain_id))
        else Err (InvalidV2 c.(rc_epoch) current r.(rr_chain_id))
    end.

(** [HkValidatorSet::apply_rotation] *)
Definition apply_rotation (s : HkValidatorSet) (c : RotationCert) (r : RotationRules) :
    res RotationError HkValidatorSet :=
  match seat_of_root c.(rc_root_pk) s with
  | None => Err NoSuchRoot
  | Some target =>
      let? _ := rotation_verify_against c target.(v_root_pk) (Some target.(v_epoch)) r in
      Ok (mkHkValidatorSet
           ((λ v, if bool_decide (v.(v_address) = target.(v_address))
                  then v_set_key c.(rc_new_op_pk) c.(rc_epoch) v else v) <$> s.(validators)))
  end.

(** * Lemmas *)

(** The rule of the commit height, as one condition. *)
Definition in_freshness (c : RotationCert) (r : RotationRules) : Prop :=
  rr_domain r = RotV1 ∨
  c.(rc_valid_from_height) ≤ rr_activation r ∧
  rr_activation r ≤ sat_add u64_max c.(rc_valid_from_height) ROTATION_FRESHNESS_HORIZON.
Lemma check_window_ok c r : check_window c r = Ok tt ↔ in_freshness c r.
Proof.
  unfold check_window, in_freshness. destruct (rr_domain r); [naive_solver|].
  destruct (Z.ltb_spec (rr_activation r) (rc_valid_from_height c)),
    (Z.ltb_spec (sat_add u64_max (rc_valid_from_height c) ROTATION_FRESHNESS_HORIZON) (rr_activation r));
    split; try done; try (intros [?|[? ?]]; [done|lia]). auto.
Qed.
Definition rotation_chain_id (r : RotationRules) : string :=
  match rr_domain r with RotV1 => "" | RotV2 => r.(rr_chain_id) end.
Lemma rotation_verify_ok c root prev r :
  rotation_verify_against c root (Some prev) r = Ok tt ↔
  rc_root_pk c = root ∧ prev < rc_epoch c ∧ in_freshness c r ∧
  verify_sig c (rr_domain r) (rotation_chain_id r) = true.
Proof.
  unfold rotation_verify_against, check_epoch, rotation_chain_id. rewrite <-check_window_ok.
  destruct (decide (rc_root_pk c = root)) as [E|E];
    [rewrite bool_decide_eq_true_2 by done|rewrite bool_decide_eq_false_2 by done; naive_solver].
  destruct (Z.leb_spec (rc_epoch c) prev); cbn [negb bindR]; [naive_solver lia|].
  destruct (check_window c r) as [[]|e|]; cbn [bindR]; [|naive_solver..].
  destruct (rr_domain r); repeat case_match; naive_solver.
Qed.

(** What an accepted rotation does: one seat, found by its root, gets the new
    key and the new epoch. *)
Lemma apply_rotation_ok s c r s' :
  apply_rotation s c r = Ok s' →
  ∃ t, t ∈ validators s ∧ v_root_pk t = rc_root_pk c ∧ v_epoch t < rc_epoch c ∧ in_freshness c r ∧
    verify_sig c (rr_domain r) (rotation_chain_id r) = true ∧
    validators s' = (λ v, if bool_decide (v.(v_address) = t.(v_address))
                          then v_set_key c.(rc_new_op_pk) c.(rc_epoch) v else v) <$> validators s.
Proof.
  unfold apply_rotation. destruct (seat_of_root _ _) as [t|] eqn:Et; [|done].
  apply seat_of_root_ok in Et as [Ht Er].
  destruct (rotation_verify_against _ _ _ _) as [[]|e|] eqn:Ev; [|done..].
  intros [= <-]. apply rotation_verify_ok in Ev as (_ & ? & ? & ?). exists t. split_and!; done.
Qed.

Lemma rotated_fmap {A} (f : HkValidator → A) (a : HkAddress) pk e (l : list HkValidator) :
  (∀ v, f (v_set_key pk e v) = f v) →
  f <$> ((λ v, if bool_decide (v.(v_address) = a) then v_set_key pk e v else v) <$> l) = f <$> l.
Proof. intros H. rewrite <-list_fmap_compose. apply list_fmap_ext. intros ? v _. simpl. case_match; auto. Qed.
Lemma rotated_sorted a pk e (l : list HkValidator) :
  StronglySorted (λ x y, validator_leb x y = true) l →
  StronglySorted (λ x y, validator_leb x y = true)
    ((λ v, if bool_decide (v.(v_address) = a) then v_set_key pk e v else v) <$> l).
Proof.
  induction 1 as [|v l _ IH Hf]; simpl; [constructor|]. constructor; [done|].
  apply Forall_fmap. eapply Forall_impl; [exact Hf|]. intros w. simpl. by repeat case_match.
Qed.
Lemma apply_rotation_set_ok s c r s' : set_ok s → apply_rotation s c r = Ok s' → set_ok s'.
Proof.
  intros Hs (t & _ & _ & _ & _ & _ & E)%apply_rotation_ok. destruct Hs as [Hn Hso Ha Hr Hp].
  constructor; unfold set_sorted; rewrite E, ?rotated_fmap by done; try done.
  - by intros H%fmap_nil_inv.
  - by apply rotated_sorted.
  - apply Forall_fmap. eapply Forall_impl; [exact Hp|]. intros v. simpl. by case_match.
Qed.
End root.

(** An honest issuer's certificate: the window and the domain follow from where
    it can commit. *)
Section issue.
Context {SHAKE : Shake} {ROOT : RootScheme} {LAWS : RootLaws}.

Lemma root_from_seed_ok seed :
  byte_len (root_pk_bytes (root_from_seed seed)) = ROOT_PK_LEN ∧
  ∀ m, root_verify (root_pk_bytes (root_from_seed seed)) m (root_sign (root_from_seed seed) m) = true ∧
       byte_len (root_sign (root_from_seed seed) m) = ROOT_SIG_LEN.
Proof.
  unfold root_from_seed, root_sign, root_verify.
  set (m0 := shake256_n _ _ _). destruct (slh_keygen _ _ _) as [pk sk] eqn:E. cbn [root_pk_bytes root_sk].
  pose proof (slh_pk_len (take SLH_N m0) (take SLH_N (drop SLH_N m0)) (drop (2 * SLH_N) m0)) as Hpk.
  pose proof (slh_correct (take SLH_N m0) (take SLH_N (drop SLH_N m0)) (drop (2 * SLH_N) m0)) as Hv.
  rewrite E in Hpk, Hv. simpl in Hpk, Hv. split; [done|]. intros m.
  rewrite slh_sig_len, Hpk, !Z.eqb_refl. split; [apply Hv|done].
Qed.

(** A rotation issued by the seat's own root takes effect.  A certificate made by
    [issue_for] at tip [valid_from - 1] is accepted at every commit height of the
    freshness window, unless it straddles the height where the signing domain
    changes, and then exactly its seat has the new key and the new epoch. *)
Theorem issued_rotation_accepted seed chain v2_from op_pk epoch valid_from s v r :
  set_ok s → v ∈ validators s → v_root_pk v = root_pk_bytes (root_from_seed seed) →
  v_epoch v < epoch → rr_chain_id r = chain → rr_v2_from r = v2_from →
  0 ≤ valid_from ≤ rr_height r → rr_height r < u64_max →
  rr_height r < valid_from + ROTATION_FRESHNESS_HORIZON →
  (v2_from ≤ valid_from ∨ rr_height r < v2_from) →
  ∃ s', apply_rotation s (rotation_issue_for (root_from_seed seed) chain v2_from op_pk epoch valid_from) r
          = Ok s' ∧
    seat_of_root (v_root_pk v) s' = Some (v_set_key op_pk epoch v) ∧
    ∀ w, w ∈ validators s → w ≠ v → w ∈ validators s'.
Proof.
  intros Hs Hv Hroot Hep Hch Hv2 Hvf Hmax Hfresh Hdom.
  destruct (root_from_seed_ok seed) as [Hlen Hsig].
  set (rt := root_from_seed seed) in *. set (c := rotation_issue_for rt chain v2_from op_pk epoch valid_from).
  assert (seat_of_root (rc_root_pk c) s = Some v) as Hseat.
  { change (rc_root_pk c) with (root_pk_bytes rt). rewrite <-Hroot.
    apply seat_of_root_intro; [by apply so_roots|done]. }
  assert (rotation_verify_against c (v_root_pk v) (Some (v_epoch v)) r = Ok tt) as Hok.
  { apply rotation_verify_ok. split_and!; [done|done|..].
    - unfold in_freshness. destruct (rr_domain r); [by left|right].
      unfold rr_activation, sat_add, ROTATION_FRESHNESS_HORIZON in *. simpl. ulia.
    - assert ((if v2_from <=? valid_from then RotV2 else RotV1) = rr_domain r) as Ed.
      { unfold rr_domain. rewrite Hv2.
        destruct (Z.leb_spec v2_from valid_from), (Z.leb_spec v2_from (rr_height r)); try done; lia. }
      unfold verify_sig. subst c. unfold rotation_issue_for. rewrite Ed. unfold rotation_issue.
      cbn [rc_root_pk rc_root_sig rc_new_op_pk rc_epoch rc_valid_from_height].
      rewrite (proj2 (Hsig _)), Hlen. cbn [negb orb Z.eqb].
      unfold rotation_chain_id. subst chain. destruct (rr_domain r); apply Hsig. }
  unfold apply_rotation. rewrite Hseat, Hok. cbn [bindR]. eexists. split; [reflexivity|]. split.
  - change (v_root_pk v) with (v_root_pk (v_set_key op_pk epoch v)). apply seat_of_root_intro; cbn [validators].
    + rewrite rotated_fmap by done. by apply so_roots.
    + apply list_elem_of_fmap. exists v. by rewrite bool_decide_eq_true_2.
  - intros w Hw Hne. cbn [validators]. apply list_elem_of_fmap. exists w. rewrite bool_decide_eq_false_2; [done|].
    intros E. apply Hne. eapply (nodup_fmap_eq v_address); [by apply so_addresses|done..].
Qed.
End issue.

(** The signed bytes determine the certificate's content; under v2 they also
    determine the chain. *)
Record rotation_ok (c : RotationCert) : Prop := mkRotationOk {
  ro_root : short c.(rc_root_pk);
  ro_key : short c.(rc_new_op_pk);
  ro_epoch : in_u64 c.(rc_epoch);
  ro_valid : in_u64 c.(rc_valid_from_height);
}.
Lemma rotation_signing_bytes_inj d d' ch ch' c c' :
  rotation_ok c → rotation_ok c' → short (str_bytes ch) → short (str_bytes ch') →
  rotation_signing_bytes d ch (rc_root_pk c) (rc_new_op_pk c) (rc_epoch c) (rc_valid_from_height c) =
  rotation_signing_bytes d' ch' (rc_root_pk c') (rc_new_op_pk c') (rc_epoch c') (rc_valid_from_height c') →
  d = d' ∧ (d = RotV2 → ch = ch') ∧
  (rc_root_pk c, rc_new_op_pk c, rc_epoch c, rc_valid_from_height c) =
  (rc_root_pk c', rc_new_op_pk c', rc_epoch c', rc_valid_from_height c').
Proof.
  intros [H1 H2 H3 H4] [H1' H2' H3' H4'] Hc Hc' H.
  assert (
    len_prefixed (rc_root_pk c) ++ len_prefixed (rc_new_op_pk c) ++ u64_le (rc_epoch c) ++
      u64_le (rc_valid_from_height c) =
    len_prefixed (rc_root_pk c') ++ len_prefixed (rc_new_op_pk c') ++ u64_le (rc_epoch c') ++
      u64_le (rc_valid_from_height c') →
    (rc_root_pk c, rc_new_op_pk c, rc_epoch c, rc_valid_from_height c) =
    (rc_root_pk c', rc_new_op_pk c', rc_epoch c', rc_valid_from_height c')) as Hbody.
  { clear H. intros H. apply len_prefixed_inj in H as [E1 H]; [|done..].
    apply len_prefixed_inj in H as [E2 H]; [|done..].
    peel H. apply u64_le_inj in E; [|done..]. apply u64_le_inj in H; [congruence|done..]. }
  unfold rotation_signing_bytes in H.
  destruct d, d'; rewrite <-?app_assoc in H.
  - apply tagged_inj in H. split_and!; [done|done|]. by apply Hbody.
  - apply (f_equal (take 5)) in H. discriminate H.
  - apply (f_equal (take 5)) in H. discriminate H.
  - apply tagged_inj in H. apply len_prefixed_inj in H as [E H]; [|done..].
    apply str_bytes_inj in E. split_and!; [done|done|]. by apply Hbody.
Qed.
