(* ===== verification/SetChange.v ===== *)
(** Validator-set changes on a running chain (hk-consensus/src/setchange.rs): the
    certificate, its acceptance against the set as it stands, and the bootstrap
    re-weight.  Error messages are constructors, one per message. *)

From S2P Require Export Rotation.

(** * Data *)

Definition DOM_SET_CHANGE : string := "hk/v1/set-change".

Inductive SetChange :=
  | Admit (root_pk : bytes) (public_key : HkPub) (voting_power : Z)
  | Remove (root_pk : bytes)
  | SetPower (root_pk : bytes) (voting_power : Z).
Record SetChangeBody := mkSetChangeBody {
  sb_chain_id : string;
  sb_change : SetChange;
  sb_not_before : Z;
  sb_not_after : Z;
}.
Record Approval := mkApproval { ap_root_pk : bytes; ap_root_sig : bytes }.
Record SetChangeCert := mkSetChangeCert { sc_body : SetChangeBody; sc_approvals : list Approval }.
#[export] Instance SetChange_eq_dec : EqDecision SetChange.
Proof. solve_decision. Defined.
#[export] Instance SetChangeBody_eq_dec : EqDecision SetChangeBody.
Proof. solve_decision. Defined.
#[export] Instance Approval_eq_dec : EqDecision Approval.
Proof. solve_decision. Defined.
#[export] Instance SetChangeCert_eq_dec : EqDecision SetChangeCert.
Proof. solve_decision. Defined.

Inductive SetChangeError :=
  | EmptyChainId | BadWindow | BadRootLength | EmptyOperationalKey
  | ZeroPower | PowerTooLarge (power : Z)
  | WrongChain (cert_chain this_chain : string) | NoApprovals
  | DuplicateApproval | NotSeatedApproval | InvalidApproval
  | NotSupermajority (approving total : Z)
  | OutsideWindow (height not_before not_after : Z)
  | AddressCollision | LastSeat | SetPowerNotSeated.

(** * Operations *)

(** [SetChangeBody::signing_bytes] *)
Definition change_bytes (c : SetChange) : bytes :=
  match c with
  | Admit root pk power => [x01] ++ len_prefixed root ++ len_prefixed pk ++ u64_le power
  | Remove root => [x02] ++ len_prefixed root
  | SetPower root power => [x03] ++ len_prefixed root ++ u64_le power
  end.
Definition set_change_signing_bytes (b : SetChangeBody) : bytes :=
  str_bytes DOM_SET_CHANGE ++ [x00] ++ len_prefixed (str_bytes b.(sb_chain_id)) ++
  change_bytes b.(sb_change) ++ u64_le b.(sb_not_before) ++ u64_le b.(sb_not_after).

Definition subject_root (b : SetChangeBody) : bytes :=
  match b.(sb_change) with Admit root _ _ | Remove root | SetPower root _ => root end.

Definition check_shape (b : SetChangeBody) : res SetChangeError unit :=
  if bool_decide (b.(sb_chain_id) = ""%string) then Err EmptyChainId
  else if b.(sb_not_after) <? b.(sb_not_before) then Err BadWindow
  else match b.(sb_change) with
  | Admit root pk power =>
      if negb (byte_len root =? ROOT_PK_LEN) then Err BadRootLength
      else if bool_decide (pk = []) then Err EmptyOperationalKey
      else if power =? 0 then Err ZeroPower
      else if MAX_VOTING_POWER <? power then Err (PowerTooLarge power)
      else Ok tt
  | Remove root =>
      if negb (byte_len root =? ROOT_PK_LEN) then Err BadRootLength else Ok tt
  | SetPower root power =>
      if negb (byte_len root =? ROOT_PK_LEN) then Err BadRootLength
      else if power =? 0 then Err ZeroPower
      else if MAX_VOTING_POWER <? power then Err (PowerTooLarge power)
      else Ok tt
  end.

Definition in_window (c : SetChangeCert) (height : Z) : bool :=
  (c.(sc_body).(sb_not_before) <=? height) && (height <=? c.(sc_body).(sb_not_after)).

Section changes.
Context {SHAKE : Shake} {ROOT : RootScheme}.

Definition approval_sign (r : RootSecret) (b : SetChangeBody) : Approval :=
  mkApproval (root_pk_bytes r) (root_sign r (set_change_signing_bytes b)).
Definition approval_verify (a : Approval) (b : SetChangeBody) : bool :=
  if negb (byte_len a.(ap_root_pk) =? ROOT_PK_LEN) || negb (byte_len a.(ap_root_sig) =? ROOT_SIG_LEN)
  then false
  else root_verify a.(ap_root_pk) (set_change_signing_bytes b) a.(ap_root_sig).

(** The loop over the approvals: the roots seen so far and their power. *)
Fixpoint count_approvals (s : HkValidatorSet) (b : SetChangeBody) (seen : list bytes) (approving : Z)
    (l : list Approval) : res SetChangeError Z :=
  match l with
  | [] => Ok approving
  | a :: l =>
      if existsb (λ r, bool_decide (r = a.(ap_root_pk))) seen then Err DuplicateApproval
      else match seat_of_root a.(ap_root_pk) s with
      | None => Err NotSeatedApproval
      | Some seat =>
          if negb (approval_verify a b) then Err InvalidApproval
          else count_approvals s b (seen ++ [a.(ap_root_pk)])
                 (sat_add u64_max approving seat.(v_power)) l
      end
  end.

(** [SetChangeCert::verify_against] *)
Definition set_change_verify_against (c : SetChangeCert) (s : HkValidatorSet) (chain_id : string) :
    res SetChangeError unit :=
  let? _ := check_shape c.(sc_body) in
  if negb (bool_decide (c.(sc_body).(sb_chain_id) = chain_id))
  then Err (WrongChain c.(sc_body).(sb_chain_id) chain_id)
  else if bool_decide (c.(sc_approvals) = []) then Err NoApprovals
  else
    let total := total_voting_power s in
    let? approving := count_approvals s c.(sc_body) [] 0 c.(sc_approvals) in
    if sat_mul u64_max approving 3 <=? sat_mul u64_max total 2
    then Err (NotSupermajority approving total)
    else Ok tt.

(** [apply_set_change]: [Ok (Some s')] changed, [Ok None] a no-op. *)
Definition change_admit (s : HkValidatorSet) (root : bytes) (pk : HkPub) (power : Z) :
    res SetChangeError (option HkValidatorSet) :=
  if seated root s then Ok None
  else
    let newcomer := validator_new root pk power in
    if existsb (λ v, bool_decide (v.(v_address) = newcomer.(v_address))) s.(validators)
    then Err AddressCollision
    else let? s' := set_new (s.(validators) ++ [newcomer]) in Ok (Some s').
Definition change_remove (s : HkValidatorSet) (root : bytes) :
    res SetChangeError (option HkValidatorSet) :=
  if negb (seated root s) then Ok None
  else
    let vals := filter (λ v, v.(v_root_pk) ≠ root) s.(validators) in
    if bool_decide (vals = []) then Err LastSeat
    else let? s' := set_new vals in Ok (Some s').
Definition change_power (s : HkValidatorSet) (root : bytes) (power : Z) :
    res SetChangeError (option HkValidatorSet) :=
  match seat_of_root root s with
  | None => Err SetPowerNotSeated
  | Some seat =>
      if seat.(v_power) =? power then Ok None
      else
        let? s' := set_new ((λ v, if bool_decide (v.(v_root_pk) = root) then v_set_power power v else v)
                              <$> s.(validators)) in
        Ok (Some s')
  end.
Definition apply_set_change (s : HkValidatorSet) (c : SetChangeCert) (height : Z) (chain_id : string) :
    res SetChangeError (option HkValidatorSet) :=
  let? _ := set_change_verify_against c s chain_id in
  if negb (in_window c height)
  then Err (OutsideWindow height c.(sc_body).(sb_not_before) c.(sc_body).(sb_not_after))
  else match c.(sc_body).(sb_change) with
  | Admit root pk power => change_admit s root pk power
  | Remove root => change_remove s root
  | SetPower root power => change_power s root power
  end.
End changes.

(** [reweight_roots]: [None] when no seat changed. *)
Definition reweighted (roots : list bytes) (power : Z) (v : HkValidator) : bool :=
  existsb (λ r, bool_decide (r = v.(v_root_pk))) roots && negb (v.(v_power) =? power).
Definition reweight_roots {E} (s : HkValidatorSet) (roots : list bytes) (power : Z) :
    res E (option HkValidatorSet) :=
  let vals := (λ v, if reweighted roots power v then v_set_power power v else v) <$> s.(validators) in
  if existsb (reweighted roots power) s.(validators)
  then let? s' := set_new vals in Ok (Some s')
  else Ok None.

(** * Lemmas *)

(** ** Shape and signed bytes *)

Lemma check_shape_power b :
  check_shape b = Ok tt →
  match b.(sb_change) with
  | Admit root pk power => byte_len root = ROOT_PK_LEN ∧ pk ≠ [] ∧ 1 ≤ power ≤ MAX_VOTING_POWER ∨ power < 0
  | Remove root => byte_len root = ROOT_PK_LEN
  | SetPower root power => byte_len root = ROOT_PK_LEN ∧ (1 ≤ power ≤ MAX_VOTING_POWER ∨ power < 0)
  end.
Proof.
  unfold check_shape. destruct (bool_decide (sb_chain_id b = _)); [done|].
  destruct (sb_not_after b <? sb_not_before b); [done|].
  destruct (sb_change b) as [root pk power|root|root power];
    destruct (Z.eqb_spec (byte_len root) ROOT_PK_LEN) as [El|El]; try done; cbn [negb].
  - destruct (decide (pk = [])); [by rewrite bool_decide_eq_true_2|rewrite bool_decide_eq_false_2 by done].
    destruct (Z.eqb_spec power 0), (Z.ltb_spec MAX_VOTING_POWER power); try done. intros _.
    destruct (Z.lt_ge_cases power 0); [by right|left]. split_and!; try done; lia.
  - destruct (Z.eqb_spec power 0), (Z.ltb_spec MAX_VOTING_POWER power); try done. intros _.
    split; [done|]. lia.
Qed.

Record body_ok (b : SetChangeBody) : Prop := mkBodyOk {
  bo_chain : short (str_bytes b.(sb_chain_id));
  bo_change : match b.(sb_change) with
    | Admit root pk power => short root ∧ short pk ∧ in_u64 power
    | Remove root => short root
    | SetPower root power => short root ∧ in_u64 power end;
  bo_before : in_u64 b.(sb_not_before);
  bo_after : in_u64 b.(sb_not_after);
}.
Lemma set_change_signing_bytes_inj b b' :
  body_ok b → body_ok b' → set_change_signing_bytes b = set_change_signing_bytes b' → b = b'.
Proof.
  intros [H1 H2 H3 H4] [H1' H2' H3' H4'] H. apply tagged_inj in H.
  apply len_prefixed_inj in H as [E H]; [|done..]. apply str_bytes_inj in E.
  assert (sb_change b = sb_change b' ∧
    u64_le (sb_not_before b) ++ u64_le (sb_not_after b) =
    u64_le (sb_not_before b') ++ u64_le (sb_not_after b')) as [Ec H'].
  { destruct (sb_change b) as [r k p|r|r p], (sb_change b') as [r' k' p'|r'|r' p']; try discriminate;
      unfold change_bytes in H; rewrite <-!app_assoc in H;
      apply (app_eq_len [_] [_]) in H as [_ H]; try done.
    - destruct H2 as (? & ? & ?), H2' as (? & ? & ?).
      apply len_prefixed_inj in H as [-> H]; [|done..]. apply len_prefixed_inj in H as [-> H]; [|done..].
      peel H. apply u64_le_inj in E0 as ->; [|done..]. by split.
    - apply len_prefixed_inj in H as [-> H]; [|done..]. by split.
    - destruct H2 as [? ?], H2' as [? ?].
      apply len_prefixed_inj in H as [-> H]; [|done..].
      peel H. apply u64_le_inj in E0 as ->; [|done..]. by split. }
  peel H'. apply u64_le_inj in E0; [|done..]. apply u64_le_inj in H'; [|done..].
  destruct b, b'; simpl in *. congruence.
Qed.

(** ** Approvals *)

Section approvals.
Context {SHAKE : Shake} {ROOT : RootScheme}.

(** The seats that approved a certificate. *)
Definition approvers (s : HkValidatorSet) (c : SetChangeCert) : list HkValidator :=
  omap (λ a, seat_of_root (ap_root_pk a) s) (sc_approvals c).

(** What acceptance means: a well-shaped change for this chain, approved by valid
    signatures of distinct current seats holding more than two thirds of the power. *)
Record approved (s : HkValidatorSet) (c : SetChangeCert) (chain_id : string) : Prop := mkApproved {
  ad_shape : check_shape (sc_body c) = Ok tt;
  ad_chain : sb_chain_id (sc_body c) = chain_id;
  ad_distinct : NoDup (ap_root_pk <$> sc_approvals c);
  ad_signed : Forall (λ a, approval_verify a (sc_body c) = true ∧ seated (ap_root_pk a) s = true) (sc_approvals c);
  ad_power : 2 * power_sum (validators s) < 3 * power_sum (approvers s c);
}.

Lemma seated_seat r s : seated r s = true ↔ is_Some (seat_of_root r s).
Proof.
  rewrite seated_spec. split.
  - intros (v & Hv & <-). destruct (seat_of_root (v_root_pk v) s) as [w|] eqn:E; [done|].
    unfold seat_of_root in E. rewrite find_none in E. specialize (E v Hv).
    by rewrite bool_decide_eq_true_2 in E.
  - intros [v Hv%seat_of_root_ok]. eauto.
Qed.
Lemma approvers_seats s c : approvers s c ⊆ validators s.
Proof. intros v (a & Ha & Hv%seat_of_root_ok)%list_elem_of_omap. apply Hv. Qed.
Lemma approvers_nodup s c :
  NoDup (ap_root_pk <$> sc_approvals c) → NoDup (approvers s c).
Proof.
  unfold approvers. induction (sc_approvals c) as [|a l IH]; [constructor|].
  rewrite fmap_cons, NoDup_cons. intros [Hn Hl]. cbn [omap list_omap].
  destruct (seat_of_root (ap_root_pk a) s) as [v|] eqn:E; [|by apply IH].
  apply NoDup_cons. split; [|by apply IH].
  intros (b & Hb & Hv%seat_of_root_ok)%list_elem_of_omap. apply seat_of_root_ok in E.
  apply Hn, list_elem_of_fmap. exists b. destruct Hv, E. split; [congruence|done].
Qed.

Definition sum_seats (s : HkValidatorSet) (l : list Approval) : Z :=
  power_sum (omap (λ a, seat_of_root (ap_root_pk a) s) l).
Lemma count_approvals_ok s b seen acc l r :
  count_approvals s b seen acc l = Ok r →
  NoDup (ap_root_pk <$> l) ∧ (∀ a, a ∈ l → ap_root_pk a ∉ seen) ∧
  Forall (λ a, approval_verify a b = true ∧ seated (ap_root_pk a) s = true) l.
Proof.
  revert seen acc. induction l as [|a l IH]; intros seen acc; simpl.
  { intros _. split_and!; [constructor|set_solver|constructor]. }
  destruct (existsb _ seen) eqn:Es; [done|].
  destruct (seat_of_root (ap_root_pk a) s) as [v|] eqn:Ev; [|done].
  destruct (approval_verify a b) eqn:Ea; [|done]. cbn [negb].
  intros (Hn & Hs & Hf)%IH.
  assert (ap_root_pk a ∉ seen) as Hns.
  { intros Hin. assert (existsb (λ r, bool_decide (r = ap_root_pk a)) seen = true) as Et; [|congruence].
    apply existsb_exists. exists (ap_root_pk a). by rewrite bool_decide_eq_true_2, <-list_elem_of_In. }
  split_and!.
  - apply NoDup_cons. split; [|done]. intros (d & E & Hd)%list_elem_of_fmap.
    apply (Hs d Hd). rewrite <-E. set_solver.
  - intros d [->|Hd]%elem_of_cons; [done|]. specialize (Hs d Hd). set_solver.
  - constructor; [|done]. rewrite seated_seat, Ev. by split.
Qed.
Lemma count_approvals_complete s b seen acc l :
  Forall power_ok (validators s) → 0 ≤ acc → acc + sum_seats s l ≤ u64_max →
  NoDup (ap_root_pk <$> l) → (∀ a, a ∈ l → ap_root_pk a ∉ seen) →
  Forall (λ a, approval_verify a b = true ∧ seated (ap_root_pk a) s = true) l →
  count_approvals s b seen acc l = Ok (acc + sum_seats s l).
Proof.
  intros Hp. revert seen acc. induction l as [|a l IH]; intros seen acc Ha Hs Hn Hseen Hf.
  { unfold sum_seats. simpl. f_equal. lia. }
  inversion Hf as [|? ? [Hv Hseat] Hf']; subst. rewrite fmap_cons, NoDup_cons in Hn.
  apply seated_seat in Hseat as [v Ev]. unfold sum_seats in *. cbn [omap list_omap] in Hs |- *. rewrite Ev in Hs |- *.
  cbn [count_approvals]. rewrite Ev, Hv. rewrite power_sum_cons in Hs |- *.
  assert (existsb (λ r, bool_decide (r = ap_root_pk a)) seen = false) as ->.
  { apply not_true_is_false. intros (x & Hx & ->%bool_decide_eq_true)%existsb_exists.
    apply (Hseen a); [set_solver|]. by apply list_elem_of_In. }
  cbn [negb]. assert (power_ok v) as [Hv1 _].
  { rewrite Forall_forall in Hp. by apply Hp, (seat_of_root_ok _ _ _ Ev). }
  assert (0 ≤ power_sum (omap (λ a, seat_of_root (ap_root_pk a) s) l)) as Hnn.
  { apply power_sum_nonneg. apply Forall_forall. intros w (d & _ & Hw)%list_elem_of_omap.
    rewrite Forall_forall in Hp. by apply Hp, (seat_of_root_ok _ _ _ Hw). }
  rewrite sat_add_small by lia. rewrite IH; [f_equal; lia|lia|lia|by destruct Hn| |done].
  intros d Hd. rewrite elem_of_app, list_elem_of_singleton. intros [Hin|E].
  - by apply (Hseen d); [set_solver|].
  - destruct Hn as [Hn _]. apply Hn, list_elem_of_fmap. by exists d.
Qed.
Lemma approvers_power s c :
  set_ok s → NoDup (ap_root_pk <$> sc_approvals c) →
  0 ≤ power_sum (approvers s c) ≤ power_sum (validators s).
Proof.
  intros Hs Hn. split.
  - apply power_sum_nonneg. apply Forall_forall. intros w Hw%approvers_seats.
    pose proof (so_powers s Hs) as Hp. rewrite Forall_forall in Hp. by apply Hp.
  - apply power_sum_sublist; [|by apply so_powers].
    apply NoDup_submseteq; [by apply approvers_nodup|]. apply approvers_seats.
Qed.

(** Acceptance is exactly [approved]; nothing saturates. *)
Lemma set_change_verify_ok s c ch :
  set_ok s → set_len s ≤ MAX_SEATS →
  set_change_verify_against c s ch = Ok tt ↔ approved s c ch.
Proof.
  intros Hs Hn. destruct (total_small s Hs Hn) as [Et Hb].
  assert (∀ r, count_approvals s (sc_body c) [] 0 (sc_approvals c) = Ok r →
    r = power_sum (approvers s c) ∧ 0 ≤ r ≤ power_sum (validators s)) as Hcount.
  { intros r Hr. pose proof (count_approvals_ok _ _ _ _ _ _ Hr) as (H1 & H2 & H3).
    pose proof (approvers_power s c Hs H1) as Hp.
    rewrite count_approvals_complete in Hr; try done; [|by apply so_powers|].
    - injection Hr as <-. unfold sum_seats. fold (approvers s c). lia.
    - unfold sum_seats. fold (approvers s c). ulia. }
  unfold set_change_verify_against. split.
  - destruct (check_shape (sc_body c)) as [[]|?|] eqn:Es; try done; cbn [bindR].
    destruct (decide (sb_chain_id (sc_body c) = ch)) as [Ec|];
      [rewrite (bool_decide_eq_true_2 (_ = ch)) by done|by rewrite (bool_decide_eq_false_2 (_ = ch)) by done].
    destruct (bool_decide (sc_approvals c = [])); [done|]. cbn [negb].
    destruct (count_approvals _ _ _ _ _) as [r|e|] eqn:Er; try done; cbn [bindR].
    destruct (Hcount r eq_refl) as [-> Hr]. destruct (count_approvals_ok _ _ _ _ _ _ Er) as (H1 & _ & H3).
    rewrite Et. unfold sat_mul. rewrite !Z.min_l by ulia.
    destruct (Z.leb_spec (power_sum (approvers s c) * 3) (power_sum (validators s) * 2)); [done|].
    intros _. constructor; try done. lia.
  - intros [Es Ec H1 H3 Hp]. rewrite Es. cbn [bindR]. rewrite bool_decide_eq_true_2 by done. cbn [negb].
    assert (count_approvals s (sc_body c) [] 0 (sc_approvals c) = Ok (power_sum (approvers s c))) as Er.
    { pose proof (approvers_power s c Hs H1). rewrite count_approvals_complete; try done.
      - by apply so_powers.
      - unfold sum_seats. fold (approvers s c). ulia.
      - set_solver. }
    rewrite bool_decide_eq_false_2.
    + rewrite Er. cbn [bindR]. destruct (Hcount _ Er) as [_ ?]. rewrite Et. unfold sat_mul.
      rewrite !Z.min_l by ulia. rewrite (proj2 (Z.leb_gt _ _)) by lia. done.
    + intros E. unfold approvers in Hp. rewrite E in Hp. simpl in Hp.
      pose proof (power_sum_bounds _ (so_powers s Hs)). lia.
Qed.
End approvals.

(** ** Effect *)

Section effect.
Context {SHAKE : Shake} {ROOT : RootScheme}.

(** The seats after a change, before they are put in order. *)
Definition changed_seats (c : SetChange) (l : list HkValidator) : list HkValidator :=
  match c with
  | Admit root pk power => l ++ [validator_new root pk power]
  | Remove root => filter (λ v, v.(v_root_pk) ≠ root) l
  | SetPower root power =>
      (λ v, if bool_decide (v.(v_root_pk) = root) then v_set_power power v else v) <$> l
  end.
Definition change_noop (s : HkValidatorSet) (c : SetChange) : bool :=
  match c with
  | Admit root _ _ => seated root s
  | Remove root => negb (seated root s)
  | SetPower root power =>
      match seat_of_root root s with Some v => v.(v_power) =? power | None => false end
  end.
Definition change_allowed (s : HkValidatorSet) (c : SetChange) : Prop :=
  match c with
  | Admit root pk power =>
      seated root s = true ∨ from_public_key pk ∉ v_address <$> s.(validators)
  | Remove root => seated root s = true → ∃ v, v ∈ s.(validators) ∧ v.(v_root_pk) ≠ root
  | SetPower root power => seated root s = true
  end.

Lemma set_new_eq {E} l : l ≠ [] → set_new (E := E) l = Ok (mkHkValidatorSet (sort_by validator_leb l)).
Proof. by destruct l. Qed.
Lemma existsb_address_fresh (a : HkAddress) l :
  existsb (λ v, bool_decide (v.(v_address) = a)) l = false ↔ a ∉ v_address <$> l.
Proof.
  rewrite <-not_true_iff_false, existsb_exists, list_elem_of_fmap. setoid_rewrite bool_decide_eq_true.
  setoid_rewrite <-list_elem_of_In. naive_solver.
Qed.
Lemma change_effect s c r :
  s.(validators) ≠ [] →
  match c with
  | Admit root pk power => change_admit s root pk power
  | Remove root => change_remove s root
  | SetPower root power => change_power s root power
  end = Ok r ↔
  change_allowed s c ∧
  r = if change_noop s c then None
      else Some (mkHkValidatorSet (sort_by validator_leb (changed_seats c s.(validators)))).
Proof.
  intros Hne. destruct c as [root pk power|root|root power]; cbn [change_allowed change_noop changed_seats].
  - unfold change_admit. destruct (seated root s) eqn:Es; [naive_solver|].
    cbn [v_address validator_new].
    destruct (existsb _ (validators s)) eqn:Ex.
    + split; [done|]. intros [[?|H] _]; [done|]. apply existsb_address_fresh in H. congruence.
    + apply existsb_address_fresh in Ex.
      rewrite set_new_eq by (by destruct (validators s)). cbn [bindR]. naive_solver.
  - unfold change_remove. destruct (seated root s) eqn:Es; cbn [negb]; [|naive_solver].
    destruct (decide (filter (λ v, v_root_pk v ≠ root) (validators s) = [])) as [E|E].
    + rewrite bool_decide_eq_true_2 by done. split; [done|]. intros [H _]. exfalso.
      destruct (H eq_refl) as (v & Hv & Hr).
      assert (v ∈ filter (λ v, v_root_pk v ≠ root) (validators s)) as Hin by (apply list_elem_of_filter; by split).
      rewrite E in Hin. by apply not_elem_of_nil in Hin.
    + rewrite bool_decide_eq_false_2, set_new_eq by done. cbn [bindR]. split; [|naive_solver].
      intros [= <-]. split; [|done]. intros _.
      destruct (filter _ (validators s)) as [|v l] eqn:Ef; [done|]. exists v.
      assert (v ∈ filter (λ v, v_root_pk v ≠ root) (validators s)) as Hin by (rewrite Ef; set_solver).
      apply list_elem_of_filter in Hin. tauto.
  - unfold change_power. rewrite seated_seat. destruct (seat_of_root root s) as [v|]; [|split; [done|]].
    + destruct (v_power v =? power); [naive_solver|].
      rewrite set_new_eq by (intros E%fmap_nil_inv; done). cbn [bindR]. naive_solver.
    + intros [[? ?] _]. done.
Qed.

Lemma in_window_spec c h :
  in_window c h = true ↔ sb_not_before (sc_body c) ≤ h ≤ sb_not_after (sc_body c).
Proof. unfold in_window. rewrite andb_true_iff, !Z.leb_le. lia. Qed.
Lemma apply_set_change_spec s c h ch r :
  set_ok s → set_len s ≤ MAX_SEATS →
  apply_set_change s c h ch = Ok r ↔
  approved s c ch ∧ sb_not_before (sc_body c) ≤ h ≤ sb_not_after (sc_body c) ∧
  change_allowed s (sb_change (sc_body c)) ∧
  r = if change_noop s (sb_change (sc_body c)) then None
      else Some (mkHkValidatorSet
                   (sort_by validator_leb (changed_seats (sb_change (sc_body c)) (validators s)))).
Proof.
  intros Hs Hn. unfold apply_set_change. rewrite <-(set_change_verify_ok s c ch Hs Hn), <-in_window_spec.
  destruct (set_change_verify_against c s ch) as [[]|e|]; cbn [bindR]; [|naive_solver..].
  destruct (in_window c h); cbn [negb]; [|naive_solver].
  rewrite <-change_effect by apply so_nonempty, Hs. destruct (sb_change (sc_body c)); naive_solver.
Qed.

(** Every effective change keeps the set well formed. *)
Lemma power_updated_nodup {A} (f : HkValidator → A) root power (l : list HkValidator) :
  (∀ v, f (v_set_power power v) = f v) →
  f <$> ((λ v, if bool_decide (v.(v_root_pk) = root) then v_set_power power v else v) <$> l) = f <$> l.
Proof. intros H. rewrite <-list_fmap_compose. apply list_fmap_ext. intros ? v _. simpl. case_match; auto. Qed.
Lemma filter_fmap_nodup {A B} (f : A → B) (P : A → Prop) `{!∀ x, Decision (P x)} l :
  NoDup (f <$> l) → NoDup (f <$> filter P l).
Proof.
  induction l as [|x l IH]; [done|]. rewrite fmap_cons, NoDup_cons. intros [Hx Hl].
  rewrite filter_cons. case_decide; [|by apply IH]. rewrite fmap_cons, NoDup_cons. split; [|by apply IH].
  intros (y & E & [_ Hy]%list_elem_of_filter)%list_elem_of_fmap. apply Hx, list_elem_of_fmap. by exists y.
Qed.

Definition change_typed (c : SetChange) : Prop :=
  match c with Admit _ _ power | SetPower _ power => in_u64 power | Remove _ => True end.
Lemma apply_set_change_set_ok s c h ch s' :
  set_ok s → set_len s ≤ MAX_SEATS → change_typed (sb_change (sc_body c)) →
  apply_set_change s c h ch = Ok (Some s') → set_ok s'.
Proof.
  intros Hs Hn Ht H. apply apply_set_change_spec in H as (Had & _ & Hal & Hr); [|done..].
  destruct (change_noop s (sb_change (sc_body c))) eqn:Eno; [done|]. injection Hr as ->.
  pose proof (check_shape_power _ (ad_shape _ _ _ Had)) as Hpow.
  assert (set_new (E := unit) (changed_seats (sb_change (sc_body c)) (validators s)) =
    Ok (mkHkValidatorSet (sort_by validator_leb (changed_seats (sb_change (sc_body c)) (validators s))))) as Hnew.
  { apply set_new_eq. destruct (sb_change (sc_body c)) as [root pk power|root|root power]; cbn [changed_seats].
    - by destruct (validators s).
    - cbn [change_noop change_allowed] in *. apply negb_false_iff in Eno. destruct (Hal Eno) as (v & Hv & Hr).
      intros E. assert (v ∈ filter (λ v, v_root_pk v ≠ root) (validators s)) as Hin
        by (apply list_elem_of_filter; by split). rewrite E in Hin. by apply not_elem_of_nil in Hin.
    - intros E%fmap_nil_inv. by apply (so_nonempty s Hs). }
  destruct Hs as [Hne Hso Ha Hro Hp].
  eapply set_new_set_ok; [exact Hnew|..];
    destruct (sb_change (sc_body c)) as [root pk power|root|root power];
    cbn [changed_seats change_allowed change_noop change_typed] in *.
  - rewrite fmap_app. apply NoDup_app. split_and!; [done| |apply NoDup_singleton].
    intros a Hin ->%list_elem_of_singleton. destruct Hal as [?|Hal]; [congruence|]. by apply Hal.
  - by apply filter_fmap_nodup.
  - by rewrite power_updated_nodup.
  - rewrite fmap_app. apply NoDup_app. split_and!; [done| |apply NoDup_singleton].
    intros a (v & -> & Hv)%list_elem_of_fmap E%list_elem_of_singleton.
    assert (seated root s = true) as ?; [|congruence]. apply seated_spec. by exists v.
  - by apply filter_fmap_nodup.
  - by rewrite power_updated_nodup.
  - apply Forall_app. split; [done|]. repeat constructor; simpl; destruct Hpow as [(_ & _ & ?)|?]; ulia.
  - rewrite Forall_forall in Hp. apply Forall_forall. intros v [_ Hv]%list_elem_of_filter. by apply Hp.
  - apply Forall_fmap. eapply Forall_impl; [exact Hp|]. intros v Hv. cbn beta.
    unfold compose. destruct (bool_decide (v_root_pk v = root)); [|exact Hv].
    unfold power_ok. cbn [v_power v_set_power]. destruct Hpow as [_ [?|?]]; ulia.
Qed.
End effect.
