(* ===== verification/Governance.v ===== *)
(** The validator set over time: what holds of every sequence of rotations,
    certificate changes and re-weights, whatever their order. *)

From S2P Require Export SetChange.
From S2P Require Import Toy.

(** * The bootstrap re-weight *)

Lemma reweighted_spec roots power v :
  reweighted roots power v = true ↔ v_root_pk v ∈ roots ∧ v_power v ≠ power.
Proof.
  unfold reweighted. rewrite andb_true_iff, existsb_exists, negb_true_iff, Z.eqb_neq.
  setoid_rewrite bool_decide_eq_true. setoid_rewrite <-list_elem_of_In. naive_solver.
Qed.
Definition reweighted_seats (roots : list bytes) (power : Z) (l : list HkValidator) : list HkValidator :=
  (λ v, if reweighted roots power v then v_set_power power v else v) <$> l.
Lemma reweighted_seats_fmap {A} (f : HkValidator → A) roots power l :
  (∀ v, f (v_set_power power v) = f v) → f <$> reweighted_seats roots power l = f <$> l.
Proof.
  intros H. unfold reweighted_seats. rewrite <-list_fmap_compose. apply list_fmap_ext.
  intros ? v _. unfold compose. case_match; auto.
Qed.
Lemma reweight_roots_ok {E} s roots power s' :
  reweight_roots (E := E) s roots power = Ok (Some s') →
  set_new (E := E) (reweighted_seats roots power (validators s)) = Ok s'.
Proof.
  unfold reweight_roots. fold (reweighted_seats roots power (validators s)).
  destruct (existsb _ _); [|done]. destruct (set_new _) as [s1|e|]; cbn [bindR]; naive_solver.
Qed.
Lemma reweight_set_ok {E} s roots power s' :
  set_ok s → 1 ≤ power ≤ MAX_VOTING_POWER → reweight_roots (E := E) s roots power = Ok (Some s') → set_ok s'.
Proof.
  intros [Hn Hso Ha Hr Hp] Hb H%reweight_roots_ok. eapply set_new_set_ok; [exact H|..].
  - by rewrite reweighted_seats_fmap.
  - by rewrite reweighted_seats_fmap.
  - apply Forall_fmap. eapply Forall_impl; [exact Hp|]. intros v Hv. unfold compose.
    by destruct (reweighted roots power v).
Qed.
(** The rule applies once: a second application finds nothing to change. *)
Lemma reweight_idempotent {E} s roots power s' :
  reweight_roots (E := E) s roots power = Ok (Some s') → reweight_roots (E := E) s' roots power = Ok None.
Proof.
  intros H%reweight_roots_ok. destruct (set_new_ok _ _ H) as (Hperm & _ & _).
  unfold reweight_roots. destruct (existsb _ (validators s')) eqn:Ex; [|done]. exfalso.
  apply existsb_exists in Ex as (v & Hv & Hr). apply list_elem_of_In in Hv. rewrite Hperm in Hv.
  apply list_elem_of_fmap in Hv as (w & -> & _). apply reweighted_spec in Hr as [Hin Hne].
  destruct (reweighted roots power w) eqn:Ew; [done|].
  apply not_true_iff_false in Ew. apply Ew, reweighted_spec. by split.
Qed.

(** * Steps of the set *)

Section steps.
Context {SHAKE : Shake} {ROOT : RootScheme}.

(** One accepted change, of any of the three kinds, to a set of a size the
    quorum arithmetic covers. *)
Inductive set_step (s s' : HkValidatorSet) : Prop :=
  | step_rotate c r (H : apply_rotation s c r = Ok s')
  | step_change c h ch (Hlen : set_len s ≤ MAX_SEATS) (Ht : change_typed (sb_change (sc_body c)))
      (H : apply_set_change s c h ch = Ok (Some s'))
  | step_reweight roots power (Hb : 1 ≤ power ≤ MAX_VOTING_POWER)
      (H : reweight_roots (E := Empty_set) s roots power = Ok (Some s')).

Lemma set_step_ok s s' : set_ok s → set_step s s' → set_ok s'.
Proof.
  intros Hs [c r H|c h ch Hl Ht H|roots power Hb H].
  - by eapply apply_rotation_set_ok.
  - by eapply apply_set_change_set_ok.
  - by eapply reweight_set_ok.
Qed.

(** A seat keeps its identity: as long as its root stays seated, its address
    never changes, its epoch never falls, and its key changes only with its
    epoch. *)
Definition same_seat (v w : HkValidator) : Prop :=
  v_root_pk w = v_root_pk v ∧ v_address w = v_address v ∧ v_epoch v ≤ v_epoch w ∧
  (v_epoch w = v_epoch v → v_public_key w = v_public_key v).
#[local] Instance same_seat_preorder : PreOrder same_seat.
Proof.
  split; [done|]. intros a b c (E1 & E2 & E3 & E4) (F1 & F2 & F3 & F4). unfold same_seat.
  split_and!; try congruence; [lia|]. intros E. rewrite F4, E4 by lia. done.
Qed.

(** Each old seat has a successor, or its root has left the set. *)
Lemma set_step_seat s s' v :
  set_ok s → set_step s s' → v ∈ validators s → seated (v_root_pk v) s' = true →
  ∃ w, w ∈ validators s' ∧ same_seat v w.
Proof.
  intros Hs Hstep Hv Hseat. destruct Hstep as [c r H|c h ch Hl Ht H|roots power Hb H].
  - destruct (apply_rotation_ok _ _ _ _ H) as (t & Htin & Hroot & Hep & _ & _ & E).
    exists (if bool_decide (v_address v = v_address t) then v_set_key (rc_new_op_pk c) (rc_epoch c) v else v).
    rewrite E. split; [apply list_elem_of_fmap; by exists v|].
    destruct (bool_decide_reflect (v_address v = v_address t)) as [Ea|]; [|done].
    assert (v = t) as -> by (eapply (nodup_fmap_eq v_address); eauto using so_addresses).
    unfold same_seat. simpl. split_and!; try done; lia.
  - apply apply_set_change_spec in H as (Had & _ & Hal & Hr); [|done..].
    destruct (change_noop s _) eqn:Eno; [done|]. injection Hr as ->. cbn [validators].
    setoid_rewrite sort_by_perm.
    destruct (sb_change (sc_body c)) as [root pk power|root|root power]; cbn [changed_seats].
    + exists v. split; [set_solver|done].
    + exists v. split; [|done]. apply list_elem_of_filter. split; [|done]. intros <-.
      apply seated_spec in Hseat as (w & Hw & Er). cbn [validators] in Hw.
      rewrite sort_by_perm in Hw. apply list_elem_of_filter in Hw as [? _]. done.
    + exists (if bool_decide (v_root_pk v = root) then v_set_power power v else v).
      split; [apply list_elem_of_fmap; by exists v|].
      by destruct (bool_decide (v_root_pk v = root)).
  - apply reweight_roots_ok in H. destruct (set_new_ok _ _ H) as (Hperm & _ & _).
    exists (if reweighted roots power v then v_set_power power v else v). rewrite Hperm.
    split; [apply list_elem_of_fmap; by exists v|]. by destruct (reweighted roots power v).
Qed.

Definition seated_step (root : bytes) (s s' : HkValidatorSet) : Prop :=
  set_step s s' ∧ seated root s' = true.
Lemma seated_steps_seat root s s' v :
  set_ok s → rtc (seated_step root) s s' → v ∈ validators s → v_root_pk v = root →
  set_ok s' ∧ ∃ w, w ∈ validators s' ∧ same_seat v w.
Proof.
  intros Hs H. revert v Hs. induction H as [s|s1 s2 s3 [H Hseat] _ IH]; intros v Hs Hv Hr.
  - split; [done|]. by exists v.
  - subst root. destruct (set_step_seat s1 s2 v Hs H Hv Hseat) as (w & Hw & Hsame).
    destruct (IH w) as (H3 & x & Hx & Hsame'); [by eapply set_step_ok|done|apply Hsame|].
    split; [done|]. exists x. split; [done|]. by etrans.
Qed.

(** * Properties *)

(** A rotation is accepted at most once per tenure.  After a certificate has
    been applied, no later rule and height accept it again, or any certificate
    of that root with the same or an older epoch, for as long as the root stays
    seated, whatever rotations, changes and re-weights happen in between. *)
Theorem rotation_not_replayable s c r s1 s2 c' r' s3 :
  set_ok s → apply_rotation s c r = Ok s1 → rtc (seated_step (rc_root_pk c)) s1 s2 →
  rc_root_pk c' = rc_root_pk c → rc_epoch c' ≤ rc_epoch c → apply_rotation s2 c' r' ≠ Ok s3.
Proof.
  intros Hs H Hsteps Hroot Hep H'. pose proof (apply_rotation_set_ok _ _ _ _ Hs H) as Hs1.
  destruct (apply_rotation_ok _ _ _ _ H) as (t & Ht & Htr & _ & _ & _ & E).
  destruct (seated_steps_seat (rc_root_pk c) s1 s2 (v_set_key (rc_new_op_pk c) (rc_epoch c) t)
    Hs1 Hsteps) as (Hs2 & w & Hw & (Ew & _ & Hwe & _)).
  { rewrite E. apply list_elem_of_fmap. exists t. by rewrite bool_decide_eq_true_2. }
  { done. }
  destruct (apply_rotation_ok _ _ _ _ H') as (t' & Ht' & Htr' & Hlt & _).
  assert (t' = w) as ->; [|simpl in Hwe; lia].
  eapply (nodup_fmap_eq v_root_pk); [by apply so_roots|done..|]. simpl in Ew. congruence.
Qed.

(** No two coalitions can decide apart.  If two set-change certificates are both
    accepted against one set, the seats that approved both hold strictly more
    than a third of its power. *)
Theorem approvals_overlap s c1 c2 ch1 ch2 :
  set_ok s → set_len s ≤ MAX_SEATS →
  set_change_verify_against c1 s ch1 = Ok tt → set_change_verify_against c2 s ch2 = Ok tt →
  power_sum (validators s) < 3 * power_sum (filter (.∈ approvers s c2) (approvers s c1)).
Proof.
  intros Hs Hn [_ _ Hd1 _ Hp1]%set_change_verify_ok [_ _ Hd2 _ Hp2]%set_change_verify_ok; [|done..].
  pose proof (quorum_overlap (approvers s c1) (approvers s c2) (validators s)
    (approvers_nodup _ _ Hd1) (approvers_nodup _ _ Hd2) (approvers_seats _ _) (approvers_seats _ _)
    (set_ok_nodup s Hs) (so_powers s Hs)). lia.
Qed.

(** C30: a set change is accepted exactly when its terms say so.  [apply_set_change]
    returns [Ok] exactly when the certificate is well shaped, for this chain,
    inside its window, approved by valid signatures of distinct current seats
    holding more than two thirds of the power, and possible in this set; the
    result is then the re-sorted set with that one change, or a no-op. *)
Theorem set_change_accepted_iff s c h ch r :
  set_ok s → set_len s ≤ MAX_SEATS →
  apply_set_change s c h ch = Ok r ↔
  approved s c ch ∧ sb_not_before (sc_body c) ≤ h ≤ sb_not_after (sc_body c) ∧
  change_allowed s (sb_change (sc_body c)) ∧
  r = if change_noop s (sb_change (sc_body c)) then None
      else Some (mkHkValidatorSet
                   (sort_by validator_leb (changed_seats (sb_change (sc_body c)) (validators s)))).
Proof. apply apply_set_change_spec. Qed.

(** The set stays well formed.  Whatever sequence of rotations, changes and
    re-weights is accepted, the set keeps at least one seat, its order, distinct
    addresses, distinct roots and powers within the bound the quorum arithmetic
    relies on. *)
Theorem set_stays_well_formed s s' : set_ok s → rtc set_step s s' → set_ok s'.
Proof. intros Hs H. induction H as [|s1 s2 s3 H _ IH]; [done|]. by eapply IH, set_step_ok. Qed.
End steps.

(** * What is signed *)

(** Everything a validator's two keys sign. *)
Inductive signed_object :=
  | SoVote (v : HkVote)
  | SoProposal (p : HkProposal)
  | SoPart (p : HkProposalPart)
  | SoRotation (d : RotationDomain) (chain_id : string) (c : RotationCert)
  | SoSetChange (b : SetChangeBody).

Definition object_bytes (o : signed_object) : bytes :=
  match o with
  | SoVote v => vote_sign_bytes v
  | SoProposal p => proposal_sign_bytes p
  | SoPart p => part_sign_bytes p
  | SoRotation d ch c =>
      rotation_signing_bytes d ch c.(rc_root_pk) c.(rc_new_op_pk) c.(rc_epoch) c.(rc_valid_from_height)
  | SoSetChange b => set_change_signing_bytes b
  end.
Definition object_domain (o : signed_object) : string :=
  match o with
  | SoVote _ => DOM_SIGN_VOTE | SoProposal _ => DOM_SIGN_PROPOSAL | SoPart _ => DOM_SIGN_PART
  | SoRotation RotV1 _ _ => DOM_ROTATION_V1 | SoRotation RotV2 _ _ => DOM_ROTATION_V2
  | SoSetChange _ => DOM_SET_CHANGE
  end.
Definition object_ok (o : signed_object) : Prop :=
  match o with
  | SoVote v => vote_ok v
  | SoProposal p => proposal_ok p
  | SoPart p => part_ok p
  | SoRotation _ ch c => short (str_bytes ch) ∧ rotation_ok c
  | SoSetChange b => body_ok b
  end.
(** Agreement on everything but what a signature does not cover: the extension
    of a vote, the signature of a certificate, the chain of a v1 certificate. *)
Definition same_object (o o' : signed_object) : Prop :=
  match o, o' with
  | SoVote v, SoVote w =>
      (v.(vote_typ), v.(vote_height), v.(vote_round), v.(vote_value), v.(vote_address)) =
      (w.(vote_typ), w.(vote_height), w.(vote_round), w.(vote_value), w.(vote_address))
  | SoProposal p, SoProposal q => p = q
  | SoPart p, SoPart q => p = q
  | SoRotation d ch c, SoRotation d' ch' c' =>
      d = d' ∧ (d = RotV2 → ch = ch') ∧
      (rc_root_pk c, rc_new_op_pk c, rc_epoch c, rc_valid_from_height c) =
      (rc_root_pk c', rc_new_op_pk c', rc_epoch c', rc_valid_from_height c')
  | SoSetChange b, SoSetChange b' => b = b'
  | _, _ => False
  end.

Lemma object_bytes_split o : ∃ body, object_bytes o = str_bytes (object_domain o) ++ x00 :: body.
Proof.
  destruct o as [v|p|p|[] ch c|b]; eexists; cbn [object_bytes object_domain];
    unfold vote_sign_bytes, proposal_sign_bytes, part_sign_bytes, rotation_signing_bytes,
      set_change_signing_bytes; rewrite <-?app_assoc; reflexivity.
Qed.
Lemma object_domain_no_nul o : no_nul (object_domain o).
Proof.
  unfold no_nul. destruct o as [v|p|p|[] ch c|b]; apply (bool_decide_eq_true_1 _); vm_compute; reflexivity.
Qed.

(** No signature can be moved.  The bytes signed for two objects are equal only
    when the objects are of the same kind and agree on every field: a vote is
    never a proposal, a proposal part, a rotation or a set change, and none of
    them can be reread with another height, round, value, address, key, epoch,
    power, window or (from v2 on) chain. *)
Theorem signed_bytes_bind o o' :
  object_ok o → object_ok o' → object_bytes o = object_bytes o' → same_object o o'.
Proof.
  intros Ho Ho' H.
  assert (object_domain o = object_domain o') as Hdom.
  { destruct (object_bytes_split o) as [x Hx], (object_bytes_split o') as [y Hy]. rewrite Hx, Hy in H.
    apply nul_split in H as [H _]; [by apply str_bytes_inj|apply object_domain_no_nul..]. }
  destruct o as [v|p|p|d ch c|b], o' as [w|q|q|d' ch' c'|b']; try discriminate Hdom;
    try (destruct d; discriminate Hdom); try (destruct d'; discriminate Hdom); simpl in *.
  - by apply vote_sign_bytes_inj.
  - by apply proposal_sign_bytes_inj.
  - by apply part_sign_bytes_inj.
  - destruct Ho, Ho'. by apply rotation_signing_bytes_inj in H.
  - by apply set_change_signing_bytes_inj.
Qed.

(** * Witnesses *)

(** A concrete root scheme: a public key doubles as the secret, a signature is a
    checksum of key and message padded to size. *)
Definition toy_root_sig (k m : bytes) : bytes := replicate (16 * 1012) x00 ++ toy_xof (k ++ m) 32.
Definition toy_root : RootScheme := {|
  slh_key := bytes;
  slh_keygen := λ a b c, let k := take 48 (a ++ b ++ replicate 48 x00) in (k, k);
  slh_sign := toy_root_sig;
  slh_verify := λ pk m sig, bool_decide (sig = toy_root_sig pk m);
|}.
Lemma toy_root_laws : RootLaws (ROOT := toy_root).
Proof.
  split.
  - intros a b c. unfold byte_len. cbn [slh_keygen toy_root fst].
    rewrite length_take, !length_app, length_replicate. unfold ROOT_PK_LEN. lia.
  - intros k m. unfold byte_len. cbn [slh_sign toy_root]. unfold toy_root_sig.
    rewrite length_app, length_replicate, length_toy_xof. reflexivity.
  - intros a b c m. by apply bool_decide_eq_true_2.
Qed.

Module Sample.
#[local] Existing Instances toy_shake toy_root.

Definition root_of (b : byte) : RootSecret := mkRootSecret (ROOT := toy_root) (replicate 48 b) (replicate 48 b).
(** The seats of roots 02 (power 4) and 01 (power 1) approve a change. *)
Definition approved_by_two (c : SetChange) : SetChangeCert :=
  let b := mkSetChangeBody "chain" c 0 1000 in
  mkSetChangeCert b [approval_sign (root_of x02) b; approval_sign (root_of x01) b].
Definition admit_cert : SetChangeCert := approved_by_two (Admit (replicate 48 x04) [x04] 1).
Definition remove_cert : SetChangeCert := approved_by_two (Remove (replicate 48 x04)).
Definition rules : RotationRules := mkRotationRules 10 "chain" u64_max.
Definition rotation (b : byte) (epoch : Z) : RotationCert :=
  rotation_issue_for (root_of b) "chain" u64_max [x09] epoch 11.
End Sample.
#[local] Existing Instances toy_shake toy_root.

(** The result of a change, with the old set where nothing changed. *)
Definition changed (s : HkValidatorSet) (c : SetChangeCert) : HkValidatorSet :=
  match apply_set_change s c 10 "chain" with Ok (Some s') => s' | _ => s end.
Definition rotated (s : HkValidatorSet) (c : RotationCert) : HkValidatorSet :=
  match apply_rotation s c Sample.rules with Ok s' => s' | _ => s end.

(** The module comment of setchange.rs says that a replay inside the window
    changes nothing.  It does, once the change has been undone by another
    certificate: admit, remove, and the same admission seats the validator again. *)
Lemma replay_in_window_changes_set :
  let s1 := changed SampleSet.set Sample.admit_cert in
  let s2 := changed s1 Sample.remove_cert in
  seated (replicate 48 x04) s1 = true ∧ seated (replicate 48 x04) s2 = false ∧
  seated (replicate 48 x04) (changed s2 Sample.admit_cert) = true.
Proof. vm_compute. split_and!; reflexivity. Qed.

(** The module comment of rotation.rs says that rollback and replay are
    rejected because epochs strictly increase.  A seat that is removed and
    admitted again starts from epoch 0: its old rotation certificate is then
    accepted again and replaces the key it was admitted with by the old one. *)
Lemma readmission_revives_rotation :
  let s1 := rotated (changed SampleSet.set Sample.admit_cert) (Sample.rotation x04 1) in
  let s2 := changed (changed s1 Sample.remove_cert) Sample.admit_cert in
  v_public_key <$> seat_of_root (replicate 48 x04) s1 = Some [x09] ∧
  v_public_key <$> seat_of_root (replicate 48 x04) s2 = Some [x04] ∧
  v_public_key <$> seat_of_root (replicate 48 x04) (rotated s2 (Sample.rotation x04 1)) = Some [x09].
Proof. vm_compute. split_and!; reflexivity. Qed.

Definition sample_rotated : HkValidatorSet := rotated SampleSet.set (Sample.rotation x03 1).
Lemma sample_rotation :
  apply_rotation SampleSet.set (Sample.rotation x03 1) Sample.rules = Ok sample_rotated.
Proof. vm_compute. reflexivity. Qed.
Definition sample_admitted : HkValidatorSet := changed SampleSet.set Sample.admit_cert.
Lemma sample_admission :
  apply_set_change SampleSet.set Sample.admit_cert 10 "chain" = Ok (Some sample_admitted).
Proof. vm_compute. reflexivity. Qed.
Lemma sample_few_seats : set_len SampleSet.set ≤ MAX_SEATS.
Proof. vm_compute. discriminate. Qed.

Lemma rotation_not_replayable_witness :
  is_ok (apply_rotation sample_rotated (Sample.rotation x03 1) Sample.rules) = false.
Proof.
  destruct (apply_rotation sample_rotated (Sample.rotation x03 1) Sample.rules) as [s3|e|] eqn:E;
    [exfalso|reflexivity..].
  revert E. apply (rotation_not_replayable SampleSet.set (Sample.rotation x03 1) Sample.rules sample_rotated
    sample_rotated (Sample.rotation x03 1) Sample.rules s3 sample_set_ok sample_rotation).
  - apply rtc_refl.
  - reflexivity.
  - apply Z.le_refl.
Defined.
Lemma approvals_overlap_witness :
  power_sum (validators SampleSet.set) <
  3 * power_sum (filter (.∈ approvers SampleSet.set Sample.remove_cert)
                        (approvers SampleSet.set Sample.admit_cert)).
Proof.
  apply (approvals_overlap SampleSet.set Sample.admit_cert Sample.remove_cert "chain" "chain"
    sample_set_ok sample_few_seats).
  - vm_compute. reflexivity.
  - vm_compute. reflexivity.
Defined.
Lemma set_change_accepted_iff_witness : approved SampleSet.set Sample.admit_cert "chain".
Proof.
  destruct (proj1 (set_change_accepted_iff SampleSet.set Sample.admit_cert 10 "chain" (Some sample_admitted)
    sample_set_ok sample_few_seats) sample_admission) as [H _]. exact H.
Defined.
Lemma set_stays_well_formed_witness : set_ok sample_admitted.
Proof.
  apply (set_stays_well_formed SampleSet.set sample_admitted sample_set_ok).
  apply rtc_once. eapply step_change; [exact sample_few_seats| |exact sample_admission].
  vm_compute. split; discriminate.
Defined.

Definition sample_vote : HkVote := new_prevote 7 (RSome 0) NVNil (SampleSet.addr x01).
Lemma signed_bytes_bind_witness :
  same_object (SoVote sample_vote) (SoVote (vote_extend ([x01], []) sample_vote)).
Proof.
  apply (signed_bytes_bind (SoVote sample_vote) (SoVote (vote_extend ([x01], []) sample_vote))).
  - split; simpl; ulia.
  - split; simpl; ulia.
  - reflexivity.
Defined.

Definition sample_seed : bytes := replicate 32 x05.
Definition sample_seat : HkValidator :=
  mkHkValidator (SampleSet.addr x05) (root_pk_bytes (root_from_seed sample_seed)) [x05] 0 1.
Definition sample_singleton : HkValidatorSet := mkHkValidatorSet [sample_seat].
Lemma sample_singleton_ok : set_ok sample_singleton.
Proof.
  eapply (set_new_set_ok (E := unit) [sample_seat]); [reflexivity|apply NoDup_singleton..|].
  constructor; [|constructor]. vm_compute. split; discriminate.
Qed.
Lemma issued_rotation_accepted_witness :
  ∃ s', apply_rotation sample_singleton
          (rotation_issue_for (root_from_seed sample_seed) "chain" 5 [x09] 1 11)
          (mkRotationRules 20 "chain" 5) = Ok s' ∧
    seat_of_root (v_root_pk sample_seat) s' = Some (v_set_key [x09] 1 sample_seat) ∧
    ∀ w, w ∈ validators sample_singleton → w ≠ sample_seat → w ∈ validators s'.
Proof.
  apply (issued_rotation_accepted (LAWS := toy_root_laws) sample_seed "chain" 5 [x09] 1 11 sample_singleton
    sample_seat (mkRotationRules 20 "chain" 5) sample_singleton_ok).
  - apply list_elem_of_singleton. reflexivity.
  - reflexivity.
  - reflexivity.
  - reflexivity.
  - reflexivity.
  - simpl. lia.
  - simpl. ulia.
  - simpl. unfold ROTATION_FRESHNESS_HORIZON. lia.
  - left. lia.
Defined.
