(* ===== verification/Signer.v ===== *)
(** The stateful consensus signer (hk-crypto/src/hashsig.rs, fsutil.rs, the
    [LeafBudget] of traits.rs, and the key handle of
    hk-consensus/src/hashsig_scheme.rs): one-time leaves, the state file written
    before a signature is released, restarts and power losses.

    LMS/HSS is the crate [hbs_lms] and the file system is the operating system's:
    the first is the class [Hss], the second a [Disk] whose writes can fail
    half-way and whose unsynced renames may or may not survive a power loss. *)

From S2P Require Export Messages.
From S2P Require Import Toy.

(** * The file system *)

(** The content of one path: what a reader sees now, and what it may see after
    a power loss (the last synced content and every rename made since). *)
Record File := mkFile { f_visible : option bytes; f_survivors : list (option bytes) }.
Definition file_ok (f : File) : Prop := f.(f_visible) ∈ f.(f_survivors).
Definition no_file : File := mkFile None [None].

(** How far [write_atomic] got: an error before the rename, an error in the
    directory sync, or success. *)
Inductive WriteOutcome := WNotRenamed | WNotSynced | WDone.
Definition write_atomic (content : bytes) (w : WriteOutcome) (f : File) : File * bool :=
  match w with
  | WNotRenamed => (f, false)
  | WNotSynced => (mkFile (Some content) (f.(f_survivors) ++ [Some content]), false)
  | WDone => (mkFile (Some content) [Some content], true)
  end.
(** What survives a power loss is one of the survivors, and synced from then on. *)
Definition power_loss (f f' : File) : Prop :=
  f'.(f_visible) ∈ f.(f_survivors) ∧ f'.(f_survivors) = [f'.(f_visible)].

(** * The leaf counter inside the key *)

(** [encode_blob]: used (8 bytes LE) ‖ state *)
Definition encode_blob (used : Z) (state : bytes) : bytes := u64_le used ++ state.
Definition be_val (l : bytes) : Z := le_val (rev l).
Definition state_count (state : bytes) : option Z :=
  if Nat.leb 8 (length state) then Some (be_val (take 8 state)) else None.
Definition state_at (state : bytes) (count : Z) : bytes :=
  if Nat.leb 8 (length state) then be_bytes 8 count ++ drop 8 state else state.

(** [hbs_lms]: key generation from expanded seed bytes, and signing sessions.  A
    session holds an expanded private key; a signature is computed before the
    advanced key is adopted ([commit]) or given up ([rollback]). *)
Class Hss := {
  hss_session : Type;
  hss_keygen : bytes → bytes * bytes;
  hss_open : bytes → option hss_session;
  hss_sign : hss_session → bytes → hss_session * option bytes;
  hss_pending : hss_session → option bytes;
  hss_commit : hss_session → hss_session;
  hss_rollback : hss_session → hss_session;
  (** the private key a session has adopted, and the leaf a signature names *)
  hss_key : hss_session → bytes;
  sig_leaf : bytes → Z;
}.
(** Documented behaviour (RFC 8554 and the crate): a fresh key is at leaf 0; a
    signature uses the leaf its key is at and leaves the next position pending. *)
Class HssLaws {HSS : Hss} : Prop := {
  hss_keygen_count seed : state_count (hss_keygen seed).1 = Some 0;
  hss_open_key st ss : hss_open st = Some ss → hss_key ss = st;
  hss_sign_ok ss m ss' sg n :
    hss_sign ss m = (ss', Some sg) → state_count (hss_key ss) = Some n →
    sig_leaf sg = n ∧ hss_key ss' = hss_key ss ∧
    ∀ next, hss_pending ss' = Some next → next = state_at (hss_key ss) (n + 1);
  hss_commit_key ss next : hss_pending ss = Some next → hss_key (hss_commit ss) = next;
  hss_rollback_key ss : hss_key (hss_rollback ss) = hss_key ss;
}.

Definition DOM_HASHSIG_SEED : string := "hk/v1/hashsig-seed".
Definition CONSENSUS_CAPACITY : Z := Z.shiftl 1 15.
Definition MIN_SIG_LEN : Z := 4 + 4 + 4 + 32 + 32 * 34 + 4 + 32 * 5.
Definition CONSENSUS_SIG_LEN : Z :=
  4 + (4 + (4 + 32 + 32 * 133) + 4 + 32 * 10 + 56) + (4 + (4 + 32 + 32 * 133) + 4 + 32 * 5).
Definition SEED_LEN : nat := 32.

Section signer.
Context {SHAKE : Shake} {HSS : Hss}.

(** * The signer

    The authentication-path cache [aux] only saves work and is not modelled. *)
Record HashSigner := mkHashSigner {
  hs_state : bytes;
  hs_used : Z;
  hs_capacity : Z;
  hs_persist : bool;
  hs_session : option hss_session;
}.

Definition gen_with (capacity : Z) (seed32 : bytes) : HashSigner * HkPub :=
  let '(sk, vk) := hss_keygen (shake256_n DOM_HASHSIG_SEED [seed32] SEED_LEN) in
  (mkHashSigner sk 0 capacity false None, vk).
Definition generate_consensus (seed32 : bytes) : HashSigner * HkPub := gen_with CONSENSUS_CAPACITY seed32.

Definition remaining (s : HashSigner) : Z := sat_sub s.(hs_capacity) s.(hs_used).

(** [attach_persistence_with_floor] on a readable state file. *)
Definition attach_persistence_with_floor (floor : Z) (f : File) (s : HashSigner) : HashSigner :=
  let '(resume, from_file) :=
    match f.(f_visible) with
    | Some blob =>
        if Nat.leb 8 (length blob) then
          let st := drop 8 blob in
          (Z.max (Z.max (Z.max s.(hs_used) floor) (le_val (take 8 blob))) (default 0 (state_count st)), Some st)
        else (Z.max s.(hs_used) floor, None)
    | None => (Z.max s.(hs_used) floor, None)
    end in
  mkHashSigner (state_at (default s.(hs_state) from_file) resume) resume s.(hs_capacity) true None.

(** [HashSigner::sign]; [w] is how the write of the state file ends. *)
Definition signer_sign (msg : bytes) (w : WriteOutcome) (s : HashSigner) (f : File) :
    HashSigner * File * option bytes :=
  if remaining s =? 0 then (s, f, None)
  else
    match (match s.(hs_session) with Some ss => Some ss | None => hss_open s.(hs_state) end) with
    | None => (s, f, None)
    | Some ss =>
        match hss_sign ss msg with
        | (_, None) => (mkHashSigner s.(hs_state) s.(hs_used) s.(hs_capacity) s.(hs_persist) None, f, None)
        | (ss1, Some sg) =>
            match hss_pending ss1 with
            | None => (mkHashSigner s.(hs_state) s.(hs_used) s.(hs_capacity) s.(hs_persist) (Some ss1), f, None)
            | Some next =>
                let '(f', written) :=
                  if s.(hs_persist) then write_atomic (encode_blob (s.(hs_used) + 1) next) w f else (f, true) in
                if written then
                  (mkHashSigner next (s.(hs_used) + 1) s.(hs_capacity) s.(hs_persist) (Some (hss_commit ss1)),
                   f', Some sg)
                else
                  (mkHashSigner s.(hs_state) s.(hs_used) s.(hs_capacity) s.(hs_persist)
                     (Some (hss_rollback ss1)), f', None)
            end
        end
    end.

(** [HkPriv::from_seed(..).into_persistent(..)], the state of a started process. *)
Definition boot (seed32 : bytes) (floor : Z) (f : File) : HashSigner :=
  attach_persistence_with_floor floor f (generate_consensus seed32).1.

(** [op_seed]: the seed of the operational key of an epoch. *)
Definition op_seed (master : bytes) (epoch : Z) : bytes :=
  if epoch =? 0 then master
  else h256_bytes (shake256_32 "hk/v1/op-rotation-seed" [master; u64_le epoch]).

(** [hashsig_scheme::verify] in front of [hashsig::verify]: lengths first. *)
Definition consensus_verify (hss_verify : bytes → bytes → bytes → bool) (max_sig_len : Z)
    (msg sg pk : bytes) : bool :=
  let len := Z.of_nat (length sg) in
  if negb (len =? CONSENSUS_SIG_LEN) then false
  else if (len <? MIN_SIG_LEN) || (max_sig_len <? len) then false
  else hss_verify msg sg pk.

(** * A signer's life

    One key and its state file, signing, restarting and losing power in any
    order; [released] lists the leaves of the signatures handed out, newest
    first. *)
Record World := mkWorld { w_signer : HashSigner; w_file : File; w_released : list Z }.

Inductive signer_step (seed : bytes) (a b : World) : Prop :=
  | step_sign msg w s f r (H : signer_sign msg w a.(w_signer) a.(w_file) = (s, f, r))
      (Hb : b = mkWorld s f (match r with Some sg => sig_leaf sg :: a.(w_released) | None => a.(w_released) end))
  | step_restart floor (Hf : in_u64 floor) (Hb : b = mkWorld (boot seed floor a.(w_file)) a.(w_file) a.(w_released))
  | step_power_loss floor f (Hf : in_u64 floor) (H : power_loss a.(w_file) f)
      (Hb : b = mkWorld (boot seed floor f) f a.(w_released)).
Definition first_boot (seed : bytes) (floor : Z) : World :=
  mkWorld (boot seed floor no_file) no_file [].
End signer.

(** * The counter codec *)

Lemma be_val_bytes n z : be_val (be_bytes n z) = z mod 256 ^ Z.of_nat n.
Proof. unfold be_val, be_bytes. by rewrite rev_involutive, le_val_bytes. Qed.
Lemma u64_mod_small z : in_u64 z → z mod 256 ^ Z.of_nat 8 = z.
Proof. intros H. apply Z.mod_small. unfold in_u64, u64_max in H. lia. Qed.
Lemma state_count_len st n : state_count st = Some n → (8 ≤ length st)%nat.
Proof. unfold state_count. destruct (Nat.leb_spec 8 (length st)); [done|done]. Qed.
Lemma state_count_at st c : (8 ≤ length st)%nat → in_u64 c → state_count (state_at st c) = Some c.
Proof.
  intros Hl Hc. unfold state_at. rewrite (proj2 (Nat.leb_le _ _)) by done. unfold state_count.
  rewrite length_app, length_be_bytes, (proj2 (Nat.leb_le 8 _)) by lia.
  rewrite (take_app_length' (be_bytes 8 c)) by by rewrite length_be_bytes.
  by rewrite be_val_bytes, u64_mod_small.
Qed.
Lemma state_count_u64 st n : state_count st = Some n → in_u64 n.
Proof.
  intros H. pose proof (state_count_len _ _ H) as Hl. unfold state_count in H.
  rewrite (proj2 (Nat.leb_le 8 _)) in H by done. injection H as <-. unfold be_val.
  pose proof (le_val_bound (rev (take 8 st))) as Hb.
  rewrite length_rev, length_take, Nat.min_l in Hb by done. change (256 ^ Z.of_nat 8) with (2 ^ 64) in Hb.
  ulia.
Qed.
(** A blob gives back the counter and the key written in it. *)
Lemma encode_blob_parts u st :
  in_u64 u → Nat.leb 8 (length (encode_blob u st)) = true ∧
  le_val (take 8 (encode_blob u st)) = u ∧ drop 8 (encode_blob u st) = st.
Proof.
  intros Hu. unfold encode_blob. split_and!.
  - apply Nat.leb_le. rewrite length_app, length_u64_le. lia.
  - rewrite (take_app_length' (u64_le u)) by by rewrite length_u64_le.
    unfold u64_le. by rewrite le_val_bytes, u64_mod_small.
  - by rewrite (drop_app_length' (u64_le u)) by by rewrite length_u64_le.
Qed.

(** * Properties *)

Section safety.
Context {SHAKE : Shake} {HSS : Hss} {LAWS : HssLaws}.

(** A survivor of the state file is past every released leaf; there is no file
    only as long as nothing was released. *)
Definition survivor_ok (released : list Z) (c : option bytes) : Prop :=
  match c with
  | None => released = []
  | Some blob => ∃ u st, blob = encode_blob u st ∧ in_u64 u ∧ is_Some (state_count st) ∧
                         Forall (λ l, l < u) released
  end.
Record world_ok (a : World) : Prop := mkWorldOk {
  wo_count : state_count a.(w_signer).(hs_state) = Some a.(w_signer).(hs_used);
  wo_capacity : a.(w_signer).(hs_capacity) = CONSENSUS_CAPACITY;
  wo_persist : a.(w_signer).(hs_persist) = true;
  wo_session ss : a.(w_signer).(hs_session) = Some ss → hss_key ss = a.(w_signer).(hs_state);
  wo_file : file_ok a.(w_file);
  wo_survivors : Forall (survivor_ok a.(w_released)) a.(w_file).(f_survivors);
  wo_released : Forall (λ l, l < a.(w_signer).(hs_used)) a.(w_released);
  wo_decreasing : StronglySorted (λ x y, y < x) a.(w_released);
}.

Lemma boot_ok seed floor f released :
  in_u64 floor → file_ok f → Forall (survivor_ok released) (f_survivors f) →
  StronglySorted (λ x y, y < x) released → world_ok (mkWorld (boot seed floor f) f released).
Proof.
  intros Hf Hok Hs Hd. pose proof (hss_keygen_count (shake256_n DOM_HASHSIG_SEED [seed] SEED_LEN)) as Hk.
  assert (survivor_ok released (f_visible f)) as Hv.
  { rewrite Forall_forall in Hs. by apply Hs. }
  unfold boot, generate_consensus, gen_with, attach_persistence_with_floor.
  destruct (hss_keygen _) as [sk vk]. cbn [fst] in Hk |- *. cbn [hs_used hs_state hs_capacity].
  destruct (f_visible f) as [blob|] eqn:Ev.
  - destruct Hv as (u & st & -> & Hu & [n Hn] & Hlt).
    destruct (encode_blob_parts u st Hu) as (E1 & E2 & E3). rewrite E1, E2, E3, Hn.
    change (default 0 (Some n)) with n. change (default sk (Some st)) with st.
    pose proof (state_count_u64 _ _ Hn) as Hnu.
    constructor; cbn [w_signer w_file w_released hs_state hs_used hs_capacity hs_persist hs_session]; try done.
    + apply state_count_at; [by eapply state_count_len|]. ulia.
    + eapply Forall_impl; [exact Hlt|]. intros l ?. cbn beta in *. lia.
  - simpl in Hv. subst released.
    constructor; cbn [w_signer w_file w_released hs_state hs_used hs_capacity hs_persist hs_session]; try done.
    apply state_count_at; [by eapply state_count_len|ulia].
Qed.

Lemma power_loss_ok released f f' :
  Forall (survivor_ok released) (f_survivors f) → power_loss f f' →
  file_ok f' ∧ Forall (survivor_ok released) (f_survivors f').
Proof.
  intros Hs [Hin E]. unfold file_ok. rewrite E. rewrite Forall_forall in Hs.
  split; [by apply list_elem_of_singleton|]. constructor; [by apply Hs|constructor].
Qed.

Lemma write_survivors released u st w f f' ok :
  file_ok f → Forall (survivor_ok released) (f_survivors f) →
  in_u64 u → is_Some (state_count st) → Forall (λ l, l < u) released →
  write_atomic (encode_blob u st) w f = (f', ok) →
  file_ok f' ∧ Forall (survivor_ok released) (f_survivors f') ∧
  (ok = true → f' = mkFile (Some (encode_blob u st)) [Some (encode_blob u st)]).
Proof.
  intros Hok Hs Hu Hst Hl H. unfold file_ok in *.
  assert (survivor_ok released (Some (encode_blob u st))) as Hnew by (exists u, st; done).
  destruct w; simpl in H; injection H as <- <-; cbn [f_visible f_survivors].
  - by split_and!.
  - split_and!; [set_solver| |done]. apply Forall_app. split; [done|]. by repeat constructor.
  - split_and!; [set_solver| |done]. by repeat constructor.
Qed.

Lemma sign_ok msg w a s f r :
  world_ok a → signer_sign msg w (w_signer a) (w_file a) = (s, f, r) →
  world_ok (mkWorld s f (match r with Some sg => sig_leaf sg :: w_released a | None => w_released a end)).
Proof.
  destruct a as [[st used cap pers sess] fl rel]. cbn [w_signer w_file w_released].
  intros [Hc Hcap Hper Hsess Hfile Hsur Hrel Hdec]. cbn [w_signer w_file w_released hs_state hs_used
    hs_capacity hs_persist hs_session] in *. subst cap pers. unfold signer_sign, remaining.
  cbn [hs_state hs_used hs_capacity hs_persist hs_session].
  destruct (Z.eqb_spec (sat_sub CONSENSUS_CAPACITY used) 0) as [|Hrem].
  { intros [= <- <- <-]. by constructor. }
  assert (in_u64 (used + 1)) as Hu1.
  { pose proof (state_count_u64 _ _ Hc). unfold sat_sub in Hrem. unfold CONSENSUS_CAPACITY in Hrem.
    change (Z.shiftl 1 15) with 32768 in Hrem. ulia. }
  destruct (match sess with Some ss => Some ss | None => hss_open st end) as [ss|] eqn:Ess.
  2:{ intros [= <- <- <-]. by constructor. }
  assert (hss_key ss = st) as Hkey.
  { destruct sess as [ss'|]; [injection Ess as <-; by apply Hsess|by apply hss_open_key]. }
  destruct (hss_sign ss msg) as [ss1 [sg|]] eqn:Esg.
  2:{ intros [= <- <- <-]. by constructor. }
  destruct (hss_sign_ok ss msg ss1 sg used Esg) as (Hleaf & Hkey1 & Hpend); [by rewrite Hkey|].
  destruct (hss_pending ss1) as [next|] eqn:Ep.
  2:{ intros [= <- <- <-]. constructor; try done. intros ss2 [= <-]. simpl. congruence. }
  rewrite (Hpend next eq_refl), Hkey in *.
  assert (state_count (state_at st (used + 1)) = Some (used + 1)) as Hnext
    by (apply state_count_at; [by eapply state_count_len|done]).
  destruct (write_atomic _ w fl) as [f' ok] eqn:Ew.
  destruct (write_survivors rel (used + 1) (state_at st (used + 1)) w fl f' ok) as (Hf' & Hs' & Hd');
    [done..| |exact Ew|].
  { eapply Forall_impl; [exact Hrel|]. intros l ?. cbn beta in *. lia. }
  destruct ok; intros [= <- <- <-]; constructor;
    cbn [w_signer w_file w_released hs_state hs_used hs_capacity hs_persist hs_session]; try done.
  - intros ss2 [= <-]. by rewrite (hss_commit_key ss1 (state_at st (used + 1))).
  - rewrite Hd' by done. cbn [f_survivors]. repeat constructor.
    exists (used + 1), (state_at st (used + 1)). split_and!; try done.
    rewrite Hleaf. constructor; [lia|]. eapply Forall_impl; [exact Hrel|]. intros l ?. cbn beta in *. lia.
  - rewrite Hleaf. constructor; [lia|]. eapply Forall_impl; [exact Hrel|]. intros l ?. cbn beta in *. lia.
  - constructor; [done|]. by rewrite Hleaf.
  - intros ss2 [= <-]. rewrite hss_rollback_key. congruence.
Qed.

Lemma signer_step_ok seed a b : world_ok a → signer_step seed a b → world_ok b.
Proof.
  intros Ha [msg w s f r H ->|floor Hf ->|floor f Hf H ->].
  - by eapply sign_ok.
  - destruct Ha. by apply boot_ok.
  - destruct Ha. destruct (power_loss_ok (w_released a) (w_file a) f) as [? ?]; [done..|]. by apply boot_ok.
Qed.

(** No leaf signs twice.  Whatever sequence of signatures, failed writes of
    the state file, process restarts and power losses a validator's key goes
    through, the leaves of the signatures it ever released are pairwise
    distinct, each one higher than all before it, and anything the state file
    can come back as is past all of them. *)
Theorem no_leaf_signs_twice seed floor a :
  in_u64 floor → rtc (signer_step seed) (first_boot seed floor) a →
  NoDup (w_released a) ∧ StronglySorted (λ x y, y < x) (w_released a) ∧
  Forall (survivor_ok (w_released a)) (f_survivors (w_file a)).
Proof.
  intros Hf H. assert (world_ok a) as [_ _ _ _ _ Hs _ Hd].
  { assert (world_ok (first_boot seed floor)) as H0.
    { apply boot_ok; [done|by apply list_elem_of_singleton|by repeat constructor|constructor]. }
    induction H as [|x y z Hxy _ IH]; [done|]. by eapply IH, signer_step_ok. }
  split_and!; [|done|done]. clear -Hd. induction Hd as [|x l Hd IH Hx]; constructor; [|done].
  intros Hin. rewrite Forall_forall in Hx. specialize (Hx x Hin). cbn beta in Hx. lia.
Qed.
End safety.

(** * The reserve-then-sign guard

    [LeafBudget] of traits.rs: the same discipline for any persistence callback.
    The callback is a parameter; its effect is the counter it stored, if any. *)
Inductive ReserveError := BudgetExhausted | PersistFailed.
Record LeafBudget := mkLeafBudget { lb_next : Z; lb_max : Z }.
Definition lb_remaining (b : LeafBudget) : Z := sat_sub b.(lb_max) b.(lb_next).
Definition lb_peek (b : LeafBudget) : Z := b.(lb_next).
(** [stored] is the durable counter; [persist] answers whether the callback
    succeeded and what is durable after it. *)
Definition reserve (persist : Z → Z → bool * Z) (stored : Z) (b : LeafBudget) :
    LeafBudget * Z * res ReserveError Z :=
  if b.(lb_max) <=? b.(lb_next) then (b, stored, Err BudgetExhausted)
  else
    let idx := b.(lb_next) in
    match persist stored (idx + 1) with
    | (false, stored') => (b, stored', Err PersistFailed)
    | (true, stored') => (mkLeafBudget (idx + 1) b.(lb_max), stored', Ok idx)
    end.

(** A callback that is honest about success, and whose failures leave the old
    or the new counter. *)
Definition persist_ok (persist : Z → Z → bool * Z) : Prop :=
  ∀ old new ok stored, persist old new = (ok, stored) →
    stored = new ∨ (ok = false ∧ stored = old).

(** Runs of reservations and reloads from the durable counter. *)
Inductive budget_step (persist : Z → Z → bool * Z) (max : Z) :
    LeafBudget * Z * list Z → LeafBudget * Z * list Z → Prop :=
  | budget_reserve b st l b' st' r (H : reserve persist st b = (b', st', r)) :
      budget_step persist max (b, st, l)
        (b', st', match r with Ok i => i :: l | _ => l end)
  | budget_reload b st l : budget_step persist max (b, st, l) (mkLeafBudget st max, st, l).

Lemma budget_never_reissues persist max b st l :
  persist_ok persist → rtc (budget_step persist max) (mkLeafBudget 0 max, 0, []) (b, st, l) →
  StronglySorted (λ x y, y < x) l ∧ Forall (λ i, i < st) l.
Proof.
  intros Hp H.
  enough (∀ x y, rtc (budget_step persist max) x y →
    (Forall (λ i, i < x.1.1.(lb_next)) x.2 ∧ Forall (λ i, i < x.1.2) x.2 ∧
     StronglySorted (λ a b, b < a) x.2) →
    Forall (λ i, i < y.1.1.(lb_next)) y.2 ∧ Forall (λ i, i < y.1.2) y.2 ∧
    StronglySorted (λ a b, b < a) y.2) as Hinv.
  { destruct (Hinv _ _ H) as (_ & ? & ?); [simpl; split_and!; constructor|]. by split. }
  clear H. induction 1 as [|x y z Hxy _ IH]; [done|]. intros Hx. apply IH. clear IH.
  destruct Hxy as [b1 st1 l1 b2 st2 r H|b1 st1 l1]; simpl in *; [|tauto].
  destruct Hx as (H1 & H2 & H3). unfold reserve in H.
  destruct (lb_max b1 <=? lb_next b1); [by injection H as <- <- <-|].
  destruct (persist st1 (lb_next b1 + 1)) as [ok st'] eqn:Ep.
  pose proof (Hp _ _ _ _ Ep) as Hst.
  assert (Forall (λ i, i < lb_next b1 + 1) l1) as H1'.
  { eapply Forall_impl; [exact H1|]. intros i ?. cbn beta in *. lia. }
  destruct ok; injection H as <- <- <-; simpl.
  - destruct Hst as [->|[? _]]; [|done]. split_and!; constructor; try done; lia.
  - split_and!; [done| |done]. destruct Hst as [->|[_ ->]]; done.
Qed.

(** * Witnesses *)

(** A signature scheme that only counts: the key is its counter and a seed, a
    signature its leaf and the message. *)
Definition toy_hss : Hss := {|
  hss_session := bytes * option bytes;
  hss_keygen := λ seed, (be_bytes 8 0 ++ seed, seed);
  hss_open := λ st, Some (st, None);
  hss_sign := λ ss m, ((ss.1, Some (state_at ss.1 (default 0 (state_count ss.1) + 1))),
                       Some (take 8 ss.1 ++ m));
  hss_pending := snd;
  hss_commit := λ ss, (default ss.1 ss.2, None);
  hss_rollback := λ ss, (ss.1, None);
  hss_key := fst;
  sig_leaf := λ sg, be_val (take 8 sg);
|}.
Lemma toy_hss_laws : HssLaws (HSS := toy_hss).
Proof.
  split.
  - intros seed. reflexivity.
  - intros st ss H. simpl in *. by simplify_eq.
  - intros [k p] m [k' p'] sg n H Hn. cbn in H, Hn |- *. injection H as <- <- <-.
    pose proof (state_count_len _ _ Hn) as Hl. split_and!.
    + rewrite (take_app_length' (take 8 k)) by (rewrite length_take; lia).
      unfold state_count in Hn. rewrite (proj2 (Nat.leb_le 8 _)) in Hn by done. by injection Hn.
    + done.
    + intros next [= <-]. by rewrite Hn.
  - intros [k p] next H. simpl in *. by subst.
  - done.
Qed.

Module Life.
#[local] Existing Instances toy_shake toy_hss.
Definition start : World := first_boot [x01] 0.
Definition signed (w : WriteOutcome) (a : World) : World :=
  match signer_sign [x07] w (w_signer a) (w_file a) with
  | (s, f, r) => mkWorld s f (match r with Some sg => sig_leaf sg :: w_released a | None => w_released a end)
  end.
Definition restarted (a : World) : World := mkWorld (boot [x01] 0 (w_file a)) (w_file a) (w_released a).
(** A signature, a write whose directory sync fails, a restart, a signature. *)
Definition after : World := signed WDone (restarted (signed WNotSynced (signed WDone start))).
End Life.
Lemma life_signed a w : signer_step (HSS := toy_hss) (SHAKE := toy_shake) [x01] a (Life.signed w a).
Proof.
  unfold Life.signed. destruct (signer_sign _ _ _ _) as [[s f] r] eqn:E. by eapply step_sign.
Qed.
Lemma no_leaf_signs_twice_witness :
  NoDup (w_released Life.after) ∧ StronglySorted (λ x y, y < x) (w_released Life.after) ∧
  Forall (survivor_ok (w_released Life.after)) (f_survivors (w_file Life.after)).
Proof.
  apply (no_leaf_signs_twice (SHAKE := toy_shake) (LAWS := toy_hss_laws) [x01] 0 Life.after).
  - ulia.
  - eapply rtc_l; [apply life_signed|]. eapply rtc_l; [apply life_signed|].
    eapply rtc_l; [|apply rtc_once, life_signed]. eapply step_restart; [|reflexivity]. ulia.
Defined.
Lemma life_released : w_released Life.after = [2; 0].
Proof. vm_compute. reflexivity. Qed.
