(* ===== verification/Payword.v ===== *)
(** PayWord chains (chain/crates/hk-crypto/src/payword.rs): the payer's hash
    chain, the merchant's incremental verifier and the chain-side settlement
    check. *)

From S2P Require Export Hash.
From S2P Require Import Toy.

Section payword.
Context {SHAKE : Shake}.

(** w_{i-1} = H_link(w_i) *)
Definition link (w : H256) : H256 := shake256_32 DOM_PAYWORD_LINK [h256_bytes w].

Record PaywordChain := mkChain { words : list H256 }.

(** The loop [for i in (0..n).rev() { words[i] = H_link(words[i + 1]) }],
    building the vector from its last word down. *)
Definition grow (l : list H256) : list H256 := link (hd zero_h256 l) :: l.

(** [PaywordChain::mint].  [None] is a panic: [assert!(n > 0)], and for
    [n = u32::MAX] the wrapped [n + 1] allocates no word to write to. *)
Definition mint (seed channel_context : bytes) (n : Z) : option PaywordChain :=
  if n <=? 0 then None
  else if u32_max <=? n then None
  else Some (mkChain (Nat.iter (Z.to_nat n) grow
         [shake256_32 DOM_PAYWORD_SEED [seed; channel_context; u32_le n]])).

Definition tip (c : PaywordChain) : option H256 := words c !! 0%nat.
Definition pay (c : PaywordChain) (k : Z) : option H256 := words c !! Z.to_nat k.
Definition max_steps (c : PaywordChain) : Z := Z.of_nat (length (words c)) - 1.

Record PaywordVerifier := mkVerifier {
  pv_last_word : H256;
  pv_last_step : Z;
  pv_max_steps : Z;
}.
Definition verifier_new (tip : H256) (max : Z) : PaywordVerifier := mkVerifier tip 0 max.

(** [for _ in 0..n { cur = H_link(cur) }] *)
Definition hash_forward (n : Z) (w : H256) : H256 := Nat.iter (Z.to_nat n) link w.

(** [PaywordVerifier::accept]: the state afterwards and [Ok(newly)] / [Err(())]. *)
Definition accept (k : Z) (w_k : H256) : M PaywordVerifier unit Z :=
  let* v := getM in
  refuse_if ((k <=? pv_last_step v) || (pv_max_steps v <? k)) tt ;;;
  let cur := hash_forward (k - pv_last_step v) w_k in
  refuse_if (negb (bool_decide (cur = pv_last_word v))) tt ;;;
  let newly := k - pv_last_step v in
  modifyM (λ v, mkVerifier w_k k (pv_max_steps v)) ;;;
  retM newly.

Definition steps_paid (v : PaywordVerifier) : Z := pv_last_step v.
Definition settlement_claim (v : PaywordVerifier) : H256 * Z :=
  (pv_last_word v, pv_last_step v).

Definition verify_settlement (tip word : H256) (step : Z) : bool :=
  if step =? 0 then bool_decide (word = tip)
  else bool_decide (hash_forward step word = tip).

(** A merchant's session: payments offered one after the other, refused ones
    skipped; the total of the steps it was credited with. *)
Fixpoint session (offers : list (Z * H256)) (v : PaywordVerifier) : PaywordVerifier * Z :=
  match offers with
  | [] => (v, 0)
  | (k, w) :: rest =>
      match accept k w v with
      | (v1, Ok newly) => let '(v2, total) := session rest v1 in (v2, newly + total)
      | (v1, _) => session rest v1
      end
  end.

(** ** Lemmas *)

Lemma hash_forward_0 w : hash_forward 0 w = w.
Proof. done. Qed.
Lemma hash_forward_add a b w :
  0 ≤ a → 0 ≤ b → hash_forward (a + b) w = hash_forward a (hash_forward b w).
Proof. intros. unfold hash_forward. by rewrite Z2Nat.inj_add, Nat.iter_add by lia. Qed.
Lemma hash_forward_S n w : 0 ≤ n → hash_forward (n + 1) w = link (hash_forward n w).
Proof. intros. by rewrite Z.add_comm, hash_forward_add by lia. Qed.

(** [verify_settlement] is "hashing [step] times reaches the tip", step 0 included. *)
Lemma verify_settlement_spec t w n :
  verify_settlement t w n = true ↔ hash_forward n w = t.
Proof.
  unfold verify_settlement. destruct (Z.eqb_spec n 0) as [->|];
    by rewrite bool_decide_eq_true.
Qed.

Lemma length_grow n w : length (Nat.iter n grow [w]) = S n.
Proof. induction n; simpl; auto. Qed.
Lemma grow_lookup n w k x :
  (Nat.iter n grow [w]) !! k = Some x → x = Nat.iter (n - k) link w.
Proof.
  revert k x. induction n as [|n IH]; intros k x H.
  - destruct k; simplify_eq/=; done.
  - simpl in H. destruct k as [|k].
    + simpl in H. injection H as <-. simpl.
      destruct (Nat.iter n grow [w]) as [|y l] eqn:E.
      { apply (f_equal length) in E. rewrite length_grow in E. done. }
      simpl. f_equal. rewrite (IH 0%nat y) by done. by rewrite Nat.sub_0_r.
    + simpl in H. by apply IH in H.
Qed.

(** Every word of a minted chain is the payer's top word hashed down. *)
Lemma mint_pay seed ctx n c k w :
  mint seed ctx n = Some c → 0 ≤ k → pay c k = Some w →
  k ≤ n ∧ w = hash_forward (n - k) (shake256_32 DOM_PAYWORD_SEED [seed; ctx; u32_le n]).
Proof.
  unfold mint, pay. repeat case_match; try done. intros [= <-] Hk Hw. simpl in *.
  pose proof (lookup_lt_Some _ _ _ Hw) as Hlt. rewrite length_grow in Hlt.
  split; [lia|]. apply grow_lookup in Hw. unfold hash_forward.
  by rewrite Z2Nat.inj_sub by lia.
Qed.

Lemma accept_ok k w v v' newly :
  accept k w v = (v', Ok newly) →
  pv_last_step v < k ≤ pv_max_steps v ∧ newly = k - pv_last_step v ∧
  hash_forward newly w = pv_last_word v ∧ v' = mkVerifier w k (pv_max_steps v).
Proof.
  unfold accept. intros H. mrun.
  rewrite orb_false_iff in *. rewrite negb_false_iff, bool_decide_eq_true in *.
  naive_solver lia.
Qed.
Lemma accept_refused k w v v' r :
  accept k w v = (v', r) → is_ok r = false → v' = v ∧ r = Err tt.
Proof.
  unfold accept, bindM, getM, refuse_if, modifyM, retM, failM.
  repeat case_match; naive_solver.
Qed.

(** The verifier's state is always a settleable claim. *)
Definition verifier_inv (t : H256) (v : PaywordVerifier) : Prop :=
  0 ≤ pv_last_step v ∧ hash_forward (pv_last_step v) (pv_last_word v) = t.

Lemma accept_inv t k w v v' r :
  verifier_inv t v → accept k w v = (v', r) → verifier_inv t v'.
Proof.
  intros [Hs Ht] H. destruct r as [newly|e|] eqn:Er.
  - apply accept_ok in H as (Hk & Hn & Hw & ->). split; simpl; [lia|].
    rewrite <-Ht, <-Hw, <-hash_forward_add by lia. f_equal. lia.
  - apply accept_refused in H as [-> _]; done.
  - by apply accept_refused in H as [_ [=]].
Qed.

Lemma session_inv t offers v v' total :
  verifier_inv t v → session offers v = (v', total) →
  verifier_inv t v' ∧ pv_max_steps v' = pv_max_steps v ∧
  pv_last_step v' = pv_last_step v + total ∧ 0 ≤ total ∧
  (pv_last_step v ≤ pv_max_steps v → pv_last_step v' ≤ pv_max_steps v).
Proof.
  revert v total. induction offers as [|[k w] rest IH]; intros v total Hi H.
  { simpl in H. simplify_eq. naive_solver lia. }
  simpl in H. destruct (accept k w v) as [v1 r] eqn:E.
  pose proof (accept_inv _ _ _ _ _ _ Hi E) as Hi1.
  destruct r as [newly|e|].
  - destruct (session rest v1) as [v2 tot] eqn:E2. simplify_eq.
    apply accept_ok in E as (Hk & Hn & Hw & ->).
    destruct (IH _ _ Hi1 E2) as (? & ? & ? & ? & ?). simpl in *. naive_solver lia.
  - apply accept_refused in E as [-> _]; [|done]. by apply IH.
  - by apply accept_refused in E as [_ [=]].
Qed.

(** Two words that land on the same value are equal or expose a collision of
    the link hash. *)
Lemma hash_forward_collision n a b :
  hash_forward n a = hash_forward n b →
  a = b ∨ ∃ i, 0 ≤ i < n ∧ hash_forward i a ≠ hash_forward i b ∧
               link (hash_forward i a) = link (hash_forward i b).
Proof.
  destruct (Z.lt_ge_cases n 0) as [Hn|Hn].
  { intros H. left. by destruct n. }
  pattern n. apply natlike_ind; [by left| |done]. clear n Hn.
  intros n Hn IH H. rewrite <-Z.add_1_r in H. rewrite !hash_forward_S in H by done.
  destruct (decide (hash_forward n a = hash_forward n b)) as [E|E].
  - destruct (IH E) as [?|(i & Hi & ?)]; [by left|]. right. exists i. split; [lia|done].
  - right. exists n. split; [lia|done].
Qed.
End payword.

(** ** Properties *)

Section properties.
Context {SHAKE : Shake}.

Lemma pay_total seed ctx n c k :
  mint seed ctx n = Some c → 0 ≤ k ≤ n → is_Some (pay c k).
Proof.
  unfold mint, pay. repeat case_match; try done. intros [= <-] Hk.
  apply lookup_lt_is_Some. simpl. rewrite length_grow. lia.
Qed.

(** An honest payer is always paid out.  For every chain [mint] returns
    and any two steps [j < k] of it, [pay] yields both words, a merchant who
    last accepted word [j] accepts word [k] and is credited exactly [k - j]
    steps (skipped reveals included), and the chain-side check accepts word
    [k] at step [k] against the published tip. *)
Theorem honest_payment_accepted seed ctx n c j k :
  mint seed ctx n = Some c → 0 ≤ j → j < k → k ≤ n →
  ∃ t wj wk, tip c = Some t ∧ pay c j = Some wj ∧ pay c k = Some wk ∧
    accept k wk (mkVerifier wj j n) = (mkVerifier wk k n, Ok (k - j)) ∧
    verify_settlement t wk k = true.
Proof.
  intros Hm Hj Hjk Hk.
  destruct (pay_total _ _ _ _ 0 Hm) as [t Ht]; [lia|].
  destruct (pay_total _ _ _ _ j Hm) as [wj Hwj]; [lia|].
  destruct (pay_total _ _ _ _ k Hm) as [wk Hwk]; [lia|].
  exists t, wj, wk. split_and!; try done.
  - apply (mint_pay seed ctx n c j) in Hwj as [_ Hj']; [|done|lia].
    apply (mint_pay seed ctx n c k) in Hwk as [_ Hk']; [|done|lia].
    unfold accept, bindM, getM, refuse_if, modifyM, retM. simpl.
    rewrite (proj2 (Z.leb_gt k j)), (proj2 (Z.ltb_ge n k)) by lia. simpl.
    rewrite bool_decide_eq_true_2; [done|].
    rewrite Hj', Hk', <-hash_forward_add by lia. f_equal. lia.
  - apply verify_settlement_spec.
    apply (mint_pay seed ctx n c 0) in Ht as [_ ->]; [|done|lia].
    apply (mint_pay seed ctx n c k) in Hwk as [_ ->]; [|done|lia].
    rewrite <-hash_forward_add by lia. f_equal. lia.
Qed.

(** The merchant's incremental verifier and the chain's from-the-tip check
    agree.  Whatever sequence of payments, valid or not, a merchant is
    offered, the claim it ends with settles on chain, and the steps it was
    credited with are exactly the claimed step, never beyond the maximum. *)
Theorem session_settles t max offers v total :
  0 ≤ max → session offers (verifier_new t max) = (v, total) →
  verify_settlement t (settlement_claim v).1 (settlement_claim v).2 = true ∧
  (settlement_claim v).2 = total ∧ 0 ≤ total ≤ max.
Proof.
  intros Hmax H. apply (session_inv t) in H as ([H1 H2] & H3 & H4 & H5 & H6); [|by split].
  simpl in *. split_and!; [by apply verify_settlement_spec|lia|done|lia].
Qed.

(** C16: overclaiming needs a collision.  If two words both settle against one
    tip, the later word hashes forward to the earlier one, unless the two
    hash chains themselves exhibit, at one of the steps below [k1], two
    different values with the same link hash. *)
Theorem settlement_unforgeable t w1 k1 w2 k2 :
  0 ≤ k1 → k1 ≤ k2 →
  verify_settlement t w1 k1 = true → verify_settlement t w2 k2 = true →
  hash_forward (k2 - k1) w2 = w1 ∨
  ∃ i, 0 ≤ i < k1 ∧ hash_forward i (hash_forward (k2 - k1) w2) ≠ hash_forward i w1 ∧
       link (hash_forward i (hash_forward (k2 - k1) w2)) = link (hash_forward i w1).
Proof.
  intros H1 H12 V1 V2. apply verify_settlement_spec in V1, V2.
  apply (hash_forward_collision k1).
  rewrite <-hash_forward_add by lia. rewrite V1, <-V2. f_equal. lia.
Qed.
End properties.

(** * Witnesses *)

Module Sample.
#[local] Existing Instance toy_shake.
Definition chain : PaywordChain := default (mkChain []) (mint [x01] [x02] 5).
Definition word (k : Z) : H256 := default zero_h256 (pay chain k).
(** Two honest payments, a replay and a forged word in between. *)
Definition offers : list (Z * H256) := [(2, word 2); (2, word 2); (3, word 4); (5, word 5)].
End Sample.

Lemma honest_payment_accepted_witness :
  ∃ t wj wk, tip Sample.chain = Some t ∧ pay Sample.chain 1 = Some wj ∧
    pay Sample.chain 4 = Some wk ∧
    accept (SHAKE := toy_shake) 4 wk (mkVerifier wj 1 5) = (mkVerifier wk 4 5, Ok (4 - 1)) ∧
    verify_settlement (SHAKE := toy_shake) t wk 4 = true.
Proof.
  apply (honest_payment_accepted (SHAKE := toy_shake) [x01] [x02] 5).
  - vm_compute. reflexivity.
  - done.
  - done.
  - done.
Defined.

Lemma session_settles_witness :
  verify_settlement (SHAKE := toy_shake) (Sample.word 0) (Sample.word 5) 5 = true ∧
  5 = 5 ∧ 0 ≤ 5 ≤ 5.
Proof.
  apply (session_settles (SHAKE := toy_shake) (Sample.word 0) 5 Sample.offers
           (mkVerifier (Sample.word 5) 5 5)).
  - done.
  - vm_compute. reflexivity.
Defined.

Lemma settlement_unforgeable_witness :
  hash_forward (SHAKE := toy_shake) (4 - 1) (Sample.word 4) = Sample.word 1 ∨
  ∃ i, 0 ≤ i < 1 ∧
    hash_forward (SHAKE := toy_shake) i (hash_forward (SHAKE := toy_shake) (4 - 1) (Sample.word 4))
      ≠ hash_forward (SHAKE := toy_shake) i (Sample.word 1) ∧
    link (SHAKE := toy_shake)
      (hash_forward (SHAKE := toy_shake) i (hash_forward (SHAKE := toy_shake) (4 - 1) (Sample.word 4)))
    = link (SHAKE := toy_shake) (hash_forward (SHAKE := toy_shake) i (Sample.word 1)).
Proof.
  apply (settlement_unforgeable (SHAKE := toy_shake) (Sample.word 0)).
  - done.
  - done.
  - vm_compute. reflexivity.
  - vm_compute. reflexivity.
Defined.
