(* ===== verification/Lamport.v ===== *)
(** Lamport one-time signatures over SHAKE-256
    (chain/crates/hk-crypto/src/lamport.rs), the account-authentication scheme. *)

From S2P Require Export Hash.
From S2P Require Import Toy.
From Stdlib Require Import Bool.

Inductive CryptoError := VerifyFailed | KeyExhausted | IndexReused (i : Z) | Unimplemented (what : string).

Definition CHUNK : nat := 32.
Definition N_CHUNKS_SK : nat := 512.
Definition SK_LEN : Z := 512 * 32.
Definition PK_LEN : Z := 512 * 32.
Definition SIG_LEN : Z := 256 * 32.

(** [buf[j * CHUNK..(j + 1) * CHUNK]] *)
Definition chunk (buf : bytes) (j : nat) : bytes := take CHUNK (drop (j * CHUNK) buf).

(** Message bit [i]: bit [7 - i % 8] of byte [i / 8], as 0 or 1. *)
Definition msg_bit (msg32 : H256) (i : nat) : nat :=
  let b := byte_val (nth (i / 8) (h256_bytes msg32) x00) in
  Z.to_nat (Z.land (Z.shiftr b (7 - Z.of_nat i mod 8)) 1).
Definition sel (msg32 : H256) (i : nat) : nat := (2 * i + msg_bit msg32 i)%nat.

Section lamport.
Context {SHAKE : Shake}.

Definition leaf (c : bytes) : bytes := h256_bytes (shake256_32 DOM_LAMPORT_LEAF [c]).
Definition sk_chunk (seed : bytes) (index : Z) (j : nat) : bytes :=
  h256_bytes (shake256_32 DOM_LAMPORT_SK [seed; u64_le index; u32_le (Z.of_nat j)]).

(** [keygen(seed, index)]: the flat secret key and the flat public key. *)
Definition keygen (seed : bytes) (index : Z) : bytes * bytes :=
  let s := sk_chunk seed index <$> seq 0 N_CHUNKS_SK in
  (concat s, concat (leaf <$> s)).

Definition pk_commit (pk : bytes) : H256 := shake256_32 DOM_LAMPORT_PK [pk].

(** [sign]: one secret chunk revealed per message bit. *)
Definition sign (sk : bytes) (msg32 : H256) : bytes :=
  concat ((λ i, chunk sk (sel msg32 i)) <$> seq 0 256).

(** [verify]: every revealed chunk must hash to the selected public chunk. *)
Definition verify_chunk (pk : bytes) (msg32 : H256) (sig : bytes) (i : nat) : bool :=
  bool_decide (leaf (chunk sig i) = chunk pk (sel msg32 i)).
Definition verify (pk : bytes) (msg32 : H256) (sig : bytes) : res CryptoError unit :=
  if negb (Z.of_nat (length pk) =? PK_LEN) || negb (Z.of_nat (length sig) =? SIG_LEN)
  then Err VerifyFailed
  else if forallb (verify_chunk pk msg32 sig) (seq 0 256) then Ok tt
  else Err VerifyFailed.

(** ** Lemmas *)

Lemma chunk_concat (l : list bytes) j c :
  Forall (λ c, length c = CHUNK) l → l !! j = Some c → chunk (concat l) j = c.
Proof.
  intros Hl. revert j. induction Hl as [|x l Hx Hl IH]; intros [|j] Hj; simplify_eq/=.
  - unfold chunk. cbn [Nat.mul]. by rewrite drop_0, <-Hx, take_app_length.
  - unfold chunk. cbn [Nat.mul]. rewrite drop_app_ge by (unfold CHUNK in *; lia).
    replace (CHUNK + j * CHUNK - length x)%nat with (j * CHUNK)%nat by lia.
    by apply IH.
Qed.
Lemma length_concat_chunks (l : list bytes) :
  Forall (λ c, length c = CHUNK) l → length (concat l) = (length l * CHUNK)%nat.
Proof. unfold CHUNK. induction 1; simpl; [done|]. rewrite length_app. lia. Qed.
Lemma length_leaf c : length (leaf c) = CHUNK.
Proof. apply length_h256. Qed.
Lemma length_sk_chunk seed i j : length (sk_chunk seed i j) = CHUNK.
Proof. apply length_h256. Qed.

Lemma msg_bit_01 m i : (msg_bit m i ≤ 1)%nat.
Proof.
  unfold msg_bit. set (x := Z.shiftr _ _).
  pose proof (Z.land_ones x 1 ltac:(lia)) as H. change (Z.ones 1) with 1 in H.
  rewrite H. pose proof (Z.mod_pos_bound x (2 ^ 1) ltac:(lia)). lia.
Qed.
Lemma sel_lt m i : (i < 256)%nat → (sel m i < N_CHUNKS_SK)%nat.
Proof. intros. unfold sel, N_CHUNKS_SK. pose proof (msg_bit_01 m i). lia. Qed.

Lemma keygen_sk_chunk seed index j :
  (j < N_CHUNKS_SK)%nat → chunk (keygen seed index).1 j = sk_chunk seed index j.
Proof.
  intros Hj. apply chunk_concat.
  - apply Forall_fmap, Forall_true. intros. apply length_sk_chunk.
  - by rewrite list_lookup_fmap, lookup_seq_lt.
Qed.
Lemma keygen_pk_chunk seed index j :
  (j < N_CHUNKS_SK)%nat → chunk (keygen seed index).2 j = leaf (sk_chunk seed index j).
Proof.
  intros Hj. apply chunk_concat.
  - apply Forall_fmap, Forall_true. intros. apply length_leaf.
  - by rewrite !list_lookup_fmap, lookup_seq_lt.
Qed.
Lemma length_keygen_pk seed index : Z.of_nat (length (keygen seed index).2) = PK_LEN.
Proof.
  unfold keygen. cbn [snd]. rewrite length_concat_chunks.
  - rewrite !length_fmap, length_seq. unfold PK_LEN, N_CHUNKS_SK, CHUNK. lia.
  - apply Forall_fmap, Forall_true. intros. apply length_leaf.
Qed.

Lemma length_chunk buf j :
  ((j + 1) * CHUNK ≤ length buf)%nat → length (chunk buf j) = CHUNK.
Proof. intros. unfold chunk. rewrite length_take, length_drop. unfold CHUNK in *. lia. Qed.

(** What a verified signature says, chunk by chunk. *)
Lemma verify_ok pk m sig :
  verify pk m sig = Ok tt ↔
  Z.of_nat (length pk) = PK_LEN ∧ Z.of_nat (length sig) = SIG_LEN ∧
  ∀ i, (i < 256)%nat → leaf (chunk sig i) = chunk pk (sel m i).
Proof.
  unfold verify. destruct (Z.eqb_spec (Z.of_nat (length pk)) PK_LEN); cbn [negb orb]; [|naive_solver].
  destruct (Z.eqb_spec (Z.of_nat (length sig)) SIG_LEN); cbn [negb orb]; [|naive_solver].
  destruct (forallb (verify_chunk pk m sig) (seq 0 256)) eqn:E.
  - rewrite forallb_forall in E. split; [|done]. intros _. split_and!; [done..|].
    intros i Hi. specialize (E i ltac:(apply in_seq; lia)).
    by apply bool_decide_eq_true in E.
  - split; [done|]. intros (_ & _ & H). exfalso.
    apply not_true_iff_false in E. apply E, forallb_forall.
    intros i Hi%in_seq. apply bool_decide_eq_true, H. lia.
Qed.
Lemma verify_total pk m sig : verify pk m sig = Ok tt ∨ verify pk m sig = Err VerifyFailed.
Proof. unfold verify. repeat case_match; auto. Qed.

(** The bits determine the digest. *)
Lemma msg_bits_inj m m' : (∀ i, (i < 256)%nat → msg_bit m i = msg_bit m' i) → m = m'.
Proof.
  intros H. apply h256_eq, (list_eq_same_length _ _ 32); [by rewrite length_h256..|].
  intros i x y Hi Hx Hy. apply (inj byte_val).
  apply Z.bits_inj_iff'. intros k Hk.
  pose proof (byte_val_bound x) as Bx. pose proof (byte_val_bound y) as By.
  destruct (Z.lt_ge_cases k 8) as [Hlt|Hge]; cycle 1.
  { rewrite !Z.bits_above_log2; try done; try lia.
    - destruct (Z.eq_dec (byte_val y) 0) as [->|]; [simpl; lia|].
      apply Z.log2_lt_pow2; [lia|]. assert (2 ^ 8 ≤ 2 ^ k) by (apply Z.pow_le_mono_r; lia). lia.
    - destruct (Z.eq_dec (byte_val x) 0) as [->|]; [simpl; lia|].
      apply Z.log2_lt_pow2; [lia|]. assert (2 ^ 8 ≤ 2 ^ k) by (apply Z.pow_le_mono_r; lia). lia. }
  specialize (H (8 * i + (7 - Z.to_nat k))%nat ltac:(lia)).
  unfold msg_bit in H.
  replace ((8 * i + (7 - Z.to_nat k)) / 8)%nat with i in H
    by (apply (Nat.div_unique _ 8 _ (7 - Z.to_nat k)%nat); lia).
  replace (7 - Z.of_nat (8 * i + (7 - Z.to_nat k)) mod 8) with k in H.
  2: { replace (Z.of_nat (8 * i + (7 - Z.to_nat k))) with ((7 - k) + Z.of_nat i * 8) by lia.
       rewrite Z_mod_plus_full, Z.mod_small by lia. lia. }
  rewrite (nth_lookup_Some _ _ _ _ Hx), (nth_lookup_Some _ _ _ _ Hy) in H.
  assert (∀ z, Z.land (Z.shiftr z k) 1 = Z.b2z (Z.testbit z k)) as Hb.
  { intros z. pose proof (Z.land_ones (Z.shiftr z k) 1 ltac:(lia)) as E.
    change (Z.ones 1) with 1 in E. rewrite E.
    change (2 ^ 1) with 2. rewrite <-Z.bit0_mod, Z.shiftr_spec, Z.add_0_l by lia. done. }
  rewrite !Hb in H. destruct (Z.testbit (byte_val x) k), (Z.testbit (byte_val y) k); done.
Qed.
End lamport.

(** ** Properties *)

Section properties.
Context {SHAKE : Shake}.

Lemma length_sign seed index m :
  Z.of_nat (length (sign (keygen seed index).1 m)) = SIG_LEN.
Proof.
  unfold sign. rewrite length_concat_chunks.
  - rewrite length_fmap, length_seq. unfold SIG_LEN, CHUNK. lia.
  - apply Forall_fmap, Forall_forall. intros i Hi%elem_of_seq. unfold compose.
    rewrite keygen_sk_chunk by (apply sel_lt; lia). apply length_sk_chunk.
Qed.
Lemma sign_chunk seed index m i :
  (i < 256)%nat → chunk (sign (keygen seed index).1 m) i = sk_chunk seed index (sel m i).
Proof.
  intros Hi. rewrite <-keygen_sk_chunk by (by apply sel_lt). apply chunk_concat.
  - apply Forall_fmap, Forall_forall. intros j Hj%elem_of_seq. unfold compose.
    rewrite keygen_sk_chunk by (apply sel_lt; lia). apply length_sk_chunk.
  - by rewrite list_lookup_fmap, lookup_seq_lt.
Qed.

Lemma verify_sign seed index m :
  verify (keygen seed index).2 m (sign (keygen seed index).1 m) = Ok tt.
Proof.
  apply verify_ok. split_and!; [apply length_keygen_pk|apply length_sign|].
  intros i Hi. rewrite sign_chunk, keygen_pk_chunk; [done|by apply sel_lt|done].
Qed.

(** Signatures verify, and only as made.  Under a generated key, for every
    seed, ratchet index and digest, the signature made verifies; and a byte
    string of the right size verifies exactly when each of its 256 chunks
    hashes to what the secret chunk that the digest selects hashes to. *)
Theorem sign_verify seed index m sig :
  Z.of_nat (length sig) = SIG_LEN →
  verify (keygen seed index).2 m (sign (keygen seed index).1 m) = Ok tt ∧
  (verify (keygen seed index).2 m sig = Ok tt ↔
   ∀ i, (i < 256)%nat → leaf (chunk sig i) = leaf (sk_chunk seed index (sel m i))).
Proof.
  intros Hl. split; [apply verify_sign|]. rewrite verify_ok. split.
  - intros (_ & _ & H) i Hi. rewrite H, keygen_pk_chunk; [done|by apply sel_lt|done].
  - intros H. split_and!; [apply length_keygen_pk|done|].
    intros i Hi. rewrite H, keygen_pk_chunk; [done|by apply sel_lt|done].
Qed.

(** One public key can only sign two different digests by opening both
    halves of a key pair: two accepted signatures over different digests carry,
    at some bit position, preimages of the two different public chunks of that
    position. *)
Theorem two_messages_open_both pk m1 s1 m2 s2 :
  m1 ≠ m2 → verify pk m1 s1 = Ok tt → verify pk m2 s2 = Ok tt →
  ∃ i, (i < 256)%nat ∧ sel m1 i ≠ sel m2 i ∧
    leaf (chunk s1 i) = chunk pk (sel m1 i) ∧ leaf (chunk s2 i) = chunk pk (sel m2 i).
Proof.
  intros Hne (_ & _ & V1)%verify_ok (_ & _ & V2)%verify_ok.
  destruct (decide (Forall (λ i, msg_bit m1 i = msg_bit m2 i) (seq 0 256))) as [H|H].
  - exfalso. apply Hne, msg_bits_inj. intros i Hi.
    rewrite Forall_forall in H. apply H, elem_of_seq. lia.
  - apply not_Forall_Exists in H; [|intros ?; apply _].
    apply Exists_exists in H as (i & Hi%elem_of_seq & Hb).
    exists i. split_and!; [lia| |apply V1; lia|apply V2; lia].
    unfold sel. intros E. apply Hb. lia.
Qed.
(** What two signatures under one key give away: chunk by chunk, the one whose
    digest has the wanted bit. *)
Definition splice (m1 : H256) (s1 : bytes) (m2 : H256) (s2 : bytes) (m : H256) : bytes :=
  concat ((λ i, if (msg_bit m i =? msg_bit m1 i)%nat then chunk s1 i else chunk s2 i) <$> seq 0 256).
Definition bits_between (m1 m2 m : H256) : Prop :=
  ∀ i, (i < 256)%nat → msg_bit m i = msg_bit m1 i ∨ msg_bit m i = msg_bit m2 i.
Lemma splice_verifies pk m1 s1 m2 s2 m :
  verify pk m1 s1 = Ok tt → verify pk m2 s2 = Ok tt → bits_between m1 m2 m → verify pk m (splice m1 s1 m2 s2 m) = Ok tt.
Proof.
  intros (Lk & L1 & V1)%verify_ok (_ & L2 & V2)%verify_ok Hb.
  assert (Hc : ∀ s i, Z.of_nat (length s) = SIG_LEN → (i < 256)%nat → length (chunk s i) = CHUNK).
  { intros s i Hs Hi. apply length_chunk. unfold SIG_LEN, CHUNK in *. lia. }
  assert (HF : Forall (λ c, length c = CHUNK)
    ((λ i, if (msg_bit m i =? msg_bit m1 i)%nat then chunk s1 i else chunk s2 i) <$> seq 0 256)).
  { apply Forall_fmap, Forall_forall. intros i Hi%elem_of_seq. cbn. case_match; apply Hc; (done || lia). }
  apply verify_ok. split_and!; [done| |].
  - unfold splice. rewrite length_concat_chunks, length_fmap, length_seq by done. unfold SIG_LEN, CHUNK. lia.
  - intros i Hi. unfold splice. rewrite (chunk_concat _ i _ HF) by (rewrite list_lookup_fmap, lookup_seq_lt by done; reflexivity).
    cbn. unfold sel. destruct (Nat.eqb_spec (msg_bit m i) (msg_bit m1 i)) as [Hn|Hn]; [rewrite Hn; by apply V1|].
    destruct (Hb i Hi) as [?|Hb2]; [done|rewrite Hb2; by apply V2].
Qed.
End properties.

(** * Witnesses *)

Lemma sign_verify_witness :
  verify (SHAKE := toy_shake) (keygen (SHAKE := toy_shake) [x01] 0).2 (id_of 5)
    (sign (keygen (SHAKE := toy_shake) [x01] 0).1 (id_of 5)) = Ok tt.
Proof.
  refine (proj1 (sign_verify (SHAKE := toy_shake) [x01] 0 (id_of 5) (concat (replicate 256 (replicate 32 x00))) _)).
  vm_compute. reflexivity.
Defined.

Lemma two_messages_open_both_witness :
  let k := keygen (SHAKE := toy_shake) [x01] 0 in
  let s1 := sign k.1 (id_of 5) in
  let s2 := sign k.1 (id_of 6) in
  ∃ i, (i < 256)%nat ∧ sel (id_of 5) i ≠ sel (id_of 6) i ∧
    leaf (SHAKE := toy_shake) (chunk s1 i) = chunk k.2 (sel (id_of 5) i) ∧
    leaf (SHAKE := toy_shake) (chunk s2 i) = chunk k.2 (sel (id_of 6) i).
Proof.
  apply (two_messages_open_both (SHAKE := toy_shake)).
  - apply (bool_decide_unpack _). vm_compute. exact I.
  - apply (verify_sign).
  - apply (verify_sign).
Defined.
