(* ===== verification/Mandate.v ===== *)
(** MandateTree (chain/crates/hk-mandate): hierarchical spending budgets.
    Drip accrual into a capped buffer, two-phase spends that clear the whole
    ancestor chain, cascade revocation, attenuation of child policies. *)

From S2P Require Export Primitives.

Definition MAX_DEPTH : nat := 64.

Inductive SpendError :=
  | NotFound
  | Revoked (depth : nat)
  | Expired (depth : nat)
  | PerTxCap (depth : nat)
  | Insufficient (depth : nat) (have need : Amount)
  | BadChain
  | Attenuation (what : string).
#[export] Instance SpendError_eq_dec : EqDecision SpendError.
Proof. solve_decision. Defined.

(** [struct MandateTree { nodes: BTreeMap<MandateId, MandateNode> }] *)
Notation MandateTree := (gmap H256 MandateNode).

(** ** Operations *)

(** [insert]: attenuation of expiry and per-transaction cap, then the map insert. *)
Definition insert_node (node : MandateNode) : M MandateTree SpendError unit :=
  let* t := getM in
  match mn_parent node with
  | Some pid =>
      let* parent := ok_or (t !! pid) NotFound in
      refuse_if (mn_expiry parent <? mn_expiry node)
        (Attenuation "child expiry outlives parent") ;;;
      refuse_if (mn_per_tx_max parent <? mn_per_tx_max node)
        (Attenuation "child per_tx_max exceeds parent")
  | None => retM tt
  end ;;;
  modifyM (λ t, <[mn_id node := node]> t).

(** [check_asset_bound] and [insert_asset_bound] (the R17 rule). *)
Definition check_asset_bound (t : MandateTree) (node : MandateNode) : res SpendError unit :=
  match mn_parent node with
  | Some pid =>
      let? parent := ok_orR (t !! pid) NotFound in
      if negb (bool_decide (mn_asset node = mn_asset parent))
      then Err (Attenuation "child asset differs from parent") else Ok tt
  | None => Ok tt
  end.
Definition insert_asset_bound (node : MandateNode) : M MandateTree SpendError unit :=
  readM (λ t, check_asset_bound t node) ;;; insert_node node.

Definition revoke (id : MandateId) : M MandateTree SpendError unit :=
  let* t := getM in
  let* n := ok_or (t !! id) NotFound in
  modifyM (λ t, <[id := mn_set_revoked true n]> t).

(** [buffer.saturating_add(rate.saturating_mul(dt)).min(buffer_max)] *)
Definition drip (n : MandateNode) (dt : Z) : Amount :=
  Z.min (sat_add u128_max (mn_buffer n) (sat_mul u128_max (mn_rate_per_sec n) dt))
        (mn_buffer_max n).

Definition accrue (n : MandateNode) (now : Timestamp) : MandateNode :=
  if mn_last_accrual n <? now
  then mn_set_buffer (drip n (now - mn_last_accrual n)) now n
  else n.

(** What [check] and [available] compute: the buffer as it would be at [now]. *)
Definition projected (n : MandateNode) (now : Timestamp) : Amount :=
  drip n (sat_sub now (mn_last_accrual n)).

(** The leaf-to-root walk with the depth guard; the fuel is the loop's
    [0..MAX_DEPTH]. *)
Fixpoint chain_walk (fuel : nat) (t : MandateTree) (cur : MandateId) : res SpendError (list MandateId) :=
  match fuel with
  | O => Err BadChain
  | S fuel =>
      let? node := ok_orR (t !! cur) NotFound in
      match mn_parent node with
      | Some p => let? rest := chain_walk fuel t p in Ok (cur :: rest)
      | None => Ok [cur]
      end
  end.
Definition chain_of (t : MandateTree) (leaf : MandateId) : res SpendError (list MandateId) :=
  chain_walk MAX_DEPTH t leaf.

(** The body of the loop of [check] for the node at [depth]. *)
Definition check_node (n : MandateNode) (depth : nat) (amount : Amount) (now : Timestamp)
    : res SpendError unit :=
  if mn_revoked n then Err (Revoked depth)
  else if mn_expiry n <=? now then Err (Expired depth)
  else if mn_per_tx_max n <? amount then Err (PerTxCap depth)
  else if projected n now <? amount
       then Err (Insufficient depth (projected n now) amount)
       else Ok tt.
Fixpoint check_from (t : MandateTree) (depth : nat) (chain : list MandateId)
    (amount : Amount) (now : Timestamp) : res SpendError unit :=
  match chain with
  | [] => Ok tt
  | id :: rest =>
      match t !! id with
      | None => Panic
      | Some n => let? _ := check_node n depth amount now in check_from t (S depth) rest amount now
      end
  end.
Definition check (t : MandateTree) (leaf : MandateId) (amount : Amount) (now : Timestamp)
    : res SpendError unit :=
  let? chain := chain_of t leaf in check_from t 0 chain amount now.

(** [spend]: [check], then accrue and debit every node of the chain. *)
Fixpoint debit_chain (chain : list MandateId) (amount : Amount) (now : Timestamp)
    : M MandateTree SpendError unit :=
  match chain with
  | [] => retM tt
  | id :: rest =>
      let* t := getM in
      let* n := expect (t !! id) in
      let n := accrue n now in
      modifyM (λ t, <[id := mn_set_buffer (wrapping u128_max (mn_buffer n - amount))
                              (mn_last_accrual n) n]> t) ;;;
      debit_chain rest amount now
  end.
Definition spend (leaf : MandateId) (amount : Amount) (now : Timestamp)
    : M MandateTree SpendError unit :=
  readM (λ t, check t leaf amount now) ;;;
  let* chain := readM (λ t, chain_of t leaf) in
  debit_chain chain amount now.

Definition root_of (t : MandateTree) (leaf : MandateId) : res SpendError MandateId :=
  let? chain := chain_of t leaf in
  match last chain with Some r => Ok r | None => Panic end.

(** [available]: the minimum over the chain of projected buffers and caps. *)
Fixpoint available_from (t : MandateTree) (depth : nat) (chain : list MandateId)
    (now : Timestamp) (avail : Amount) : res SpendError Amount :=
  match chain with
  | [] => Ok avail
  | id :: rest =>
      match t !! id with
      | None => Panic
      | Some n =>
          if mn_revoked n then Err (Revoked depth)
          else if mn_expiry n <=? now then Err (Expired depth)
          else available_from t (S depth) rest now
                 (Z.min (Z.min avail (projected n now)) (mn_per_tx_max n))
      end
  end.
Definition available (t : MandateTree) (leaf : MandateId) (now : Timestamp)
    : res SpendError Amount :=
  let? chain := chain_of t leaf in available_from t 0 chain now u128_max.

(** ** Well-formedness: every field is in range of its Rust type, the key of an
    entry is the node's id, and a buffer never exceeds its cap. *)
Definition node_ok (n : MandateNode) : Prop :=
  in_u128 (mn_rate_per_sec n) ∧ in_u128 (mn_buffer_max n) ∧ in_u128 (mn_per_tx_max n) ∧
  0 ≤ mn_buffer n ≤ mn_buffer_max n ∧ in_u64 (mn_expiry n) ∧ in_u64 (mn_last_accrual n).
Definition tree_ok (t : MandateTree) : Prop :=
  map_Forall (λ id n, mn_id n = id ∧ node_ok n) t.

(** The relation of a node to its parent that the insert rules establish. *)
Definition attenuated (n p : MandateNode) : Prop :=
  mn_expiry n ≤ mn_expiry p ∧ mn_per_tx_max n ≤ mn_per_tx_max p.
Definition links_ok (asset_bound : bool) (t : MandateTree) : Prop :=
  map_Forall (λ id n, ∀ pid, mn_parent n = Some pid →
    ∃ p, t !! pid = Some p ∧ attenuated n p ∧
         (asset_bound = true → mn_asset n = mn_asset p)) t.

(** ** The walk to the root *)

Lemma chain_walk_S fuel t cur :
  chain_walk (S fuel) t cur =
  let? node := ok_orR (t !! cur) NotFound in
  match mn_parent node with
  | Some p => let? rest := chain_walk fuel t p in Ok (cur :: rest)
  | None => Ok [cur]
  end.
Proof. done. Qed.

(** [ancestry t leaf chain]: [chain] is the path from [leaf] to a root of [t]. *)
Inductive ancestry (t : MandateTree) : MandateId → list MandateId → Prop :=
  | ancestry_root id n : t !! id = Some n → mn_parent n = None → ancestry t id [id]
  | ancestry_step id n p rest :
      t !! id = Some n → mn_parent n = Some p → ancestry t p rest →
      ancestry t id (id :: rest).

Lemma chain_walk_ancestry fuel t id chain :
  chain_walk fuel t id = Ok chain ↔ ancestry t id chain ∧ (length chain ≤ fuel)%nat.
Proof.
  revert id chain. induction fuel as [|fuel IH]; intros id chain.
  - split; [done|]. intros [H Hl]. destruct H; simpl in Hl; lia.
  - rewrite chain_walk_S. split.
    + destruct (t !! id) as [n|] eqn:Hn; [|done]. simpl.
      destruct (mn_parent n) as [p|] eqn:Hp.
      * destruct (chain_walk fuel t p) as [rest|e|] eqn:Hw; [|done|done]. simpl.
        intros [= <-]. apply IH in Hw as [Hw Hl].
        split; [by econstructor|simpl; lia].
      * intros [= <-]. split; [by econstructor|simpl; lia].
    + intros [Ha Hl]. inversion Ha as [? n Hn Hp|? n p rest Hn Hp Hr]; subst; simpl in *.
      * by rewrite Hn; simpl; rewrite Hp.
      * rewrite Hn; simpl; rewrite Hp.
        assert (chain_walk fuel t p = Ok rest) as -> by (apply IH; split; [done|lia]).
        done.
Qed.
Lemma chain_of_ancestry t id chain :
  chain_of t id = Ok chain ↔ ancestry t id chain ∧ (length chain ≤ MAX_DEPTH)%nat.
Proof. apply chain_walk_ancestry. Qed.

Lemma ancestry_det t id c1 c2 : ancestry t id c1 → ancestry t id c2 → c1 = c2.
Proof.
  intros H. revert c2. induction H as [id n Hn Hp|id n p rest Hn Hp H IH]; intros c2 H2;
    inversion H2; simplify_eq; [done|]. f_equal. by apply IH.
Qed.
Lemma ancestry_head t id c : ancestry t id c → ∃ rest, c = id :: rest.
Proof. intros H. destruct H; eauto. Qed.
Lemma ancestry_lookup t id c x : ancestry t id c → x ∈ c → is_Some (t !! x).
Proof. induction 1; intros Hx; set_solver. Qed.
(** A member of a path has the rest of the path as its own. *)
Lemma ancestry_suffix t id c x :
  ancestry t id c → x ∈ c → ∃ pre c', c = pre ++ c' ∧ ancestry t x c'.
Proof.
  induction 1 as [id n Hn Hp|id n p rest Hn Hp H IH]; intros Hx.
  - assert (x = id) as -> by set_solver. exists [], [id]. split; [done|]. by econstructor.
  - apply elem_of_cons in Hx as [->|Hx].
    + exists [], (id :: rest). split; [done|]. by econstructor.
    + destruct (IH Hx) as (pre & c' & -> & ?). by exists (id :: pre), c'.
Qed.
Lemma ancestry_nodup t id c : ancestry t id c → NoDup c.
Proof.
  induction 1 as [id n Hn Hp|id n p rest Hn Hp H IH]; [apply NoDup_singleton|].
  apply NoDup_cons. split; [|done]. intros Hin.
  destruct (ancestry_suffix _ _ _ _ H Hin) as (pre & c' & -> & Hc').
  assert (ancestry t id (id :: pre ++ c')) as Hbig by by econstructor.
  pose proof (ancestry_det _ _ _ _ Hc' Hbig) as Heq.
  apply (f_equal length) in Heq. simpl in Heq. rewrite length_app in Heq. lia.
Qed.
Lemma ancestry_last t id c :
  ancestry t id c → ∃ r n, last c = Some r ∧ t !! r = Some n ∧ mn_parent n = None.
Proof.
  induction 1 as [id n Hn Hp|id n p rest Hn Hp H IH]; [by exists id, n|].
  destruct IH as (r & m & Hl & ? & ?). exists r, m. split_and!; try done.
  rewrite last_cons. by rewrite Hl.
Qed.
Lemma chain_of_total t leaf :
  (∃ chain, chain_of t leaf = Ok chain) ∨ chain_of t leaf = Err NotFound ∨
  chain_of t leaf = Err BadChain.
Proof.
  unfold chain_of. generalize MAX_DEPTH as fuel. intros fuel. revert leaf.
  induction fuel as [|fuel IH]; intros leaf; [by right; right|].
  rewrite chain_walk_S. destruct (t !! leaf) as [n|]; simpl; [|by right; left].
  destruct (mn_parent n) as [p|]; [|by left; eexists].
  destruct (IH p) as [[c ->]|[->| ->]]; simpl; eauto.
Qed.

(** Two trees with the same parent links have the same paths. *)
Definition same_links (t t' : MandateTree) : Prop :=
  ∀ id, mn_parent <$> t !! id = mn_parent <$> t' !! id.
#[export] Instance same_links_equiv : Equivalence same_links.
Proof.
  split; [done|intros ?? H id; by rewrite H|intros ??? H1 H2 id; by rewrite H1, H2].
Qed.
#[export] Instance chain_of_proper : Proper (same_links ==> eq ==> eq) chain_of.
Proof.
  intros t t' H id id' <-. unfold chain_of. generalize MAX_DEPTH as fuel. intros fuel.
  revert id. induction fuel as [|fuel IH]; intros id; [done|].
  rewrite !chain_walk_S. specialize (H id).
  destruct (t !! id) as [n|], (t' !! id) as [n'|]; simplify_eq/=; try done.
  rewrite H. destruct (mn_parent n'); [|done]. by rewrite IH.
Qed.
Lemma same_links_insert t id n n' :
  t !! id = Some n → mn_parent n' = mn_parent n → same_links t (<[id := n']> t).
Proof.
  intros Hn Hp x. destruct (decide (x = id)) as [->|].
  - rewrite lookup_insert_eq, Hn. simpl. by rewrite Hp.
  - by rewrite lookup_insert_ne.
Qed.

(** ** Phase 1: the check *)

Definition node_allows (n : MandateNode) (amount : Amount) (now : Timestamp) : Prop :=
  mn_revoked n = false ∧ now < mn_expiry n ∧ amount ≤ mn_per_tx_max n ∧
  amount ≤ projected n now.

Lemma check_node_ok n d a now : check_node n d a now = Ok tt ↔ node_allows n a now.
Proof.
  unfold check_node, node_allows. destruct (mn_revoked n); [naive_solver|].
  destruct (Z.leb_spec (mn_expiry n) now); [naive_solver lia|].
  destruct (Z.ltb_spec (mn_per_tx_max n) a); [naive_solver lia|].
  destruct (Z.ltb_spec (projected n now) a); naive_solver lia.
Qed.
Lemma check_node_nopanic n d a now : check_node n d a now ≠ Panic.
Proof. unfold check_node. repeat case_match; done. Qed.

Lemma check_from_ok t d chain a now :
  check_from t d chain a now = Ok tt ↔
  Forall (λ id, ∃ n, t !! id = Some n ∧ node_allows n a now) chain.
Proof.
  revert d. induction chain as [|id rest IH]; intros d; simpl.
  - split; [by constructor|done].
  - rewrite Forall_cons. destruct (t !! id) as [n|]; [|naive_solver].
    destruct (check_node n d a now) as [[]|e|] eqn:E; simpl.
    + apply check_node_ok in E. rewrite IH. naive_solver.
    + split; [done|]. intros [(n' & [= <-] & Hn) _].
      apply (check_node_ok n d) in Hn. congruence.
    + by apply check_node_nopanic in E.
Qed.
Lemma check_from_nopanic t d chain a now :
  Forall (λ id, is_Some (t !! id)) chain → check_from t d chain a now ≠ Panic.
Proof.
  intros H. revert d. induction H as [|id rest [n Hn] _ IH]; intros d; simpl; [done|].
  rewrite Hn. pose proof (check_node_nopanic n d a now).
  destruct (check_node n d a now); simpl; [apply IH|done|done].
Qed.

(** A spend is allowed exactly when every node from the leaf to the root allows it. *)
Lemma check_ok t leaf a now :
  check t leaf a now = Ok tt ↔
  ∃ chain, chain_of t leaf = Ok chain ∧
    Forall (λ id, ∃ n, t !! id = Some n ∧ node_allows n a now) chain.
Proof.
  unfold check. destruct (chain_of t leaf) as [chain|e|]; simpl; [|naive_solver..].
  rewrite check_from_ok. naive_solver.
Qed.
Lemma check_nopanic t leaf a now : check t leaf a now ≠ Panic.
Proof.
  unfold check. destruct (chain_of_total t leaf) as [[c Hc]|[->| ->]]; [|done..].
  rewrite Hc. simpl. apply check_from_nopanic, Forall_forall.
  intros id Hid. apply chain_of_ancestry in Hc as [Hc _]. by eapply ancestry_lookup.
Qed.

(** ** Phase 2: the debit *)

(** The specification of what an accepted spend does to one node: accrue up to
    [now], take [amount]. *)
Definition charge (amount : Amount) (now : Timestamp) (n : MandateNode) : MandateNode :=
  mn_set_buffer (projected n now - amount) (Z.max (mn_last_accrual n) now) n.
Definition charge_all (chain : list MandateId) (amount : Amount) (now : Timestamp)
    (t : MandateTree) : MandateTree :=
  map_imap (λ id n, Some (if bool_decide (id ∈ chain) then charge amount now n else n)) t.

Lemma charge_all_lookup chain a now t id :
  charge_all chain a now t !! id =
  (λ n, if bool_decide (id ∈ chain) then charge a now n else n) <$> t !! id.
Proof. unfold charge_all. rewrite map_lookup_imap. by destruct (t !! id). Qed.
Lemma charge_all_links chain a now t : same_links t (charge_all chain a now t).
Proof.
  intros id. rewrite charge_all_lookup. destruct (t !! id) as [n|]; [|done]. simpl.
  by destruct (bool_decide _).
Qed.

Lemma drip_le n dt : drip n dt ≤ mn_buffer_max n.
Proof. unfold drip. lia. Qed.
Lemma drip_nonneg n dt : node_ok n → 0 ≤ dt → 0 ≤ drip n dt.
Proof.
  intros (Hr & Hm & Hp & Hb & _) Hdt. unfold drip, sat_add, sat_mul, in_u128 in *.
  assert (0 ≤ u128_max) by (unfold u128_max; lia). nia.
Qed.
Lemma drip_0 n : node_ok n → drip n 0 = mn_buffer n.
Proof.
  intros (Hr & Hm & Hp & Hb & _). unfold drip, sat_add, sat_mul, in_u128 in *.
  rewrite Z.mul_0_r. lia.
Qed.
Lemma projected_bounds n now : node_ok n → 0 ≤ projected n now ≤ mn_buffer_max n.
Proof.
  intros Hn. split; [|apply drip_le]. apply drip_nonneg; [done|unfold sat_sub; lia].
Qed.
Lemma accrue_projected n now :
  node_ok n → mn_buffer (accrue n now) = projected n now ∧
  mn_last_accrual (accrue n now) = Z.max (mn_last_accrual n) now.
Proof.
  intros Hn. unfold accrue, projected. destruct (Z.ltb_spec (mn_last_accrual n) now); simpl.
  - split; [|lia]. f_equal. unfold sat_sub. lia.
  - split; [|lia]. replace (sat_sub _ _) with 0 by (unfold sat_sub; lia). by rewrite drip_0.
Qed.

(** The node step of the loop of [spend] is [charge]: the subtraction never
    wraps once [check] has accepted. *)
Lemma debit_node n a now :
  node_ok n → node_allows n a now → 0 ≤ a →
  mn_set_buffer (wrapping u128_max (mn_buffer (accrue n now) - a))
    (mn_last_accrual (accrue n now)) (accrue n now) = charge a now n.
Proof.
  intros Hn (_ & _ & _ & Ha) H0. destruct (accrue_projected n now Hn) as [-> ->].
  rewrite wrapping_small.
  - unfold charge, accrue. destruct (Z.ltb_spec (mn_last_accrual n) now); done.
  - pose proof (projected_bounds n now Hn). destruct Hn as (_ & Hm & _).
    unfold in_u128 in *. lia.
Qed.

Lemma debit_chain_spec chain a now t :
  NoDup chain → 0 ≤ a →
  Forall (λ id, ∃ n, t !! id = Some n ∧ node_allows n a now ∧ node_ok n) chain →
  debit_chain chain a now t = (charge_all chain a now t, Ok tt).
Proof.
  intros Hnd Ha. revert t. induction Hnd as [|id rest Hid Hnd IH]; intros t Hall.
  - simpl. unfold retM. f_equal. apply map_eq. intros id. rewrite charge_all_lookup.
    rewrite bool_decide_eq_false_2 by set_solver. by destruct (t !! id).
  - apply Forall_cons in Hall as [(n & Hn & Hal & Hok) Hall].
    cbn [debit_chain]. unfold bindM, getM, expect. rewrite Hn. simpl. unfold modifyM.
    rewrite debit_node by done. rewrite IH.
    + f_equal. apply map_eq. intros x. rewrite !charge_all_lookup.
      destruct (decide (x = id)) as [->|Hx].
      * rewrite lookup_insert_eq, Hn. simpl. rewrite bool_decide_eq_false_2 by done.
        by rewrite bool_decide_eq_true_2 by set_solver.
      * rewrite lookup_insert_ne by done. f_equiv.
        destruct (decide (x ∈ rest)) as [Hi|Hi].
        -- by rewrite !bool_decide_eq_true_2 by set_solver.
        -- by rewrite !bool_decide_eq_false_2 by set_solver.
    + rewrite Forall_forall in *. intros x Hx. rewrite lookup_insert_ne; [by apply Hall|].
      intros ->. done.
Qed.

Lemma node_ok_lookup t id n : tree_ok t → t !! id = Some n → node_ok n.
Proof. intros Ht Hn. by apply (Ht id n Hn). Qed.

(** The accepted spend, as a function. *)
Lemma spend_accepted t leaf chain a now :
  tree_ok t → 0 ≤ a → chain_of t leaf = Ok chain → check t leaf a now = Ok tt →
  spend leaf a now t = (charge_all chain a now t, Ok tt).
Proof.
  intros Ht Ha Hc Hk. unfold spend, bindM, readM. rewrite Hk, Hc. simpl.
  apply debit_chain_spec; [|done|].
  - apply chain_of_ancestry in Hc as [Hc _]. by eapply ancestry_nodup.
  - apply check_ok in Hk as (c' & Hc' & Hall). rewrite Hc in Hc'. injection Hc' as <-.
    rewrite Forall_forall in *. intros id Hid. destruct (Hall id Hid) as (n & Hn & Hal).
    eauto using node_ok_lookup.
Qed.
Lemma spend_refused t leaf a now e :
  check t leaf a now = Err e → spend leaf a now t = (t, Err e).
Proof. intros H. unfold spend, bindM, readM. by rewrite H. Qed.

(** ** Preservation *)

Lemma charge_ok n a now :
  node_ok n → 0 ≤ a → in_u64 now → node_allows n a now → node_ok (charge a now n).
Proof.
  intros Hn Ha Hnow (_ & _ & _ & Hle). pose proof (projected_bounds n now Hn).
  destruct Hn as (? & ? & ? & ? & ? & ?). unfold node_ok, charge; simpl.
  split_and!; try done; unfold in_u64 in *; lia.
Qed.
Lemma spend_tree_ok t leaf a now t' r :
  tree_ok t → 0 ≤ a → in_u64 now → spend leaf a now t = (t', r) → tree_ok t'.
Proof.
  intros Ht Ha Hnow Hs. destruct (check t leaf a now) as [[]|e|] eqn:Hk.
  - pose proof Hk as Hk'. apply check_ok in Hk' as (chain & Hc & Hall).
    rewrite (spend_accepted t leaf chain a now) in Hs by done. simplify_eq.
    intros id n. rewrite charge_all_lookup. destruct (t !! id) as [m|] eqn:Hm; [|done].
    simpl. intros [= <-]. destruct (Ht id m Hm) as [Hid Hok].
    case_bool_decide as Hin; [|done]. split; [done|].
    rewrite Forall_forall in Hall. destruct (Hall id Hin) as (m' & Hm' & Hal).
    simplify_eq. by apply charge_ok.
  - rewrite (spend_refused _ _ _ _ _ Hk) in Hs. by simplify_eq.
  - by apply check_nopanic in Hk.
Qed.

(** ** Insert and revoke *)

Lemma insert_node_ok node t t' u :
  insert_node node t = (t', Ok u) →
  t' = <[mn_id node := node]> t ∧
  ∀ pid, mn_parent node = Some pid → ∃ p, t !! pid = Some p ∧ attenuated node p.
Proof.
  unfold insert_node. intros H. destruct (mn_parent node) as [pid|] eqn:Hp; mrun; [|done].
  split; [done|]. intros ? [= <-].
  repeat match goal with H : (_ <? _) = false |- _ => apply Z.ltb_ge in H end.
  eexists. split; [done|]. by split.
Qed.
Lemma insert_node_refused node t t' r :
  insert_node node t = (t', r) → is_ok r = false → t' = t ∧ ∃ e, r = Err e.
Proof.
  unfold insert_node, bindM, getM, ok_or, refuse_if, modifyM, retM, failM.
  repeat case_match; naive_solver.
Qed.
Lemma check_asset_bound_ok t node :
  check_asset_bound t node = Ok tt ↔
  ∀ pid, mn_parent node = Some pid → ∃ p, t !! pid = Some p ∧ mn_asset node = mn_asset p.
Proof.
  unfold check_asset_bound. destruct (mn_parent node) as [pid|]; [|naive_solver].
  destruct (t !! pid) as [p|] eqn:Hp; simpl.
  - case_bool_decide; simpl; naive_solver.
  - split; [done|]. intros H. destruct (H pid eq_refl) as (p & ? & _). congruence.
Qed.
Lemma insert_asset_bound_ok node t t' u :
  insert_asset_bound node t = (t', Ok u) →
  insert_node node t = (t', Ok u) ∧ check_asset_bound t node = Ok tt.
Proof. unfold insert_asset_bound. intros H. mrun. by destruct x0. Qed.
(** After a passed asset check, [insert_asset_bound] is [insert]. *)
Lemma insert_asset_bound_eq node t :
  check_asset_bound t node = Ok tt → insert_asset_bound node t = insert_node node t.
Proof. intros H. unfold insert_asset_bound, bindM, readM. by rewrite H. Qed.

Lemma revoke_spec id t :
  revoke id t = match t !! id with
                | Some n => (<[id := mn_set_revoked true n]> t, Ok tt)
                | None => (t, Err NotFound)
                end.
Proof. unfold revoke, bindM, getM, ok_or, modifyM, retM, failM. by destruct (t !! id). Qed.

(** ** How a tree evolves

    The policy of a node never changes, a revoked node stays revoked, no node
    disappears. *)
Definition static (n : MandateNode) : MandateNode :=
  mn_set_buffer 0 0 (mn_set_revoked false n).
Definition evolves (t t' : MandateTree) : Prop :=
  ∀ id n, t !! id = Some n → ∃ n', t' !! id = Some n' ∧ static n' = static n ∧
    (mn_revoked n = true → mn_revoked n' = true).

#[export] Instance evolves_preorder : PreOrder evolves.
Proof.
  split; [intros t id n Hn; eauto|].
  intros t1 t2 t3 H1 H2 id n Hn. destruct (H1 id n Hn) as (n2 & Hn2 & Hs2 & Hr2).
  destruct (H2 id n2 Hn2) as (n3 & Hn3 & Hs3 & Hr3).
  exists n3. split_and!; [done|congruence|auto].
Qed.

Lemma static_fields n n' :
  static n = static n' →
  mn_id n = mn_id n' ∧ mn_parent n = mn_parent n' ∧ mn_holder_key n = mn_holder_key n' ∧
  mn_asset n = mn_asset n' ∧ mn_rate_per_sec n = mn_rate_per_sec n' ∧
  mn_buffer_max n = mn_buffer_max n' ∧ mn_per_tx_max n = mn_per_tx_max n' ∧
  mn_expiry n = mn_expiry n'.
Proof. destruct n, n'. unfold static; simpl. by intros [= -> -> -> -> -> -> -> -> -> ->]. Qed.

Lemma evolves_charge_all chain a now t : evolves t (charge_all chain a now t).
Proof.
  intros id n Hn. rewrite charge_all_lookup, Hn. simpl. eexists. split; [done|].
  by destruct (bool_decide _).
Qed.
Lemma evolves_insert node t : t !! mn_id node = None → evolves t (<[mn_id node := node]> t).
Proof.
  intros Hf id n Hn. exists n. rewrite lookup_insert_ne by congruence. eauto.
Qed.
Lemma evolves_revoke id t t' r : revoke id t = (t', r) → evolves t t'.
Proof.
  rewrite revoke_spec. destruct (t !! id) as [m|] eqn:Hm; [|intros; by simplify_eq].
  intros. simplify_eq. intros x n Hn. destruct (decide (x = id)) as [->|].
  - rewrite lookup_insert_eq. simplify_eq. eauto.
  - rewrite lookup_insert_ne by done. eauto.
Qed.
Lemma ancestry_evolves t t' id c : evolves t t' → ancestry t id c → ancestry t' id c.
Proof.
  intros He. induction 1 as [id n Hn Hp|id n p rest Hn Hp H IH];
    destruct (He id n Hn) as (n' & Hn' & Hs & _); apply static_fields in Hs;
    destruct Hs as (_ & Hpar & _).
  - apply (ancestry_root _ _ n'); [done|congruence].
  - apply (ancestry_step _ _ n' p); [done|congruence|done].
Qed.

(** A revoked node on the path of a leaf refuses every spend of that leaf, now
    and in every later tree. *)
Lemma revoked_refuses t t' leaf c anc n a now :
  evolves t t' → ancestry t leaf c → anc ∈ c →
  t !! anc = Some n → mn_revoked n = true → check t' leaf a now ≠ Ok tt.
Proof.
  intros He Hc Hin Hn Hr Hk. apply check_ok in Hk as (c' & Hc' & Hall).
  apply chain_of_ancestry in Hc' as [Hc' _].
  pose proof (ancestry_det _ _ _ _ (ancestry_evolves _ _ _ _ He Hc) Hc') as <-.
  rewrite Forall_forall in Hall. destruct (Hall anc Hin) as (n' & Hn' & Hnr & _).
  destruct (He anc n Hn) as (n'' & Hn'' & _ & Hr'). rewrite Hn' in Hn''. injection Hn'' as <-.
  rewrite (Hr' Hr) in Hnr. done.
Qed.

(** Attenuation and asset binding, along the whole path. *)
Lemma links_ok_static b t t' :
  (∀ id, static <$> t !! id = static <$> t' !! id) → links_ok b t → links_ok b t'.
Proof.
  intros Hst Hl id n' Hn' pid Hp. pose proof (Hst id) as Hid. rewrite Hn' in Hid.
  destruct (t !! id) as [n|] eqn:Hn; [|done]. apply (inj Some) in Hid.
  pose proof (static_fields _ _ Hid) as F.
  destruct F as (F1 & F2 & F3 & F4 & F5 & F6 & F7 & F8).
  destruct (Hl id n Hn pid) as (p & Hpp & [Ha1 Ha2] & Hb); [congruence|].
  pose proof (Hst pid) as Hpid. rewrite Hpp in Hpid.
  destruct (t' !! pid) as [p'|]; [|done]. apply (inj Some) in Hpid.
  pose proof (static_fields _ _ Hpid) as (G1 & G2 & G3 & G4 & G5 & G6 & G7 & G8).
  exists p'. unfold attenuated in *. split_and!; [done|congruence..|].
  intros Hbt. specialize (Hb Hbt). congruence.
Qed.
Lemma links_ok_insert b node t :
  t !! mn_id node = None →
  (∀ pid, mn_parent node = Some pid → ∃ p, t !! pid = Some p ∧ attenuated node p ∧
      (b = true → mn_asset node = mn_asset p)) →
  links_ok b t → links_ok b (<[mn_id node := node]> t).
Proof.
  intros Hf Hnew Hl id n. destruct (decide (id = mn_id node)) as [->|Hne].
  - rewrite lookup_insert_eq. intros [= <-] pid Hp. destruct (Hnew pid Hp) as (p & Hpp & ?).
    exists p. rewrite lookup_insert_ne by congruence. done.
  - rewrite lookup_insert_ne by done. intros Hn pid Hp.
    destruct (Hl id n Hn pid Hp) as (p & Hpp & ?).
    exists p. rewrite lookup_insert_ne by congruence. done.
Qed.
Lemma links_ok_ancestry b t leaf c x n m :
  links_ok b t → ancestry t leaf c → x ∈ c → t !! leaf = Some n → t !! x = Some m →
  attenuated n m ∧ (b = true → mn_asset n = mn_asset m).
Proof.
  intros Hl Hc. revert n.
  induction Hc as [id k Hk Hp|id k p rest Hk Hp Hr IH]; intros n Hx Hn Hm;
    rewrite Hk in Hn; injection Hn as <-.
  - assert (x = id) as -> by set_solver. rewrite Hk in Hm. injection Hm as <-.
    unfold attenuated. split; [lia|done].
  - apply elem_of_cons in Hx as [->|Hx].
    { rewrite Hk in Hm. injection Hm as <-. unfold attenuated. split; [lia|done]. }
    destruct (Hl _ _ Hk _ Hp) as (q & Hq & [? ?] & Hb).
    destruct (IH q Hx Hq Hm) as [[? ?] Hb']. unfold attenuated.
    split; [lia|]. intros Ht. etrans; [by apply Hb|by apply Hb'].
Qed.

(** Every node has a path to a root: the tree has no cycle. *)
Definition grounded (t : MandateTree) : Prop :=
  ∀ id, is_Some (t !! id) → ∃ c, ancestry t id c.
Lemma grounded_insert node t :
  t !! mn_id node = None →
  (∀ pid, mn_parent node = Some pid → is_Some (t !! pid)) →
  grounded t → grounded (<[mn_id node := node]> t).
Proof.
  intros Hf Hpar Hg id Hid. pose proof (evolves_insert node t Hf) as He.
  destruct (decide (id = mn_id node)) as [->|Hne].
  - destruct (mn_parent node) as [p|] eqn:Hp.
    + destruct (Hg p (Hpar p eq_refl)) as [c Hc]. exists (mn_id node :: c).
      eapply ancestry_step; [apply lookup_insert_eq|done|by eapply ancestry_evolves].
    + exists [mn_id node]. eapply ancestry_root; [apply lookup_insert_eq|done].
  - rewrite lookup_insert_ne in Hid by done. destruct (Hg id Hid) as [c Hc].
    exists c. by eapply ancestry_evolves.
Qed.
Lemma grounded_evolves t t' :
  evolves t t' → (∀ id, is_Some (t' !! id) → is_Some (t !! id)) → grounded t → grounded t'.
Proof.
  intros He Hd Hg id Hid. destruct (Hg id (Hd id Hid)) as [c Hc].
  exists c. by eapply ancestry_evolves.
Qed.

(** ** Budgets over time *)

(** What a spend of [a] by [leaf] draws on the node [id]. *)
Definition drawn_on (t : MandateTree) (leaf id : MandateId) (a : Amount) : Z :=
  match chain_of t leaf with
  | Ok chain => if bool_decide (id ∈ chain) then a else 0
  | _ => 0
  end.

(** Waiting adds at most the drip rate. *)
Lemma projected_later n now now' :
  node_ok n → now ≤ now' → projected n now' ≤ projected n now + mn_rate_per_sec n * (now' - now).
Proof.
  intros (Hr & Hm & _ & Hb & _) Hle.
  unfold projected, drip, sat_add, sat_mul, sat_sub, in_u128 in *.
  set (l := mn_last_accrual n). set (r := mn_rate_per_sec n) in *.
  assert (Z.max (now' - l) 0 ≤ Z.max (now - l) 0 + (now' - now)) as H1 by lia.
  assert (r * Z.max (now' - l) 0 ≤ r * Z.max (now - l) 0 + r * (now' - now)) as H2 by nia.
  assert (0 ≤ r * (now' - now)) as H3 by nia. lia.
Qed.
Lemma projected_charge n a now :
  node_ok n → 0 ≤ a → a ≤ projected n now →
  projected (charge a now n) now = projected n now - a.
Proof.
  intros Hn Ha Hle. pose proof (projected_bounds n now Hn) as Hb.
  unfold projected at 1, drip, charge, sat_add, sat_mul; simpl.
  replace (sat_sub now (Z.max (mn_last_accrual n) now)) with 0 by (unfold sat_sub; lia).
  rewrite Z.mul_0_r. destruct Hn as (_ & Hm & _). unfold in_u128 in Hm.
  assert (0 ≤ u128_max) by (unfold u128_max; lia). lia.
Qed.

(** An accepted spend takes its amount out of the head-room of every node of the
    chain, and of no other node. *)
Lemma spend_headroom t leaf a now t' u id n :
  tree_ok t → 0 ≤ a → spend leaf a now t = (t', Ok u) → t !! id = Some n →
  ∃ n', t' !! id = Some n' ∧ static n' = static n ∧
    projected n' now = projected n now - drawn_on t leaf id a.
Proof.
  intros Ht Ha Hs Hn. destruct (check t leaf a now) as [[]|e|] eqn:Hk.
  2: { rewrite (spend_refused _ _ _ _ _ Hk) in Hs. done. }
  2: { by apply check_nopanic in Hk. }
  pose proof Hk as Hk'. apply check_ok in Hk' as (chain & Hc & Hall).
  rewrite (spend_accepted t leaf chain a now) in Hs by done. injection Hs as <-.
  rewrite charge_all_lookup, Hn. simpl. eexists. split; [done|].
  unfold drawn_on. rewrite Hc. case_bool_decide as Hin; [|split; [done|lia]].
  split; [done|]. rewrite Forall_forall in Hall.
  destruct (Hall id Hin) as (n' & Hn' & _ & _ & _ & Hle). simplify_eq.
  apply projected_charge; [|done..]. by eapply node_ok_lookup.
Qed.

Lemma spend_evolves t leaf a now t' r :
  tree_ok t → 0 ≤ a → spend leaf a now t = (t', r) →
  evolves t t' ∧ (∀ id, static <$> t' !! id = static <$> t !! id).
Proof.
  intros Ht Ha Hs. destruct (check t leaf a now) as [[]|e|] eqn:Hk.
  - pose proof Hk as Hk'. apply check_ok in Hk' as (chain & Hc & Hall).
    rewrite (spend_accepted t leaf chain a now) in Hs by done. injection Hs as <- _.
    split; [apply evolves_charge_all|]. intros id. rewrite charge_all_lookup.
    destruct (t !! id); [|done]. simpl. by destruct (bool_decide _).
  - rewrite (spend_refused _ _ _ _ _ Hk) in Hs. injection Hs as <- _. done.
  - by apply check_nopanic in Hk.
Qed.
Lemma spend_nopanic t leaf a now t' :
  tree_ok t → 0 ≤ a → spend leaf a now t ≠ (t', Panic).
Proof.
  intros Ht Ha Hs. destruct (check t leaf a now) as [[]|e|] eqn:Hk.
  - pose proof Hk as Hk'. apply check_ok in Hk' as (chain & Hc & Hall).
    by rewrite (spend_accepted t leaf chain a now) in Hs by done.
  - by rewrite (spend_refused _ _ _ _ _ Hk) in Hs.
  - by apply check_nopanic in Hk.
Qed.

(** ** What a wallet shows *)

Lemma available_from_spec t d chain now avail r :
  Forall (λ id, is_Some (t !! id)) chain →
  available_from t d chain now avail = r →
  match r with
  | Ok v => v ≤ avail ∧ ∀ a, a ≤ avail →
      (Forall (λ id, ∃ n, t !! id = Some n ∧ node_allows n a now) chain ↔ a ≤ v)
  | Err _ => ∀ a, ¬ Forall (λ id, ∃ n, t !! id = Some n ∧ node_allows n a now) chain
  | Panic => False
  end.
Proof.
  intros Hall. revert d avail. induction Hall as [|id rest [n Hn] _ IH]; intros d avail Hr.
  - simpl in Hr. subst r. split; [lia|]. intros a Ha. split; [done|by constructor].
  - simpl in Hr. rewrite Hn in Hr. unfold node_allows in *.
    destruct (mn_revoked n) eqn:Hv.
    { subst r. intros a. rewrite Forall_cons. intros [(m & Hm & Hf & _) _].
      rewrite Hn in Hm. injection Hm as <-. congruence. }
    destruct (Z.leb_spec (mn_expiry n) now) as [He|He].
    { subst r. intros a. rewrite Forall_cons. intros [(m & Hm & _ & ? & _) _].
      rewrite Hn in Hm. injection Hm as <-. lia. }
    specialize (IH _ _ Hr). destruct r as [v|e|].
    + destruct IH as [Hle IH]. split; [lia|]. intros a Ha. rewrite Forall_cons.
      destruct (Z.le_gt_cases a (Z.min (Z.min avail (projected n now)) (mn_per_tx_max n))) as [Hm|Hm].
      * rewrite <-(IH a Hm). split; [intros [_ ?]; done|].
        intros ?. split; [|done]. exists n. split_and!; [done..|lia|lia].
      * split; [|lia]. intros [(m & Hm' & _ & _ & ? & ?) _].
        rewrite Hn in Hm'. injection Hm' as <-. lia.
    + intros a. rewrite Forall_cons. intros [_ ?]. by eapply IH.
    + done.
Qed.
