(* ===== verification/Merkle.v ===== *)
(** Merkle trees over a padded leaf sequence: the specification shared by the
    commitment tree (chain/crates/hk-state/src/pool.rs) and the spend tree
    (zkvm-bakeoff/circuit), and the path fold of the circuit. *)

From S2P Require Export Primitives.

Section merkle.
Context (node : H256 → H256 → H256).

(** The empty ladder: E[0] is the zero leaf, E[l+1] = node(E[l], E[l]). *)
Definition ladder (l : nat) : H256 := Nat.iter l (λ e, node e e) zero_h256.

(** The circuit's fold of an authentication path: bit [level] of [index]
    selects the side. *)
Fixpoint fold_path (index : Z) (level : nat) (siblings : list H256) (cur : H256) : H256 :=
  match siblings with
  | [] => cur
  | sib :: rest =>
      let go_right := Z.land (Z.shiftr index (Z.of_nat level)) 1 =? 1 in
      fold_path index (S level) rest (if go_right then node sib cur else node cur sib)
  end.

(** Specification: the node at [level] and position [i] of the perfect tree
    whose leaf sequence is [leaves] followed by zero leaves for ever. *)
Fixpoint node_at (leaves : list H256) (level : nat) (i : Z) : H256 :=
  match level with
  | O => default zero_h256 (leaves !! Z.to_nat i)
  | S l => node (node_at leaves l (2 * i)) (node_at leaves l (2 * i + 1))
  end.

Lemma ladder_S l : ladder (S l) = node (ladder l) (ladder l).
Proof. done. Qed.

Lemma node_at_empty leaves l i :
  0 ≤ i → Z.of_nat (length leaves) ≤ i * 2 ^ Z.of_nat l → node_at leaves l i = ladder l.
Proof.
  revert i. induction l as [|l IH]; intros i Hi Hle; simpl.
  - rewrite lookup_ge_None_2; [done|]. simpl in Hle. lia.
  - rewrite Nat2Z.inj_succ, Z.pow_succ_r in Hle by lia.
    rewrite !IH by nia. done.
Qed.
Lemma node_at_prefix leaves more l i :
  0 ≤ i → (i + 1) * 2 ^ Z.of_nat l ≤ Z.of_nat (length leaves) →
  node_at (leaves ++ more) l i = node_at leaves l i.
Proof.
  revert i. induction l as [|l IH]; intros i Hi Hle; simpl.
  - simpl in Hle. by rewrite lookup_app_l by lia.
  - rewrite Nat2Z.inj_succ, Z.pow_succ_r in Hle by lia.
    rewrite !IH by nia. done.
Qed.

(** Parity of a position and its parent. *)
Lemma shiftr_succ n l : 0 ≤ n → Z.shiftr n (Z.of_nat (S l)) = Z.shiftr n (Z.of_nat l) / 2.
Proof.
  intros Hn. rewrite Nat2Z.inj_succ, <-Z.add_1_r, <-Z.shiftr_shiftr by lia.
  by rewrite (Z.shiftr_div_pow2 _ 1) by lia.
Qed.
Lemma land_1_odd k : (Z.land k 1 =? 1) = Z.odd k.
Proof.
  pose proof (Z.land_ones k 1 ltac:(lia)) as E. change (Z.ones 1) with 1 in E.
  rewrite E. change (2 ^ 1) with 2. rewrite Zmod_odd. by destruct (Z.odd k).
Qed.
Lemma odd_half k : Z.odd k = true → k = 2 * (k / 2) + 1.
Proof. intros H. rewrite (Z_div_mod_eq_full k 2) at 1. rewrite Zmod_odd, H. lia. Qed.
Lemma even_half k : Z.odd k = false → k = 2 * (k / 2).
Proof. intros H. rewrite (Z_div_mod_eq_full k 2) at 1. rewrite Zmod_odd, H. lia. Qed.
Lemma lxor_1 k : Z.lxor k 1 = if Z.odd k then k - 1 else k + 1.
Proof.
  assert (∀ h, Z.lxor (2 * h) 1 = 2 * h + 1) as Hev.
  { intros h. rewrite <-Z.add_nocarry_lxor; [done|]. apply Z.bits_inj_iff'. intros n Hn.
    rewrite Z.land_spec, Z.bits_0. destruct (Z.eq_dec n 0) as [->|].
    - by rewrite Z.testbit_even_0.
    - rewrite (Z.bits_above_log2 1) by (simpl; lia). by rewrite andb_false_r. }
  destruct (Z.odd k) eqn:Ho.
  - rewrite (odd_half k Ho). rewrite <-Hev, Z.lxor_assoc, Z.lxor_nilpotent, Z.lxor_0_r, Hev. lia.
  - rewrite (even_half k Ho). by rewrite Hev.
Qed.

(** A path whose siblings are the siblings of the specification tree folds to
    the ancestor of the leaf. *)
Lemma fold_path_node_at leaves index level siblings :
  0 ≤ index →
  (∀ j sib, siblings !! j = Some sib →
    sib = node_at leaves (level + j) (Z.lxor (Z.shiftr index (Z.of_nat (level + j))) 1)) →
  fold_path index level siblings (node_at leaves level (Z.shiftr index (Z.of_nat level))) =
  node_at leaves (level + length siblings)
    (Z.shiftr index (Z.of_nat (level + length siblings))).
Proof.
  intros Hi. revert level. induction siblings as [|sib rest IH]; intros level Hs.
  - simpl. by rewrite Nat.add_0_r.
  - cbn [fold_path length]. rewrite land_1_odd.
    pose proof (Hs 0%nat sib eq_refl) as Hsib. rewrite Nat.add_0_r in Hsib.
    set (k := Z.shiftr index (Z.of_nat level)) in *.
    assert ((if Z.odd k then node sib (node_at leaves level k)
             else node (node_at leaves level k) sib) =
            node_at leaves (S level) (Z.shiftr index (Z.of_nat (S level)))) as ->.
    { rewrite shiftr_succ by done. fold k. subst sib. rewrite lxor_1. cbn [node_at].
      destruct (Z.odd k) eqn:Ho.
      - rewrite <-(odd_half k Ho). do 2 f_equal. rewrite (odd_half k Ho) at 1. lia.
      - rewrite <-(even_half k Ho). done. }
    rewrite IH.
    + by rewrite Nat.add_succ_comm.
    + intros j s Hj. rewrite (Hs (S j) s Hj). by rewrite Nat.add_succ_comm.
Qed.

(** The sibling list of leaf [index] in the specification tree. *)
Definition tree_path (leaves : list H256) (depth : nat) (index : Z) : list H256 :=
  (λ j, node_at leaves j (Z.lxor (Z.shiftr index (Z.of_nat j)) 1)) <$> seq 0 depth.
Lemma length_tree_path leaves depth index : length (tree_path leaves depth index) = depth.
Proof. unfold tree_path. by rewrite length_fmap, length_seq. Qed.
Lemma tree_path_lookup leaves depth index j sib :
  tree_path leaves depth index !! j = Some sib →
  sib = node_at leaves j (Z.lxor (Z.shiftr index (Z.of_nat j)) 1).
Proof.
  unfold tree_path. rewrite list_lookup_fmap.
  destruct (seq 0 depth !! j) as [k|] eqn:Hk; [|done].
  apply lookup_seq in Hk as [-> _]. by intros [= <-].
Qed.
Lemma shiftr_small index depth :
  0 ≤ index < 2 ^ Z.of_nat depth → Z.shiftr index (Z.of_nat depth) = 0.
Proof. intros H. rewrite Z.shiftr_div_pow2 by lia. by apply Z.div_small. Qed.
Lemma fold_tree_path leaves depth index leaf siblings :
  0 ≤ index < 2 ^ Z.of_nat depth → default zero_h256 (leaves !! Z.to_nat index) = leaf →
  siblings = tree_path leaves depth index →
  fold_path index 0 siblings leaf = node_at leaves depth 0.
Proof.
  intros Hi <- ->.
  pose proof (fold_path_node_at leaves index 0 (tree_path leaves depth index) (proj1 Hi)) as H.
  simpl in H. rewrite length_tree_path, (shiftr_small index depth) in H by done. apply H.
  intros j sib. apply tree_path_lookup.
Qed.

(** The same tree, evaluated without visiting empty subtrees. *)
Fixpoint node_at_fast (leaves : list H256) (level : nat) (i : Z) : H256 :=
  if Z.of_nat (length leaves) <=? i * 2 ^ Z.of_nat level then ladder level
  else match level with
       | O => default zero_h256 (leaves !! Z.to_nat i)
       | S l => node (node_at_fast leaves l (2 * i)) (node_at_fast leaves l (2 * i + 1))
       end.
Lemma node_at_fast_eq leaves level i :
  0 ≤ i → node_at_fast leaves level i = node_at leaves level i.
Proof.
  revert i. induction level as [|l IH]; intros i Hi; cbn [node_at_fast];
    case_match eqn:E; try (apply Z.leb_le in E; symmetry; by apply node_at_empty).
  - done.
  - cbn [node_at]. by rewrite !IH by lia.
Qed.
Definition tree_path_fast (leaves : list H256) (depth : nat) (index : Z) : list H256 :=
  (λ j, node_at_fast leaves j (Z.lxor (Z.shiftr index (Z.of_nat j)) 1)) <$> seq 0 depth.
Lemma tree_path_fast_eq leaves depth index :
  0 ≤ index → tree_path_fast leaves depth index = tree_path leaves depth index.
Proof.
  intros Hi. apply list_fmap_ext. intros k j _. apply node_at_fast_eq.
  apply Z.lxor_nonneg. split; [intros _|intros _]; [lia|by apply Z.shiftr_nonneg].
Qed.

(** Two paths that fold to one root start at one leaf and have the same
    siblings, when the node hash does not collide on the pairs hashed. *)
Fixpoint fold_trace (index : Z) (level : nat) (siblings : list H256) (cur : H256)
    : list (H256 * H256) :=
  match siblings with
  | [] => []
  | sib :: rest =>
      let pair := if Z.land (Z.shiftr index (Z.of_nat level)) 1 =? 1
                  then (sib, cur) else (cur, sib) in
      pair :: fold_trace index (S level) rest (node pair.1 pair.2)
  end.
Lemma fold_path_trace index level sib rest cur :
  let pair := if Z.land (Z.shiftr index (Z.of_nat level)) 1 =? 1
              then (sib, cur) else (cur, sib) in
  fold_path index level (sib :: rest) cur = fold_path index (S level) rest (node pair.1 pair.2).
Proof. simpl. by destruct (_ =? 1). Qed.
Lemma fold_path_inj index level s1 s2 a b (P : H256 * H256 → Prop) :
  (∀ p q, P p → P q → node p.1 p.2 = node q.1 q.2 → p = q) →
  Forall P (fold_trace index level s1 a) → Forall P (fold_trace index level s2 b) →
  length s1 = length s2 → fold_path index level s1 a = fold_path index level s2 b →
  a = b ∧ s1 = s2.
Proof.
  intros HP. revert level s2 a b.
  induction s1 as [|x s1 IH]; intros level [|y s2] a b H1 H2 Hl H; try done.
  rewrite !fold_path_trace in H. cbn [fold_trace] in H1, H2.
  apply Forall_cons in H1 as [P1 H1], H2 as [P2 H2]. injection Hl as Hl.
  destruct (IH _ _ _ _ H1 H2 Hl H) as [Hn ->]. apply HP in Hn; [|done..].
  destruct (_ =? 1); by injection Hn as -> ->.
Qed.

(** Only the low bits of a position matter. *)
Lemma fold_path_low i i' level siblings cur :
  (∀ j, (level ≤ j < level + length siblings)%nat →
    Z.testbit i (Z.of_nat j) = Z.testbit i' (Z.of_nat j)) →
  fold_path i level siblings cur = fold_path i' level siblings cur.
Proof.
  revert level cur. induction siblings as [|sib rest IH]; intros level cur H; [done|].
  cbn [fold_path]. rewrite !land_1_odd, <-!Z.testbit_odd, H by (simpl; lia).
  apply IH. intros j Hj. apply H. simpl. lia.
Qed.
Lemma fold_path_mod i siblings cur :
  0 ≤ i →
  fold_path (i mod 2 ^ Z.of_nat (length siblings)) 0 siblings cur = fold_path i 0 siblings cur.
Proof.
  intros Hi. apply fold_path_low. intros j Hj. apply Z.mod_pow2_bits_low. lia.
Qed.

(** ** Level lists: what a wallet computes from the full leaf list *)

(** One level up: pairs, the last one padded. *)
Fixpoint pairs (pad : H256) (l : list H256) : list H256 :=
  match l with
  | [] => []
  | [a] => [node a pad]
  | a :: b :: rest => node a b :: pairs pad rest
  end.

(** [is_level leaves l lv]: [lv] lists the non-empty nodes of level [l]. *)
Definition is_level (leaves : list H256) (l : nat) (lv : list H256) : Prop :=
  ∀ i, 0 ≤ i → default (ladder l) (lv !! Z.to_nat i) = node_at leaves l i.

Lemma pairs_lookup pad lv i :
  node pad pad = node pad pad →
  default (node pad pad) (pairs pad lv !! i) =
  node (default pad (lv !! (2 * i)%nat)) (default pad (lv !! (2 * i + 1)%nat)).
Proof.
  intros _. revert lv. induction i as [|i IH]; intros lv.
  - by destruct lv as [|a [|b rest]].
  - destruct lv as [|a [|b rest]]; [done| |].
    + cbn [pairs]. rewrite (lookup_ge_None_2 [_]), !(lookup_ge_None_2 [a]) by (simpl; lia).
      done.
    + replace (2 * S i)%nat with (S (S (2 * i))) by lia.
      replace (S (S (2 * i)) + 1)%nat with (S (S (2 * i + 1))) by lia.
      simpl. apply IH.
Qed.
Lemma is_level_0 leaves : is_level leaves 0 leaves.
Proof. intros i Hi. done. Qed.
Lemma is_level_pairs leaves l lv :
  is_level leaves l lv → is_level leaves (S l) (pairs (ladder l) lv).
Proof.
  intros Hlv i Hi. rewrite ladder_S, pairs_lookup by done. cbn [node_at].
  rewrite <-!Hlv by lia. do 2 f_equal; do 2 f_equal; lia.
Qed.
Lemma pairs_nonempty pad lv : lv ≠ [] → pairs pad lv ≠ [].
Proof. by destruct lv as [|? [|? ?]]. Qed.
End merkle.
