(* ===== verification/Circuit.v ===== *)
(** The shielded-spend statement (zkvm-bakeoff/circuit/src/lib.rs) and the
    aggregate digest (src/agg.rs): WOTS one-time signatures, the spend tree of
    an address, note commitments and nullifiers, the relations [run] and
    [run_mint] that a proof attests. *)

From S2P Require Export Merkle Hash.
From S2P Require Import Toy.

Definition TREE_DEPTH : nat := 32.
Definition SPEND_TREE_DEPTH : nat := 10.
Definition WOTS_MSG_DIGITS : nat := 64.
Definition WOTS_CSUM_DIGITS : nat := 3.
Definition WOTS_CHAINS : nat := 67.
Definition WOTS_W : Z := 16.

Definition DOM_CM : byte := x01.
Definition DOM_NODE : byte := x02.
Definition DOM_PKD : byte := x03.
Definition DOM_NF : byte := x04.
Definition DOM_OTS : byte := x05.
Definition DOM_SK : byte := x06.
Definition DOM_TXBIND : byte := x07.
Definition DOM_OTS_NODE : byte := x08.
Definition DOM_ADDR : byte := x09.
Definition DOM_NK : byte := x0a.
Definition DOM_NK_SEED : byte := x0b.
Definition DOM_LEAF_SEED : byte := x0c.

Record Note := mkNote {
  note_value : Z;
  note_owner : H256;
  note_rho : H256;
  note_rcm : H256;
}.
Record MerklePath := mkPath { path_siblings : list H256; path_index : Z }.
Record WotsSig := mkWotsSig { ws_sig : list H256 }.
Record SpendWitness := mkSpendWitness {
  sw_in_note : Note;
  sw_path : MerklePath;
  sw_sig : WotsSig;
  sw_ots_path : MerklePath;
  sw_nk : H256;
  sw_out_note : Note;
  sw_out2_note : Note;
  sw_fee : Z;
  sw_tx_binding : H256;
}.
Record SpendPublic := mkSpendPublic {
  sp_merkle_root : H256;
  sp_nullifier : H256;
  sp_out_commitment : H256;
  sp_out2_commitment : H256;
  sp_fee : Z;
  sp_tx_binding : H256;
}.
#[export] Instance SpendPublic_eq_dec : EqDecision SpendPublic.
Proof. solve_decision. Defined.

Inductive SpendError :=
  | BadPathLength | BadOtsPath | BadSpendSig | OwnerMismatch | ValueConservation.
#[export] Instance SpendError_eq_dec : EqDecision SpendError.
Proof. solve_decision. Defined.

Record MintWitness := mkMintWitness { mw_note : Note }.
Record MintPublic := mkMintPublic { mp_commitment : H256; mp_value : Z }.
#[export] Instance MintPublic_eq_dec : EqDecision MintPublic.
Proof. solve_decision. Defined.

(** Message digits of a byte: the high nibble, then the low one. *)
Definition nibbles (b : byte) : list Z :=
  [Z.shiftr (byte_val b) 4; Z.land (byte_val b) 15].
Definition msg_digits (msg : H256) : list Z := concat (nibbles <$> h256_bytes msg).
(** The checksum loop [csum += (WOTS_W - 1) - digit] on a [u16]
    ([csum_bound] shows that it cannot overflow). *)
Definition checksum (ds : list Z) : Z := foldl (λ csum digit, csum + (WOTS_W - 1 - digit)) 0 ds.
Definition csum_digits (csum : Z) : list Z :=
  [Z.land (Z.shiftr csum 8) 15; Z.land (Z.shiftr csum 4) 15; Z.land csum 15].
Definition wots_digits (msg : H256) : list Z :=
  msg_digits msg ++ csum_digits (checksum (msg_digits msg)).

Section circuit.
Context {SHA2 : Sha2}.

Definition sha (parts : list bytes) : H256 := sha256 (concat parts).

(** ** Note commitments, nodes, nullifiers *)

Definition commit_note (n : Note) : H256 :=
  sha [[DOM_CM]; u64_le (note_value n); h256_bytes (note_owner n);
       h256_bytes (note_rho n); h256_bytes (note_rcm n)].
Definition merkle_node (left right : H256) : H256 :=
  sha [[DOM_NODE]; h256_bytes left; h256_bytes right].
Definition nullifier (nk rho : H256) : H256 := sha [[DOM_NF]; h256_bytes nk; h256_bytes rho].
Definition ots_node (left right : H256) : H256 :=
  sha [[DOM_OTS_NODE]; h256_bytes left; h256_bytes right].
Definition nk_commit (nk : H256) : H256 := sha [[DOM_NK]; h256_bytes nk].
Definition address_tag (spend_root nk : H256) : H256 :=
  sha [[DOM_ADDR]; h256_bytes spend_root; h256_bytes (nk_commit nk)].
Definition tx_binding_for (credit_account : H256) (fee : Z) : H256 :=
  sha [[DOM_TXBIND]; h256_bytes credit_account; u64_le fee].

(** [e[0] = 0; for l in 0..depth { e[l + 1] = node(e[l], e[l]) }] *)
Definition empty_ladder (node : H256 → H256 → H256) (depth : nat) : list H256 :=
  ladder node <$> seq 0 (S depth).
Definition empty_roots : list H256 := empty_ladder merkle_node TREE_DEPTH.
Definition ots_empty_roots : list H256 := empty_ladder ots_node SPEND_TREE_DEPTH.

(** ** WOTS *)

Definition wots_step (chain : Z) (x : H256) : H256 :=
  sha [[DOM_OTS]; [byte_of chain]; h256_bytes x].
Definition wots_chain (chain : Z) (x : H256) (n : Z) : H256 :=
  Nat.iter (Z.to_nat n) (wots_step chain) x.
Definition pk_digest (pk : list H256) : H256 := sha ([DOM_PKD] :: (h256_bytes <$> pk)).

Definition sk_chain (seed : bytes) (i : nat) : H256 :=
  sha [[DOM_SK]; seed; [byte_of (Z.of_nat i)]].
Definition wots_pk (seed : bytes) : list H256 :=
  (λ i, wots_chain (Z.of_nat i) (sk_chain seed i) (WOTS_W - 1)) <$> seq 0 WOTS_CHAINS.
Definition wots_owner (seed : bytes) : H256 := pk_digest (wots_pk seed).
Definition wots_sign (seed : bytes) (msg : H256) : WotsSig :=
  mkWotsSig ((λ i, wots_chain (Z.of_nat i) (sk_chain seed i)
                     (nth i (wots_digits msg) 0)) <$> seq 0 WOTS_CHAINS).
(** Complete every chain: the public key a signature leads to. *)
Definition recover_pk (sig : list H256) (msg : H256) : list H256 :=
  (λ i, wots_chain (Z.of_nat i) (nth i sig zero_h256)
          (WOTS_W - 1 - nth i (wots_digits msg) 0)) <$> seq 0 WOTS_CHAINS.
Definition wots_recover_owner (sig : list H256) (msg : H256) : option H256 :=
  if negb (length sig =? WOTS_CHAINS)%nat then None
  else Some (pk_digest (recover_pk sig msg)).

(** ** The spend tree of an address *)

Definition spend_leaf_seed (master : bytes) (index : Z) : H256 :=
  sha [[DOM_LEAF_SEED]; master; u32_le index].
(** [(0..(1u32 << h)).map(..)]; a release build shifts by [h mod 32]. *)
Definition spend_tree_leaves (master : bytes) (h : Z) : list H256 :=
  (λ i, wots_owner (h256_bytes (spend_leaf_seed master i))) <$> seqZ 0 (2 ^ (h mod 32)).

(** [level.chunks(2).map(|p| ots_node(&p[0], &p[1])).collect()]: an odd level panics. *)
Fixpoint up_level (level : list H256) : option (list H256) :=
  match level with
  | [] => Some []
  | [_] => None
  | a :: b :: rest => (λ r, ots_node a b :: r) <$> up_level rest
  end.
Fixpoint up_levels (h : nat) (level : list H256) : option (list H256) :=
  match h with
  | O => Some level
  | S h => level ← up_level level; up_levels h level
  end.
(** [for l in h..SPEND_TREE_DEPTH] *)
Definition upper_levels (h : Z) : list nat :=
  seq (Z.to_nat h) (SPEND_TREE_DEPTH - Z.to_nat h).

Definition spend_root (master : bytes) (h : Z) : option H256 :=
  level ← up_levels (Z.to_nat h) (spend_tree_leaves master h);
  root ← level !! 0%nat;
  Some (foldl (λ root l, ots_node root (nth l ots_empty_roots zero_h256)) root (upper_levels h)).

Definition derive_nk (master : bytes) : H256 := sha [[DOM_NK_SEED]; master].

(** The loop of [spend_auth] over the real levels; [idx] is the position, a
    sibling out of range panics. *)
Fixpoint auth_siblings (h : nat) (level : list H256) (idx : Z) : option (list H256) :=
  match h with
  | O => Some []
  | S h =>
      sib ← level !! Z.to_nat (Z.lxor idx 1);
      level ← up_level level;
      rest ← auth_siblings h level (Z.shiftr idx 1);
      Some (sib :: rest)
  end.
Definition spend_auth (master : bytes) (h index : Z) (msg : H256) : option (WotsSig * MerklePath) :=
  let sig := wots_sign (h256_bytes (spend_leaf_seed master index)) msg in
  real ← auth_siblings (Z.to_nat h) (spend_tree_leaves master h) index;
  Some (sig, mkPath (real ++ ((λ l, nth l ots_empty_roots zero_h256) <$> upper_levels h)) index).

(** ** The statements *)

Definition checked_sum (a b c : Z) : option Z :=
  outs ← checked u64_max (a + b); checked u64_max (outs + c).

Definition run (w : SpendWitness) : res SpendError SpendPublic :=
  if negb (length (path_siblings (sw_path w)) =? TREE_DEPTH)%nat then Err BadPathLength
  else if negb (length (path_siblings (sw_ots_path w)) =? SPEND_TREE_DEPTH)%nat then Err BadOtsPath
  else
    let cm_in := commit_note (sw_in_note w) in
    let merkle_root := fold_path merkle_node (path_index (sw_path w)) 0
                         (path_siblings (sw_path w)) cm_in in
    let? leaf := ok_orR (wots_recover_owner (ws_sig (sw_sig w)) (sw_tx_binding w)) BadSpendSig in
    let recovered_root := fold_path ots_node (path_index (sw_ots_path w)) 0
                            (path_siblings (sw_ots_path w)) leaf in
    if negb (bool_decide (address_tag recovered_root (sw_nk w) = note_owner (sw_in_note w)))
    then Err OwnerMismatch
    else
      let nf := nullifier (sw_nk w) (note_rho (sw_in_note w)) in
      let? total := ok_orR (checked_sum (note_value (sw_out_note w))
                              (note_value (sw_out2_note w)) (sw_fee w)) ValueConservation in
      if negb (note_value (sw_in_note w) =? total) then Err ValueConservation
      else Ok (mkSpendPublic merkle_root nf (commit_note (sw_out_note w))
                 (commit_note (sw_out2_note w)) (sw_fee w) (sw_tx_binding w)).

Definition run_mint (w : MintWitness) : MintPublic :=
  mkMintPublic (commit_note (mw_note w)) (note_value (mw_note w)).

(** The deterministic witness builders of the host harnesses. *)
Definition build_valid_spend (seed : byte) : option SpendWitness :=
  let master := [seed] in
  let tx_binding := sha [[xaa]; [seed]] in
  root ← spend_root master 2;
  let nk := derive_nk master in
  let owner := address_tag root nk in
  '(sig, ots_path) ← spend_auth master 2 0 tx_binding;
  let in_note := mkNote 1000 owner (sha [[x11]; [seed]]) (sha [[x22]; [seed]]) in
  let out_note := mkNote 700 (sha [[x33]; [seed]]) (sha [[x44]; [seed]]) (sha [[x66]; [seed]]) in
  let out2_note := mkNote 290 owner (sha [[x56]; [seed]]) (sha [[x78]; [seed]]) in
  let siblings := (λ l, sha [[x77]; [seed]; u32_le (Z.of_nat l)]) <$> seq 0 TREE_DEPTH in
  Some (mkSpendWitness in_note (mkPath siblings 0) sig ots_path nk out_note out2_note 10 tx_binding).
Definition build_valid_mint (seed : byte) (value : Z) : option MintWitness :=
  let master := [seed] in
  root ← spend_root master 2;
  let owner := address_tag root (derive_nk master) in
  Some (mkMintWitness (mkNote value owner (sha [[x55]; [seed]]) (sha [[x88]; [seed]]))).

(** ** Aggregation (agg.rs) *)

Definition KIND_SPEND : byte := x01.
Definition KIND_MINT : byte := x02.
Definition vkey_bytes (words : list Z) : bytes := concat (u32_le <$> words).
Definition agg_leaf_input (kind : byte) (vkey : list Z) (publics : bytes) : bytes :=
  concat [[kind]; vkey_bytes vkey; u32_be (Z.of_nat (length publics)); publics].
Definition agg_leaf (kind : byte) (vkey : list Z) (publics : bytes) : H256 :=
  sha256 (agg_leaf_input kind vkey publics).
Definition agg_digest_input (leaves : list H256) : bytes :=
  concat (u32_be (Z.of_nat (length leaves)) :: (h256_bytes <$> leaves)).
Definition agg_digest (leaves : list H256) : H256 := sha256 (agg_digest_input leaves).
End circuit.

(** * Lemmas *)

(** ** Digits and checksum *)

Lemma nibbles_bound b d : d ∈ nibbles b → 0 ≤ d < 16.
Proof.
  pose proof (byte_val_bound b) as Hb. unfold nibbles.
  rewrite Z.shiftr_div_pow2 by lia. change 15 with (Z.ones 4). rewrite Z.land_ones by lia.
  change (2 ^ 4) with 16. intros [->|[->|[]%elem_of_nil]%elem_of_cons]%elem_of_cons.
  - split; [apply Z.div_pos; lia|apply Z.div_lt_upper_bound; lia].
  - apply Z.mod_pos_bound. lia.
Qed.
Lemma nibbles_inj a b : nibbles a = nibbles b → a = b.
Proof.
  unfold nibbles. rewrite !Z.shiftr_div_pow2 by lia. change 15 with (Z.ones 4).
  rewrite !Z.land_ones by lia. intros [= H1 H2]. apply (inj byte_val).
  rewrite (Z_div_mod_eq_full (byte_val a) (2 ^ 4)), (Z_div_mod_eq_full (byte_val b) (2 ^ 4)).
  congruence.
Qed.
Lemma concat_nibbles_inj (l k : bytes) :
  length l = length k → concat (nibbles <$> l) = concat (nibbles <$> k) → l = k.
Proof.
  revert k. induction l as [|a l IH]; intros [|b k] Hl H; try done.
  cbn [fmap list_fmap concat] in H. apply app_eq_len in H as [H1 H2]; [|done].
  apply nibbles_inj in H1 as ->. f_equal. apply IH; [by injection Hl|done].
Qed.
Lemma length_concat_nibbles (l : bytes) : length (concat (nibbles <$> l)) = (2 * length l)%nat.
Proof.
  induction l as [|b l IH]; [done|]. cbn [fmap list_fmap concat].
  rewrite length_app. etrans; [apply (f_equal (λ n, _ + n)%nat IH)|]. simpl. lia.
Qed.
Lemma length_msg_digits m : length (msg_digits m) = WOTS_MSG_DIGITS.
Proof. unfold msg_digits. by rewrite length_concat_nibbles, length_h256. Qed.
Lemma length_wots_digits m : length (wots_digits m) = WOTS_CHAINS.
Proof. unfold wots_digits. by rewrite length_app, length_msg_digits. Qed.
Lemma msg_digits_bound m : Forall (λ d, 0 ≤ d < 16) (msg_digits m).
Proof.
  apply Forall_forall. intros d Hd. unfold msg_digits in Hd.
  apply list_elem_of_In, in_concat in Hd as (l & Hl & Hd).
  apply list_elem_of_In in Hl, Hd. apply list_elem_of_fmap in Hl as (b & -> & _).
  by eapply nibbles_bound.
Qed.

Lemma checksum_acc ds c :
  foldl (λ csum digit, csum + (WOTS_W - 1 - digit)) c ds = c + checksum ds.
Proof.
  unfold checksum. revert c. induction ds as [|d ds IH]; intros c; simpl; [lia|].
  rewrite IH, (IH (0 + _)). lia.
Qed.
Lemma checksum_cons d ds : checksum (d :: ds) = 15 - d + checksum ds.
Proof. unfold checksum at 1. simpl. rewrite checksum_acc. unfold WOTS_W. lia. Qed.
Lemma csum_bound ds :
  Forall (λ d, 0 ≤ d < 16) ds → 0 ≤ checksum ds ≤ 15 * Z.of_nat (length ds).
Proof.
  induction 1 as [|d ds Hd _ IH]; [cbv; split; discriminate|].
  rewrite checksum_cons. cbn [length]. lia.
Qed.
Lemma checksum_mono ds es :
  Forall2 Z.le ds es → checksum es ≤ checksum ds ∧ (ds ≠ es → checksum es < checksum ds).
Proof.
  induction 1 as [|d e ds es Hd H IH]; [split; [done|congruence]|].
  rewrite !checksum_cons. destruct IH as [IH1 IH2]. split; [lia|].
  intros Hne. destruct (decide (ds = es)) as [->|]; [|specialize (IH2 ltac:(done)); lia].
  assert (d ≠ e) by congruence. lia.
Qed.
Lemma csum_digits_val c :
  0 ≤ c < 4096 →
  match csum_digits c with
  | [x; y; z] => c = 256 * x + 16 * y + z ∧ 0 ≤ x < 16 ∧ 0 ≤ y < 16 ∧ 0 ≤ z < 16
  | _ => False
  end.
Proof.
  intros Hc. unfold csum_digits. change 15 with (Z.ones 4).
  rewrite !Z.land_ones, !Z.shiftr_div_pow2 by lia.
  change (2 ^ 8) with (16 * 16). change (2 ^ 4) with 16.
  rewrite <-Z.div_div by lia.
  pose proof (Z_div_mod_eq_full c 16). pose proof (Z_div_mod_eq_full (c / 16) 16).
  pose proof (Z.mod_pos_bound c 16 ltac:(lia)).
  pose proof (Z.mod_pos_bound (c / 16) 16 ltac:(lia)).
  assert (0 ≤ c / 16 / 16 < 16).
  { rewrite Z.div_div by lia. split; [apply Z.div_pos; lia|apply Z.div_lt_upper_bound; lia]. }
  rewrite (Z.mod_small (c / 16 / 16) 16) by lia. lia.
Qed.
Lemma csum_digits_mono c c' :
  0 ≤ c < 4096 → 0 ≤ c' < 4096 → Forall2 Z.le (csum_digits c) (csum_digits c') → c ≤ c'.
Proof.
  intros Hc Hc' H. apply csum_digits_val in Hc, Hc'. unfold csum_digits in *.
  repeat (apply Forall2_cons in H as [? H]). lia.
Qed.
Lemma wots_digits_bound m : Forall (λ d, 0 ≤ d < 16) (wots_digits m).
Proof.
  unfold wots_digits. apply Forall_app. split; [apply msg_digits_bound|].
  pose proof (csum_bound _ (msg_digits_bound m)) as H. rewrite length_msg_digits in H.
  unfold WOTS_MSG_DIGITS in H. pose proof (csum_digits_val (checksum (msg_digits m)) ltac:(lia)) as Hv.
  unfold csum_digits in *. repeat (apply Forall_cons; split); [lia..|constructor].
Qed.

(** The checksum argument: no two messages have digit-wise comparable digits. *)
Lemma wots_digits_antichain m m' : Forall2 Z.le (wots_digits m) (wots_digits m') → m = m'.
Proof.
  unfold wots_digits. intros H.
  apply Forall2_app_inv in H as [Hm Hc]; [|by rewrite !length_msg_digits].
  destruct (decide (msg_digits m = msg_digits m')) as [He|Hne].
  - apply h256_eq, concat_nibbles_inj; [by rewrite !length_h256|done].
  - exfalso. apply checksum_mono in Hm as [_ Hlt]. specialize (Hlt Hne).
    pose proof (csum_bound _ (msg_digits_bound m)) as B.
    pose proof (csum_bound _ (msg_digits_bound m')) as B'.
    rewrite length_msg_digits in B, B'. unfold WOTS_MSG_DIGITS in B, B'.
    apply csum_digits_mono in Hc; lia.
Qed.

(** ** Hash inputs *)

Section lemmas.
Context {SHA2 : Sha2}.

(** SHA-256 has no collision among the messages of the list [ms].  (That it
    has none at all is false; the theorems below assume it of the messages
    that the runs they speak of hash.) *)
Definition collision_free (ms : list bytes) : Prop :=
  Forall (λ x, Forall (λ y, sha256 x = sha256 y → x = y) ms) ms.
Lemma collision_free_eq ms x y :
  collision_free ms → x ∈ ms → y ∈ ms → sha256 x = sha256 y → x = y.
Proof.
  intros H Hx Hy. unfold collision_free in H. rewrite Forall_forall in H.
  specialize (H x Hx). rewrite Forall_forall in H. by apply H.
Qed.
Lemma collision_free_sub ms ns : ns ⊆ ms → collision_free ms → collision_free ns.
Proof.
  intros Hs H. apply Forall_forall. intros x Hx. apply Forall_forall. intros y Hy.
  apply (collision_free_eq ms); auto.
Qed.

(** The messages behind the hashes of the statement. *)
Definition pair_input (dom : byte) (p : H256 * H256) : bytes :=
  dom :: h256_bytes p.1 ++ h256_bytes p.2.
Lemma pair_input_inj d p q : pair_input d p = pair_input d q → p = q.
Proof.
  destruct p as [a b], q as [a' b']. unfold pair_input; simpl. intros [= H].
  apply app_eq_len in H as [H1 H2]; [|by rewrite !length_h256].
  by apply (inj h256_bytes) in H1 as ->, H2 as ->.
Qed.
Lemma merkle_node_eq p : merkle_node p.1 p.2 = sha256 (pair_input DOM_NODE p).
Proof. unfold merkle_node, sha. simpl. by rewrite app_nil_r. Qed.
Lemma ots_node_eq p : ots_node p.1 p.2 = sha256 (pair_input DOM_OTS_NODE p).
Proof. unfold ots_node, sha. simpl. by rewrite app_nil_r. Qed.
Definition address_inputs (root nk : H256) : list bytes :=
  [pair_input DOM_ADDR (root, nk_commit nk); DOM_NK :: h256_bytes nk].
Lemma nk_commit_eq nk : nk_commit nk = sha256 (DOM_NK :: h256_bytes nk).
Proof. unfold nk_commit, sha. simpl. by rewrite app_nil_r. Qed.
Lemma address_tag_eq root nk :
  address_tag root nk = sha256 (pair_input DOM_ADDR (root, nk_commit nk)).
Proof. unfold address_tag, sha. simpl. by rewrite app_nil_r. Qed.
Lemma address_tag_inj r1 n1 r2 n2 :
  collision_free (address_inputs r1 n1 ++ address_inputs r2 n2) →
  address_tag r1 n1 = address_tag r2 n2 → r1 = r2 ∧ n1 = n2.
Proof.
  intros Hc H. rewrite !address_tag_eq in H.
  apply (collision_free_eq _ _ _ Hc) in H; [|unfold address_inputs; set_solver..].
  apply pair_input_inj in H. injection H as -> Hn. rewrite !nk_commit_eq in Hn.
  apply (collision_free_eq _ _ _ Hc) in Hn; [|unfold address_inputs; set_solver..].
  injection Hn as Hn. by apply (inj h256_bytes) in Hn as ->.
Qed.
Definition node_inputs (dom : byte) (ps : list (H256 * H256)) : list bytes := pair_input dom <$> ps.

(** ** WOTS *)

Lemma wots_chain_add c x a b :
  0 ≤ a → 0 ≤ b → wots_chain c x (a + b) = wots_chain c (wots_chain c x b) a.
Proof. intros. unfold wots_chain. by rewrite Z2Nat.inj_add, Nat.iter_add by lia. Qed.
Lemma nth_digit_bound m i : (i < WOTS_CHAINS)%nat → 0 ≤ nth i (wots_digits m) 0 < 16.
Proof.
  intros Hi. pose proof (wots_digits_bound m) as H. rewrite Forall_forall in H.
  apply H. rewrite <-(length_wots_digits m) in Hi. apply list_elem_of_In, nth_In, Hi.
Qed.
Lemma nth_chain {A} (f : nat → A) i d :
  (i < WOTS_CHAINS)%nat → nth i (f <$> seq 0 WOTS_CHAINS) d = f i.
Proof.
  intros Hi. apply nth_lookup_Some. by rewrite list_lookup_fmap, lookup_seq_lt.
Qed.
Lemma recover_sign seed msg : recover_pk (ws_sig (wots_sign seed msg)) msg = wots_pk seed.
Proof.
  apply list_fmap_ext. intros k i [-> Hk]%lookup_seq. cbn [Nat.add] in *.
  unfold wots_sign. cbn [ws_sig]. rewrite nth_chain by done.
  pose proof (nth_digit_bound msg k Hk) as Hd. unfold WOTS_W.
  rewrite <-wots_chain_add by lia. f_equal. lia.
Qed.

(** The messages hashed when a chain is walked [n] steps from [x], and when a
    signature is completed. *)
Definition step_input (chain : Z) (x : H256) : bytes :=
  DOM_OTS :: byte_of chain :: h256_bytes x.
Definition chain_inputs (chain : Z) (x : H256) (n : Z) : list bytes :=
  (λ k, step_input chain (wots_chain chain x (Z.of_nat k))) <$> seq 0 (Z.to_nat n).
Definition pk_input (pk : list H256) : bytes := concat ([DOM_PKD] :: (h256_bytes <$> pk)).
Definition recover_inputs (sig : list H256) (msg : H256) : list bytes :=
  pk_input (recover_pk sig msg) ::
  concat ((λ i, chain_inputs (Z.of_nat i) (nth i sig zero_h256)
             (WOTS_W - 1 - nth i (wots_digits msg) 0)) <$> seq 0 WOTS_CHAINS).

Lemma wots_step_eq c x : wots_step c x = sha256 (step_input c x).
Proof. unfold wots_step, sha. simpl. by rewrite app_nil_r. Qed.
Lemma pk_input_inj p q : length p = length q → pk_input p = pk_input q → p = q.
Proof.
  unfold pk_input. cbn [concat app]. intros Hl [= H]. revert q Hl H.
  induction p as [|a p IH]; intros [|b q] Hl H; try done.
  cbn [fmap list_fmap concat] in H.
  apply app_eq_len in H as [H1 H2]; [|by rewrite !length_h256].
  apply (inj h256_bytes) in H1 as ->. f_equal. apply IH; [by injection Hl|done].
Qed.
Lemma chain_input_in c x n k :
  0 ≤ k < n → step_input c (wots_chain c x k) ∈ chain_inputs c x n.
Proof.
  intros Hk. unfold chain_inputs. apply list_elem_of_fmap. exists (Z.to_nat k).
  split; [by rewrite Z2Nat.id by lia|]. apply elem_of_seq. lia.
Qed.
(** Two chains of the same index that end in one value run through the same
    values over their common length. *)
Lemma wots_chain_inj c x y n m ms :
  0 ≤ n → n ≤ m → collision_free ms →
  chain_inputs c x n ⊆ ms → chain_inputs c y m ⊆ ms →
  wots_chain c x n = wots_chain c y m → x = wots_chain c y (m - n).
Proof.
  intros Hn Hnm Hc Hx Hy H.
  assert (∀ k, (k ≤ Z.to_nat n)%nat →
    wots_chain c x (n - Z.of_nat k) = wots_chain c y (m - Z.of_nat k)) as Hk.
  { induction k as [|k IH]; intros Hk.
    - by rewrite !Z.sub_0_r.
    - specialize (IH ltac:(lia)).
      replace (n - Z.of_nat k) with (1 + (n - Z.of_nat (S k))) in IH by lia.
      replace (m - Z.of_nat k) with (1 + (m - Z.of_nat (S k))) in IH by lia.
      rewrite !wots_chain_add in IH by lia.
      unfold wots_chain at 1 3 in IH. simpl in IH. rewrite !wots_step_eq in IH.
      apply (collision_free_eq _ _ _ Hc) in IH.
      + injection IH as IH. by apply (inj h256_bytes) in IH.
      + apply Hx, chain_input_in. lia.
      + apply Hy, chain_input_in. lia. }
  specialize (Hk (Z.to_nat n) ltac:(lia)). rewrite Z2Nat.id in Hk by done.
  by replace (n - n) with 0 in Hk by lia.
Qed.
Lemma recover_chain_inputs sig msg i :
  (i < WOTS_CHAINS)%nat →
  chain_inputs (Z.of_nat i) (nth i sig zero_h256) (WOTS_W - 1 - nth i (wots_digits msg) 0)
    ⊆ recover_inputs sig msg.
Proof.
  intros Hi x Hx. apply list_elem_of_further, list_elem_of_In, in_concat.
  eexists. split; [|apply list_elem_of_In, Hx]. apply list_elem_of_In, list_elem_of_fmap.
  exists i. split; [done|]. apply elem_of_seq. lia.
Qed.

(** ** The spend tree *)

Lemma up_level_spec lv l leaves k :
  length lv = (2 * k)%nat → is_level ots_node leaves l lv →
  ∃ up, up_level lv = Some up ∧ length up = k ∧ is_level ots_node leaves (S l) up.
Proof.
  intros Hl Hlv. exists (pairs ots_node (ladder ots_node l) lv).
  assert (up_level lv = Some (pairs ots_node (ladder ots_node l) lv) ∧
          length (pairs ots_node (ladder ots_node l) lv) = k) as [H1 H2].
  { generalize (ladder ots_node l) as pad. intros pad. clear Hlv. revert lv Hl.
    induction k as [|k IH]; intros lv Hl; [by destruct lv|].
    destruct lv as [|a [|b rest]]; [done|simpl in Hl; lia|].
    destruct (IH rest) as [E1 E2]; [simpl in Hl; lia|]. simpl. rewrite E1. simpl. auto. }
  split_and!; [done..|]. by apply is_level_pairs.
Qed.
Lemma up_levels_spec h lv l leaves :
  length lv = (2 ^ h)%nat → is_level ots_node leaves l lv →
  ∃ top, up_levels h lv = Some [top] ∧ top = node_at ots_node leaves (l + h) 0.
Proof.
  revert lv l. induction h as [|h IH]; intros lv l Hl Hlv.
  - destruct lv as [|top [|]]; try done. exists top. split; [done|].
    rewrite Nat.add_0_r. by apply (Hlv 0).
  - rewrite Nat.pow_succ_r' in Hl.
    destruct (up_level_spec _ _ _ _ Hl Hlv) as (up & Hup & Hlu & Hlvu).
    destruct (IH up (S l) Hlu Hlvu) as (top & Ht & Htop).
    exists top. simpl. rewrite Hup. simpl. split; [done|]. by rewrite Nat.add_succ_r.
Qed.

Lemma ots_ladder_nth l :
  (l ≤ SPEND_TREE_DEPTH)%nat → nth l ots_empty_roots zero_h256 = ladder ots_node l.
Proof.
  intros Hl. apply nth_lookup_Some. unfold ots_empty_roots, empty_ladder.
  by rewrite list_lookup_fmap, lookup_seq_lt by lia.
Qed.
Lemma length_spend_tree_leaves master h :
  0 ≤ h < 32 → length (spend_tree_leaves master h) = (2 ^ Z.to_nat h)%nat.
Proof.
  intros Hh. unfold spend_tree_leaves. rewrite length_fmap, length_seqZ, Z.mod_small by lia.
  rewrite <-(Z2Nat.id h) at 1 by lia. rewrite <-(Nat2Z.id (2 ^ Z.to_nat h)).
  by rewrite Nat2Z.inj_pow.
Qed.
Lemma spend_tree_leaves_lookup master h i :
  0 ≤ h < 32 → 0 ≤ i < 2 ^ h →
  spend_tree_leaves master h !! Z.to_nat i =
  Some (wots_owner (h256_bytes (spend_leaf_seed master i))).
Proof.
  intros Hh Hi. unfold spend_tree_leaves.
  rewrite list_lookup_fmap, lookup_seqZ_lt by (rewrite Z.mod_small by lia; lia).
  simpl. by rewrite Z2Nat.id by lia.
Qed.
Lemma foldl_upper leaves h n root :
  Z.of_nat (length leaves) ≤ 2 ^ Z.of_nat h → (h + n ≤ SPEND_TREE_DEPTH)%nat →
  root = node_at ots_node leaves h 0 →
  foldl (λ root l, ots_node root (nth l ots_empty_roots zero_h256)) root (seq h n) =
  node_at ots_node leaves (h + n) 0.
Proof.
  revert h root. induction n as [|n IH]; intros h root Hlen Hn ->; cbn [seq foldl].
  - by rewrite Nat.add_0_r.
  - rewrite (IH (S h)).
    + by rewrite Nat.add_succ_comm.
    + rewrite Nat2Z.inj_succ, Z.pow_succ_r by lia. lia.
    + lia.
    + rewrite ots_ladder_nth by lia. cbn [node_at]. f_equal.
      symmetry. apply node_at_empty; lia.
Qed.

(** The root of an address of capacity [2^h] is the root of the depth-10 tree
    over its one-time keys, padded with zero leaves. *)
Lemma spend_root_spec master h :
  0 ≤ h ≤ 10 →
  spend_root master h =
  Some (node_at ots_node (spend_tree_leaves master h) SPEND_TREE_DEPTH 0).
Proof.
  intros Hh. unfold spend_root.
  destruct (up_levels_spec (Z.to_nat h) (spend_tree_leaves master h) 0
              (spend_tree_leaves master h)) as (top & -> & Htop).
  - apply length_spend_tree_leaves. lia.
  - exact (is_level_0 _ _).
  - cbn [mbind option_bind lookup list_lookup]. f_equal. unfold upper_levels.
    rewrite (foldl_upper (spend_tree_leaves master h)).
    + f_equal. unfold SPEND_TREE_DEPTH. lia.
    + rewrite length_spend_tree_leaves, Nat2Z.inj_pow by lia. lia.
    + unfold SPEND_TREE_DEPTH. lia.
    + done.
Qed.

Lemma auth_siblings_spec h lv l leaves i :
  length lv = (2 ^ h)%nat → is_level ots_node leaves l lv →
  0 ≤ i → Z.shiftr i (Z.of_nat l) < 2 ^ Z.of_nat h →
  auth_siblings h lv (Z.shiftr i (Z.of_nat l)) =
  Some ((λ j, node_at ots_node leaves j (Z.lxor (Z.shiftr i (Z.of_nat j)) 1)) <$> seq l h).
Proof.
  revert lv l. induction h as [|h IH]; intros lv l Hl Hlv Hi Hlt; [done|].
  set (k := Z.shiftr i (Z.of_nat l)) in *.
  assert (0 ≤ k) as Hk by by apply Z.shiftr_nonneg.
  assert (0 ≤ Z.lxor k 1 < 2 ^ Z.of_nat (S h)) as Hx.
  { rewrite lxor_1. rewrite Nat2Z.inj_succ, Z.pow_succ_r in * by lia.
    destruct (Z.odd k) eqn:Ho; [pose proof (odd_half _ Ho)|pose proof (even_half _ Ho)]; lia. }
  cbn [auth_siblings].
  destruct (lookup_lt_is_Some_2 lv (Z.to_nat (Z.lxor k 1))) as [sib Hsib].
  { rewrite Hl. apply Nat2Z.inj_lt. rewrite Nat2Z.inj_pow. lia. }
  rewrite Hsib. cbn [mbind option_bind].
  rewrite Nat.pow_succ_r' in Hl.
  destruct (up_level_spec _ _ _ _ Hl Hlv) as (up & -> & Hlu & Hlvu). cbn [mbind option_bind].
  replace (Z.shiftr k 1) with (Z.shiftr i (Z.of_nat (S l)))
    by (rewrite shiftr_succ, (Z.shiftr_div_pow2 k 1) by lia; done).
  rewrite (IH up (S l)) by
    (try done; rewrite shiftr_succ by done; fold k;
     rewrite Nat2Z.inj_succ, Z.pow_succ_r in Hlt by lia; apply Z.div_lt_upper_bound; lia).
  cbn [mbind option_bind seq fmap list_fmap]. do 2 f_equal. fold k.
  rewrite <-(Hlv (Z.lxor k 1)) by lia. by rewrite Hsib.
Qed.

(** The authentication path of a wallet is the sibling list of its leaf. *)
Lemma spend_auth_spec master h i msg :
  0 ≤ h ≤ 10 → 0 ≤ i < 2 ^ h →
  spend_auth master h i msg =
  Some (wots_sign (h256_bytes (spend_leaf_seed master i)) msg,
        mkPath (tree_path ots_node (spend_tree_leaves master h) SPEND_TREE_DEPTH i) i).
Proof.
  intros Hh Hi. unfold spend_auth.
  pose proof (auth_siblings_spec (Z.to_nat h) (spend_tree_leaves master h) 0
                (spend_tree_leaves master h) i) as H.
  rewrite Z.shiftr_0_r in H. rewrite H; clear H.
  - cbn [mbind option_bind]. do 3 f_equal. unfold tree_path, upper_levels.
    replace SPEND_TREE_DEPTH with (Z.to_nat h + (SPEND_TREE_DEPTH - Z.to_nat h))%nat at 2
      by (unfold SPEND_TREE_DEPTH; lia).
    rewrite seq_app, fmap_app. f_equal. apply list_fmap_ext.
    intros k l Hl%lookup_seq. rewrite ots_ladder_nth by (unfold SPEND_TREE_DEPTH in *; lia).
    assert (Z.shiftr i (Z.of_nat l) = 0) as ->.
    { apply shiftr_small. assert (2 ^ h ≤ 2 ^ Z.of_nat l) by (apply Z.pow_le_mono_r; lia). lia. }
    symmetry. apply node_at_empty; [done|]. change (Z.lxor 0 1) with 1.
    rewrite length_spend_tree_leaves, Nat2Z.inj_pow by lia. rewrite Z.mul_1_l.
    apply Z.pow_le_mono_r; lia.
  - apply length_spend_tree_leaves. lia.
  - exact (is_level_0 _ _).
  - lia.
  - rewrite Z2Nat.id by lia. lia.
Qed.

(** An address authorises: what a wallet produces for a leaf leads the circuit
    back to the address's spend root. *)
Lemma spend_auth_folds master h i msg sig path :
  0 ≤ h ≤ 10 → 0 ≤ i < 2 ^ h → spend_auth master h i msg = Some (sig, path) →
  length (path_siblings path) = SPEND_TREE_DEPTH ∧
  ∃ leaf, wots_recover_owner (ws_sig sig) msg = Some leaf ∧
    spend_root master h =
    Some (fold_path ots_node (path_index path) 0 (path_siblings path) leaf).
Proof.
  intros Hh Hi H. rewrite spend_auth_spec in H by done. injection H as <- <-.
  cbn [path_siblings path_index]. split; [apply length_tree_path|].
  eexists. split.
  - unfold wots_recover_owner. unfold wots_sign at 1. cbn [ws_sig].
    rewrite length_fmap, length_seq. simpl (negb _). rewrite recover_sign. done.
  - rewrite spend_root_spec by done. f_equal. symmetry. apply fold_tree_path; [|  |done].
    + unfold SPEND_TREE_DEPTH. split; [lia|].
      assert (2 ^ h ≤ 2 ^ Z.of_nat 10) by (apply Z.pow_le_mono_r; lia). lia.
    + by rewrite spend_tree_leaves_lookup by lia.
Qed.

(** ** The spend statement *)

(** The spend root that the signature and its path lead to. *)
Definition recovered_root (w : SpendWitness) (leaf : H256) : H256 :=
  fold_path ots_node (path_index (sw_ots_path w)) 0 (path_siblings (sw_ots_path w)) leaf.
Definition witness_root (w : SpendWitness) : H256 :=
  fold_path merkle_node (path_index (sw_path w)) 0 (path_siblings (sw_path w))
    (commit_note (sw_in_note w)).

Lemma checked_sum_some a b c v :
  0 ≤ c → checked_sum a b c = Some v ↔ v = a + b + c ∧ v ≤ u64_max.
Proof.
  intros Hc. unfold checked_sum. destruct (checked u64_max (a + b)) as [o|] eqn:E; simpl.
  - apply checked_some in E as [E ->]. rewrite checked_some. naive_solver lia.
  - apply checked_none in E. split; [done|]. lia.
Qed.

Definition well_shaped (w : SpendWitness) : Prop :=
  length (path_siblings (sw_path w)) = TREE_DEPTH ∧
  length (path_siblings (sw_ots_path w)) = SPEND_TREE_DEPTH.
Definition authorised (w : SpendWitness) : Prop :=
  ∃ leaf, wots_recover_owner (ws_sig (sw_sig w)) (sw_tx_binding w) = Some leaf ∧
    address_tag (recovered_root w leaf) (sw_nk w) = note_owner (sw_in_note w).
Definition balanced (w : SpendWitness) : Prop :=
  note_value (sw_in_note w) =
  note_value (sw_out_note w) + note_value (sw_out2_note w) + sw_fee w.
Definition public_of (w : SpendWitness) : SpendPublic :=
  mkSpendPublic (witness_root w) (nullifier (sw_nk w) (note_rho (sw_in_note w)))
    (commit_note (sw_out_note w)) (commit_note (sw_out2_note w)) (sw_fee w) (sw_tx_binding w).

Lemma run_authorised w :
  well_shaped w → authorised w → 0 ≤ sw_fee w → note_value (sw_in_note w) ≤ u64_max →
  run w = if decide (balanced w) then Ok (public_of w) else Err ValueConservation.
Proof.
  intros [H1 H2] (leaf & Hleaf & Htag) Hf Hv. unfold run. rewrite H1, H2, Hleaf.
  cbn [Nat.eqb TREE_DEPTH SPEND_TREE_DEPTH negb ok_orR bindR].
  fold (recovered_root w leaf). rewrite Htag, bool_decide_eq_true_2 by done. cbn [negb].
  destruct (checked_sum _ _ _) as [v|] eqn:Es; cbn [ok_orR bindR].
  - apply checked_sum_some in Es as [-> Hm]; [|done]. unfold balanced.
    case_decide as Hb; [by rewrite (proj2 (Z.eqb_eq _ _) Hb)|].
    by rewrite (proj2 (Z.eqb_neq _ _) Hb).
  - case_decide as Hb; [|done]. exfalso. unfold balanced in Hb.
    assert (checked_sum (note_value (sw_out_note w)) (note_value (sw_out2_note w)) (sw_fee w)
            = Some (note_value (sw_in_note w))) as E by (apply checked_sum_some; lia).
    by rewrite E in Es.
Qed.
Lemma run_ok w p :
  0 ≤ sw_fee w → run w = Ok p →
  well_shaped w ∧ authorised w ∧ balanced w ∧ p = public_of w.
Proof.
  intros Hf. unfold run, well_shaped, authorised.
  destruct (Nat.eqb_spec (length (path_siblings (sw_path w))) TREE_DEPTH); [cbn [negb]|done].
  destruct (Nat.eqb_spec (length (path_siblings (sw_ots_path w))) SPEND_TREE_DEPTH);
    [cbn [negb]|done].
  destruct (wots_recover_owner _ _) as [leaf|]; cbn [ok_orR bindR]; [|done].
  fold (recovered_root w leaf). case_bool_decide as Ht; cbn [negb]; [|done].
  destruct (checked_sum _ _ _) as [v|] eqn:Es; cbn [ok_orR bindR]; [|done].
  apply checked_sum_some in Es as [-> Hm]; [|done].
  destruct (Z.eqb_spec (note_value (sw_in_note w))
    (note_value (sw_out_note w) + note_value (sw_out2_note w) + sw_fee w)); cbn [negb]; [|done].
  intros [= <-]. eauto 10.
Qed.

(** The node pairs hashed when the chain's tree is opened at a position. *)
Definition tree_inputs (leaves : list H256) (i : Z) : list bytes :=
  node_inputs DOM_NODE (fold_trace merkle_node i 0 (tree_path merkle_node leaves TREE_DEPTH i)
                          (default zero_h256 (leaves !! Z.to_nat i))).
Definition path_inputs (w : SpendWitness) (i : Z) : list bytes :=
  node_inputs DOM_NODE (fold_trace merkle_node i 0 (path_siblings (sw_path w))
                          (commit_note (sw_in_note w))).

Lemma node_inputs_elem dom ps : Forall (λ p, pair_input dom p ∈ node_inputs dom ps) ps.
Proof. apply Forall_forall. intros p Hp. by apply list_elem_of_fmap_2. Qed.

(** A path that folds to a tree's root starts at the leaf its index names (by its low
    32 bits), or at the hash that pads the tree. *)
Lemma fold_opens_leaf leaves siblings cm index i :
  length siblings = TREE_DEPTH → 0 ≤ index → i = index mod 2 ^ 32 →
  collision_free (node_inputs DOM_NODE (fold_trace merkle_node i 0 siblings cm) ++ tree_inputs leaves i) →
  fold_path merkle_node index 0 siblings cm = node_at merkle_node leaves TREE_DEPTH 0 →
  leaves !! Z.to_nat i = Some cm ∨ cm = zero_h256.
Proof.
  intros Hl Hi Hmod Hc Hroot. rewrite <-fold_path_mod, Hl in Hroot by done. change (Z.of_nat TREE_DEPTH) with 32 in Hroot.
  rewrite <-Hmod in Hroot.
  assert (0 ≤ i < 2 ^ Z.of_nat TREE_DEPTH) as Hb.
  { change (Z.of_nat TREE_DEPTH) with 32. subst i. by apply Z.mod_pos_bound. }
  rewrite <-(fold_tree_path _ leaves TREE_DEPTH i _ _ Hb eq_refl eq_refl) in Hroot.
  eapply (fold_path_inj _ _ _ _ _ _ _
           (λ q, pair_input DOM_NODE q ∈ node_inputs DOM_NODE (fold_trace merkle_node i 0 siblings cm) ++ tree_inputs leaves i)) in Hroot.
  - destruct Hroot as [Hcm _]. destruct (leaves !! Z.to_nat i); naive_solver.
  - intros q r Hq Hr E. rewrite !merkle_node_eq in E.
    apply (collision_free_eq _ _ _ Hc Hq Hr) in E. by eapply pair_input_inj.
  - eapply Forall_impl; [apply (node_inputs_elem DOM_NODE)|]. intros q Hq.
    apply elem_of_app. left. exact Hq.
  - eapply Forall_impl; [apply (node_inputs_elem DOM_NODE)|]. intros q Hq.
    apply elem_of_app. right. exact Hq.
  - by rewrite Hl, length_tree_path.
Qed.
(** A quick test of [collision_free] for concrete lists. *)
Lemma collision_free_nodup ms : NoDup (sha256 <$> remove_dups ms) → collision_free ms.
Proof.
  intros H. apply Forall_forall. intros x Hx. apply Forall_forall. intros y Hy He.
  apply elem_of_remove_dups, list_elem_of_lookup in Hx as [i Hi].
  apply elem_of_remove_dups, list_elem_of_lookup in Hy as [j Hj].
  assert (i = j) as <-; [|congruence].
  eapply (NoDup_lookup _ i j (sha256 x) H); rewrite list_lookup_fmap.
  - by rewrite Hi.
  - rewrite Hj. simpl. by rewrite He.
Qed.
End lemmas.

(** * Properties *)

Section properties.
Context {SHA2 : Sha2}.

(** The statement is complete and exact.  Take any note of the chain's
    tree that pays an address of capacity [2^h], and any unused key [i] of it:
    the witness a wallet assembles (tree path, [spend_auth], [derive_nk]) is
    accepted if and only if input = output + change + fee over the integers,
    and then the public outputs are the tree's root, the nullifier and the two
    commitments. *)
Theorem honest_spend leaves k master h i root n o1 o2 fee tb sig ots :
  0 ≤ k < 2 ^ 32 → leaves !! Z.to_nat k = Some (commit_note n) →
  0 ≤ h ≤ 10 → 0 ≤ i < 2 ^ h → spend_root master h = Some root →
  note_owner n = address_tag root (derive_nk master) →
  spend_auth master h i tb = Some (sig, ots) →
  0 ≤ fee → note_value n ≤ u64_max →
  run (mkSpendWitness n (mkPath (tree_path merkle_node leaves TREE_DEPTH k) k) sig ots
         (derive_nk master) o1 o2 fee tb) =
  if note_value n =? note_value o1 + note_value o2 + fee
  then Ok (mkSpendPublic (node_at merkle_node leaves TREE_DEPTH 0)
             (nullifier (derive_nk master) (note_rho n)) (commit_note o1) (commit_note o2) fee tb)
  else Err ValueConservation.
Proof.
  intros Hk Hleaf Hh Hi Hroot Howner Hauth Hf Hv.
  destruct (spend_auth_folds _ _ _ _ _ _ Hh Hi Hauth) as (Hlen & leaf & Hrec & Hfold).
  rewrite Hroot in Hfold. injection Hfold as Hfold.
  rewrite run_authorised; cbn [sw_fee sw_in_note]; [| | |done..].
  - unfold balanced. cbn [sw_in_note sw_out_note sw_out2_note sw_fee].
    case_decide as Hb; [rewrite (proj2 (Z.eqb_eq _ _) Hb)|by rewrite (proj2 (Z.eqb_neq _ _) Hb)].
    unfold public_of, witness_root. cbn -[node_at TREE_DEPTH]. do 2 f_equal.
    by apply fold_tree_path; [|rewrite Hleaf|].
  - split; [apply length_tree_path|exact Hlen].
  - exists leaf. split; [exact Hrec|]. unfold recovered_root.
    cbn [sw_ots_path sw_nk sw_in_note]. by rewrite <-Hfold.
Qed.

(** Soundness of the value check.  Whatever the witness, if the statement
    accepts it then the three [u64] amounts add up to the input note's value
    over the integers (no wrap-around creates value), and the fee, the binding
    and the two commitments that the proof publishes are those of the witness. *)
Theorem run_conserves_value w p :
  0 ≤ sw_fee w → run w = Ok p →
  note_value (sw_in_note w) =
    note_value (sw_out_note w) + note_value (sw_out2_note w) + sp_fee p ∧
  sp_fee p = sw_fee w ∧ sp_tx_binding p = sw_tx_binding w ∧
  sp_out_commitment p = commit_note (sw_out_note w) ∧
  sp_out2_commitment p = commit_note (sw_out2_note w).
Proof. intros Hf H. by apply run_ok in H as (_ & _ & Hb & ->). Qed.

(** One note, one nullifier.  Two accepted spends of the same note publish
    the same nullifier, whatever paths, signatures, spend-tree positions and
    outputs they use, when SHA-256 does not collide on the inputs of the two
    address tags they recompute.  With the chain's nullifier set this is what
    rules out double spends. *)
Theorem same_note_same_nullifier w1 w2 l1 l2 p1 p2 :
  0 ≤ sw_fee w1 → 0 ≤ sw_fee w2 →
  wots_recover_owner (ws_sig (sw_sig w1)) (sw_tx_binding w1) = Some l1 →
  wots_recover_owner (ws_sig (sw_sig w2)) (sw_tx_binding w2) = Some l2 →
  collision_free (address_inputs (recovered_root w1 l1) (sw_nk w1) ++
                  address_inputs (recovered_root w2 l2) (sw_nk w2)) →
  sw_in_note w1 = sw_in_note w2 → run w1 = Ok p1 → run w2 = Ok p2 →
  sp_nullifier p1 = sp_nullifier p2.
Proof.
  intros F1 F2 R1 R2 Hc Hn H1 H2.
  apply run_ok in H1 as (_ & (l1' & R1' & T1) & _ & ->); [|done].
  apply run_ok in H2 as (_ & (l2' & R2' & T2) & _ & ->); [|done].
  simplify_eq. rewrite <-Hn, <-T1 in T2. symmetry in T2.
  apply (address_tag_inj _ _ _ _ Hc) in T2 as [_ Hnk]. unfold public_of; simpl.
  by rewrite Hn, Hnk.
Qed.

(** Membership.  A spend accepted under the root of the chain's tree opens
    a leaf of that tree: the committed input note sits at the position the path
    names (its low 32 bits), unless the commitment is the all-zero hash that
    pads the tree; provided SHA-256 does not collide on the node pairs of the
    two openings. *)
Theorem spend_opens_leaf leaves w p i :
  0 ≤ sw_fee w → 0 ≤ path_index (sw_path w) →
  i = path_index (sw_path w) mod 2 ^ 32 →
  collision_free (path_inputs w i ++ tree_inputs leaves i) →
  run w = Ok p → sp_merkle_root p = node_at merkle_node leaves TREE_DEPTH 0 →
  leaves !! Z.to_nat i = Some (commit_note (sw_in_note w)) ∨
  commit_note (sw_in_note w) = zero_h256.
Proof.
  intros Hf Hi Hmod Hc H Hroot. apply run_ok in H as ([Hl _] & _ & _ & ->); [|done].
  by apply (fold_opens_leaf _ (path_siblings (sw_path w)) _ (path_index (sw_path w))).
Qed.

(** The WOTS argument.  Given one genuine signature on [m], any signature on
    another message that recovers the same key contains a value strictly below
    the revealed one on some chain: a preimage, [d - d'] steps up, of a value
    the owner has published.  (SHA-256 collision-free on the chain steps and
    key digests of the two verifications.) *)
Theorem wots_forgery_inverts_chain seed m m' sig' :
  m' ≠ m → wots_recover_owner sig' m' = Some (wots_owner seed) →
  collision_free (recover_inputs sig' m' ++ recover_inputs (ws_sig (wots_sign seed m)) m) →
  ∃ i, (i < WOTS_CHAINS)%nat ∧ nth i (wots_digits m') 0 < nth i (wots_digits m) 0 ∧
    wots_chain (Z.of_nat i) (nth i sig' zero_h256)
      (nth i (wots_digits m) 0 - nth i (wots_digits m') 0) =
    nth i (ws_sig (wots_sign seed m)) zero_h256.
Proof.
  intros Hne Hrec Hc. unfold wots_recover_owner in Hrec. case_match; [done|].
  injection Hrec as Hpk. unfold wots_owner in Hpk. rewrite <-(recover_sign seed m) in Hpk.
  apply (collision_free_eq _ _ _ Hc) in Hpk;
    [|apply elem_of_app; left; apply list_elem_of_here|apply elem_of_app; right; apply list_elem_of_here].
  apply pk_input_inj in Hpk; [|unfold recover_pk; by rewrite !length_fmap].
  destruct (decide (Forall (λ i, nth i (wots_digits m) 0 ≤ nth i (wots_digits m') 0)
                      (seq 0 WOTS_CHAINS))) as [Hle|Hnle].
  - exfalso. apply Hne. symmetry. apply wots_digits_antichain, Forall2_same_length_lookup.
    rewrite !length_wots_digits. split; [done|]. intros i x y Hx Hy.
    rewrite Forall_forall in Hle. pose proof (lookup_lt_Some _ _ _ Hx) as Hi.
    rewrite length_wots_digits in Hi. specialize (Hle i ltac:(apply elem_of_seq; lia)).
    by rewrite (nth_lookup_Some _ _ _ _ Hx), (nth_lookup_Some _ _ _ _ Hy) in Hle.
  - apply not_Forall_Exists in Hnle; [|intros ?; apply _].
    apply Exists_exists in Hnle as (i & Hi%elem_of_seq & Hlt). exists i.
    unfold compose in Hlt; cbn beta in Hlt. split; [lia|]. split; [lia|].
    apply (f_equal (λ l, nth i l zero_h256)) in Hpk. unfold recover_pk in Hpk.
    rewrite !nth_chain in Hpk by lia.
    pose proof (nth_digit_bound m i ltac:(lia)). pose proof (nth_digit_bound m' i ltac:(lia)).
    symmetry in Hpk. eapply wots_chain_inj in Hpk; [|unfold WOTS_W; lia..|exact Hc| |].
    + rewrite Hpk. f_equal. unfold WOTS_W. lia.
    + intros x Hx. apply elem_of_app. right. by apply (recover_chain_inputs _ m i ltac:(lia)).
    + intros x Hx. apply elem_of_app. left. by apply (recover_chain_inputs _ m' i ltac:(lia)).
Qed.

(** The harness witness is a real spend, for every seed. *)
Lemma build_valid_spend_accepted seed :
  ∃ w, build_valid_spend seed = Some w ∧ run w = Ok (public_of w) ∧ sw_fee w = 10.
Proof.
  unfold build_valid_spend. rewrite spend_root_spec by lia. cbn [mbind option_bind].
  destruct (spend_auth [seed] 2 0 (sha [[xaa]; [seed]])) as [[sig ots]|] eqn:Ha.
  - destruct (spend_auth_folds [seed] 2 0 _ _ _ ltac:(lia) ltac:(lia) Ha)
      as (Hl & leaf & Hr & Hfold).
    rewrite spend_root_spec in Hfold by lia. injection Hfold as Hfold.
    cbn [mbind option_bind]. eexists. split; [reflexivity|]. split; [|done].
    rewrite run_authorised; [|..].
    + rewrite decide_True; [done|]. unfold balanced. cbn. lia.
    + split; [done|exact Hl].
    + exists leaf. split; [exact Hr|]. unfold recovered_root. cbn [sw_ots_path sw_nk].
      rewrite <-Hfold. reflexivity.
    + cbn. lia.
    + cbn. done.
  - rewrite spend_auth_spec in Ha by lia. done.
Qed.

(** ** The aggregate digest *)

Definition agg_item_ok (it : byte * list Z * bytes) : Prop :=
  length it.1.2 = 8%nat ∧ Forall in_u32 it.1.2 ∧ Z.of_nat (length it.2) ≤ u32_max.
Definition agg_item_input (it : byte * list Z * bytes) : bytes :=
  agg_leaf_input it.1.1 it.1.2 it.2.
Definition agg_item_leaf (it : byte * list Z * bytes) : H256 :=
  agg_leaf it.1.1 it.1.2 it.2.

Lemma vkey_bytes_inj a b :
  Forall in_u32 a → Forall in_u32 b → length a = length b → vkey_bytes a = vkey_bytes b → a = b.
Proof.
  unfold vkey_bytes. intros Ha. revert b. induction Ha as [|x a Hx Ha IH];
    intros [|y b] Hb Hl H; try done.
  apply Forall_cons in Hb as [Hy Hb]. cbn [fmap list_fmap concat] in H.
  apply app_eq_len in H as [H1 H2]; [|by rewrite !length_u32_le].
  apply le_bytes_inj in H1 as ->; [|unfold in_u32, u32_max in *; lia..].
  f_equal. apply IH; [done| |done]. by injection Hl.
Qed.
Lemma length_vkey_bytes a : length (vkey_bytes a) = (4 * length a)%nat.
Proof.
  unfold vkey_bytes. induction a as [|x a IH]; [done|]. cbn [fmap list_fmap concat].
  rewrite length_app, length_u32_le. etrans; [apply (f_equal (λ n, _ + n)%nat IH)|].
  simpl. lia.
Qed.
Lemma agg_item_input_inj i j :
  agg_item_ok i → agg_item_ok j → agg_item_input i = agg_item_input j → i = j.
Proof.
  destruct i as [[k v] p], j as [[k' v'] p']. unfold agg_item_ok, agg_item_input, agg_leaf_input.
  cbn [fst snd concat app]. intros (L1 & B1 & P1) (L2 & B2 & P2) [= -> H].
  apply app_eq_len in H as [H1 H]; [|rewrite !length_vkey_bytes; congruence].
  apply vkey_bytes_inj in H1 as ->; [|done|done|congruence].
  injection H as _ _ _ _ H. rewrite !app_nil_r in H. by subst p'.
Qed.
Lemma agg_digest_input_inj l k :
  Z.of_nat (length l) ≤ u32_max → Z.of_nat (length k) ≤ u32_max →
  agg_digest_input l = agg_digest_input k → l = k.
Proof.
  unfold agg_digest_input. intros Hl Hk H. cbn [concat] in H.
  apply app_eq_len in H as [H1 H]; [|unfold u32_be; by rewrite !length_be_bytes].
  apply be_bytes_inj in H1; [|unfold u32_max in *; lia..]. apply Nat2Z.inj in H1.
  clear Hl Hk. revert k H1 H. induction l as [|a l IH]; intros [|b k] Hlen H; try done.
  cbn [fmap list_fmap concat] in H. apply app_eq_len in H as [Ha H]; [|by rewrite !length_h256].
  apply (inj h256_bytes) in Ha as ->. f_equal. apply IH; [by injection Hlen|done].
Qed.

(** The aggregate's public digest binds the whole ordered list of (statement
    kind, verifying key, public bytes) triples: two lists with one digest are
    the same list, in the same order, when SHA-256 does not collide on the
    messages hashed for the two digests.  A mint proof cannot stand in for a
    spend, nor one block's proofs for another's. *)
Theorem agg_digest_binds items1 items2 :
  Forall agg_item_ok items1 → Forall agg_item_ok items2 →
  Z.of_nat (length items1) ≤ u32_max → Z.of_nat (length items2) ≤ u32_max →
  collision_free (agg_digest_input (agg_item_leaf <$> items1) ::
                  agg_digest_input (agg_item_leaf <$> items2) ::
                  (agg_item_input <$> items1) ++ (agg_item_input <$> items2)) →
  agg_digest (agg_item_leaf <$> items1) = agg_digest (agg_item_leaf <$> items2) →
  items1 = items2.
Proof.
  intros O1 O2 L1 L2 Hc H. apply (collision_free_eq _ _ _ Hc) in H; [|set_solver..].
  apply agg_digest_input_inj in H; [|by rewrite length_fmap..].
  assert (∀ i j, i ∈ items1 → j ∈ items2 → agg_item_leaf i = agg_item_leaf j → i = j) as Hinj.
  { intros i j Hi Hj E. rewrite Forall_forall in O1, O2.
    apply agg_item_input_inj; [by apply O1|by apply O2|].
    apply (collision_free_eq _ (agg_item_input i) (agg_item_input j) Hc); [| |exact E].
    - do 2 apply list_elem_of_further. apply elem_of_app. left. by apply list_elem_of_fmap_2.
    - do 2 apply list_elem_of_further. apply elem_of_app. right. by apply list_elem_of_fmap_2. }
  clear -H Hinj. revert items2 H Hinj. induction items1 as [|i l IH]; intros [|j k] H Hinj; try done.
  injection H as Hij H. f_equal; [apply Hinj; [by left..|done]|].
  apply IH; [done|]. intros x y Hx Hy. apply Hinj; by right.
Qed.
End properties.

(** * Witnesses *)

Module Sample.
#[local] Existing Instance toy_sha2.
(** An address of capacity 1, a note of 1000 it owns, two outputs. *)
Definition master : bytes := [x2a].
Definition root : H256 := default zero_h256 (spend_root master 0).
Definition note : Note := mkNote 1000 (address_tag root (derive_nk master)) (id_of 11) (id_of 12).
Definition out1 : Note := mkNote 700 (id_of 1) (id_of 2) (id_of 3).
Definition out2 : Note := mkNote 290 (id_of 4) (id_of 5) (id_of 6).
Definition leaves : list H256 := [id_of 7; commit_note note; id_of 8].
Definition auth (tb : H256) : WotsSig * MerklePath :=
  default (mkWotsSig [], mkPath [] 0) (spend_auth master 0 0 tb).
Definition spend (o1 o2 : Note) (fee : Z) (tb : H256) : SpendWitness :=
  mkSpendWitness note (mkPath (tree_path_fast merkle_node leaves TREE_DEPTH 1) 1) (auth tb).1
    (auth tb).2 (derive_nk master) o1 o2 fee tb.
Definition leaf_of (w : SpendWitness) : H256 :=
  default zero_h256 (wots_recover_owner (ws_sig (sw_sig w)) (sw_tx_binding w)).
Definition public (w : SpendWitness) : SpendPublic :=
  match run w with Ok p => p | _ => mkSpendPublic zero_h256 zero_h256 zero_h256 zero_h256 0 zero_h256 end.
Definition w1 := spend out1 out2 10 (id_of 99).
Definition w2 := spend out2 out1 10 (id_of 98).
(** Messages whose digits are (nearly) all fifteen keep the chains short. *)
Definition m : H256 := h256_rep xff.
Definition m' : H256 := h256_of (xfe :: replicate 31 xff).
Definition seed : bytes := [x05].
Definition items1 : list (byte * list Z * bytes) :=
  [(KIND_SPEND, replicate 8 7, [x01; x02]); (KIND_MINT, replicate 8 9, [x03])].
End Sample.

Lemma honest_spend_witness :
  run (SHA2 := toy_sha2) Sample.w1 =
  Ok (mkSpendPublic (node_at (merkle_node (SHA2 := toy_sha2)) Sample.leaves TREE_DEPTH 0)
        (nullifier (SHA2 := toy_sha2) (derive_nk (SHA2 := toy_sha2) Sample.master) (id_of 11))
        (commit_note (SHA2 := toy_sha2) Sample.out1) (commit_note (SHA2 := toy_sha2) Sample.out2)
        10 (id_of 99)).
Proof.
  unfold Sample.w1, Sample.spend. rewrite tree_path_fast_eq by done.
  apply (honest_spend (SHA2 := toy_sha2) Sample.leaves 1 Sample.master 0 0 Sample.root
           Sample.note Sample.out1 Sample.out2 10 (id_of 99)).
  - done.
  - reflexivity.
  - done.
  - done.
  - vm_compute. reflexivity.
  - reflexivity.
  - vm_compute. reflexivity.
  - done.
  - done.
Defined.

Lemma run_conserves_value_witness :
  1000 = 700 + 290 + sp_fee (Sample.public Sample.w1).
Proof.
  refine (proj1 (run_conserves_value (SHA2 := toy_sha2) Sample.w1 (Sample.public Sample.w1) _ _)).
  - done.
  - vm_compute. reflexivity.
Defined.

Lemma same_note_same_nullifier_witness :
  sp_nullifier (Sample.public Sample.w1) = sp_nullifier (Sample.public Sample.w2).
Proof.
  apply (same_note_same_nullifier (SHA2 := toy_sha2) Sample.w1 Sample.w2
           (Sample.leaf_of Sample.w1) (Sample.leaf_of Sample.w2)).
  - done.
  - done.
  - vm_compute. reflexivity.
  - vm_compute. reflexivity.
  - apply collision_free_nodup. apply (bool_decide_unpack _). vm_compute. exact I.
  - reflexivity.
  - vm_compute. reflexivity.
  - vm_compute. reflexivity.
Defined.

Lemma spend_opens_leaf_witness :
  Sample.leaves !! 1%nat = Some (commit_note (SHA2 := toy_sha2) Sample.note) ∨
  commit_note (SHA2 := toy_sha2) Sample.note = zero_h256.
Proof.
  apply (spend_opens_leaf (SHA2 := toy_sha2) Sample.leaves Sample.w1
           (Sample.public Sample.w1) 1).
  - done.
  - done.
  - reflexivity.
  - unfold tree_inputs. rewrite <-tree_path_fast_eq by done.
    apply collision_free_nodup. apply (bool_decide_unpack _). vm_compute. exact I.
  - vm_compute. reflexivity.
  - rewrite <-node_at_fast_eq by done. vm_compute. reflexivity.
Defined.

Lemma wots_forgery_inverts_chain_witness :
  let sig' := ws_sig (wots_sign (SHA2 := toy_sha2) Sample.seed Sample.m') in
  ∃ i, (i < WOTS_CHAINS)%nat ∧
    nth i (wots_digits Sample.m') 0 < nth i (wots_digits Sample.m) 0 ∧
    wots_chain (SHA2 := toy_sha2) (Z.of_nat i) (nth i sig' zero_h256)
      (nth i (wots_digits Sample.m) 0 - nth i (wots_digits Sample.m') 0) =
    nth i (ws_sig (wots_sign (SHA2 := toy_sha2) Sample.seed Sample.m)) zero_h256.
Proof.
  apply (wots_forgery_inverts_chain (SHA2 := toy_sha2) Sample.seed Sample.m Sample.m').
  - apply (bool_decide_unpack _). vm_compute. exact I.
  - vm_compute. reflexivity.
  - apply collision_free_nodup. apply (bool_decide_unpack _). vm_compute. exact I.
Defined.

Lemma agg_digest_binds_witness : Sample.items1 = Sample.items1.
Proof.
  apply (agg_digest_binds (SHA2 := toy_sha2)).
  - repeat constructor; done.
  - repeat constructor; done.
  - done.
  - done.
  - apply collision_free_nodup. apply (bool_decide_unpack _). vm_compute. exact I.
  - reflexivity.
Defined.
