(* ===== verification/Pool.v ===== *)
(** Shielded-pool consensus state (chain/crates/hk-state/src/pool.rs): the
    incremental commitment tree in frontier form, the anchor window, the pool
    record, the injected proof verifier and the wallet's path builder. *)

From S2P Require Export Circuit.
From S2P Require Import Toy.

Definition ANCHOR_WINDOW : nat := 128.

(** [trait ProofVerifier]: the node injects the real verifier, code outside this
    component; the transitions take one as an argument. *)
Record ProofVerifier := mkProofVerifier {
  verify_spend : bytes → SpendPublic → bool;
  verify_mint : bytes → MintPublic → bool;
}.
Definition RejectAllVerifier : ProofVerifier :=
  mkProofVerifier (λ _ _, false) (λ _ _, false).

Record IncrementalTree := mkTree {
  it_frontier : list H256;
  it_next_index : Z;
  it_empty : list H256;
}.
#[export] Instance IncrementalTree_eq_dec : EqDecision IncrementalTree.
Proof. solve_decision. Defined.
Definition it_set_frontier (f : list H256) (t : IncrementalTree) : IncrementalTree :=
  mkTree f t.(it_next_index) t.(it_empty).
Definition it_set_next_index (n : Z) (t : IncrementalTree) : IncrementalTree :=
  mkTree t.(it_frontier) n t.(it_empty).

Record PoolState := mkPool {
  pool_version : Z;
  pool_asset : option AssetId;
  pool_tree : IncrementalTree;
  pool_nullifiers : gset H256;
  pool_total_shielded : Amount;
  pool_anchors : list H256;
}.
#[export] Instance PoolState_eq_dec : EqDecision PoolState.
Proof. solve_decision. Defined.
Definition pool_set_version (v : Z) (p : PoolState) : PoolState :=
  mkPool v p.(pool_asset) p.(pool_tree) p.(pool_nullifiers) p.(pool_total_shielded) p.(pool_anchors).
Definition pool_set_asset (a : option AssetId) (p : PoolState) : PoolState :=
  mkPool p.(pool_version) a p.(pool_tree) p.(pool_nullifiers) p.(pool_total_shielded) p.(pool_anchors).
Definition pool_set_tree (t : IncrementalTree) (p : PoolState) : PoolState :=
  mkPool p.(pool_version) p.(pool_asset) t p.(pool_nullifiers) p.(pool_total_shielded) p.(pool_anchors).
Definition pool_set_nullifiers (n : gset H256) (p : PoolState) : PoolState :=
  mkPool p.(pool_version) p.(pool_asset) p.(pool_tree) n p.(pool_total_shielded) p.(pool_anchors).
Definition pool_set_total (v : Amount) (p : PoolState) : PoolState :=
  mkPool p.(pool_version) p.(pool_asset) p.(pool_tree) p.(pool_nullifiers) v p.(pool_anchors).
Definition pool_set_anchors (a : list H256) (p : PoolState) : PoolState :=
  mkPool p.(pool_version) p.(pool_asset) p.(pool_tree) p.(pool_nullifiers) p.(pool_total_shielded) a.

Section pool.
Context {SHA2 : Sha2}.

Definition tree_new : IncrementalTree :=
  mkTree (replicate TREE_DEPTH zero_h256) 0 empty_roots.

Definition has_capacity (t : IncrementalTree) (n : Z) : bool :=
  sat_add u64_max (it_next_index t) n <=? Z.shiftl 1 32 - 1.
Definition is_full (t : IncrementalTree) : bool := negb (has_capacity t 1).

(** The loop of [append], from level [l]: merge with parked left siblings and
    park the result at the first level where the position is a left child.
    [None] is an out-of-range index. *)
Fixpoint carry (fuel l : nat) (frontier : list H256) (idx : Z) (cur : H256)
    : option (list H256) :=
  match fuel with
  | O => Some frontier
  | S fuel =>
      old ← frontier !! l;
      if Z.land idx 1 =? 0 then Some (<[l := cur]> frontier)
      else carry fuel (S l) frontier (Z.shiftr idx 1) (merkle_node old cur)
  end.
Definition append {E} (leaf : H256) : M IncrementalTree E (option Z) :=
  let* t := getM in
  if is_full t then retM None
  else
    let pos := it_next_index t in
    let* frontier := expect (carry TREE_DEPTH 0 (it_frontier t) pos leaf) in
    modifyM (λ t, it_set_next_index (pos + 1) (it_set_frontier frontier t)) ;;;
    retM (Some pos).

(** The loop of [root], from level [l]. *)
Fixpoint absorb (fuel l : nat) (t : IncrementalTree) (idx : Z) (cur : H256) : option H256 :=
  match fuel with
  | O => Some cur
  | S fuel =>
      cur ← (if Z.land idx 1 =? 1
             then (λ left, merkle_node left cur) <$> it_frontier t !! l
             else (λ e, merkle_node cur e) <$> it_empty t !! l);
      absorb fuel (S l) t (Z.shiftr idx 1) cur
  end.
Definition root (t : IncrementalTree) : option H256 :=
  cur ← it_empty t !! 0%nat; absorb TREE_DEPTH 0 t (it_next_index t) cur.

Definition pool_default : PoolState := mkPool 1 None tree_new ∅ 0 [].

(** [VecDeque] push at the back, evict at the front. *)
Definition push_anchor (r : H256) (anchors : list H256) : list H256 :=
  if negb (bool_decide (last anchors = Some r)) then
    let anchors := anchors ++ [r] in
    if (ANCHOR_WINDOW <? length anchors)%nat then drop 1 anchors else anchors
  else anchors.
Definition seal_anchor {E} : M PoolState E unit :=
  let* p := getM in
  let* r := expect (root (pool_tree p)) in
  modifyM (λ p, pool_set_anchors (push_anchor r (pool_anchors p)) p).

Definition is_recent_anchor (p : PoolState) (root : H256) : bool :=
  bool_decide (root ∈ pool_anchors p).
Definition latest_anchor (p : PoolState) : option H256 := last (pool_anchors p).

(** The loop of [full_tree_path] from level [l]: the sibling (padded), then the
    next level (odd tail padded). *)
Fixpoint path_loop (fuel l : nat) (level : list H256) (idx : Z) : option (list H256 * H256) :=
  match fuel with
  | O => top ← level !! 0%nat; Some ([], top)
  | S fuel =>
      empty ← empty_roots !! l;
      let sib := default empty (level !! Z.to_nat (Z.lxor idx 1)) in
      '(siblings, top) ← path_loop fuel (S l) (pairs merkle_node empty level) (Z.shiftr idx 1);
      Some (sib :: siblings, top)
  end.
Definition full_tree_path (leaves : list H256) (index : Z) : option (list H256 * H256) :=
  if bool_decide (leaves = []) then None
  else if negb (index <? Z.of_nat (length leaves)) then None
  else path_loop TREE_DEPTH 0 leaves index.

(** ** The frontier represents the leaf sequence *)

Definition tree_repr (leaves : list H256) (t : IncrementalTree) : Prop :=
  it_next_index t = Z.of_nat (length leaves) ∧
  it_next_index t < 2 ^ 32 ∧
  it_empty t = empty_roots ∧
  length (it_frontier t) = TREE_DEPTH ∧
  ∀ l, (l < TREE_DEPTH)%nat → Z.odd (Z.shiftr (it_next_index t) (Z.of_nat l)) = true →
    it_frontier t !! l =
    Some (node_at merkle_node leaves l (Z.shiftr (it_next_index t) (Z.of_nat l) - 1)).

Lemma empty_roots_lookup l :
  (l ≤ TREE_DEPTH)%nat → empty_roots !! l = Some (ladder merkle_node l).
Proof. intros Hl. unfold empty_roots, empty_ladder. by rewrite list_lookup_fmap, lookup_seq_lt by lia. Qed.

Lemma shiftr_pow n l : 0 ≤ n → n = Z.shiftr n (Z.of_nat l) * 2 ^ Z.of_nat l + n mod 2 ^ Z.of_nat l.
Proof. intros Hn. rewrite Z.shiftr_div_pow2 by lia. pose proof (Z_div_mod_eq_full n (2 ^ Z.of_nat l)). lia. Qed.
Lemma pow2_pos l : 0 < 2 ^ Z.of_nat l.
Proof. apply Z.pow_pos_nonneg; lia. Qed.

Lemma tree_repr_new : tree_repr [] tree_new.
Proof.
  split_and!; [done..|]. intros l Hl Ho. simpl in Ho. by rewrite Z.shiftr_0_l in Ho.
Qed.

(** *** root *)
Lemma absorb_spec leaves t fuel l :
  tree_repr leaves t → (fuel + l = TREE_DEPTH)%nat →
  absorb fuel l t (Z.shiftr (it_next_index t) (Z.of_nat l))
    (node_at merkle_node leaves l (Z.shiftr (it_next_index t) (Z.of_nat l))) =
  Some (node_at merkle_node leaves TREE_DEPTH 0).
Proof.
  intros (Hn & Hlt & He & Hf & Hodd). revert l.
  assert (0 ≤ it_next_index t) as H0 by lia.
  induction fuel as [|fuel IH]; intros l Hl.
  - simpl in Hl. subst l. cbn [absorb].
    by rewrite (shiftr_small _ TREE_DEPTH (conj H0 Hlt)).
  - cbn [absorb]. rewrite land_1_odd. set (k := Z.shiftr (it_next_index t) (Z.of_nat l)) in *.
    assert (0 ≤ k) as Hk by by apply Z.shiftr_nonneg.
    assert (Z.shiftr k 1 = Z.shiftr (it_next_index t) (Z.of_nat (S l))) as ->.
    { rewrite shiftr_succ, (Z.shiftr_div_pow2 k 1) by lia. done. }
    destruct (Z.odd k) eqn:Ho.
    + rewrite (Hodd l) by (done || lia). fold k. cbn [fmap option_fmap option_map mbind option_bind].
      rewrite <-(IH (S l)) by lia. f_equal. rewrite shiftr_succ by done. fold k. cbn [node_at].
      rewrite <-(odd_half k Ho). do 2 f_equal. rewrite (odd_half k Ho) at 1. lia.
    + rewrite He, empty_roots_lookup by lia. cbn [fmap option_fmap option_map mbind option_bind].
      rewrite <-(IH (S l)) by lia. f_equal. rewrite shiftr_succ by done. fold k. cbn [node_at].
      rewrite <-(even_half k Ho). f_equal. symmetry. apply node_at_empty; [lia|].
      pose proof (shiftr_pow (it_next_index t) l H0) as Hs. fold k in Hs.
      pose proof (Z.mod_pos_bound (it_next_index t) _ (pow2_pos l)). nia.
Qed.
Lemma root_spec leaves t :
  tree_repr leaves t → root t = Some (node_at merkle_node leaves TREE_DEPTH 0).
Proof.
  intros Hr. pose proof Hr as (Hn & Hlt & He & _). unfold root.
  rewrite He, empty_roots_lookup by lia. cbn [mbind option_bind].
  rewrite <-(absorb_spec leaves t TREE_DEPTH 0 Hr) by done. f_equal. simpl.
  rewrite lookup_ge_None_2; [done|]. rewrite Z.shiftr_0_r. lia.
Qed.

(** *** append *)
(** Adding one to a number whose [l] low bits are ones. *)
Lemma low_ones_succ n l :
  0 ≤ n → n mod 2 ^ Z.of_nat l = 2 ^ Z.of_nat l - 1 →
  Z.shiftr (n + 1) (Z.of_nat l) = Z.shiftr n (Z.of_nat l) + 1 ∧
  ∀ j, (j < l)%nat → Z.odd (Z.shiftr (n + 1) (Z.of_nat j)) = false.
Proof.
  intros Hn Hm. pose proof (shiftr_pow n l Hn) as Hs. rewrite Hm in Hs.
  set (k := Z.shiftr n (Z.of_nat l)) in *. pose proof (pow2_pos l).
  assert (n + 1 = (k + 1) * 2 ^ Z.of_nat l) as -> by lia. split.
  - rewrite Z.shiftr_div_pow2 by lia. apply Z.div_mul. lia.
  - intros j Hj. rewrite <-Z.testbit_odd. rewrite Z.mul_comm, Z.mul_comm.
    by apply Z.mul_pow2_bits_low; lia.
Qed.

Lemma carry_spec leaves leaf t fuel l :
  tree_repr leaves t → it_next_index t < 2 ^ 32 - 1 → (fuel + l = TREE_DEPTH)%nat →
  it_next_index t mod 2 ^ Z.of_nat l = 2 ^ Z.of_nat l - 1 →
  ∃ f, carry fuel l (it_frontier t) (Z.shiftr (it_next_index t) (Z.of_nat l))
         (node_at merkle_node (leaves ++ [leaf]) l (Z.shiftr (it_next_index t) (Z.of_nat l))) = Some f ∧
    tree_repr (leaves ++ [leaf]) (mkTree f (it_next_index t + 1) (it_empty t)).
Proof.
  intros Hr Hlt. pose proof Hr as (Hn & _ & He & Hf & Hodd). revert l.
  assert (0 ≤ it_next_index t) as H0 by lia. set (n := it_next_index t) in *.
  induction fuel as [|fuel IH]; intros l Hl Hm.
  { simpl in Hl. subst l. exfalso. pose proof (Z.mod_le n (2 ^ Z.of_nat TREE_DEPTH) H0 (pow2_pos _)) as Hle.
    rewrite Hm in Hle. unfold TREE_DEPTH in Hle. lia. }
  cbn [carry]. destruct (lookup_lt_is_Some_2 (it_frontier t) l ltac:(lia)) as [old Hold].
  rewrite Hold. cbn [mbind option_bind]. set (k := Z.shiftr n (Z.of_nat l)) in *.
  assert (0 ≤ k) as Hk by by apply Z.shiftr_nonneg.
  pose proof (shiftr_pow n l H0) as Hs. fold k in Hs. rewrite Hm in Hs.
  destruct (low_ones_succ n l H0 Hm) as [Hsucc Hlow]. fold k in Hsucc.
  assert (Z.shiftr k 1 = Z.shiftr n (Z.of_nat (S l))) as Hnext.
  { rewrite shiftr_succ, (Z.shiftr_div_pow2 k 1) by lia. done. }
  replace (Z.land k 1 =? 0) with (negb (Z.odd k)).
  2: { rewrite <-land_1_odd. pose proof (Z.land_ones k 1 ltac:(lia)) as E.
       change (Z.ones 1) with 1 in E. pose proof (Z.mod_pos_bound k (2 ^ 1) ltac:(lia)).
       destruct (Z.eqb_spec (Z.land k 1) 1), (Z.eqb_spec (Z.land k 1) 0); simpl; lia. }
  destruct (Z.odd k) eqn:Ho; cbn [negb].
  - (* right child: merge and carry *)
    rewrite Hnext. specialize (IH (S l) ltac:(lia)).
    assert (merkle_node old (node_at merkle_node (leaves ++ [leaf]) l k) =
            node_at merkle_node (leaves ++ [leaf]) (S l) (Z.shiftr n (Z.of_nat (S l)))) as ->.
    { rewrite shiftr_succ by done. fold k. cbn [node_at]. rewrite <-(odd_half k Ho). f_equal.
      rewrite (Hodd l) in Hold by (done || lia). injection Hold as <-. fold k.
      replace (2 * (k / 2)) with (k - 1) by (rewrite (odd_half k Ho) at 1; lia).
      rewrite node_at_prefix; [done| |].
      - pose proof (odd_half k Ho). assert (0 ≤ k / 2) by (apply Z.div_pos; lia). lia.
      - rewrite <-Hn. fold n. nia. }
    apply IH. rewrite Nat2Z.inj_succ, Z.pow_succ_r by lia.
    pose proof (odd_half k Ho). pose proof (pow2_pos l).
    symmetry. apply (Z.mod_unique_pos _ _ (k / 2)); nia.
  - (* left child: park *)
    eexists. split; [reflexivity|]. cbn [it_frontier it_next_index it_empty].
    split_and!; cbn [it_frontier it_next_index it_empty].
    + rewrite length_app. simpl. fold n in Hn. lia.
    + lia.
    + done.
    + by rewrite length_insert.
    + intros j Hj Hoj. destruct (Nat.lt_trichotomy j l) as [Hjl|[->|Hjl]].
      * by rewrite (Hlow j Hjl) in Hoj.
      * rewrite list_lookup_insert_eq by lia. rewrite Hsucc. do 2 f_equal. lia.
      * rewrite list_lookup_insert_ne by lia.
        assert (Z.shiftr (n + 1) (Z.of_nat j) = Z.shiftr n (Z.of_nat j)) as Hsame.
        { replace (Z.of_nat j) with (Z.of_nat l + Z.of_nat (S (j - S l))) by lia.
          rewrite <-!Z.shiftr_shiftr by lia. rewrite Hsucc. fold k.
          rewrite Nat2Z.inj_succ, <-Z.add_1_l, <-!Z.shiftr_shiftr by lia. f_equal.
          rewrite !(Z.shiftr_div_pow2 _ 1) by lia. change (2 ^ 1) with 2.
          pose proof (even_half k Ho). symmetry. apply (Z.div_unique _ _ _ 1); lia. }
        rewrite Hsame in *. rewrite (Hodd j) by done. fold n. f_equal.
        symmetry. apply node_at_prefix.
        -- destruct (Z.eq_dec (Z.shiftr n (Z.of_nat j)) 0) as [E|]; [by rewrite E in Hoj|].
           assert (0 ≤ Z.shiftr n (Z.of_nat j)) by (by apply Z.shiftr_nonneg). lia.
        -- rewrite <-Hn. fold n. pose proof (shiftr_pow n j H0).
           pose proof (Z.mod_pos_bound n _ (pow2_pos j)). nia.
Qed.

Lemma has_capacity_spec leaves t n :
  tree_repr leaves t → 0 ≤ n ≤ 2 ^ 32 →
  has_capacity t n = bool_decide (Z.of_nat (length leaves) + n ≤ 2 ^ 32 - 1).
Proof.
  intros (Hn & Hlt & _) Hb. unfold has_capacity.
  rewrite sat_add_small by (unfold u64_max; lia). rewrite Hn.
  change (Z.shiftl 1 32) with (2 ^ 32).
  destruct (Z.leb_spec (Z.of_nat (length leaves) + n) (2 ^ 32 - 1)).
  - by rewrite bool_decide_eq_true_2.
  - by rewrite bool_decide_eq_false_2 by lia.
Qed.
Lemma append_spec {E} leaves t leaf :
  tree_repr leaves t →
  if bool_decide (Z.of_nat (length leaves) + 1 ≤ 2 ^ 32 - 1)
  then ∃ t', append (E := E) leaf t = (t', Ok (Some (Z.of_nat (length leaves)))) ∧
             tree_repr (leaves ++ [leaf]) t'
  else append (E := E) leaf t = (t, Ok None).
Proof.
  intros Hr. pose proof (has_capacity_spec leaves t 1 Hr ltac:(lia)) as Hcap.
  unfold append, bindM, getM, is_full. rewrite Hcap. case_bool_decide as Hb; [|done].
  cbn [negb]. destruct (carry_spec leaves leaf t TREE_DEPTH 0 Hr) as (f & Hcarry & Hf).
  - destruct Hr as (Hn & _). lia.
  - done.
  - simpl. by rewrite Z.mod_1_r.
  - change (Z.of_nat 0) with 0 in Hcarry. rewrite Z.shiftr_0_r in Hcarry.
    cbn [node_at] in Hcarry. pose proof Hr as (Hn & _).
    rewrite Hn, Nat2Z.id, lookup_app_r, Nat.sub_diag in Hcarry by lia.
    cbn [lookup list_lookup default from_option id] in Hcarry.
    rewrite Hn. unfold expect. rewrite Hcarry. cbn.
    eexists. split; [reflexivity|]. rewrite <-Hn. exact Hf.
Qed.

(** *** The path builder *)
Lemma path_loop_spec leaves lv fuel l idx :
  lv ≠ [] → is_level merkle_node leaves l lv → (fuel + l = TREE_DEPTH)%nat → 0 ≤ idx →
  path_loop fuel l lv (Z.shiftr idx (Z.of_nat l)) =
  Some ((λ j, node_at merkle_node leaves j (Z.lxor (Z.shiftr idx (Z.of_nat j)) 1)) <$> seq l fuel,
        node_at merkle_node leaves TREE_DEPTH 0).
Proof.
  intros Hne Hlv Hl Hidx. revert l lv Hne Hlv Hl. induction fuel as [|fuel IH]; intros l lv Hne Hlv Hl.
  - simpl in Hl. subst l. cbn [path_loop].
    destruct lv as [|top]; [done|]. by rewrite <-(Hlv 0) by lia.
  - cbn [path_loop]. rewrite empty_roots_lookup by lia. cbn [mbind option_bind].
    assert (Z.shiftr (Z.shiftr idx (Z.of_nat l)) 1 = Z.shiftr idx (Z.of_nat (S l))) as ->.
    { rewrite shiftr_succ, (Z.shiftr_div_pow2 _ 1) by lia. done. }
    rewrite (IH (S l)); [|by apply pairs_nonempty|by apply is_level_pairs|lia].
    cbn [mbind option_bind seq fmap list_fmap]. do 3 f_equal. apply Hlv.
    apply Z.lxor_nonneg. split; [lia|]. intros _. by apply Z.shiftr_nonneg.
Qed.
Lemma full_tree_path_spec leaves i :
  0 ≤ i < Z.of_nat (length leaves) →
  full_tree_path leaves i = Some (tree_path merkle_node leaves TREE_DEPTH i,
                                  node_at merkle_node leaves TREE_DEPTH 0).
Proof.
  intros Hi. unfold full_tree_path. assert (leaves ≠ []) by (intros ->; simpl in Hi; lia).
  rewrite bool_decide_eq_false_2 by done. rewrite (proj2 (Z.ltb_lt _ _)) by lia. cbn [negb].
  pose proof (path_loop_spec leaves leaves TREE_DEPTH 0 i) as H'.
  change (Z.of_nat 0) with 0 in H'. rewrite Z.shiftr_0_r in H'.
  rewrite H'; [done|done|exact (is_level_0 _ _)|done|lia].
Qed.

(** *** Anchors *)
(** Consecutive duplicates removed. *)
Definition adjacent_dedup (rs : list H256) : list H256 :=
  foldl (λ acc r, if bool_decide (last acc = Some r) then acc else acc ++ [r]) [] rs.
Lemma last_drop_snoc {A} (l : list A) n : (n < length l)%nat → last (drop n l) = last l.
Proof. intros Hn. rewrite !last_lookup, lookup_drop, length_drop. f_equal. lia. Qed.
Lemma push_anchor_window (acc : list H256) r :
  push_anchor r (drop (length acc - ANCHOR_WINDOW) acc) =
  let acc' := if bool_decide (last acc = Some r) then acc else acc ++ [r] in
  drop (length acc' - ANCHOR_WINDOW) acc'.
Proof.
  unfold push_anchor.
  assert (last (drop (length acc - ANCHOR_WINDOW) acc) = last acc) as ->.
  { destruct acc as [|x acc]; [done|]. apply last_drop_snoc. unfold ANCHOR_WINDOW. simpl. lia. }
  case_bool_decide; cbn [negb]; [done|]. cbv zeta.
  rewrite !length_app, length_drop. cbn [length].
  destruct (Nat.ltb_spec ANCHOR_WINDOW (length acc - (length acc - ANCHOR_WINDOW) + 1)) as [Hlt|Hge].
  - rewrite <-(drop_app_le acc [r]) by lia. rewrite drop_drop. f_equal. unfold ANCHOR_WINDOW in *. lia.
  - rewrite drop_app_le by lia. do 2 f_equal. unfold ANCHOR_WINDOW in *. lia.
Qed.
Definition window (rs : list H256) : list H256 :=
  drop (length (adjacent_dedup rs) - ANCHOR_WINDOW) (adjacent_dedup rs).
Lemma window_snoc rs r : push_anchor r (window rs) = window (rs ++ [r]).
Proof.
  unfold window. rewrite push_anchor_window. unfold adjacent_dedup.
  by rewrite foldl_app.
Qed.
Lemma last_window rs r : last (window (rs ++ [r])) = Some r.
Proof.
  unfold window. assert (last (adjacent_dedup (rs ++ [r])) = Some r) as Hl.
  { unfold adjacent_dedup. rewrite foldl_app. cbn [foldl].
    case_bool_decide; [done|]. by rewrite last_snoc. }
  rewrite last_drop_snoc; [done|]. destruct (adjacent_dedup (rs ++ [r])); [done|].
  unfold ANCHOR_WINDOW. simpl. lia.
Qed.
Lemma length_window rs : (length (window rs) ≤ ANCHOR_WINDOW)%nat.
Proof. unfold window. rewrite length_drop. lia. Qed.
Lemma seal_anchor_ok {E} leaves p :
  tree_repr leaves (pool_tree p) →
  seal_anchor (E := E) p =
  (pool_set_anchors (push_anchor (node_at merkle_node leaves TREE_DEPTH 0) (pool_anchors p)) p, Ok tt).
Proof.
  intros Hr. unfold seal_anchor, bindM, getM, expect. by rewrite (root_spec leaves).
Qed.
End pool.

(** * Properties *)

Section properties.
Context {SHA2 : Sha2}.

(** Appending a whole sequence of commitments. *)
Fixpoint append_all (leaves : list H256) : M IncrementalTree unit (list (option Z)) :=
  match leaves with
  | [] => retM []
  | leaf :: rest =>
      let* i := append leaf in
      let* js := append_all rest in
      retM (i :: js)
  end.
Lemma append_all_repr more leaves t :
  tree_repr leaves t → Z.of_nat (length leaves + length more) ≤ 2 ^ 32 - 1 →
  ∃ t', append_all more t =
          (t', Ok ((λ k, Some (Z.of_nat k)) <$> seq (length leaves) (length more))) ∧
        tree_repr (leaves ++ more) t'.
Proof.
  revert leaves t. induction more as [|x more IH]; intros leaves t Hr Hl.
  - exists t. by rewrite app_nil_r.
  - pose proof (append_spec (E := unit) leaves t x Hr) as Ha.
    rewrite bool_decide_eq_true_2 in Ha by (simpl in Hl; lia). destruct Ha as (t1 & Ha & Hr1).
    destruct (IH (leaves ++ [x]) t1 Hr1) as (t2 & H2 & Hr2).
    { rewrite length_app. simpl in *. lia. }
    exists t2. split; [|by rewrite <-app_assoc in Hr2].
    cbn [append_all]. unfold bindM. rewrite Ha, H2. unfold retM. do 3 f_equal.
    cbn [length seq fmap list_fmap]. rewrite length_app. simpl. by rewrite Nat.add_1_r.
Qed.

(** C15: the frontier tree implements the padded Merkle tree.  Appending any
    sequence of up to 2^32 - 1 commitments to an empty tree never panics,
    returns the positions 0, 1, 2, ..., and leaves a tree whose 32-hash [root]
    is the root of the perfect depth-32 tree over that sequence (padded with
    zero leaves); the next append returns [None] exactly when the tree holds
    2^32 - 1 leaves, and then changes nothing. *)
Theorem incremental_tree_refines leaves leaf :
  Z.of_nat (length leaves) ≤ 2 ^ 32 - 1 →
  ∃ t, append_all leaves tree_new = (t, Ok ((λ k, Some (Z.of_nat k)) <$> seq 0 (length leaves))) ∧
    root t = Some (node_at merkle_node leaves TREE_DEPTH 0) ∧
    ∃ t', append (E := unit) leaf t =
      if bool_decide (Z.of_nat (length leaves) = 2 ^ 32 - 1) then (t, Ok None)
      else (t', Ok (Some (Z.of_nat (length leaves)))).
Proof.
  intros Hl. destruct (append_all_repr leaves [] tree_new tree_repr_new Hl) as (t & Ht & Hr).
  exists t. split; [done|]. split; [by apply root_spec|].
  pose proof (append_spec (E := unit) leaves t leaf Hr) as Ha.
  case_bool_decide; case_bool_decide; try lia.
  - destruct Ha as (t' & Ha & _). by exists t'.
  - by exists t.
Qed.

(** Wallet and chain agree.  For every leaf of the appended sequence, the
    path that a wallet rebuilds from the full list has 32 siblings, comes with
    the chain's own root, and folds (as the circuit folds it) from the leaf to
    that root. *)
Theorem wallet_path_folds_to_chain_root leaves t js i leaf :
  append_all leaves tree_new = (t, Ok js) → Z.of_nat (length leaves) ≤ 2 ^ 32 - 1 →
  0 ≤ i → leaves !! Z.to_nat i = Some leaf →
  ∃ siblings r, full_tree_path leaves i = Some (siblings, r) ∧ root t = Some r ∧
    length siblings = TREE_DEPTH ∧ fold_path merkle_node i 0 siblings leaf = r.
Proof.
  intros Ha Hl Hi Hleaf. pose proof (lookup_lt_Some _ _ _ Hleaf) as Hlt.
  destruct (append_all_repr leaves [] tree_new tree_repr_new Hl) as (t' & Ht & Hr).
  rewrite Ha in Ht. injection Ht as <- _.
  do 2 eexists. split; [by apply full_tree_path_spec; lia|].
  split; [by apply root_spec|]. split; [apply length_tree_path|].
  apply fold_tree_path; [|by rewrite Hleaf|done]. change (Z.of_nat TREE_DEPTH) with 32. lia.
Qed.

(** The anchor window.  Suppose the window holds the last 128 of the roots
    sealed so far, consecutive duplicates counted once, oldest first (as it
    does for no root at all).  Then sealing a block succeeds, keeps that true
    of the longer history, makes the tree's current root the latest and an
    acceptable anchor, and never keeps more than 128. *)
Theorem anchor_window_spec leaves rs p :
  tree_repr leaves (pool_tree p) → pool_anchors p = window rs →
  ∃ p' r, root (pool_tree p) = Some r ∧ seal_anchor (E := unit) p = (p', Ok tt) ∧
    pool_anchors p' = window (rs ++ [r]) ∧ latest_anchor p' = Some r ∧
    is_recent_anchor p' r = true ∧ (length (pool_anchors p') ≤ ANCHOR_WINDOW)%nat ∧
    pool_tree p' = pool_tree p ∧ pool_nullifiers p' = pool_nullifiers p.
Proof.
  intros Hr Hw. do 2 eexists. split; [by apply root_spec|]. split; [by apply (seal_anchor_ok leaves)|].
  cbn [pool_anchors pool_set_anchors pool_tree pool_nullifiers]. rewrite Hw.
  rewrite window_snoc. unfold latest_anchor, is_recent_anchor.
  cbn [pool_anchors pool_set_anchors pool_tree pool_nullifiers].
  split_and!; [done|apply last_window| |apply length_window|done|done].
  apply bool_decide_eq_true_2, last_Some_elem_of, last_window.
Qed.
End properties.

(** * Witnesses *)

Lemma incremental_tree_refines_witness :
  ∃ t, append_all (SHA2 := toy_sha2) [id_of 1; id_of 2; id_of 3] (tree_new (SHA2 := toy_sha2)) =
       (t, Ok [Some 0; Some 1; Some 2]) ∧
    root (SHA2 := toy_sha2) t =
    Some (node_at (merkle_node (SHA2 := toy_sha2)) [id_of 1; id_of 2; id_of 3] TREE_DEPTH 0) ∧
    ∃ t', append (SHA2 := toy_sha2) (E := unit) (id_of 4) t =
      if bool_decide (3 = 2 ^ 32 - 1) then (t, Ok None) else (t', Ok (Some 3)).
Proof.
  apply (incremental_tree_refines (SHA2 := toy_sha2) [id_of 1; id_of 2; id_of 3] (id_of 4)).
  vm_compute. discriminate.
Defined.

Lemma wallet_path_folds_to_chain_root_witness :
  let t := (append_all (SHA2 := toy_sha2) [id_of 1; id_of 2; id_of 3] (tree_new (SHA2 := toy_sha2))).1 in
  ∃ siblings r,
    full_tree_path (SHA2 := toy_sha2) [id_of 1; id_of 2; id_of 3] 1 = Some (siblings, r) ∧
    root (SHA2 := toy_sha2) t = Some r ∧ length siblings = TREE_DEPTH ∧
    fold_path (merkle_node (SHA2 := toy_sha2)) 1 0 siblings (id_of 2) = r.
Proof.
  apply (wallet_path_folds_to_chain_root (SHA2 := toy_sha2) [id_of 1; id_of 2; id_of 3] _
           [Some 0; Some 1; Some 2]).
  - vm_compute. reflexivity.
  - vm_compute. discriminate.
  - done.
  - reflexivity.
Defined.

Lemma anchor_window_spec_witness :
  ∃ p' r, root (SHA2 := toy_sha2) (tree_new (SHA2 := toy_sha2)) = Some r ∧
    seal_anchor (SHA2 := toy_sha2) (E := unit) (pool_default (SHA2 := toy_sha2)) = (p', Ok tt) ∧
    pool_anchors p' = window ([] ++ [r]) ∧ latest_anchor p' = Some r ∧
    is_recent_anchor p' r = true ∧ (length (pool_anchors p') ≤ ANCHOR_WINDOW)%nat ∧
    pool_tree p' = tree_new (SHA2 := toy_sha2) ∧ pool_nullifiers p' = ∅.
Proof.
  apply (anchor_window_spec (SHA2 := toy_sha2) [] [] (pool_default (SHA2 := toy_sha2))).
  - apply (tree_repr_new (SHA2 := toy_sha2)).
  - reflexivity.
Defined.
