(* ===== verification/Notes.v ===== *)
(** Shielded notes between wallets: the ciphertext beside a commitment
    (hk-crypto/src/noteenc.rs and mlkem.rs) and what a wallet does with it
    (hk-wallet/src/lib.rs): stealth addresses, sealed outputs, the scanner, the
    spend it builds, one-time disclosure.

    ML-KEM is a parameter; a key pair is its 64-byte seed. *)

From S2P Require Export Circuit Pool.
From S2P Require Import Text.
#[local] Open Scope Z_scope.

Definition DOM_MLKEM_SEED : string := "hk/v1/mlkem-note-seed".
Definition DOM_NOTE_KEY : string := "hk/v1/note-key".
Definition DOM_NOTE_ENC : string := "hk/v1/note-enc".
Definition DOM_NOTE_MAC : string := "hk/v1/note-mac".
Definition DOM_WALLET_RHO : string := "hk/wallet/rho/v2".
Definition DOM_WALLET_RCM : string := "hk/wallet/rcm/v2".
Definition TAG_LEN : nat := 32.
Definition EK_LEN : nat := 1184.
Definition CT_LEN : nat := 1088.

(** The crate ml_kem: the public key of a seed, the secret of a ciphertext (some secret,
    whoever it is for), and encapsulation, which refuses keys that do not decode. *)
Class MlKem := {
  kem_public : bytes → bytes;
  kem_secret : bytes → bytes → H256;
  kem_encaps : bytes → H256 → option (bytes * H256);
}.
Class MlKemLaws (K : MlKem) : Prop := {
  kem_ct_len ek coin ct ss : kem_encaps ek coin = Some (ct, ss) → length ct = CT_LEN;
}.

(** * The ciphertext *)

Definition byte_xor (a b : byte) : byte := byte_of (Z.lxor (byte_val a) (byte_val b)).

Section cipher.
Context {SHAKE : Shake} {KEM : MlKem}.

Definition xor_stream (key nonce : H256) (data : bytes) : bytes :=
  zip_with byte_xor data
    (shake_xof (str_bytes DOM_NOTE_ENC ++ [x00] ++ h256_bytes key ++ h256_bytes nonce) (length data)).
Definition note_mac (key nonce : H256) (ct : bytes) : H256 :=
  shake256_32 DOM_NOTE_MAC [h256_bytes key; h256_bytes nonce; ct].
Definition seal (key nonce : H256) (plaintext : bytes) : bytes :=
  let out := xor_stream key nonce plaintext in out ++ h256_bytes (note_mac key nonce out).
Definition open (key nonce : H256) (sealed : bytes) : option bytes :=
  if (length sealed <? TAG_LEN)%nat then None
  else
    let ct := take (length sealed - TAG_LEN) sealed in
    let tag := drop (length sealed - TAG_LEN) sealed in
    if bool_decide (h256_bytes (note_mac key nonce ct) = tag) then Some (xor_stream key nonce ct) else None.

(** [NoteKem] *)
Definition from_master (master tag : bytes) : bytes := shake256_n DOM_MLKEM_SEED [master; tag] 64.
Definition from_seed_bytes (b : bytes) : option bytes := if (length b =? 64)%nat then Some b else None.
Definition decapsulate (kem ct : bytes) : option H256 :=
  if (length ct =? CT_LEN)%nat then Some (kem_secret kem ct) else None.
Definition encapsulate (ek : bytes) (coin : H256) : option (bytes * H256) :=
  if (length ek =? EK_LEN)%nat then kem_encaps ek coin else None.
Definition note_key (shared context : H256) : H256 :=
  shake256_32 DOM_NOTE_KEY [h256_bytes shared; h256_bytes context].
End cipher.

Definition encode_note_pt (value : Z) (rho rcm : H256) (memo : bytes) : bytes :=
  u64_le value ++ h256_bytes rho ++ h256_bytes rcm ++ memo.
Definition decode_note_pt (pt : bytes) : option (Z * H256 * H256 * bytes) :=
  if (length pt <? 72)%nat then None
  else Some (le_val (take 8 pt), h256_of (take 32 (drop 8 pt)), h256_of (take 32 (drop 40 pt)), drop 72 pt).

(** * Keys and addresses *)

Record WalletKeys := mkWalletKeys { wk_master : bytes; wk_h : Z }.
Definition wallet_keys (master : bytes) : WalletKeys := mkWalletKeys master 6.
Record Address := mkAddress { ad_tag : H256; ad_kem_pk : bytes }.
Definition EPOCH_BLOCKS : Z := 1000.
Definition epoch_of (height : Z) : Z := height / EPOCH_BLOCKS.
Definition epoch_kem_tag (epoch : Z) : bytes := str_bytes ("note-kem/" +:+ pretty epoch).
Record Ivk := mkIvk { iv_epoch : Z; iv_tag : H256; iv_kem_seed : bytes }.
(** A pool entry: leaf index, commitment, ciphertext. *)
Definition Entry : Type := Z * H256 * bytes.
Record SealedOutput := mkSealedOutput {
  so_note : Note;
  so_commitment : H256;
  so_stealth_ct : bytes;
  so_note_key : H256;
}.
Record DisclosurePackage := mkDisclosure {
  dp_version : Z;
  dp_chain_id : string;
  dp_commitment : H256;
  dp_owner_tag : H256;
  dp_leaf_index : Z;
  dp_anchor : H256;
  dp_siblings : list H256;
  dp_stealth_ct : bytes;
  dp_note_key : H256;
}.
Record DisclosedPayment := mkDisclosed {
  di_value : Z;
  di_owner_tag : H256;
  di_rho : H256;
  di_rcm : H256;
  di_memo : bytes;
  di_commitment : H256;
  di_leaf_index : Z;
  di_anchor : H256;
}.
Record Discovered := mkDiscovered { dc_note : Note; dc_commitment : H256; dc_leaf_index : Z; dc_memo : bytes }.
Record SpendPlan := mkSpendPlan { pl_witness : SpendWitness; pl_public : SpendPublic }.

Section wallet.
Context {SHAKE : Shake} {SHA2 : Sha2} {KEM : MlKem}.

Definition nk (k : WalletKeys) : H256 := derive_nk k.(wk_master).
(** [None] stands for the panic of a capacity above the tree's. *)
Definition owner_tag (k : WalletKeys) : option H256 :=
  root ← spend_root k.(wk_master) k.(wk_h); Some (address_tag root (nk k)).
Definition kem_at (k : WalletKeys) (epoch : Z) : bytes := from_master k.(wk_master) (epoch_kem_tag epoch).
Definition address_at (k : WalletKeys) (epoch : Z) : option Address :=
  tag ← owner_tag k; Some (mkAddress tag (kem_public (kem_at k epoch))).
Definition ivk (k : WalletKeys) (epoch : Z) : option Ivk :=
  tag ← owner_tag k;
  Some (mkIvk epoch tag (shake256_n DOM_MLKEM_SEED [k.(wk_master); epoch_kem_tag epoch] 64)).
Definition self_note (k : WalletKeys) (value tag : Z) : option Note :=
  owner ← owner_tag k;
  Some (mkNote value owner (shake256_32 DOM_WALLET_RHO [k.(wk_master); u64_le tag])
          (shake256_32 DOM_WALLET_RCM [k.(wk_master); u64_le tag])).
Definition authorize (k : WalletKeys) (ots_index : Z) (msg : H256) : option (WotsSig * MerklePath) :=
  spend_auth k.(wk_master) k.(wk_h) ots_index msg.

(** ** Sending *)

Definition seal_note (note : Note) (to : Address) (coin : H256) (memo : bytes) : option (bytes * H256) :=
  let commitment := commit_note note in
  '(kem_ct, ss) ← encapsulate to.(ad_kem_pk) coin;
  let key := note_key ss commitment in
  let sealed := seal key commitment (encode_note_pt note.(note_value) note.(note_rho) note.(note_rcm) memo) in
  Some (kem_ct ++ sealed, key).
Definition build_output (to : Address) (value : Z) (coin entropy : H256) (memo : bytes) : option SealedOutput :=
  let rho := shake256_32 DOM_WALLET_RHO [h256_bytes entropy; str_bytes "out"] in
  let rcm := shake256_32 DOM_WALLET_RCM [h256_bytes entropy; str_bytes "out"] in
  let note := mkNote value to.(ad_tag) rho rcm in
  '(ct, key) ← seal_note note to coin memo;
  Some (mkSealedOutput note (commit_note note) ct key).

(** ** Disclosing *)

Definition note_key_as_recipient (k : WalletKeys) (epoch : Z) (commitment : H256) (stealth_ct : bytes) : option H256 :=
  if (length stealth_ct <? CT_LEN)%nat then None
  else ss ← decapsulate (kem_at k epoch) (take CT_LEN stealth_ct); Some (note_key ss commitment).
(** [fold_path] of the wallet *)
Definition fold_leaf (leaf : H256) (siblings : list H256) (index : Z) : H256 :=
  fold_path merkle_node index 0 siblings leaf.
Definition build_disclosure_with_path (chain_id : string) (commitment : H256) (siblings : list H256) (anchor : H256)
    (leaf_index : Z) (owner_tag : H256) (stealth_ct : bytes) (note_key : H256) : option DisclosurePackage :=
  if negb (length siblings =? TREE_DEPTH)%nat || negb (bool_decide (fold_leaf commitment siblings leaf_index = anchor))
  then None
  else Some (mkDisclosure 1 chain_id commitment owner_tag leaf_index anchor siblings stealth_ct note_key).
Definition build_disclosure (chain_id : string) (leaves : list H256) (leaf_index : Z) (owner_tag : H256)
    (stealth_ct : bytes) (note_key : H256) : option DisclosurePackage :=
  commitment ← leaves !! Z.to_nat leaf_index;
  '(siblings, anchor) ← full_tree_path leaves leaf_index;
  build_disclosure_with_path chain_id commitment siblings anchor leaf_index owner_tag stealth_ct note_key.
Definition verify_disclosure (p : DisclosurePackage) : res string DisclosedPayment :=
  if negb (p.(dp_version) =? 1) then Err "unsupported package version"
  else if (length p.(dp_stealth_ct) <? CT_LEN + TAG_LEN)%nat then Err "stealth_ct too short"
  else
    let sealed := drop CT_LEN p.(dp_stealth_ct) in
    let? pt := ok_orR (open p.(dp_note_key) p.(dp_commitment) sealed) "AEAD rejects: wrong key or tampered ciphertext" in
    let? parts := ok_orR (decode_note_pt pt) "note plaintext malformed" in
    let '(value, rho, rcm, memo) := parts in
    let note := mkNote value p.(dp_owner_tag) rho rcm in
    if negb (bool_decide (commit_note note = p.(dp_commitment)))
    then Err "decoded note does not re-commit to the stated commitment"
    else if negb (length p.(dp_siblings) =? TREE_DEPTH)%nat then Err "bad path length"
    else if negb (bool_decide (fold_leaf p.(dp_commitment) p.(dp_siblings) p.(dp_leaf_index) = p.(dp_anchor)))
    then Err "inclusion path does not fold to the stated anchor"
    else Ok (mkDisclosed value p.(dp_owner_tag) rho rcm memo p.(dp_commitment) p.(dp_leaf_index) p.(dp_anchor)).

(** ** Scanning *)

(** One turn of the loop of [scan_core]. *)
Definition scan_entry (kem : bytes) (my_tag : H256) (e : Entry) : option Discovered :=
  let '(leaf_index, commitment, stealth_ct) := e in
  if (length stealth_ct <? CT_LEN + TAG_LEN)%nat then None
  else
    ss ← decapsulate kem (take CT_LEN stealth_ct);
    let key := note_key ss commitment in
    pt ← open key commitment (drop CT_LEN stealth_ct);
    '(value, rho, rcm, memo) ← decode_note_pt pt;
    let note := mkNote value my_tag rho rcm in
    if bool_decide (commit_note note = commitment) then Some (mkDiscovered note commitment leaf_index memo) else None.
Definition scan_core (kem : bytes) (my_tag : H256) (entries : list Entry) : list Discovered :=
  omap (scan_entry kem my_tag) entries.
Definition scan_at (k : WalletKeys) (epoch : Z) (entries : list Entry) : option (list Discovered) :=
  tag ← owner_tag k; Some (scan_core (kem_at k epoch) tag entries).
Definition scan_with_ivk (v : Ivk) (entries : list Entry) : list Discovered :=
  match from_seed_bytes v.(iv_kem_seed) with
  | Some kem => scan_core kem v.(iv_tag) entries
  | None => []
  end.

(** ** Spending *)

Definition build_mint (note : Note) : MintWitness * MintPublic :=
  let w := mkMintWitness note in (w, run_mint w).
Definition build_spend_with_path (siblings : list H256) (root : H256) (leaf_index : Z) (in_note : Note) (k : WalletKeys)
    (ots_index : Z) (out_note out2_note : Note) (fee : Z) (credit : H256) : res string SpendPlan :=
  let cm := commit_note in_note in
  if negb (length siblings =? TREE_DEPTH)%nat then Err "path length"
  else if negb (bool_decide (fold_leaf cm siblings leaf_index = root)) then Err "the path does not fold to the stated root"
  else
    let tx_binding := tx_binding_for credit fee in
    match authorize k ots_index tx_binding with
    | None => Panic
    | Some (sig, ots_path) =>
        let witness := mkSpendWitness in_note (mkPath siblings leaf_index) sig ots_path (nk k) out_note out2_note fee tx_binding in
        match run witness with
        | Ok public => Ok (mkSpendPlan witness public)
        | Err _ => Err "witness fails the statement"
        | Panic => Panic
        end
    end.
Definition build_spend (leaves : list H256) (leaf_index : Z) (in_note : Note) (k : WalletKeys) (ots_index : Z)
    (out_note out2_note : Note) (fee : Z) (credit : H256) : res string SpendPlan :=
  if negb (bool_decide (leaves !! Z.to_nat leaf_index = Some (commit_note in_note)))
  then Err "leaf is not this note's commitment"
  else match full_tree_path leaves leaf_index with
       | Some (siblings, root) => build_spend_with_path siblings root leaf_index in_note k ots_index out_note out2_note fee credit
       | None => Panic
       end.
End wallet.

(** * The ciphertext opens to what was sealed, and nothing else opens *)

Lemma lxor_byte a b : 0 ≤ a < 256 → 0 ≤ b < 256 → Z.lxor a b mod 256 = Z.lxor a b.
Proof.
  intros Ha Hb. change 256 with (2 ^ 8) in *. rewrite <-(Z.mod_small a (2 ^ 8)), <-(Z.mod_small b (2 ^ 8)) by done.
  apply Z.bits_inj'. intros n Hn. rewrite Z.testbit_mod_pow2, !Z.lxor_spec, !Z.testbit_mod_pow2 by lia.
  by destruct (n <? 8).
Qed.
Lemma byte_xor_twice a b : byte_xor (byte_xor a b) b = a.
Proof.
  unfold byte_xor. rewrite byte_val_of, lxor_byte by apply byte_val_bound.
  by rewrite Z.lxor_assoc, Z.lxor_nilpotent, Z.lxor_0_r, byte_of_val.
Qed.
Lemma zip_xor_twice (d ks : bytes) : length ks = length d → zip_with byte_xor (zip_with byte_xor d ks) ks = d.
Proof.
  revert ks. induction d as [|x d IH]; intros [|k ks] H; try done. cbn. rewrite byte_xor_twice. f_equal. apply IH. by injection H.
Qed.
Lemma le_bytes_val l : le_bytes (length l) (le_val l) = l.
Proof.
  induction l as [|b l IH]; [done|]. cbn [length le_bytes le_val]. f_equal.
  - rewrite <-(byte_of_val b) at 2. unfold byte_of. do 3 f_equal. rewrite Z.mul_comm, Z.mod_add by done. done.
  - rewrite Z.mul_comm, Z.div_add by done. rewrite Z.div_small by apply byte_val_bound. done.
Qed.
Lemma length_note_pt value rho rcm memo : length (encode_note_pt value rho rcm memo) = (72 + length memo)%nat.
Proof. unfold encode_note_pt. by rewrite !length_app, length_u64_le, !length_h256. Qed.
Lemma note_pt_parts value rho rcm memo :
  take 8 (encode_note_pt value rho rcm memo) = u64_le value ∧
  take 32 (drop 8 (encode_note_pt value rho rcm memo)) = h256_bytes rho ∧
  take 32 (drop 40 (encode_note_pt value rho rcm memo)) = h256_bytes rcm ∧
  drop 72 (encode_note_pt value rho rcm memo) = memo.
Proof.
  unfold encode_note_pt.
  rewrite <-(drop_drop _ 32 8), <-(drop_drop _ 64 8), <-(drop_drop _ 32 32).
  rewrite (take_app_length' _ _ 8), (drop_app_length' _ _ 8) by by rewrite length_u64_le.
  rewrite (take_app_length' _ _ 32), (drop_app_length' _ _ 32) by by rewrite length_h256.
  rewrite (take_app_length' _ _ 32), (drop_app_length' _ _ 32) by by rewrite length_h256. done.
Qed.
(** The plaintexts are exactly the encodings, of 64-bit values. *)
Lemma decode_note_pt_iff pt value rho rcm memo :
  decode_note_pt pt = Some (value, rho, rcm, memo) ↔ in_u64 value ∧ pt = encode_note_pt value rho rcm memo.
Proof.
  unfold decode_note_pt. split.
  - destruct (Nat.ltb_spec (length pt) 72) as [|Hl]; [done|]. intros H. injection H as <- <- <- <-. split.
    + pose proof (le_val_bound (take 8 pt)) as H. rewrite length_take_le in H by lia. unfold in_u64, u64_max. cbn in H. lia.
    + unfold encode_note_pt. assert (u64_le (le_val (take 8 pt)) = take 8 pt) as ->.
      { pose proof (le_bytes_val (take 8 pt)) as H. by rewrite length_take_le in H by lia. }
      rewrite !h256_of_bytes by (rewrite length_take_le; [done|rewrite length_drop; lia]).
      rewrite <-(take_drop 8 pt) at 1. f_equal. rewrite <-(take_drop 32 (drop 8 pt)) at 1. f_equal.
      rewrite drop_drop. etrans; [symmetry; apply (take_drop 32)|]. by rewrite drop_drop.
  - intros [Hv ->]. destruct (note_pt_parts value rho rcm memo) as (-> & -> & -> & ->).
    rewrite length_note_pt. destruct (Nat.ltb_spec (72 + length memo) 72); [lia|].
    rewrite !h256_of_id. unfold u64_le. rewrite le_val_bytes, Z.mod_small; [done|].
    unfold in_u64, u64_max in Hv. change (256 ^ Z.of_nat 8) with (2 ^ 64). lia.
Qed.

Section sealing.
Context {SHAKE : Shake} {KEM : MlKem}.

Lemma length_xor_stream key nonce d : length (xor_stream key nonce d) = length d.
Proof. unfold xor_stream. by rewrite length_zip_with, shake_xof_len, Nat.min_id. Qed.
Lemma xor_stream_twice key nonce d : xor_stream key nonce (xor_stream key nonce d) = d.
Proof.
  unfold xor_stream at 1. rewrite length_xor_stream. unfold xor_stream. apply zip_xor_twice, shake_xof_len.
Qed.
(** A ciphertext opens under a key to a plaintext exactly if it is that plaintext's seal. *)
Lemma open_iff key nonce sealed pt : open key nonce sealed = Some pt ↔ sealed = seal key nonce pt.
Proof.
  unfold open, seal. split.
  - destruct (Nat.ltb_spec (length sealed) TAG_LEN) as [|Hl]; [done|]. case_bool_decide as Hm; [|done]. intros [= <-].
    rewrite xor_stream_twice, Hm. by rewrite take_drop.
  - intros ->. set (out := xor_stream key nonce pt). rewrite length_app, length_h256.
    destruct (Nat.ltb_spec (length out + 32) TAG_LEN) as [H|_]; [unfold TAG_LEN in H; lia|].
    replace (length out + 32 - TAG_LEN)%nat with (length out) by (unfold TAG_LEN; lia).
    rewrite take_app_length, drop_app_length, bool_decide_eq_true_2 by done. unfold out. by rewrite xor_stream_twice.
Qed.
Lemma open_seal key nonce pt : open key nonce (seal key nonce pt) = Some pt.
Proof. by apply open_iff. Qed.
Lemma length_seal key nonce pt : length (seal key nonce pt) = (length pt + TAG_LEN)%nat.
Proof. unfold seal. by rewrite length_app, length_xor_stream, length_h256. Qed.
End sealing.

(** * What wallets promise each other *)

(** What a commitment hashes. *)
Definition note_input (n : Note) : bytes :=
  concat [[DOM_CM]; u64_le (note_value n); h256_bytes (note_owner n); h256_bytes (note_rho n); h256_bytes (note_rcm n)].
Lemma commit_note_inj {SHA2 : Sha2} n m :
  in_u64 n.(note_value) → in_u64 m.(note_value) → collision_free [note_input n; note_input m] →
  commit_note n = commit_note m → n = m.
Proof.
  intros Hn Hm Hc H. apply (collision_free_eq _ (note_input n) (note_input m) Hc) in H; [|set_solver..].
  unfold note_input in H. cbn [concat app] in H. apply (f_equal tail) in H. cbn [tail] in H.
  apply app_eq_len in H as [Hv H]; [|by rewrite !length_u64_le]. apply u64_le_inj in Hv; [|done..].
  apply app_eq_len in H as [Ho H]; [|by rewrite !length_h256]. apply h256_eq in Ho.
  apply app_eq_len in H as [Hr H]; [|by rewrite !length_h256]. apply h256_eq in Hr.
  rewrite !app_nil_r in H. apply h256_eq in H. destruct n, m. cbn in *. by subst.
Qed.

Section promises.
Context {SHAKE : Shake} {SHA2 : Sha2} {KEM : MlKem} {LAWS : MlKemLaws KEM}.
Implicit Types (k : WalletKeys) (n : Note) (e : Entry) (d : Discovered) (leaves : list H256).

(** A ciphertext for the holder of [kem] under a commitment. *)
Definition sealed_for (kem : bytes) (cm : H256) (n : Note) (memo ct : bytes) : Prop :=
  ∃ kem_ct, length kem_ct = CT_LEN ∧
    ct = kem_ct ++ seal (note_key (kem_secret kem kem_ct) cm) cm (encode_note_pt n.(note_value) n.(note_rho) n.(note_rcm) memo).
Lemma sealed_length kem cm n memo ct : sealed_for kem cm n memo ct → (CT_LEN + TAG_LEN ≤ length ct)%nat.
Proof. intros (c & Hc & ->). rewrite length_app, length_seal. lia. Qed.
Lemma scan_entry_iff kem tag i cm ct d :
  scan_entry kem tag (i, cm, ct) = Some d ↔
  d.(dc_leaf_index) = i ∧ d.(dc_commitment) = cm ∧ d.(dc_note).(note_owner) = tag ∧ in_u64 d.(dc_note).(note_value) ∧
  commit_note d.(dc_note) = cm ∧ sealed_for kem cm d.(dc_note) d.(dc_memo) ct.
Proof.
  unfold scan_entry, decapsulate. split.
  - destruct (Nat.ltb_spec (length ct) (CT_LEN + TAG_LEN)) as [|Hl]; [done|]. rewrite length_take_le, Nat.eqb_refl by lia.
    cbn [mbind option_bind]. destruct (open _ _ _) as [pt|] eqn:Eo; [|done]. cbn [mbind option_bind]. apply open_iff in Eo.
    destruct (decode_note_pt pt) as [[[[v rho] rcm] memo]|] eqn:Ed; [|done]. cbn [mbind option_bind].
    apply decode_note_pt_iff in Ed as [Hv ->]. case_bool_decide as Hc; [|done]. intros [= <-]. split_and!; [done..|].
    exists (take CT_LEN ct). split; [apply length_take_le; lia|]. cbn [dc_note note_value note_rho note_rcm dc_memo]. by rewrite <-Eo, take_drop.
  - destruct d as [[v owner rho rcm] cm' i' memo]. cbn [dc_leaf_index dc_commitment dc_note note_owner note_value dc_memo]. intros (-> & -> & -> & Hv & Hc & Hs).
    pose proof (sealed_length _ _ _ _ _ Hs) as Hl. destruct Hs as (kem_ct & Hk & ->). cbn [note_value note_rho note_rcm] in *.
    rewrite (proj2 (Nat.ltb_ge (length (kem_ct ++ _)) (CT_LEN + TAG_LEN)) Hl). rewrite take_app_length', drop_app_length', Hk, Nat.eqb_refl by done. cbn [mbind option_bind].
    rewrite open_seal. cbn [mbind option_bind]. rewrite (proj2 (decode_note_pt_iff _ v rho rcm memo) (conj Hv eq_refl)).
    cbn [mbind option_bind]. by rewrite bool_decide_eq_true_2.
Qed.
Lemma scan_core_elem kem tag entries d :
  d ∈ scan_core kem tag entries ↔ ∃ ct, (d.(dc_leaf_index), d.(dc_commitment), ct) ∈ entries ∧
    d.(dc_note).(note_owner) = tag ∧ in_u64 d.(dc_note).(note_value) ∧ commit_note d.(dc_note) = d.(dc_commitment) ∧
    sealed_for kem d.(dc_commitment) d.(dc_note) d.(dc_memo) ct.
Proof.
  unfold scan_core. rewrite list_elem_of_omap. split.
  - intros ([[i cm] ct] & Hin & H). apply scan_entry_iff in H as (<- & <- & ?). by exists ct.
  - intros (ct & Hin & H). exists (dc_leaf_index d, dc_commitment d, ct). split; [done|]. by apply scan_entry_iff.
Qed.
(** Decapsulation gives the encapsulated secret; ML-KEM may fail it for a few coins. *)
Definition kem_agrees (kem : bytes) (coin : H256) : Prop :=
  ∀ ct ss, kem_encaps (kem_public kem) coin = Some (ct, ss) → kem_secret kem ct = ss.
Lemma seal_note_sealed n kem tag coin memo ct key :
  seal_note n (mkAddress tag (kem_public kem)) coin memo = Some (ct, key) → kem_agrees kem coin →
  sealed_for kem (commit_note n) n memo ct ∧ key = note_key (kem_secret kem (take CT_LEN ct)) (commit_note n).
Proof.
  unfold seal_note, encapsulate. cbn [ad_kem_pk]. destruct (_ =? _)%nat; [|done].
  destruct (kem_encaps _ coin) as [[kem_ct ss]|] eqn:E; [|done]. cbn [mbind option_bind]. intros H Ha. injection H as <- <-.
  pose proof (kem_ct_len _ _ _ _ E) as Hl. rewrite <-(Ha _ _ E). split; [by exists kem_ct|]. by rewrite take_app_length'.
Qed.
Lemma owner_tag_some k : 0 ≤ k.(wk_h) ≤ 10 → ∃ root, spend_root k.(wk_master) k.(wk_h) = Some root ∧
  owner_tag k = Some (address_tag root (nk k)).
Proof. intros Hh. unfold owner_tag. rewrite spend_root_spec by done. by eexists. Qed.

(** An output built for an address of [k]. *)
Record output_for k (epoch value : Z) (coin entropy : H256) (memo : bytes) (out : SealedOutput) : Prop := {
  of_capacity : 0 ≤ k.(wk_h) ≤ 10;
  of_value : in_u64 value;
  of_built : ∃ to, address_at k epoch = Some to ∧ build_output to value coin entropy memo = Some out;
  of_agrees : kem_agrees (kem_at k epoch) coin;
}.
Lemma output_for_sealed k epoch value coin entropy memo out :
  output_for k epoch value coin entropy memo out →
  owner_tag k = Some (out.(so_note).(note_owner)) ∧ out.(so_note).(note_value) = value ∧
  out.(so_commitment) = commit_note out.(so_note) ∧
  sealed_for (kem_at k epoch) out.(so_commitment) out.(so_note) memo out.(so_stealth_ct) ∧
  out.(so_note_key) = note_key (kem_secret (kem_at k epoch) (take CT_LEN out.(so_stealth_ct))) out.(so_commitment).
Proof.
  intros [_ _ (to & Hto & Hb) Ha]. unfold address_at in Hto. destruct (owner_tag k) as [tag|]; [|done]. injection Hto as <-.
  unfold build_output in Hb. cbn [ad_tag] in Hb. destruct (seal_note _ _ _ _) as [[ct key]|] eqn:Es; [|done].
  injection Hb as <-. cbn. apply seal_note_sealed in Es as [Hs Hk]; [|done]. by split_and!.
Qed.
Lemma build_spend_run leaves i n k ots o1 o2 fee credit root :
  0 ≤ i < 2 ^ 32 → leaves !! Z.to_nat i = Some (commit_note n) → 0 ≤ k.(wk_h) ≤ 10 → 0 ≤ ots < 2 ^ k.(wk_h) →
  spend_root k.(wk_master) k.(wk_h) = Some root → n.(note_owner) = address_tag root (nk k) →
  0 ≤ fee → n.(note_value) ≤ u64_max →
  build_spend leaves i n k ots o1 o2 fee credit =
    if n.(note_value) =? o1.(note_value) + o2.(note_value) + fee
    then Ok (mkSpendPlan
      (mkSpendWitness n (mkPath (tree_path merkle_node leaves TREE_DEPTH i) i)
        (wots_sign (h256_bytes (spend_leaf_seed k.(wk_master) ots)) (tx_binding_for credit fee))
        (mkPath (tree_path ots_node (spend_tree_leaves k.(wk_master) k.(wk_h)) SPEND_TREE_DEPTH ots) ots)
        (nk k) o1 o2 fee (tx_binding_for credit fee))
      (mkSpendPublic (node_at merkle_node leaves TREE_DEPTH 0) (nullifier (nk k) n.(note_rho))
        (commit_note o1) (commit_note o2) fee (tx_binding_for credit fee)))
    else Err "witness fails the statement".
Proof.
  intros Hi Hleaf Hh Ho Hroot Howner Hf Hv. unfold build_spend. rewrite bool_decide_eq_true_2 by done. cbn [negb].
  pose proof (lookup_lt_Some _ _ _ Hleaf) as Hlt. rewrite full_tree_path_spec by lia.
  unfold build_spend_with_path. rewrite length_tree_path, Nat.eqb_refl. cbn [negb].
  rewrite bool_decide_eq_true_2 by (by apply fold_tree_path; [|rewrite Hleaf|]). cbn [negb]. unfold authorize.
  pose proof (spend_auth_spec k.(wk_master) k.(wk_h) ots (tx_binding_for credit fee) Hh Ho) as Ha. rewrite Ha.
  unfold nk in *. rewrite (honest_spend leaves i k.(wk_master) k.(wk_h) ots root n o1 o2 fee _ _ _) by done.
  by destruct (_ =? _).
Qed.

(** C17: a stealth payment reaches its owner, who alone can find it and can spend it.
    An output built for the address of a wallet at some epoch, and put into a pool: the
    wallet's scan with that epoch's key finds it, with its amount and memo; whatever any
    other scan finds under its commitment is the same note (unless SHA-256 collides);
    and the spend the wallet builds from the pool's leaves with any of its one-time
    keys is accepted by the statement, with the pool's root and the note's
    nullifier, exactly if the amounts add up. *)
Theorem payment_reaches_its_owner k epoch value coin entropy memo out i entries leaves :
  output_for k epoch value coin entropy memo out →
  (i, out.(so_commitment), out.(so_stealth_ct)) ∈ entries →
  0 ≤ i < 2 ^ 32 → leaves !! Z.to_nat i = Some out.(so_commitment) →
  (∃ found, scan_at k epoch entries = Some found ∧ mkDiscovered out.(so_note) out.(so_commitment) i memo ∈ found) ∧
  (∀ k' epoch' found d, scan_at k' epoch' entries = Some found → d ∈ found → d.(dc_commitment) = out.(so_commitment) →
     collision_free [note_input d.(dc_note); note_input out.(so_note)] → d.(dc_note) = out.(so_note)) ∧
  (∀ ots o1 o2 fee credit, 0 ≤ ots < 2 ^ k.(wk_h) → 0 ≤ fee →
     match build_spend leaves i out.(so_note) k ots o1 o2 fee credit with
     | Ok plan => value = o1.(note_value) + o2.(note_value) + fee ∧ run plan.(pl_witness) = Ok plan.(pl_public) ∧
         plan.(pl_public) = mkSpendPublic (node_at merkle_node leaves TREE_DEPTH 0) (nullifier (nk k) out.(so_note).(note_rho))
           (commit_note o1) (commit_note o2) fee (tx_binding_for credit fee)
     | Err _ => value ≠ o1.(note_value) + o2.(note_value) + fee
     | Panic => False
     end).
Proof.
  intros Ho Hin Hi Hleaf. pose proof (output_for_sealed _ _ _ _ _ _ _ Ho) as (Htag & Hv & Hc & Hs & _).
  destruct Ho as [Hh Hval _ _]. split_and!.
  - unfold scan_at. rewrite Htag. eexists. split; [done|]. apply scan_core_elem. exists (so_stealth_ct out).
    cbn. rewrite Hv. by split_and!.
  - intros k' e' found d Hscan Hd Hcm Hf. unfold scan_at in Hscan. destruct (owner_tag k') as [tag'|]; [|done].
    injection Hscan as <-. apply scan_core_elem in Hd as (ct & _ & _ & Hdv & Hdc & _).
    apply commit_note_inj; [done|by rewrite Hv|done|]. by rewrite Hdc, Hcm, Hc.
  - intros ots o1 o2 fee credit Hots Hfee. destruct (owner_tag_some k Hh) as (root & Hroot & Ht). rewrite Htag in Ht.
    injection Ht as Hown. rewrite Hc in Hleaf. rewrite (build_spend_run leaves i _ k ots o1 o2 fee credit root); try done.
    2: { rewrite Hv. unfold in_u64 in Hval. lia. }
    rewrite Hv. destruct (Z.eqb_spec value (note_value o1 + note_value o2 + fee)); [|done]. cbn [pl_public pl_witness].
    split_and!; [done| |done]. unfold nk.
    rewrite (honest_spend leaves i k.(wk_master) k.(wk_h) ots root); try done.
    + rewrite Hv, (proj2 (Z.eqb_eq _ _)) by done. done.
    + by apply spend_auth_spec.
    + rewrite Hv. unfold in_u64 in Hval. lia.
Qed.
(** A package assembled from a payment. *)
Lemma package_verifies k epoch value coin entropy memo out chain_id i leaves :
  output_for k epoch value coin entropy memo out → 0 ≤ i < 2 ^ 32 → leaves !! Z.to_nat i = Some out.(so_commitment) →
  ∃ p, build_disclosure chain_id leaves i out.(so_note).(note_owner) out.(so_stealth_ct) out.(so_note_key) = Some p ∧
    verify_disclosure p = Ok (mkDisclosed value out.(so_note).(note_owner) out.(so_note).(note_rho) out.(so_note).(note_rcm)
      memo out.(so_commitment) i (node_at merkle_node leaves TREE_DEPTH 0)).
Proof.
  intros Ho Hi Hleaf. pose proof (output_for_sealed _ _ _ _ _ _ _ Ho) as (_ & Hv & Hc & Hs & Hk). destruct Ho as [_ Hval _ _]. rewrite <-Hv in Hval.
  pose proof (lookup_lt_Some _ _ _ Hleaf) as Hlt. unfold build_disclosure. rewrite Hleaf. cbn [mbind option_bind].
  rewrite full_tree_path_spec by lia. cbn [mbind option_bind]. unfold build_disclosure_with_path.
  assert (Hfold : fold_leaf out.(so_commitment) (tree_path merkle_node leaves TREE_DEPTH i) i = node_at merkle_node leaves TREE_DEPTH 0).
  { by apply fold_tree_path; [|rewrite Hleaf|]. }
  rewrite length_tree_path, Nat.eqb_refl, Hfold, bool_decide_eq_true_2 by done. cbn [negb orb]. eexists. split; [done|].
  pose proof (sealed_length _ _ _ _ _ Hs) as Hl. unfold verify_disclosure.
  cbn [dp_version dp_stealth_ct dp_note_key dp_commitment dp_owner_tag dp_siblings dp_leaf_index dp_anchor].
  rewrite (proj2 (Nat.ltb_ge _ _) Hl). destruct Hs as (kem_ct & Hkl & Hct). rewrite Hct, take_app_length' in Hk by done.
  rewrite Hct, drop_app_length', Hk, open_seal by done. cbn [Z.eqb Pos.eqb negb ok_orR bindR].
  rewrite (proj2 (decode_note_pt_iff _ (note_value (so_note out)) _ _ memo) (conj Hval eq_refl)).
  cbn [ok_orR bindR].
  assert (Hcm : commit_note (mkNote (note_value (so_note out)) (note_owner (so_note out)) (note_rho (so_note out)) (note_rcm (so_note out))) =
    so_commitment out) by (rewrite Hc; by destruct (so_note out)).
  rewrite (bool_decide_eq_true_2 _ Hcm). cbn [negb].
  by rewrite length_tree_path, Nat.eqb_refl, Hfold, bool_decide_eq_true_2, Hv by done.
Qed.
(** C28: a disclosure tells the payment.  From the note key that the sender kept, which
    is the one the recipient recovers, a package is built that an auditor verifies
    offline, and what he reads is the payment: amount, owner, memo, the commitment, its
    index, and the pool's root. *)
Theorem disclosure_tells_the_payment k epoch value coin entropy memo out chain_id i leaves :
  output_for k epoch value coin entropy memo out → 0 ≤ i < 2 ^ 32 → leaves !! Z.to_nat i = Some out.(so_commitment) →
  note_key_as_recipient k epoch out.(so_commitment) out.(so_stealth_ct) = Some out.(so_note_key) ∧
  ∃ p, build_disclosure chain_id leaves i out.(so_note).(note_owner) out.(so_stealth_ct) out.(so_note_key) = Some p ∧
    verify_disclosure p = Ok (mkDisclosed value out.(so_note).(note_owner) out.(so_note).(note_rho) out.(so_note).(note_rcm)
      memo out.(so_commitment) i (node_at merkle_node leaves TREE_DEPTH 0)).
Proof.
  intros Ho Hi Hleaf. split; [|by eapply package_verifies].
  pose proof (output_for_sealed _ _ _ _ _ _ _ Ho) as (_ & _ & _ & Hs & Hk).
  pose proof (sealed_length _ _ _ _ _ Hs) as Hl. unfold note_key_as_recipient, decapsulate.
  rewrite (proj2 (Nat.ltb_ge _ _)), length_take_le, Nat.eqb_refl by lia. cbn [mbind option_bind]. by rewrite <-Hk.
Qed.
Lemma verify_disclosure_ok p (d : DisclosedPayment) :
  verify_disclosure p = Ok d ↔
  p.(dp_version) = 1 ∧ length p.(dp_siblings) = TREE_DEPTH ∧
  fold_leaf p.(dp_commitment) p.(dp_siblings) p.(dp_leaf_index) = p.(dp_anchor) ∧
  d.(di_commitment) = p.(dp_commitment) ∧ d.(di_owner_tag) = p.(dp_owner_tag) ∧ d.(di_leaf_index) = p.(dp_leaf_index) ∧
  d.(di_anchor) = p.(dp_anchor) ∧ in_u64 d.(di_value) ∧
  commit_note (mkNote d.(di_value) d.(di_owner_tag) d.(di_rho) d.(di_rcm)) = d.(di_commitment) ∧
  (CT_LEN ≤ length p.(dp_stealth_ct))%nat ∧
  drop CT_LEN p.(dp_stealth_ct) = seal p.(dp_note_key) p.(dp_commitment) (encode_note_pt d.(di_value) d.(di_rho) d.(di_rcm) d.(di_memo)).
Proof.
  unfold verify_disclosure. split.
  - destruct (Z.eqb_spec (dp_version p) 1) as [Hv|]; cbn [negb]; [|done].
    destruct (Nat.ltb_spec (length (dp_stealth_ct p)) (CT_LEN + TAG_LEN)) as [|Hl]; [done|].
    destruct (open _ _ _) as [pt|] eqn:Eo; cbn [ok_orR bindR]; [|done]. apply open_iff in Eo.
    destruct (decode_note_pt pt) as [[[[v rho] rcm] memo]|] eqn:Ed; cbn [ok_orR bindR]; [|done].
    apply decode_note_pt_iff in Ed as [Hin ->]. case_bool_decide as Hc; cbn [negb]; [|done].
    destruct (Nat.eqb_spec (length (dp_siblings p)) TREE_DEPTH) as [Hs|]; cbn [negb]; [|done].
    case_bool_decide as Hf; cbn [negb]; [|done]. intros [= <-]. split_and!; try done. lia.
  - destruct d as [v tag rho rcm memo cm idx anchor]. cbn [di_value di_owner_tag di_rho di_rcm di_memo di_commitment di_leaf_index di_anchor].
    intros (-> & Hs & Hf & -> & -> & -> & -> & Hin & Hc & Hl & Hd). cbn [Z.eqb Pos.eqb negb].
    assert (Hl2 : (CT_LEN + TAG_LEN ≤ length (dp_stealth_ct p))%nat).
    { apply (f_equal length) in Hd. rewrite length_drop, length_seal in Hd. lia. }
    rewrite (proj2 (Nat.ltb_ge _ _) Hl2), Hd, open_seal. cbn [ok_orR bindR].
    rewrite (proj2 (decode_note_pt_iff _ v rho rcm memo) (conj Hin eq_refl)). cbn [ok_orR bindR].
    by rewrite bool_decide_eq_true_2, Hs, Nat.eqb_refl, bool_decide_eq_true_2 by done.
Qed.
(** C27: a disclosure cannot lie about the amount.  A package that verifies against the
    root of a pool is of a leaf of that pool, the one its index names by the low 32
    bits (or of the hash that pads the tree), and the amount, owner and secrets it
    tells are those of every note with that commitment: unless SHA-256 collides on
    what the verification hashes. *)
Theorem disclosure_binds_amount p (d : DisclosedPayment) leaves i n :
  verify_disclosure p = Ok d → d.(di_anchor) = node_at merkle_node leaves TREE_DEPTH 0 →
  0 ≤ d.(di_leaf_index) → i = d.(di_leaf_index) mod 2 ^ 32 →
  collision_free (node_inputs DOM_NODE (fold_trace merkle_node i 0 p.(dp_siblings) d.(di_commitment)) ++ tree_inputs leaves i) →
  in_u64 n.(note_value) → commit_note n = d.(di_commitment) →
  collision_free [note_input n; note_input (mkNote d.(di_value) d.(di_owner_tag) d.(di_rho) d.(di_rcm))] →
  (leaves !! Z.to_nat i = Some d.(di_commitment) ∨ d.(di_commitment) = zero_h256) ∧
  n = mkNote d.(di_value) d.(di_owner_tag) d.(di_rho) d.(di_rcm).
Proof.
  intros (_ & Hs & Hf & Hcm & _ & Hidx & Hanc & Hin & Hc & _)%verify_disclosure_ok Hroot Hi Hmod Hfree Hn Hnc Hfree2. split.
  - apply (fold_opens_leaf _ (dp_siblings p) _ (di_leaf_index d)); [done..|]. by rewrite Hcm, Hidx, <-Hroot, Hanc.
  - apply commit_note_inj; [done..|]. by rewrite Hc.
Qed.
(** C29: the memo of a disclosure is not bound.  Whoever holds a package that verifies, the
    auditor included, can put any memo into it: the ciphertext is authenticated
    under the key that the package itself carries, and is not compared with the one on
    the chain. *)
Theorem disclosed_memo_is_not_bound p (d : DisclosedPayment) memo :
  verify_disclosure p = Ok d →
  ∃ ct, verify_disclosure (mkDisclosure p.(dp_version) p.(dp_chain_id) p.(dp_commitment) p.(dp_owner_tag) p.(dp_leaf_index)
                             p.(dp_anchor) p.(dp_siblings) ct p.(dp_note_key)) =
    Ok (mkDisclosed d.(di_value) d.(di_owner_tag) d.(di_rho) d.(di_rcm) memo d.(di_commitment) d.(di_leaf_index) d.(di_anchor)).
Proof.
  intros (Hv & Hs & Hf & Hcm & Ho & Hidx & Hanc & Hin & Hc & Hl & _)%verify_disclosure_ok.
  exists (take CT_LEN p.(dp_stealth_ct) ++ seal p.(dp_note_key) p.(dp_commitment)
    (encode_note_pt d.(di_value) d.(di_rho) d.(di_rcm) memo)).
  apply verify_disclosure_ok. cbn. split_and!; try done.
  - rewrite length_app, length_take_le by done. unfold CT_LEN. lia.
  - by rewrite drop_app_length' by by rewrite length_take_le.
Qed.
End promises.
