(* ===== verification/Assets.v ===== *)
(** Issued assets (chain/crates/hk-state/src/assets.rs): policy flags, registry
    entries, derived ids and the symbol rule. *)

From S2P Require Export Hash.
From S2P Require Import Toy.

Definition DOM_ASSET_ID : string := "hk/v1/asset-id".
Definition MAX_SYMBOL_LEN : nat := 16.
Definition MAX_DECIMALS : Z := 18.
Definition MAX_BURN_DESTINATION : nat := 64.

Record AssetPolicy := mkPolicy {
  mintable : bool;
  freezable : bool;
  pausable : bool;
  pool_eligible : bool;
}.
#[export] Instance AssetPolicy_eq_dec : EqDecision AssetPolicy.
Proof. solve_decision. Defined.
Definition policy_default : AssetPolicy := mkPolicy false false false false.

(** [AssetPolicy::bits] *)
Definition policy_bits (p : AssetPolicy) : Z :=
  Z.lor (Z.lor (Z.lor (Z.b2z (mintable p)) (Z.shiftl (Z.b2z (freezable p)) 1))
           (Z.shiftl (Z.b2z (pausable p)) 2)) (Z.shiftl (Z.b2z (pool_eligible p)) 3).

(** Characters are Unicode scalar values. *)
Definition ch (b : byte) : Z := byte_val b.
(** [from_flags]: the error names the offending character. *)
Fixpoint from_flags_loop (s : list Z) (p : AssetPolicy) : res Z AssetPolicy :=
  match s with
  | [] => Ok p
  | c :: s =>
      if c =? ch "m" then from_flags_loop s (mkPolicy true (freezable p) (pausable p) (pool_eligible p))
      else if c =? ch "f" then from_flags_loop s (mkPolicy (mintable p) true (pausable p) (pool_eligible p))
      else if c =? ch "p" then from_flags_loop s (mkPolicy (mintable p) (freezable p) true (pool_eligible p))
      else if c =? ch "s" then from_flags_loop s (mkPolicy (mintable p) (freezable p) (pausable p) true)
      else if c =? ch "-" then from_flags_loop s p
      else Err c
  end.
Definition from_flags (s : list Z) : res Z AssetPolicy := from_flags_loop s policy_default.
Definition flags (p : AssetPolicy) : list Z :=
  let s := (if mintable p then [ch "m"] else []) ++ (if freezable p then [ch "f"] else []) ++
           (if pausable p then [ch "p"] else []) ++ (if pool_eligible p then [ch "s"] else []) in
  match s with [] => [ch "-"] | _ => s end.

Record AssetInfo := mkAsset {
  ai_symbol : string;
  ai_decimals : Z;
  ai_issuer : AccountId;
  ai_policy : AssetPolicy;
  ai_supply : Amount;
  ai_burned : Amount;
  ai_paused : bool;
  ai_frozen : gset H256;
  ai_registered_at : Z;
}.
#[export] Instance AssetInfo_eq_dec : EqDecision AssetInfo.
Proof. solve_decision. Defined.
Definition ai_set_supply (v : Amount) (i : AssetInfo) : AssetInfo :=
  mkAsset i.(ai_symbol) i.(ai_decimals) i.(ai_issuer) i.(ai_policy) v i.(ai_burned)
    i.(ai_paused) i.(ai_frozen) i.(ai_registered_at).
Definition ai_set_burned (v : Amount) (i : AssetInfo) : AssetInfo :=
  mkAsset i.(ai_symbol) i.(ai_decimals) i.(ai_issuer) i.(ai_policy) i.(ai_supply) v
    i.(ai_paused) i.(ai_frozen) i.(ai_registered_at).
Definition ai_set_paused (b : bool) (i : AssetInfo) : AssetInfo :=
  mkAsset i.(ai_symbol) i.(ai_decimals) i.(ai_issuer) i.(ai_policy) i.(ai_supply) i.(ai_burned)
    b i.(ai_frozen) i.(ai_registered_at).
Definition ai_set_frozen (f : gset H256) (i : AssetInfo) : AssetInfo :=
  mkAsset i.(ai_symbol) i.(ai_decimals) i.(ai_issuer) i.(ai_policy) i.(ai_supply) i.(ai_burned)
    i.(ai_paused) f i.(ai_registered_at).

(** [commit_into]: the bytes appended to the commitment buffer. *)
Definition commit_asset (i : AssetInfo) : bytes :=
  h256_bytes (ai_issuer i) ++ [byte_of (Z.of_nat (length (str_bytes (ai_symbol i))))] ++
  str_bytes (ai_symbol i) ++ [byte_of (ai_decimals i)] ++ [byte_of (policy_bits (ai_policy i))] ++
  [byte_of (Z.b2z (ai_paused i))] ++ u128_le (ai_supply i) ++ u128_le (ai_burned i) ++
  u64_le (ai_registered_at i) ++ u64_le (Z.of_nat (size (ai_frozen i))) ++
  concat (h256_bytes <$> btree_keys (ai_frozen i)).

(** [u8::is_ascii_alphabetic], [is_ascii_alphanumeric] *)
Definition is_ascii_alphabetic (b : byte) : bool :=
  let c := byte_val b in ((65 <=? c) && (c <=? 90)) || ((97 <=? c) && (c <=? 122)).
Definition is_ascii_alphanumeric (b : byte) : bool :=
  is_ascii_alphabetic b || ((48 <=? byte_val b) && (byte_val b <=? 57)).
Definition symbol_byte (b : byte) : bool :=
  is_ascii_alphanumeric b || bool_decide (b ∈ ["."; "_"; "-"]%byte).
Definition valid_symbol (symbol : string) : bool :=
  let b := str_bytes symbol in
  match b with
  | [] => false
  | b0 :: _ =>
      if (MAX_SYMBOL_LEN <? length b)%nat || negb (is_ascii_alphabetic b0) then false
      else forallb symbol_byte b
  end.

Section assets.
Context {SHAKE : Shake}.

Definition derive_asset_id (issuer : AccountId) (symbol : string) : AssetId :=
  shake256_32 DOM_ASSET_ID [h256_bytes issuer; str_bytes symbol].

Lemma valid_symbol_short s : valid_symbol s = true → short (str_bytes s).
Proof.
  unfold valid_symbol, short. destruct (str_bytes s) as [|b l]; [done|].
  destruct (Nat.ltb_spec MAX_SYMBOL_LEN (length (b :: l))) as [|H]; [done|]. intros _.
  unfold MAX_SYMBOL_LEN in H. unfold u64_max. lia.
Qed.
(** Ids cannot be squatted: the hash input determines issuer and symbol. *)
Lemma derive_asset_id_input i1 s1 i2 s2 :
  valid_symbol s1 = true → valid_symbol s2 = true →
  shake_input DOM_ASSET_ID [h256_bytes i1; str_bytes s1] =
  shake_input DOM_ASSET_ID [h256_bytes i2; str_bytes s2] → i1 = i2 ∧ s1 = s2.
Proof.
  intros V1 V2 H. assert (no_nul DOM_ASSET_ID) as Hn.
  { unfold no_nul. apply (bool_decide_unpack _). vm_compute. exact I. }
  assert (∀ i : H256, short (h256_bytes i)) as Hs
    by (intros i; unfold short; rewrite length_h256; unfold u64_max; lia).
  apply shake_input_inj in H as [_ [= H1 H2]]; [|done|done|..].
  - apply (inj h256_bytes) in H1. by apply str_bytes_inj in H2.
  - repeat constructor; auto using valid_symbol_short.
  - repeat constructor; auto using valid_symbol_short.
Qed.
End assets.

(** The flag spelling round-trips, and the commitment byte is faithful. *)
Lemma flags_roundtrip p : from_flags (flags p) = Ok p.
Proof. by destruct p as [[] [] [] []]. Qed.
Lemma policy_bits_inj p q : policy_bits p = policy_bits q → p = q.
Proof. by destruct p as [[] [] [] []], q as [[] [] [] []]. Qed.
