(* ===== verification/Tx.v ===== *)
(** Transactions and the signing digest (chain/crates/hk-state/src/tx.rs). *)

From S2P Require Export Assets Circuit.

Module Tx.
(** [enum Tx], fields in the order of the source. *)
Inductive t :=
  | Transfer (to : AccountId) (asset : AssetId) (amount : Amount)
  | MandateCreate (id : MandateId) (parent : option MandateId) (holder : AccountId)
      (asset : AssetId) (rate_per_sec buffer_max per_tx_max initial_buffer : Amount)
      (expiry : Timestamp) (tier : Z)
  | MandateSpend (leaf : MandateId) (to : AccountId) (amount : Amount)
  | MandateRevoke (target : MandateId)
  | ChannelOpen (id : ChannelId) (mandate : MandateId) (payee : AccountId) (asset : AssetId)
      (tip : H256) (unit_price : Amount) (max_steps : Z) (expiry : Timestamp)
  | ChannelSettle (id : ChannelId) (word : H256) (step : Z)
  | ChannelRefund (id : ChannelId)
  | MintToPool (asset : AssetId) (value : Amount) (commitment : H256) (proof stealth_ct : bytes)
  | ShieldedSpend (anchor nullifier out_commitment out2_commitment : H256) (fee : Amount)
      (credit : option AccountId) (mandate : option MandateId)
      (proof stealth_ct stealth_ct2 : bytes)
  | AccountCreate (id : AccountId) (auth_commit : H256) (asset : AssetId) (amount : Amount)
  | AssetRegister (asset : AssetId) (symbol : string) (decimals : Z) (policy : AssetPolicy)
  | AssetMint (asset : AssetId) (to : AccountId) (amount : Amount)
  | AssetBurn (asset : AssetId) (amount : Amount) (destination : bytes)
  | AssetFreeze (asset : AssetId) (account : AccountId) (frozen : bool)
  | AssetPause (asset : AssetId) (paused : bool).
End Tx.
Notation Tx := Tx.t.

Record SignedTx := mkSignedTx {
  stx_sender : AccountId;
  stx_nonce : Z;
  stx_payload : Tx;
  stx_next_auth : H256;
  stx_lamport_pk : bytes;
  stx_sig : bytes;
}.

#[export] Instance Tx_eq_dec : EqDecision Tx.
Proof. solve_decision. Defined.
#[export] Instance SignedTx_eq_dec : EqDecision SignedTx.
Proof. solve_decision. Defined.

(** The third-party encoders: [serde_json::to_vec] of a payload (which may fail)
    and [bincode::serialize(..).unwrap_or_default()] of the expected public
    outputs.  Nothing is assumed of them here. *)
Class Codecs := {
  json_tx : Tx → option bytes;
  bincode_spend_public : SpendPublic → bytes;
  bincode_mint_public : MintPublic → bytes;
}.

Section tx.
Context {SHAKE : Shake} {CODECS : Codecs}.

Definition signing_digest (payload : Tx) (sender : AccountId) (nonce : Z) (next_auth : H256)
    : option H256 :=
  payload_bytes ← json_tx payload;
  Some (shake256_32 DOM_TX_MSG
          [payload_bytes; h256_bytes sender; u64_le nonce; h256_bytes next_auth]).
End tx.
