(* ===== verification/State.v ===== *)
(** The state machine (chain/crates/hk-state/src/lib.rs): data, every
    transaction handler, block application, snapshots and the commitment. *)

From S2P Require Export Mandate Payword Lamport Pool Tx.
From stdpp Require Import pretty.
#[local] Open Scope Z_scope.

(** * Data *)

Record Account := mkAccount { acc_auth_commit : H256; acc_nonce : Z }.
Record Channel := mkChannel {
  chan_state : ChannelState;
  chan_escrow_remaining : Amount;
  chan_refunded : bool;
}.
Record GenesisAccount := mkGenesisAccount { ga_id : AccountId; ga_auth_commit : H256 }.
Record GenesisFee := mkGenesisFee { gf_micro : Amount; gf_from_height : Z; gf_asset : option AssetId }.
Record GenesisAsset := mkGenesisAsset {
  gas_id : AssetId; gas_symbol : string; gas_decimals : Z; gas_issuer : AccountId; gas_policy : AssetPolicy;
}.
Record Genesis := mkGenesis {
  g_time : Timestamp;
  g_accounts : list GenesisAccount;
  g_alloc : list (AccountId * AssetId * Amount);
  g_fee : option GenesisFee;
  g_assets : list GenesisAsset;
}.

Module Event.
Inductive t :=
  | Transferred (from to : AccountId) (asset : AssetId) (amount : Amount)
  | MandateCreated (id : MandateId)
  | MandateRevoked (id : MandateId)
  | MandateSpent (leaf : MandateId) (to : AccountId) (amount : Amount)
  | ChannelOpened (id : ChannelId) (escrow : Amount)
  | ChannelSettled (id : ChannelId) (upto_step : Z) (paid : Amount)
  | ChannelRefunded (id : ChannelId) (amount : Amount)
  | PoolMinted (commitment : H256) (value : Amount)
  | PoolSpent (nullifier out_commitment out2_commitment : H256) (fee : Amount)
      (credit : option AccountId)
  | AccountCreated (id creator : AccountId) (asset : AssetId) (funded : Amount)
  | AssetRegistered (asset : AssetId) (issuer : AccountId) (symbol : string)
  | AssetMinted (asset : AssetId) (to : AccountId) (amount : Amount)
  | AssetBurned (asset : AssetId) (from : AccountId) (amount : Amount) (destination : bytes)
  | AssetFrozen (asset : AssetId) (account : AccountId) (frozen : bool)
  | AssetPaused (asset : AssetId) (paused : bool).
End Event.
Notation Event := Event.t.

Module StateError.
Inductive t :=
  | UnknownAccount | DuplicateAccount
  | BadNonce (expected got : Z)
  | AuthMismatch | BadSignature | Encode
  | InsufficientBalance (have need : Amount)
  | Mandate (e : Mandate.SpendError)
  | UnknownMandate | DuplicateMandate | NotHolder | MandateAssetMismatch
  | UnknownChannel | DuplicateChannel | ChannelIdMismatch | ChannelRefunded | NotExpired
  | BadSettlement | BadStep | Overflow | ZeroAmount | BadHeight | TimeBackwards
  | PoolProofInvalid | PoolUnknownAnchor | PoolDoubleSpend | PoolAssetMismatch
  | PoolValueRange | PoolFeeNeedsCredit | PoolFull
  | AccountExists | AccountIdMismatch
  | InsufficientFee (have need : Amount)
  | UnknownAsset | AssetExists | AssetIdMismatch | BadSymbol | BadDecimals | NotIssuer
  | PolicyForbids | AssetPaused | AccountFrozen | NotPoolEligible | BurnDestinationTooLong
  | BadFeeAssetPolicy | DuplicateAsset
  | SettleDeltaTooLarge (delta max : Z)
  | ChannelTooLong (max_steps max : Z).
End StateError.
Notation StateError := StateError.t.

(** [SpendError::to_string] and [StateError::to_string] ([thiserror] formats):
    the receipt strings. *)
Definition spend_error_string (e : Mandate.SpendError) : string :=
  match e with
  | Mandate.NotFound => "mandate not found"
  | Mandate.Revoked d => "mandate revoked at depth " +:+ pretty d +:+ " from leaf"
  | Mandate.Expired d => "mandate expired at depth " +:+ pretty d +:+ " from leaf"
  | Mandate.PerTxCap d => "amount exceeds per_tx_max at depth " +:+ pretty d +:+ " from leaf"
  | Mandate.Insufficient d have need =>
      "insufficient buffer at depth " +:+ pretty d +:+ " from leaf (have " +:+ pretty have +:+
      ", need " +:+ pretty need +:+ ")"
  | Mandate.BadChain => "mandate chain exceeds MAX_DEPTH or contains a cycle"
  | Mandate.Attenuation what => "child policy exceeds parent (attenuation violated): " +:+ what
  end.
Definition state_error_string (e : StateError) : string :=
  match e with
  | StateError.UnknownAccount => "unknown account"
  | StateError.DuplicateAccount => "duplicate genesis account"
  | StateError.BadNonce expected got =>
      "bad nonce: expected " +:+ pretty expected +:+ ", got " +:+ pretty got
  | StateError.AuthMismatch => "lamport pk does not open the account auth commitment"
  | StateError.BadSignature => "bad signature"
  | StateError.Encode => "tx encoding failed"
  | StateError.InsufficientBalance have need =>
      "insufficient balance: have " +:+ pretty have +:+ ", need " +:+ pretty need
  | StateError.Mandate e => "mandate: " +:+ spend_error_string e
  | StateError.UnknownMandate => "unknown mandate"
  | StateError.DuplicateMandate => "duplicate mandate id"
  | StateError.NotHolder => "sender is not the required mandate holder"
  | StateError.MandateAssetMismatch =>
      "mandate asset mismatch: a mandate authorizes only its own asset (the tree is single-asset)"
  | StateError.UnknownChannel => "unknown channel"
  | StateError.DuplicateChannel => "duplicate channel id"
  | StateError.ChannelIdMismatch => "channel id does not match derived id"
  | StateError.ChannelRefunded => "channel already refunded"
  | StateError.NotExpired => "channel not yet expired"
  | StateError.BadSettlement => "invalid payword settlement proof"
  | StateError.BadStep => "settle step invalid (stale, zero, or beyond max)"
  | StateError.Overflow => "amount overflow"
  | StateError.ZeroAmount => "zero amount"
  | StateError.BadHeight => "block height must be parent+1"
  | StateError.TimeBackwards => "block time must not go backwards"
  | StateError.PoolProofInvalid => "pool proof rejected (invalid, or no verifier wired)"
  | StateError.PoolUnknownAnchor => "unknown pool anchor"
  | StateError.PoolDoubleSpend => "nullifier already spent (double spend)"
  | StateError.PoolAssetMismatch => "pool asset mismatch"
  | StateError.PoolValueRange => "pool value exceeds u64 range"
  | StateError.PoolFeeNeedsCredit => "shielded fee requires a credit account"
  | StateError.PoolFull => "commitment tree full"
  | StateError.AccountExists => "account already exists"
  | StateError.AccountIdMismatch => "account id does not match H(auth_commit)"
  | StateError.InsufficientFee have need =>
      "insufficient balance for the protocol fee (have " +:+ pretty have +:+ ", need " +:+
      pretty need +:+ ")"
  | StateError.UnknownAsset => "unknown asset (not registered)"
  | StateError.AssetExists => "asset already registered"
  | StateError.AssetIdMismatch => "asset id does not match H(issuer, symbol)"
  | StateError.BadSymbol => "bad asset symbol (1-16 of [A-Za-z0-9._-], letter first)"
  | StateError.BadDecimals => "bad decimals (max 18)"
  | StateError.NotIssuer => "sender is not the asset's issuer"
  | StateError.PolicyForbids => "asset policy forbids this (not mintable / freezable / pausable)"
  | StateError.AssetPaused => "asset paused"
  | StateError.AccountFrozen => "frozen by issuer"
  | StateError.NotPoolEligible => "asset is not pool-eligible"
  | StateError.BurnDestinationTooLong => "burn destination too long (max 64 bytes)"
  | StateError.BadFeeAssetPolicy =>
      "fee asset policy: the fee asset must not be pausable or freezable"
  | StateError.DuplicateAsset => "duplicate genesis asset"
  | StateError.SettleDeltaTooLarge delta max =>
      "settle delta too large (" +:+ pretty delta +:+ " links past the highest settled step, max "
      +:+ pretty max +:+ " per settlement)"
  | StateError.ChannelTooLong max_steps max =>
      "channel too long (" +:+ pretty max_steps +:+ " steps, max " +:+ pretty max +:+ ")"
  end.

Record Receipt := mkReceipt { rc_index : nat; rc_result : string + list Event }.

Definition FEE_ASSET : AssetId := h256_rep x09.
Definition MAX_SETTLE_DELTA : Z := Z.shiftl 1 16.
Definition MAX_CHANNEL_STEPS : Z := Z.shiftl 1 17.

Record State := mkState {
  st_height : Z;
  st_time : Timestamp;
  st_accounts : gmap H256 Account;
  st_balances : gmap (H256 * H256) Amount;
  st_mandates : MandateTree;
  st_root_funding : gmap H256 AccountId;
  st_channels : gmap H256 Channel;
  st_pool : PoolState;
  st_verifier : ProofVerifier;
  st_agg_cover : gset H256;
  st_fee_micro : Amount;
  st_fee_from : Z;
  st_fees_burned : Amount;
  st_fee_asset : AssetId;
  st_assets : gmap H256 AssetInfo;
  st_pools : gmap H256 PoolState;
  st_multi_pool_from : Z;
  st_mandate_asset_from : Z;
  st_payword_cap_from : Z;
}.

(** Field updates. *)
Definition set_height (v : Z) (s : State) : State :=
  mkState v s.(st_time) s.(st_accounts) s.(st_balances) s.(st_mandates) s.(st_root_funding)
    s.(st_channels) s.(st_pool) s.(st_verifier) s.(st_agg_cover) s.(st_fee_micro)
    s.(st_fee_from) s.(st_fees_burned) s.(st_fee_asset) s.(st_assets) s.(st_pools)
    s.(st_multi_pool_from) s.(st_mandate_asset_from) s.(st_payword_cap_from).
Definition set_time (v : Timestamp) (s : State) : State :=
  mkState s.(st_height) v s.(st_accounts) s.(st_balances) s.(st_mandates) s.(st_root_funding)
    s.(st_channels) s.(st_pool) s.(st_verifier) s.(st_agg_cover) s.(st_fee_micro)
    s.(st_fee_from) s.(st_fees_burned) s.(st_fee_asset) s.(st_assets) s.(st_pools)
    s.(st_multi_pool_from) s.(st_mandate_asset_from) s.(st_payword_cap_from).
Definition set_accounts (v : gmap H256 Account) (s : State) : State :=
  mkState s.(st_height) s.(st_time) v s.(st_balances) s.(st_mandates) s.(st_root_funding)
    s.(st_channels) s.(st_pool) s.(st_verifier) s.(st_agg_cover) s.(st_fee_micro)
    s.(st_fee_from) s.(st_fees_burned) s.(st_fee_asset) s.(st_assets) s.(st_pools)
    s.(st_multi_pool_from) s.(st_mandate_asset_from) s.(st_payword_cap_from).
Definition set_balances (v : gmap (H256 * H256) Amount) (s : State) : State :=
  mkState s.(st_height) s.(st_time) s.(st_accounts) v s.(st_mandates) s.(st_root_funding)
    s.(st_channels) s.(st_pool) s.(st_verifier) s.(st_agg_cover) s.(st_fee_micro)
    s.(st_fee_from) s.(st_fees_burned) s.(st_fee_asset) s.(st_assets) s.(st_pools)
    s.(st_multi_pool_from) s.(st_mandate_asset_from) s.(st_payword_cap_from).
Definition set_mandates (v : MandateTree) (s : State) : State :=
  mkState s.(st_height) s.(st_time) s.(st_accounts) s.(st_balances) v s.(st_root_funding)
    s.(st_channels) s.(st_pool) s.(st_verifier) s.(st_agg_cover) s.(st_fee_micro)
    s.(st_fee_from) s.(st_fees_burned) s.(st_fee_asset) s.(st_assets) s.(st_pools)
    s.(st_multi_pool_from) s.(st_mandate_asset_from) s.(st_payword_cap_from).
Definition set_root_funding (v : gmap H256 AccountId) (s : State) : State :=
  mkState s.(st_height) s.(st_time) s.(st_accounts) s.(st_balances) s.(st_mandates) v
    s.(st_channels) s.(st_pool) s.(st_verifier) s.(st_agg_cover) s.(st_fee_micro)
    s.(st_fee_from) s.(st_fees_burned) s.(st_fee_asset) s.(st_assets) s.(st_pools)
    s.(st_multi_pool_from) s.(st_mandate_asset_from) s.(st_payword_cap_from).
Definition set_channels (v : gmap H256 Channel) (s : State) : State :=
  mkState s.(st_height) s.(st_time) s.(st_accounts) s.(st_balances) s.(st_mandates)
    s.(st_root_funding) v s.(st_pool) s.(st_verifier) s.(st_agg_cover) s.(st_fee_micro)
    s.(st_fee_from) s.(st_fees_burned) s.(st_fee_asset) s.(st_assets) s.(st_pools)
    s.(st_multi_pool_from) s.(st_mandate_asset_from) s.(st_payword_cap_from).
Definition set_pool (v : PoolState) (s : State) : State :=
  mkState s.(st_height) s.(st_time) s.(st_accounts) s.(st_balances) s.(st_mandates)
    s.(st_root_funding) s.(st_channels) v s.(st_verifier) s.(st_agg_cover) s.(st_fee_micro)
    s.(st_fee_from) s.(st_fees_burned) s.(st_fee_asset) s.(st_assets) s.(st_pools)
    s.(st_multi_pool_from) s.(st_mandate_asset_from) s.(st_payword_cap_from).
Definition set_agg_cover (v : gset H256) (s : State) : State :=
  mkState s.(st_height) s.(st_time) s.(st_accounts) s.(st_balances) s.(st_mandates)
    s.(st_root_funding) s.(st_channels) s.(st_pool) s.(st_verifier) v s.(st_fee_micro)
    s.(st_fee_from) s.(st_fees_burned) s.(st_fee_asset) s.(st_assets) s.(st_pools)
    s.(st_multi_pool_from) s.(st_mandate_asset_from) s.(st_payword_cap_from).
Definition set_fee_micro (v : Amount) (s : State) : State :=
  mkState s.(st_height) s.(st_time) s.(st_accounts) s.(st_balances) s.(st_mandates)
    s.(st_root_funding) s.(st_channels) s.(st_pool) s.(st_verifier) s.(st_agg_cover) v
    s.(st_fee_from) s.(st_fees_burned) s.(st_fee_asset) s.(st_assets) s.(st_pools)
    s.(st_multi_pool_from) s.(st_mandate_asset_from) s.(st_payword_cap_from).
Definition set_fee_from (v : Z) (s : State) : State :=
  mkState s.(st_height) s.(st_time) s.(st_accounts) s.(st_balances) s.(st_mandates)
    s.(st_root_funding) s.(st_channels) s.(st_pool) s.(st_verifier) s.(st_agg_cover)
    s.(st_fee_micro) v s.(st_fees_burned) s.(st_fee_asset) s.(st_assets) s.(st_pools)
    s.(st_multi_pool_from) s.(st_mandate_asset_from) s.(st_payword_cap_from).
Definition set_fees_burned (v : Amount) (s : State) : State :=
  mkState s.(st_height) s.(st_time) s.(st_accounts) s.(st_balances) s.(st_mandates)
    s.(st_root_funding) s.(st_channels) s.(st_pool) s.(st_verifier) s.(st_agg_cover)
    s.(st_fee_micro) s.(st_fee_from) v s.(st_fee_asset) s.(st_assets) s.(st_pools)
    s.(st_multi_pool_from) s.(st_mandate_asset_from) s.(st_payword_cap_from).
Definition set_fee_asset (v : AssetId) (s : State) : State :=
  mkState s.(st_height) s.(st_time) s.(st_accounts) s.(st_balances) s.(st_mandates)
    s.(st_root_funding) s.(st_channels) s.(st_pool) s.(st_verifier) s.(st_agg_cover)
    s.(st_fee_micro) s.(st_fee_from) s.(st_fees_burned) v s.(st_assets) s.(st_pools)
    s.(st_multi_pool_from) s.(st_mandate_asset_from) s.(st_payword_cap_from).
Definition set_assets (v : gmap H256 AssetInfo) (s : State) : State :=
  mkState s.(st_height) s.(st_time) s.(st_accounts) s.(st_balances) s.(st_mandates)
    s.(st_root_funding) s.(st_channels) s.(st_pool) s.(st_verifier) s.(st_agg_cover)
    s.(st_fee_micro) s.(st_fee_from) s.(st_fees_burned) s.(st_fee_asset) v s.(st_pools)
    s.(st_multi_pool_from) s.(st_mandate_asset_from) s.(st_payword_cap_from).
Definition set_pools (v : gmap H256 PoolState) (s : State) : State :=
  mkState s.(st_height) s.(st_time) s.(st_accounts) s.(st_balances) s.(st_mandates)
    s.(st_root_funding) s.(st_channels) s.(st_pool) s.(st_verifier) s.(st_agg_cover)
    s.(st_fee_micro) s.(st_fee_from) s.(st_fees_burned) s.(st_fee_asset) s.(st_assets) v
    s.(st_multi_pool_from) s.(st_mandate_asset_from) s.(st_payword_cap_from).

Inductive PoolKey := Legacy | Asset (a : AssetId).
#[export] Instance PoolKey_eq_dec : EqDecision PoolKey.
Proof. solve_decision. Defined.

Record StateSnapshot := mkSnapshot {
  sn_height : Z;
  sn_time : Timestamp;
  sn_accounts : gmap H256 Account;
  sn_balances : gmap (H256 * H256) Amount;
  sn_mandates : MandateTree;
  sn_root_funding : gmap H256 AccountId;
  sn_channels : gmap H256 Channel;
  sn_pool : PoolState;
  sn_fees_burned : Amount;
  sn_assets : gmap H256 AssetInfo;
  sn_pools : gmap H256 PoolState;
}.

(** [serde_json::to_vec] of a node and of a channel, as the commitment uses it. *)
Class StateCodecs := {
  json_node : MandateNode → option bytes;
  json_channel : Channel → option bytes;
}.

Notation St A := (M State StateError A).

(** [if c { return Err(e) }] in a read-only method. *)
Definition refuseR {E} (c : bool) (e : E) : res E unit := if c then Err e else Ok tt.

Section state.
Context {SHAKE : Shake} {SHA2 : Sha2} {CODECS : Codecs}.

Definition state_default : State :=
  mkState 0 0 ∅ ∅ ∅ ∅ ∅ pool_default RejectAllVerifier ∅ 0 u64_max 0 FEE_ASSET ∅ ∅
    u64_max u64_max u64_max.

(** ** Public statements the chain derives *)

Definition as_u64 (x : Z) : Z := wrapping u64_max x.
Definition expected_spend_public (anchor nullifier out out2 : H256) (fee : Amount)
    (credit : option AccountId) : SpendPublic :=
  let credit_bytes := default zero_h256 credit in
  mkSpendPublic anchor nullifier out out2 (as_u64 fee) (tx_binding_for credit_bytes (as_u64 fee)).
Definition expected_mint_public (commitment : H256) (value : Amount) : MintPublic :=
  mkMintPublic commitment (as_u64 value).
Definition cover_key (kind : byte) (expected_publics : bytes) : H256 :=
  shake256_32 DOM_AGG_COVER [[kind]; expected_publics].

(** ** Balances *)

Definition balance (s : State) (id : AccountId) (asset : AssetId) : Amount :=
  default 0 (st_balances s !! (id, asset)).
Definition debit (id : AccountId) (asset : AssetId) (amount : Amount) : St unit :=
  let* s := getM in
  let have := balance s id asset in
  refuse_if (have <? amount) (StateError.InsufficientBalance have amount) ;;;
  modifyM (λ s, set_balances (<[(id, asset) := have - amount]> (st_balances s)) s).
Definition credit (id : AccountId) (asset : AssetId) (amount : Amount) : St unit :=
  modifyM (λ s, set_balances
    (<[(id, asset) := sat_add u128_max (balance s id asset) amount]> (st_balances s)) s).

(** ** The asset gate *)

Definition is_some_and {A} (o : option A) (f : A → bool) : bool :=
  match o with Some a => f a | None => false end.
Definition asset_gate (s : State) (asset : AssetId) (from to : option AccountId)
    : res StateError unit :=
  match st_assets s !! asset with
  | Some info =>
      let? _ := refuseR (ai_paused info) StateError.AssetPaused in
      refuseR (is_some_and from (λ a, bool_decide (a ∈ ai_frozen info)) ||
               is_some_and to (λ a, bool_decide (a ∈ ai_frozen info))) StateError.AccountFrozen
  | None => Ok tt
  end.
Definition issuer_entry (s : State) (sender : AccountId) (asset : AssetId)
    (allowed : AssetPolicy → bool) : res StateError AssetInfo :=
  let? info := ok_orR (st_assets s !! asset) StateError.UnknownAsset in
  let? _ := refuseR (negb (bool_decide (ai_issuer info = sender))) StateError.NotIssuer in
  let? _ := refuseR (negb (allowed (ai_policy info))) StateError.PolicyForbids in
  Ok info.
Definition put_asset (asset : AssetId) (info : AssetInfo) : St unit :=
  modifyM (λ s, set_assets (<[asset := info]> (st_assets s)) s).

Definition do_asset_register (sender : AccountId) (asset : AssetId) (symbol : string)
    (decimals : Z) (policy : AssetPolicy) : St (list Event) :=
  refuse_if (negb (valid_symbol symbol)) StateError.BadSymbol ;;;
  refuse_if (MAX_DECIMALS <? decimals) StateError.BadDecimals ;;;
  refuse_if (negb (bool_decide (asset = derive_asset_id sender symbol)))
    StateError.AssetIdMismatch ;;;
  let* s := getM in
  refuse_if (bool_decide (is_Some (st_assets s !! asset))) StateError.AssetExists ;;;
  put_asset asset (mkAsset symbol decimals sender policy 0 0 false ∅ (st_height s)) ;;;
  retM [Event.AssetRegistered asset sender symbol].

Definition do_asset_mint (sender : AccountId) (asset : AssetId) (to : AccountId)
    (amount : Amount) : St (list Event) :=
  refuse_if (amount =? 0) StateError.ZeroAmount ;;;
  let* info := readM (λ s, issuer_entry s sender asset mintable) in
  let* _ := ok_or (checked u128_max (ai_supply info + amount)) StateError.Overflow in
  readM (λ s, asset_gate s asset None (Some to)) ;;;
  let* s := getM in
  let* info := expect (st_assets s !! asset) in
  put_asset asset (ai_set_supply (wrapping u128_max (ai_supply info + amount)) info) ;;;
  credit to asset amount ;;;
  retM [Event.AssetMinted asset to amount].

Definition do_asset_burn (sender : AccountId) (asset : AssetId) (amount : Amount)
    (destination : bytes) : St (list Event) :=
  refuse_if (amount =? 0) StateError.ZeroAmount ;;;
  refuse_if (MAX_BURN_DESTINATION <? length destination)%nat StateError.BurnDestinationTooLong ;;;
  let* s := getM in
  refuse_if (bool_decide (st_assets s !! asset = None)) StateError.UnknownAsset ;;;
  readM (λ s, asset_gate s asset (Some sender) None) ;;;
  debit sender asset amount ;;;
  let* s := getM in
  let* info := expect (st_assets s !! asset) in
  put_asset asset (ai_set_burned (sat_add u128_max (ai_burned info) amount) info) ;;;
  retM [Event.AssetBurned asset sender amount destination].

Definition do_asset_freeze (sender : AccountId) (asset : AssetId) (account : AccountId)
    (frozen : bool) : St (list Event) :=
  let* info := readM (λ s, issuer_entry s sender asset freezable) in
  put_asset asset (ai_set_frozen (if frozen then {[account]} ∪ ai_frozen info
                                  else ai_frozen info ∖ {[account]}) info) ;;;
  retM [Event.AssetFrozen asset account frozen].

Definition do_asset_pause (sender : AccountId) (asset : AssetId) (paused : bool) : St (list Event) :=
  let* info := readM (λ s, issuer_entry s sender asset pausable) in
  put_asset asset (ai_set_paused paused info) ;;;
  retM [Event.AssetPaused asset paused].

(** ** Transfers and accounts *)

Definition do_transfer (from to : AccountId) (asset : AssetId) (amount : Amount) : St (list Event) :=
  refuse_if (amount =? 0) StateError.ZeroAmount ;;;
  readM (λ s, asset_gate s asset (Some from) (Some to)) ;;;
  debit from asset amount ;;;
  credit to asset amount ;;;
  retM [Event.Transferred from to asset amount].

Definition derive_account_id (auth_commit : H256) : AccountId :=
  shake256_32 DOM_ACCOUNT_ID [h256_bytes auth_commit].
Definition put_account (id : AccountId) (a : Account) : St unit :=
  modifyM (λ s, set_accounts (<[id := a]> (st_accounts s)) s).

Definition do_account_create (sender id : AccountId) (auth_commit : H256) (asset : AssetId)
    (amount : Amount) : St (list Event) :=
  let derived := derive_account_id auth_commit in
  refuse_if (negb (bool_decide (id = derived))) StateError.AccountIdMismatch ;;;
  let* s := getM in
  refuse_if (bool_decide (is_Some (st_accounts s !! id))) StateError.AccountExists ;;;
  (if 0 <? amount then
     readM (λ s, asset_gate s asset (Some sender) (Some id)) ;;;
     debit sender asset amount
   else retM tt) ;;;
  put_account id (mkAccount auth_commit 0) ;;;
  (if 0 <? amount then credit id asset amount else retM tt) ;;;
  retM [Event.AccountCreated id sender asset amount].

(** ** Mandates *)

Definition holder_of (s : State) (id : MandateId) : res StateError AccountId :=
  let? node := ok_orR (st_mandates s !! id) StateError.UnknownMandate in
  mapErr (λ _, StateError.UnknownMandate) (h256_try_from (mn_holder_key node)).
Definition mandate_asset (s : State) (id : MandateId) : res StateError AssetId :=
  let? node := ok_orR (st_mandates s !! id) StateError.UnknownMandate in Ok (mn_asset node).
Definition check_mandate_asset_bound (s : State) (leaf root : MandateId) : res StateError unit :=
  let? leaf_asset := mandate_asset s leaf in
  let? root_asset := mandate_asset s root in
  refuseR (negb (bool_decide (leaf_asset = root_asset))) StateError.MandateAssetMismatch.
Definition root_of_mandate (s : State) (leaf : MandateId) : res StateError MandateId :=
  mapErr StateError.Mandate (root_of (st_mandates s) leaf).
Definition check_mandate (s : State) (leaf : MandateId) (amount : Amount) : res StateError unit :=
  mapErr StateError.Mandate (Mandate.check (st_mandates s) leaf amount (st_time s)).
(** [self.mandates.f(..)?] *)
Definition on_mandates {A} (m : M MandateTree Mandate.SpendError A) : St A :=
  zoom st_mandates set_mandates StateError.Mandate m.
Definition asset_bound (s : State) : bool := st_mandate_asset_from s <=? st_height s.

Definition do_mandate_create (sender : AccountId) (id : MandateId) (parent : option MandateId)
    (holder : AccountId) (asset : AssetId)
    (rate_per_sec buffer_max per_tx_max initial_buffer : Amount) (expiry : Timestamp)
    (tier : Z) : St (list Event) :=
  let* s := getM in
  refuse_if (bool_decide (is_Some (st_mandates s !! id))) StateError.DuplicateMandate ;;;
  match parent with
  | Some p =>
      let* h := readM (λ s, holder_of s p) in
      refuse_if (negb (bool_decide (h = sender))) StateError.NotHolder ;;;
      if asset_bound s then
        let* a := readM (λ s, mandate_asset s p) in
        refuse_if (negb (bool_decide (a = asset))) StateError.MandateAssetMismatch
      else retM tt
  | None => retM tt
  end ;;;
  let node := mkMandateNode id parent (h256_bytes holder) LamportRatchetV0 asset rate_per_sec
                buffer_max per_tx_max expiry false (Z.min initial_buffer buffer_max)
                (st_time s) tier in
  on_mandates (if asset_bound s then insert_asset_bound node else insert_node node) ;;;
  (if bool_decide (parent = None)
   then modifyM (λ s, set_root_funding (<[id := sender]> (st_root_funding s)) s)
   else retM tt) ;;;
  retM [Event.MandateCreated id].

(** The funding account of a leaf: the root's, in the leaf's asset, and from the
    R17 height only when leaf and root agree on the asset. *)
Definition root_funder (s : State) (leaf : MandateId) : res StateError AccountId :=
  let? root := root_of_mandate s leaf in
  let? funder := ok_orR (st_root_funding s !! root) StateError.UnknownMandate in
  let? _ := (if asset_bound s then check_mandate_asset_bound s leaf root else Ok tt) in
  Ok funder.

Definition do_mandate_spend (sender : AccountId) (leaf : MandateId) (to : AccountId)
    (amount : Amount) : St (list Event) :=
  refuse_if (amount =? 0) StateError.ZeroAmount ;;;
  let* h := readM (λ s, holder_of s leaf) in
  refuse_if (negb (bool_decide (h = sender))) StateError.NotHolder ;;;
  let* asset := readM (λ s, mandate_asset s leaf) in
  let* funder := readM (λ s, root_funder s leaf) in
  readM (λ s, check_mandate s leaf amount) ;;;
  readM (λ s, asset_gate s asset (Some funder) (Some to)) ;;;
  let* s := getM in
  let have := balance s funder asset in
  refuse_if (have <? amount) (StateError.InsufficientBalance have amount) ;;;
  on_mandates (Mandate.spend leaf amount (st_time s)) ;;;
  expectM (debit funder asset amount) ;;;
  credit to asset amount ;;;
  retM [Event.MandateSpent leaf to amount].

Definition do_mandate_revoke (sender : AccountId) (target : MandateId) : St (list Event) :=
  let* s := getM in
  let* node := ok_or (st_mandates s !! target) StateError.UnknownMandate in
  let* authorizer := readM (λ s, holder_of s (default target (mn_parent node))) in
  refuse_if (negb (bool_decide (authorizer = sender))) StateError.NotHolder ;;;
  on_mandates (revoke target) ;;;
  retM [Event.MandateRevoked target].

(** ** Channels *)

Definition derive_channel_id (payer payee : AccountId) (tip : H256) (nonce : Z) : ChannelId :=
  shake256_32 DOM_CHANNEL_ID [h256_bytes payer; h256_bytes payee; h256_bytes tip; u64_le nonce].
Definition put_channel (id : ChannelId) (c : Channel) : St unit :=
  modifyM (λ s, set_channels (<[id := c]> (st_channels s)) s).
Definition payword_capped (s : State) : bool := st_payword_cap_from s <=? st_height s.

Definition do_channel_open (sender : AccountId) (id : ChannelId) (mandate : MandateId)
    (payee : AccountId) (asset : AssetId) (tip : H256) (unit_price : Amount) (max_steps : Z)
    (expiry : Timestamp) : St (list Event) :=
  let* s := getM in
  refuse_if (bool_decide (is_Some (st_channels s !! id))) StateError.DuplicateChannel ;;;
  refuse_if ((unit_price =? 0) || (max_steps =? 0)) StateError.ZeroAmount ;;;
  refuse_if (payword_capped s && (MAX_CHANNEL_STEPS <? max_steps))
    (StateError.ChannelTooLong max_steps MAX_CHANNEL_STEPS) ;;;
  let* h := readM (λ s, holder_of s mandate) in
  refuse_if (negb (bool_decide (h = sender))) StateError.NotHolder ;;;
  let* acc := ok_or (st_accounts s !! sender) StateError.UnknownAccount in
  refuse_if (negb (bool_decide (derive_channel_id sender payee tip (acc_nonce acc) = id)))
    StateError.ChannelIdMismatch ;;;
  let* deposit := ok_or (checked u128_max (unit_price * max_steps)) StateError.Overflow in
  let* m_asset := readM (λ s, mandate_asset s mandate) in
  refuse_if (negb (bool_decide (m_asset = asset))) StateError.UnknownMandate ;;;
  let* funder := readM (λ s, root_funder s mandate) in
  readM (λ s, check_mandate s mandate deposit) ;;;
  readM (λ s, asset_gate s asset (Some funder) None) ;;;
  let have := balance s funder asset in
  refuse_if (have <? deposit) (StateError.InsufficientBalance have deposit) ;;;
  on_mandates (Mandate.spend mandate deposit (st_time s)) ;;;
  expectM (debit funder asset deposit) ;;;
  put_channel id (mkChannel (mkChannelState id sender payee asset mandate tip unit_price
                               max_steps 0 expiry) deposit false) ;;;
  retM [Event.ChannelOpened id deposit].

(** The read-only part of [do_channel_settle]: what the settlement pays, to
    whom, in which asset. *)
Definition settle_claim (s : State) (id : ChannelId) (word : H256) (step : Z)
    : res StateError (Amount * AccountId * AssetId) :=
  let? c := ok_orR (st_channels s !! id) StateError.UnknownChannel in
  let? _ := refuseR (chan_refunded c) StateError.ChannelRefunded in
  let prev := cs_highest_step_settled (chan_state c) in
  let? _ := refuseR ((step <=? prev) || (cs_max_steps (chan_state c) <? step)) StateError.BadStep in
  let newly := step - prev in
  let? _ := refuseR (payword_capped s && (MAX_SETTLE_DELTA <? newly))
              (StateError.SettleDeltaTooLarge newly MAX_SETTLE_DELTA) in
  let? _ := refuseR (negb (verify_settlement (cs_tip (chan_state c)) word step))
              StateError.BadSettlement in
  let? paid := ok_orR (checked u128_max (cs_unit_price (chan_state c) * newly))
                 StateError.Overflow in
  Ok (paid, cs_payee (chan_state c), cs_asset (chan_state c)).
Definition do_channel_settle (id : ChannelId) (word : H256) (step : Z) : St (list Event) :=
  let* '(paid, payee, asset) := readM (λ s, settle_claim s id word step) in
  readM (λ s, asset_gate s asset None (Some payee)) ;;;
  let* s := getM in
  let* c := expect (st_channels s !! id) in
  put_channel id (mkChannel (cs_set_highest step (chan_state c))
                    (wrapping u128_max (chan_escrow_remaining c - paid)) (chan_refunded c)) ;;;
  credit payee asset paid ;;;
  retM [Event.ChannelSettled id step paid].

Definition settle_delta (s : State) (id : ChannelId) (step : Z) : option Z :=
  c ← st_channels s !! id;
  if chan_refunded c then None
  else
    let prev := cs_highest_step_settled (chan_state c) in
    if (step <=? prev) || (cs_max_steps (chan_state c) <? step) then None
    else Some (step - prev).
Definition settle_links (s : State) (id : ChannelId) (step : Z) : option Z :=
  (λ _, step) <$> settle_delta s id step.

Definition refund_claim (s : State) (sender : AccountId) (id : ChannelId)
    : res StateError (Amount * AccountId * AssetId) :=
  let? c := ok_orR (st_channels s !! id) StateError.UnknownChannel in
  let? _ := refuseR (chan_refunded c) StateError.ChannelRefunded in
  let? _ := refuseR (negb (bool_decide (cs_payer (chan_state c) = sender))) StateError.NotHolder in
  let? _ := refuseR (st_time s <? cs_expiry (chan_state c)) StateError.NotExpired in
  Ok (chan_escrow_remaining c, cs_payer (chan_state c), cs_asset (chan_state c)).
Definition do_channel_refund (sender : AccountId) (id : ChannelId) : St (list Event) :=
  let* '(amount, payer, asset) := readM (λ s, refund_claim s sender id) in
  readM (λ s, asset_gate s asset None (Some payer)) ;;;
  let* s := getM in
  let* c := expect (st_channels s !! id) in
  put_channel id (mkChannel (chan_state c) 0 true) ;;;
  credit payer asset amount ;;;
  retM [Event.ChannelRefunded id amount].

(** ** Shielded pools *)

Definition pool_key_of_asset (s : State) (asset : AssetId) : res StateError PoolKey :=
  match pool_asset (st_pool s) with
  | None => Ok Legacy
  | Some a =>
      if bool_decide (a = asset) then Ok Legacy
      else if (st_multi_pool_from s <=? st_height s) || bool_decide (is_Some (st_pools s !! asset))
           then Ok (Asset asset)
           else Err StateError.PoolAssetMismatch
  end.
Definition pool_key_of_anchor (s : State) (anchor : H256) : option PoolKey :=
  if is_recent_anchor (st_pool s) anchor then Some Legacy
  else (λ e, Asset e.1) <$> List.find (λ e, is_recent_anchor e.2 anchor) (btree_iter (st_pools s)).
Definition pool_ref (s : State) (key : PoolKey) : option PoolState :=
  match key with
  | Legacy => Some (st_pool s)
  | Asset a => st_pools s !! a
  end.
Definition pool_asset_of (s : State) (key : PoolKey) : option AssetId :=
  match key with
  | Legacy => pool_asset (st_pool s)
  | Asset a => Some a
  end.
Definition pools_iter (s : State) : list (PoolKey * PoolState) :=
  (Legacy, st_pool s) :: ((λ e, (Asset e.1, e.2)) <$> btree_iter (st_pools s)).
Definition shielded_of (s : State) (asset : AssetId) : Amount :=
  let total := if bool_decide (pool_asset (st_pool s) = Some asset)
               then sat_add u128_max 0 (pool_total_shielded (st_pool s)) else 0 in
  match st_pools s !! asset with
  | Some p => sat_add u128_max total (pool_total_shielded p)
  | None => total
  end.

(** A mutation of the pool behind [key], whose current value is [p]. *)
Definition put_pool (key : PoolKey) (p : PoolState) (s : State) : State :=
  match key with
  | Legacy => set_pool p s
  | Asset a => set_pools (<[a := p]> (st_pools s)) s
  end.
Definition on_pool {A} (key : PoolKey) (p : PoolState) (m : M PoolState StateError A) : St A :=
  zoom (λ _, p) (put_pool key) id m.
(** [pool.tree.append(c).expect(..)] *)
Definition append_expect (c : H256) : M PoolState StateError unit :=
  let* r := zoom pool_tree pool_set_tree id (append c) in
  let* _ := expect r in retM tt.

(** The pool created by the first shield of an additional asset. *)
Definition new_pool (version : Z) (a : AssetId) : M PoolState StateError unit :=
  modifyM (pool_set_version version) ;;;
  modifyM (pool_set_asset (Some a)) ;;;
  seal_anchor.
Definition entry_pool (key : PoolKey) : St PoolState :=
  let* s := getM in
  match pool_ref s key, key with
  | Some p, _ => retM p
  | None, Asset a => on_pool key pool_default (new_pool (pool_version (st_pool s)) a ;;; getM)
  | None, Legacy => panicM
  end.

Definition mint_covered (s : State) (proof : bytes) (expected : MintPublic) : bool :=
  match proof with
  | [] => bool_decide (cover_key KIND_MINT (bincode_mint_public expected) ∈ st_agg_cover s)
  | _ => verify_mint (st_verifier s) proof expected
  end.
Definition spend_covered (s : State) (proof : bytes) (expected : SpendPublic) : bool :=
  match proof with
  | [] => bool_decide (cover_key KIND_SPEND (bincode_spend_public expected) ∈ st_agg_cover s)
  | _ => verify_spend (st_verifier s) proof expected
  end.
Definition pool_eligible_asset (s : State) (asset : AssetId) : bool :=
  match st_assets s !! asset with Some info => pool_eligible (ai_policy info) | None => false end.

Definition do_mint_to_pool (sender : AccountId) (asset : AssetId) (value : Amount)
    (commitment : H256) (proof : bytes) : St (list Event) :=
  refuse_if (value =? 0) StateError.ZeroAmount ;;;
  refuse_if (u64_max <? value) StateError.PoolValueRange ;;;
  let* s := getM in
  refuse_if (bool_decide (is_Some (st_assets s !! asset)) && negb (pool_eligible_asset s asset))
    StateError.NotPoolEligible ;;;
  readM (λ s, asset_gate s asset (Some sender) None) ;;;
  let* key := readM (λ s, pool_key_of_asset s asset) in
  refuse_if (negb (bool_decide (key = Legacy)) && negb (pool_eligible_asset s asset))
    StateError.NotPoolEligible ;;;
  refuse_if (is_some_and (pool_ref s key) (λ p, is_full (pool_tree p))) StateError.PoolFull ;;;
  refuse_if (negb (mint_covered s proof (expected_mint_public commitment value)))
    StateError.PoolProofInvalid ;;;
  debit sender asset value ;;;
  let* p := entry_pool key in
  on_pool key p (
    modifyM (λ p, pool_set_asset (Some (default asset (pool_asset p))) p) ;;;
    append_expect commitment ;;;
    modifyM (λ p, pool_set_total (sat_add u128_max (pool_total_shielded p) value) p)) ;;;
  retM [Event.PoolMinted commitment value].

(** The mandate clauses of [do_shielded_spend]: first the authorisation ... *)
Definition shielded_mandate_check (s : State) (sender : AccountId) (fee : Amount)
    (mandate : option MandateId) : res StateError unit :=
  match mandate with
  | Some m =>
      let? _ := refuseR (fee =? 0) StateError.ZeroAmount in
      let? h := holder_of s m in
      let? _ := refuseR (negb (bool_decide (h = sender))) StateError.NotHolder in
      check_mandate s m fee
  | None => Ok tt
  end.
(** ... then, from the R17 height, the asset rule against the pool. *)
Definition shielded_asset_check (s : State) (asset : option AssetId) (mandate : option MandateId)
    : res StateError unit :=
  match mandate with
  | Some m =>
      if asset_bound s then
        let? root := root_of_mandate s m in
        let? _ := check_mandate_asset_bound s m root in
        let? m_asset := mandate_asset s m in
        refuseR (negb (bool_decide (asset = Some m_asset))) StateError.MandateAssetMismatch
      else Ok tt
  | None => Ok tt
  end.

Definition do_shielded_spend (sender : AccountId)
    (anchor nullifier out_commitment out2_commitment : H256) (fee : Amount)
    (credit_to : option AccountId) (mandate : option MandateId) (proof : bytes) : St (list Event) :=
  refuse_if (u64_max <? fee) StateError.PoolValueRange ;;;
  refuse_if ((0 <? fee) && bool_decide (credit_to = None)) StateError.PoolFeeNeedsCredit ;;;
  readM (λ s, shielded_mandate_check s sender fee mandate) ;;;
  let* s := getM in
  let* key := ok_or (pool_key_of_anchor s anchor) StateError.PoolUnknownAnchor in
  let asset := pool_asset_of s key in
  refuse_if ((0 <? fee) && bool_decide (asset = None)) StateError.PoolAssetMismatch ;;;
  readM (λ s, shielded_asset_check s asset mandate) ;;;
  (if 0 <? fee then
     let* a := expect asset in readM (λ s, asset_gate s a None credit_to)
   else retM tt) ;;;
  let* p := expect (pool_ref s key) in
  refuse_if (bool_decide (nullifier ∈ pool_nullifiers p)) StateError.PoolDoubleSpend ;;;
  refuse_if (negb (has_capacity (pool_tree p) 2)) StateError.PoolFull ;;;
  let expected := expected_spend_public anchor nullifier out_commitment out2_commitment fee credit_to in
  refuse_if (negb (spend_covered s proof expected)) StateError.PoolProofInvalid ;;;
  match mandate with
  | Some m => on_mandates (Mandate.spend m fee (st_time s))
  | None => retM tt
  end ;;;
  on_pool key p (
    modifyM (λ p, pool_set_nullifiers ({[nullifier]} ∪ pool_nullifiers p) p) ;;;
    append_expect out_commitment ;;;
    append_expect out2_commitment ;;;
    if 0 <? fee
    then modifyM (λ p, pool_set_total (sat_sub (pool_total_shielded p) fee) p)
    else retM tt) ;;;
  (if 0 <? fee then
     let* to := expect credit_to in
     let* a := expect asset in
     credit to a fee
   else retM tt) ;;;
  retM [Event.PoolSpent nullifier out_commitment out2_commitment fee credit_to].

(** ** The envelope *)

Definition dispatch (sender : AccountId) (tx : Tx) : St (list Event) :=
  match tx with
  | Tx.Transfer to asset amount => do_transfer sender to asset amount
  | Tx.AccountCreate id auth_commit asset amount =>
      do_account_create sender id auth_commit asset amount
  | Tx.MandateCreate id parent holder asset rate_per_sec buffer_max per_tx_max initial_buffer
      expiry tier =>
      do_mandate_create sender id parent holder asset rate_per_sec buffer_max per_tx_max
        initial_buffer expiry tier
  | Tx.MandateSpend leaf to amount => do_mandate_spend sender leaf to amount
  | Tx.MandateRevoke target => do_mandate_revoke sender target
  | Tx.ChannelOpen id mandate payee asset tip unit_price max_steps expiry =>
      do_channel_open sender id mandate payee asset tip unit_price max_steps expiry
  | Tx.ChannelSettle id word step => do_channel_settle id word step
  | Tx.ChannelRefund id => do_channel_refund sender id
  | Tx.MintToPool asset value commitment proof _ =>
      do_mint_to_pool sender asset value commitment proof
  | Tx.ShieldedSpend anchor nullifier out_commitment out2_commitment fee credit mandate proof _ _ =>
      do_shielded_spend sender anchor nullifier out_commitment out2_commitment fee credit mandate proof
  | Tx.AssetRegister asset symbol decimals policy =>
      do_asset_register sender asset symbol decimals policy
  | Tx.AssetMint asset to amount => do_asset_mint sender asset to amount
  | Tx.AssetBurn asset amount destination => do_asset_burn sender asset amount destination
  | Tx.AssetFreeze asset account frozen => do_asset_freeze sender asset account frozen
  | Tx.AssetPause asset paused => do_asset_pause sender asset paused
  end.

Definition stx_digest (stx : SignedTx) : option H256 :=
  signing_digest (stx_payload stx) (stx_sender stx) (stx_nonce stx) (stx_next_auth stx).
Definition verify_envelope (stx : SignedTx) : bool :=
  match stx_digest stx with
  | Some digest => is_ok (Lamport.verify (stx_lamport_pk stx) digest (stx_sig stx))
  | None => false
  end.

(** The checks of [apply_tx_at] before any state changes. *)
Definition check_envelope (stx : SignedTx) (pre_sig : option bool) (s : State)
    : res StateError unit :=
  let? acc := ok_orR (st_accounts s !! stx_sender stx) StateError.UnknownAccount in
  let? _ := refuseR (negb (stx_nonce stx =? acc_nonce acc))
              (StateError.BadNonce (acc_nonce acc) (stx_nonce stx)) in
  let? _ := refuseR (negb (bool_decide (pk_commit (stx_lamport_pk stx) = acc_auth_commit acc)))
              StateError.AuthMismatch in
  let sig_ok := default (verify_envelope stx) pre_sig in
  if negb sig_ok then
    let? _ := refuseR (bool_decide (stx_digest stx = None)) StateError.Encode in
    Err StateError.BadSignature
  else Ok tt.
(** The flat fee due at the current height. *)
Definition fee_due (s : State) : Amount :=
  if st_fee_from s <=? st_height s then st_fee_micro s else 0.

Definition apply_tx_at (stx : SignedTx) (pre_sig : option bool) : St (list Event) :=
  readM (check_envelope stx pre_sig) ;;;
  let* s := getM in
  let fee := fee_due s in
  let fee_asset := st_fee_asset s in
  (if 0 <? fee then
     let have := balance s (stx_sender stx) fee_asset in
     refuse_if (have <? fee) (StateError.InsufficientFee have fee) ;;;
     expectM (debit (stx_sender stx) fee_asset fee)
   else retM tt) ;;;
  let* events := on_errM (dispatch (stx_sender stx) (stx_payload stx))
                   (λ s, if 0 <? fee then fst (credit (stx_sender stx) fee_asset fee s) else s) in
  (if 0 <? fee
   then modifyM (λ s, set_fees_burned (sat_add u128_max (st_fees_burned s) fee) s)
   else retM tt) ;;;
  let* s := getM in
  let* acc := expect (st_accounts s !! stx_sender stx) in
  put_account (stx_sender stx) (mkAccount (stx_next_auth stx) (wrapping u64_max (acc_nonce acc + 1))) ;;;
  retM events.
Definition apply_tx (stx : SignedTx) : St (list Event) := apply_tx_at stx None.

(** ** Blocks *)

Definition to_receipt (i : nat) (r : StateError + list Event) : Receipt :=
  mkReceipt i (match r with inl e => inl (state_error_string e) | inr ev => inr ev end).
Fixpoint apply_txs (i : nat) (txs : list SignedTx) (sig_verdicts : option (list bool))
    : St (list Receipt) :=
  match txs with
  | [] => retM []
  | stx :: rest =>
      let* pre := match sig_verdicts with
                  | Some v => let* b := expect (v !! i) in retM (Some b)
                  | None => retM None
                  end in
      let* result := tryM (apply_tx_at stx pre) in
      let* receipts := apply_txs (S i) rest sig_verdicts in
      retM (to_receipt i result :: receipts)
  end.
Definition seal_pools : St unit :=
  let* s := getM in
  on_pool Legacy (st_pool s) seal_anchor ;;;
  for_eachM (λ e, on_pool (Asset e.1) e.2 seal_anchor) (btree_iter (st_pools s)).

Definition apply_block_verified (height : Z) (time : Timestamp) (txs : list SignedTx)
    (sig_verdicts : option (list bool)) : St (list Receipt) :=
  let* s := getM in
  refuse_if (negb (height =? wrapping u64_max (st_height s + 1))) StateError.BadHeight ;;;
  refuse_if (time <? st_time s) StateError.TimeBackwards ;;;
  refuse_if (is_some_and sig_verdicts (λ v, negb (length v =? length txs)%nat)) StateError.BadHeight ;;;
  modifyM (set_height height) ;;;
  modifyM (set_time time) ;;;
  let* receipts := apply_txs 0 txs sig_verdicts in
  seal_pools ;;;
  modifyM (set_agg_cover ∅) ;;;
  retM receipts.
Definition apply_block (height : Z) (time : Timestamp) (txs : list SignedTx) : St (list Receipt) :=
  apply_block_verified height time txs None.
Definition set_block_coverage (cover : gset H256) : St unit := modifyM (set_agg_cover cover).

(** ** Genesis *)

Definition genesis_account (ga : GenesisAccount) : St unit :=
  let* s := getM in
  let old := st_accounts s !! ga_id ga in
  put_account (ga_id ga) (mkAccount (ga_auth_commit ga) 0) ;;;
  refuse_if (bool_decide (is_Some old)) StateError.DuplicateAccount.
Definition genesis_asset (ga : GenesisAsset) : St unit :=
  refuse_if (negb (valid_symbol (gas_symbol ga))) StateError.BadSymbol ;;;
  refuse_if (MAX_DECIMALS <? gas_decimals ga) StateError.BadDecimals ;;;
  let* s := getM in
  let old := st_assets s !! gas_id ga in
  put_asset (gas_id ga) (mkAsset (gas_symbol ga) (gas_decimals ga) (gas_issuer ga) (gas_policy ga)
                           0 0 false ∅ 0) ;;;
  refuse_if (bool_decide (is_Some old)) StateError.DuplicateAsset.
Definition genesis_alloc (e : AccountId * AssetId * Amount) : St unit :=
  let '(id, asset, amount) := e in
  credit id asset amount ;;;
  let* s := getM in
  match st_assets s !! asset with
  | Some info => put_asset asset (ai_set_supply (sat_add u128_max (ai_supply info) amount) info)
  | None => retM tt
  end.
Definition genesis_fee (f : GenesisFee) : St unit :=
  modifyM (set_fee_micro (gf_micro f)) ;;;
  modifyM (set_fee_from (gf_from_height f)) ;;;
  match gf_asset f with Some a => modifyM (set_fee_asset a) | None => retM tt end.
Definition genesis_steps (g : Genesis) : St unit :=
  for_eachM genesis_account (g_accounts g) ;;;
  for_eachM genesis_asset (g_assets g) ;;;
  for_eachM genesis_alloc (g_alloc g) ;;;
  match g_fee g with Some f => genesis_fee f | None => retM tt end ;;;
  let* s := getM in
  refuse_if (is_some_and (st_assets s !! st_fee_asset s)
               (λ info, pausable (ai_policy info) || freezable (ai_policy info)))
    StateError.BadFeeAssetPolicy ;;;
  on_pool Legacy (st_pool s) seal_anchor.
Definition from_genesis (g : Genesis) : res StateError State :=
  match genesis_steps g (set_time (g_time g) state_default) with
  | (s, Ok _) => Ok s
  | (_, Err e) => Err e
  | (_, Panic) => Panic
  end.

(** ** Snapshots *)

Definition to_snapshot (s : State) : StateSnapshot :=
  mkSnapshot (st_height s) (st_time s) (st_accounts s) (st_balances s) (st_mandates s)
    (st_root_funding s) (st_channels s) (st_pool s) (st_fees_burned s) (st_assets s) (st_pools s).
Definition from_snapshot (n : StateSnapshot) : State :=
  mkState (sn_height n) (sn_time n) (sn_accounts n) (sn_balances n) (sn_mandates n)
    (sn_root_funding n) (sn_channels n) (sn_pool n) RejectAllVerifier ∅ 0 u64_max
    (sn_fees_burned n) FEE_ASSET (sn_assets n) (sn_pools n) u64_max u64_max u64_max.

(** ** Views *)

Definition asset_conservation (s : State) (asset : AssetId) : option (Amount * Amount) :=
  info ← st_assets s !! asset;
  let held := foldl (λ held e, if bool_decide (e.1.2 = asset) then sat_add u128_max held e.2 else held)
                0 (btree_iter (st_balances s)) in
  let held := foldl (λ held e, if bool_decide (cs_asset (chan_state e.2) = asset)
                               then sat_add u128_max held (chan_escrow_remaining e.2) else held)
                held (btree_iter (st_channels s)) in
  let held := if bool_decide (pool_asset (st_pool s) = Some asset)
              then sat_add u128_max held (pool_total_shielded (st_pool s)) else held in
  let held := match st_pools s !! asset with
              | Some p => sat_add u128_max held (pool_total_shielded p)
              | None => held
              end in
  let issued := sat_sub (ai_supply info) (ai_burned info) in
  let issued := if bool_decide (asset = st_fee_asset s)
                then sat_sub issued (st_fees_burned s) else issued in
  Some (held, issued).
Definition asset_by_symbol (s : State) (issuer : AccountId) (symbol : string)
    : option (AssetId * AssetInfo) :=
  let id := derive_asset_id issuer symbol in
  (λ i, (id, i)) <$> st_assets s !! id.

(** ** The commitment *)

Definition commit_pool (p : PoolState) : option bytes :=
  r ← root (pool_tree p);
  Some ([byte_of (pool_version p)] ++
        match pool_asset p with Some a => [x01] ++ h256_bytes a | None => [x00] end ++
        u64_le (it_next_index (pool_tree p)) ++ h256_bytes r ++
        u64_le (Z.of_nat (length (pool_anchors p))) ++ concat (h256_bytes <$> pool_anchors p) ++
        u64_le (Z.of_nat (size (pool_nullifiers p))) ++
        concat (h256_bytes <$> btree_keys (pool_nullifiers p)) ++
        u128_le (pool_total_shielded p)).
Definition commit_accounts (m : gmap H256 Account) : bytes :=
  concat ((λ e, h256_bytes e.1 ++ h256_bytes (acc_auth_commit e.2) ++ u64_le (acc_nonce e.2))
            <$> btree_iter m).
Definition commit_balances (m : gmap (H256 * H256) Amount) : bytes :=
  concat ((λ e, h256_bytes e.1.1 ++ h256_bytes e.1.2 ++ u128_le e.2) <$> btree_iter m).

Context {SCODECS : StateCodecs}.
(** [id ‖ serde_json(entry)] for every entry; an encoding error panics. *)
Definition commit_json {V} (enc : V → option bytes) (m : gmap H256 V) : option bytes :=
  parts ← mapM (λ e, (λ j, h256_bytes e.1 ++ j) <$> enc e.2) (btree_iter m);
  Some (concat parts).
Definition commitment_buffer (s : State) : option bytes :=
  nodes ← commit_json json_node (st_mandates s);
  chans ← commit_json json_channel (st_channels s);
  pool ← commit_pool (st_pool s);
  pools ← mapM (λ e, (λ b, h256_bytes e.1 ++ b) <$> commit_pool e.2) (btree_iter (st_pools s));
  Some (u64_le (st_height s) ++ u64_le (st_time s) ++ commit_accounts (st_accounts s) ++
        commit_balances (st_balances s) ++ nodes ++ chans ++
        concat ((λ e, h256_bytes e.1 ++ h256_bytes e.2) <$> btree_iter (st_root_funding s)) ++
        pool ++
        (if 0 <? st_fees_burned s then [xfe] ++ u128_le (st_fees_burned s) else []) ++
        (if bool_decide (st_assets s = ∅) then []
         else [xa5] ++ u64_le (Z.of_nat (size (st_assets s))) ++
              concat ((λ e, h256_bytes e.1 ++ commit_asset e.2) <$> btree_iter (st_assets s))) ++
        (if bool_decide (st_pools s = ∅) then []
         else [xb6] ++ u64_le (Z.of_nat (size (st_pools s))) ++ concat pools)).
Definition state_commitment (s : State) : option H256 :=
  buf ← commitment_buffer s; Some (shake256_32 DOM_STATE_COMMIT [buf]).
End state.
