(* ===== verification/Spec.v ===== *)
(** What an accepted transaction does: an abstract step relation on the state,
    one rule per transaction kind, and the proof that the handlers of State.v
    refine it.  Every property of the later files is proved by cases on it. *)

From S2P Require Export State.
#[local] Open Scope Z_scope.

(** ** Frames of the handlers: what is read-only, what never fails, what fails
    without a trace *)

Section frames.
Context {S E : Type}.
Lemma atomic_bind_atomic_noerr {A B} (m : M S E A) (k : A → M S E B) :
  atomic m → (∀ a, noerr (k a)) → atomic (bindM m k).
Proof. apply atomic_bind_noerr. Qed.
Lemma noerr_zoom {T E' A} (get : S → T) put (conv : E' → E) (m : M T E' A) :
  noerr m → noerr (zoom get put conv m).
Proof.
  intros Hm s s' e H. apply zoom_inv in H as (t & r & H & _ & Hr).
  destruct r as [a|e'|]; simplify_eq/=. by eapply Hm.
Qed.
Lemma atomic_zoom {T E' A} (get : S → T) put (conv : E' → E) (m : M T E' A) :
  atomic m → (∀ s, put (get s) s = s) → atomic (zoom get put conv m).
Proof.
  intros Hm Hput s s' e H. apply zoom_inv in H as (t & r & H & -> & Hr).
  destruct r as [a|e'|]; simplify_eq/=. apply Hm in H as ->. apply Hput.
Qed.
Lemma quiet_if {A} (b : bool) (m1 m2 : M S E A) : quiet m1 → quiet m2 → quiet (if b then m1 else m2).
Proof. by destruct b. Qed.
Lemma noerr_if {A} (b : bool) (m1 m2 : M S E A) : noerr m1 → noerr m2 → noerr (if b then m1 else m2).
Proof. by destruct b. Qed.
Lemma atomic_if {A} (b : bool) (m1 m2 : M S E A) : atomic m1 → atomic m2 → atomic (if b then m1 else m2).
Proof. by destruct b. Qed.
Lemma noerr_for_each {A} (f : A → M S E unit) l : (∀ a, noerr (f a)) → noerr (for_eachM f l).
Proof.
  intros Hf. induction l as [|a l IH]; cbn [for_eachM]; [apply noerr_ret|].
  apply noerr_bind; auto.
Qed.
End frames.
#[export] Hint Resolve quiet_if noerr_if atomic_if noerr_zoom noerr_for_each : hkframe.

(** Decompose a computation into read-only checks, then fallible atomic parts,
    then parts that cannot fail. *)
Ltac frame_step :=
  lazymatch goal with
  | |- quiet (let _ := _ in _) => cbv zeta
  | |- noerr (let _ := _ in _) => cbv zeta
  | |- quiet (match ?o with _ => _ end) => destruct o
  | |- quiet (bindM _ _) => apply quiet_bind; [|intros ?]
  | |- noerr (match ?o with _ => _ end) => destruct o
  | |- noerr (bindM _ _) => apply noerr_bind; [|intros ?]
  | |- noerr (zoom _ _ _ _) => apply noerr_zoom
  end.
Ltac frame := repeat (solve [auto with hkframe] || frame_step).
Ltac atomic_step :=
  lazymatch goal with
  | |- atomic (let _ := _ in _) => cbv zeta
  | |- atomic (match ?o with _ => _ end) => destruct o
  | |- atomic (bindM ?m _) =>
      first [ apply atomic_bind_quiet; [solve [frame]|intros ?]
            | apply atomic_bind_noerr; [|intros ?; solve [frame]] ]
  end.
Ltac atomicity :=
  repeat (solve [auto with hkframe | apply atomic_quiet; frame | apply atomic_noerr; frame]
          || atomic_step).

Section handlers.
Context {SHAKE : Shake} {SHA2 : Sha2} {CODECS : Codecs}.

Lemma atomic_debit id asset amount : atomic (debit id asset amount).
Proof. unfold debit. atomicity. Qed.
Lemma noerr_credit id asset amount : noerr (credit id asset amount).
Proof. apply noerr_modify. Qed.
Lemma noerr_put_asset asset i : noerr (put_asset asset i).
Proof. apply noerr_modify. Qed.
Lemma noerr_put_account id a : noerr (put_account id a).
Proof. apply noerr_modify. Qed.
Lemma noerr_put_channel id c : noerr (put_channel id c).
Proof. apply noerr_modify. Qed.
Lemma noerr_append {E} c : noerr (append (E := E) c).
Proof. unfold append. frame. Qed.
Lemma noerr_seal_anchor {E} : noerr (seal_anchor (E := E)).
Proof. unfold seal_anchor. frame. Qed.
Lemma atomic_on_mandates {A} (m : M MandateTree Mandate.SpendError A) :
  atomic m → atomic (on_mandates m).
Proof. intros Hm. apply atomic_zoom; [done|]. by intros []. Qed.
Lemma noerr_debit_chain chain a now : noerr (debit_chain chain a now).
Proof. induction chain; cbn [debit_chain]; frame. Qed.
Lemma atomic_spend leaf a now : atomic (Mandate.spend leaf a now).
Proof.
  unfold Mandate.spend. do 2 (apply atomic_bind_quiet; [apply quiet_read|intros ?]).
  apply atomic_noerr, noerr_debit_chain.
Qed.
Lemma atomic_insert_node n : atomic (insert_node n).
Proof. intros t t' e H. by apply insert_node_refused in H as [-> _]. Qed.
Lemma atomic_insert_asset_bound n : atomic (insert_asset_bound n).
Proof. apply atomic_bind_quiet; [apply quiet_read|intros ?; apply atomic_insert_node]. Qed.
Lemma atomic_revoke id : atomic (revoke id).
Proof. unfold revoke. atomicity. Qed.
End handlers.
#[export] Hint Resolve atomic_debit noerr_credit noerr_put_asset noerr_put_account
  noerr_put_channel noerr_append noerr_seal_anchor atomic_on_mandates atomic_spend
  atomic_insert_node atomic_insert_asset_bound atomic_revoke : hkframe.

Section atomic_handlers.
Context {SHAKE : Shake} {SHA2 : Sha2} {CODECS : Codecs}.

(** Every arm of [dispatch] checks before it mutates. *)
Lemma atomic_dispatch sender tx : atomic (dispatch sender tx).
Proof.
  destruct tx; cbn [dispatch].
  - unfold do_transfer. atomicity.
  - unfold do_mandate_create. atomicity.
  - unfold do_mandate_spend. atomicity.
  - unfold do_mandate_revoke. atomicity.
  - unfold do_channel_open. atomicity.
  - unfold do_channel_settle. atomicity.
  - unfold do_channel_refund. atomicity.
  - unfold do_mint_to_pool, entry_pool, on_pool, new_pool, append_expect. atomicity.
  - unfold do_shielded_spend, on_pool, append_expect. atomicity.
  - unfold do_account_create. atomicity.
  - unfold do_asset_register. atomicity.
  - unfold do_asset_mint. atomicity.
  - unfold do_asset_burn. atomicity.
  - unfold do_asset_freeze. atomicity.
  - unfold do_asset_pause. atomicity.
Qed.
End atomic_handlers.

(** ** The effect of an accepted transaction *)

Definition debited (id : AccountId) (asset : AssetId) (amount : Amount) (s : State) : State :=
  set_balances (<[(id, asset) := balance s id asset - amount]> (st_balances s)) s.
Definition credited (id : AccountId) (asset : AssetId) (amount : Amount) (s : State) : State :=
  set_balances (<[(id, asset) := sat_add u128_max (balance s id asset) amount]> (st_balances s)) s.
Definition gate_open (s : State) (asset : AssetId) (from to : option AccountId) : Prop :=
  asset_gate s asset from to = Ok tt.

Section spec.
Context {SHAKE : Shake} {SHA2 : Sha2} {CODECS : Codecs}.

(** The pool a shield writes to: the existing one or, for a new asset, a fresh
    pool on the current circuit version whose empty root is an anchor. *)
Definition fresh_pool (s : State) (a : AssetId) : PoolState :=
  mkPool (pool_version (st_pool s)) (Some a) tree_new ∅ 0
    [node_at merkle_node [] TREE_DEPTH 0].
Definition target_pool (s : State) (key : PoolKey) : PoolState :=
  match key with
  | Legacy => st_pool s
  | Asset a => default (fresh_pool s a) (st_pools s !! a)
  end.
Definition minted_pool (asset : AssetId) (value : Amount) (t : IncrementalTree) (p : PoolState)
    : PoolState :=
  mkPool (pool_version p) (Some (default asset (pool_asset p))) t (pool_nullifiers p)
    (sat_add u128_max (pool_total_shielded p) value) (pool_anchors p).
Definition spent_pool (nullifier : H256) (fee : Amount) (t : IncrementalTree) (p : PoolState)
    : PoolState :=
  mkPool (pool_version p) (pool_asset p) t ({[nullifier]} ∪ pool_nullifiers p)
    (if 0 <? fee then sat_sub (pool_total_shielded p) fee else pool_total_shielded p)
    (pool_anchors p).
Definition appended (t : IncrementalTree) (c : H256) (t' : IncrementalTree) : Prop :=
  ∃ i, append (E := StateError) c t = (t', Ok (Some i)).
Definition new_node (s : State) (id : MandateId) (parent : option MandateId) (holder : AccountId)
    (asset : AssetId) (rate_per_sec buffer_max per_tx_max initial_buffer : Amount)
    (expiry : Timestamp) (tier : Z) : MandateNode :=
  mkMandateNode id parent (h256_bytes holder) LamportRatchetV0 asset rate_per_sec buffer_max
    per_tx_max expiry false (Z.min initial_buffer buffer_max) (st_time s) tier.

(** What authorises a draw of [amount] by [sender] on the mandate [leaf], and
    the account that pays. *)
Record authorised_draw (s : State) (sender : AccountId) (leaf : MandateId) (amount : Amount)
    (asset : AssetId) (funder : AccountId) (t' : MandateTree) : Prop := {
  ad_holder : holder_of s leaf = Ok sender;
  ad_asset : mandate_asset s leaf = Ok asset;
  ad_funder : root_funder s leaf = Ok funder;
  ad_spend : Mandate.spend leaf amount (st_time s) (st_mandates s) = (t', Ok tt);
  ad_balance : amount ≤ balance s funder asset;
}.

Inductive accepts (s : State) (sender : AccountId) : Tx → list Event → State → Prop :=
  | acc_transfer to asset amount :
      amount ≠ 0 → gate_open s asset (Some sender) (Some to) → amount ≤ balance s sender asset →
      accepts s sender (Tx.Transfer to asset amount) [Event.Transferred sender to asset amount]
        (credited to asset amount (debited sender asset amount s))
  | acc_account_create id auth_commit asset amount :
      id = derive_account_id auth_commit → st_accounts s !! id = None →
      (0 < amount → gate_open s asset (Some sender) (Some id) ∧ amount ≤ balance s sender asset) →
      accepts s sender (Tx.AccountCreate id auth_commit asset amount)
        [Event.AccountCreated id sender asset amount]
        (if 0 <? amount
         then credited id asset amount
                (set_accounts (<[id := mkAccount auth_commit 0]> (st_accounts s))
                   (debited sender asset amount s))
         else set_accounts (<[id := mkAccount auth_commit 0]> (st_accounts s)) s)
  | acc_mandate_create id parent holder asset rate_per_sec buffer_max per_tx_max
      initial_buffer expiry tier node t' :
      node = new_node s id parent holder asset rate_per_sec buffer_max per_tx_max
               initial_buffer expiry tier →
      st_mandates s !! id = None →
      (∀ p, parent = Some p → holder_of s p = Ok sender ∧
         ∃ pn, st_mandates s !! p = Some pn ∧ attenuated node pn ∧
               (asset_bound s = true → mn_asset pn = asset)) →
      t' = <[id := node]> (st_mandates s) →
      accepts s sender (Tx.MandateCreate id parent holder asset rate_per_sec buffer_max
                          per_tx_max initial_buffer expiry tier)
        [Event.MandateCreated id]
        (if bool_decide (parent = None)
         then set_root_funding (<[id := sender]> (st_root_funding s)) (set_mandates t' s)
         else set_mandates t' s)
  | acc_mandate_spend leaf to amount asset funder t' :
      amount ≠ 0 → authorised_draw s sender leaf amount asset funder t' →
      gate_open s asset (Some funder) (Some to) →
      accepts s sender (Tx.MandateSpend leaf to amount) [Event.MandateSpent leaf to amount]
        (credited to asset amount (debited funder asset amount (set_mandates t' s)))
  | acc_mandate_revoke target node :
      st_mandates s !! target = Some node →
      holder_of s (default target (mn_parent node)) = Ok sender →
      accepts s sender (Tx.MandateRevoke target) [Event.MandateRevoked target]
        (set_mandates (<[target := mn_set_revoked true node]> (st_mandates s)) s)
  | acc_channel_open id mandate payee asset tip unit_price max_steps expiry acc deposit funder t' :
      st_channels s !! id = None → unit_price ≠ 0 → max_steps ≠ 0 →
      (payword_capped s = true → max_steps ≤ MAX_CHANNEL_STEPS) →
      st_accounts s !! sender = Some acc →
      id = derive_channel_id sender payee tip (acc_nonce acc) →
      deposit = unit_price * max_steps → deposit ≤ u128_max →
      authorised_draw s sender mandate deposit asset funder t' →
      gate_open s asset (Some funder) None →
      accepts s sender (Tx.ChannelOpen id mandate payee asset tip unit_price max_steps expiry)
        [Event.ChannelOpened id deposit]
        (set_channels
           (<[id := mkChannel (mkChannelState id sender payee asset mandate tip unit_price
                                 max_steps 0 expiry) deposit false]> (st_channels s))
           (debited funder asset deposit (set_mandates t' s)))
  | acc_channel_settle id word step c paid :
      st_channels s !! id = Some c → chan_refunded c = false →
      cs_highest_step_settled (chan_state c) < step ≤ cs_max_steps (chan_state c) →
      (payword_capped s = true →
       step - cs_highest_step_settled (chan_state c) ≤ MAX_SETTLE_DELTA) →
      hash_forward step word = cs_tip (chan_state c) →
      paid = cs_unit_price (chan_state c) * (step - cs_highest_step_settled (chan_state c)) →
      paid ≤ u128_max →
      gate_open s (cs_asset (chan_state c)) None (Some (cs_payee (chan_state c))) →
      accepts s sender (Tx.ChannelSettle id word step) [Event.ChannelSettled id step paid]
        (credited (cs_payee (chan_state c)) (cs_asset (chan_state c)) paid
           (set_channels (<[id := mkChannel (cs_set_highest step (chan_state c))
                                    (wrapping u128_max (chan_escrow_remaining c - paid)) false]>
                            (st_channels s)) s))
  | acc_channel_refund id c :
      st_channels s !! id = Some c → chan_refunded c = false →
      cs_payer (chan_state c) = sender → cs_expiry (chan_state c) ≤ st_time s →
      gate_open s (cs_asset (chan_state c)) None (Some sender) →
      accepts s sender (Tx.ChannelRefund id)
        [Event.ChannelRefunded id (chan_escrow_remaining c)]
        (credited sender (cs_asset (chan_state c)) (chan_escrow_remaining c)
           (set_channels (<[id := mkChannel (chan_state c) 0 true]> (st_channels s)) s))
  | acc_mint_to_pool asset value commitment proof ct key t' :
      value ≠ 0 → value ≤ u64_max → gate_open s asset (Some sender) None →
      pool_key_of_asset s asset = Ok key →
      (is_Some (st_assets s !! asset) ∨ key ≠ Legacy → pool_eligible_asset s asset = true) →
      mint_covered s proof (expected_mint_public commitment value) = true →
      value ≤ balance s sender asset →
      appended (pool_tree (target_pool s key)) commitment t' →
      accepts s sender (Tx.MintToPool asset value commitment proof ct)
        [Event.PoolMinted commitment value]
        (put_pool key (minted_pool asset value t' (target_pool s key))
           (debited sender asset value s))
  | acc_shielded_spend anchor nullifier out out2 fee credit_to mandate proof ct ct2 key p
      m' t1 t2 :
      fee ≤ u64_max → (0 < fee → is_Some credit_to ∧ is_Some (pool_asset_of s key)) →
      pool_key_of_anchor s anchor = Some key → pool_ref s key = Some p →
      nullifier ∉ pool_nullifiers p →
      spend_covered s proof (expected_spend_public anchor nullifier out out2 fee credit_to) = true →
      (∀ a, 0 < fee → pool_asset_of s key = Some a → gate_open s a None credit_to) →
      match mandate with
      | Some m => holder_of s m = Ok sender ∧ fee ≠ 0 ∧
          Mandate.spend m fee (st_time s) (st_mandates s) = (m', Ok tt) ∧
          shielded_asset_check s (pool_asset_of s key) (Some m) = Ok tt
      | None => m' = st_mandates s
      end →
      appended (pool_tree p) out t1 → appended t1 out2 t2 →
      accepts s sender (Tx.ShieldedSpend anchor nullifier out out2 fee credit_to mandate proof ct ct2)
        [Event.PoolSpent nullifier out out2 fee credit_to]
        (let s1 := put_pool key (spent_pool nullifier fee t2 p) (set_mandates m' s) in
         match credit_to, pool_asset_of s key with
         | Some to, Some a => if 0 <? fee then credited to a fee s1 else s1
         | _, _ => s1
         end)
  | acc_asset_register asset symbol decimals policy :
      valid_symbol symbol = true → decimals ≤ MAX_DECIMALS →
      asset = derive_asset_id sender symbol → st_assets s !! asset = None →
      accepts s sender (Tx.AssetRegister asset symbol decimals policy)
        [Event.AssetRegistered asset sender symbol]
        (set_assets (<[asset := mkAsset symbol decimals sender policy 0 0 false ∅ (st_height s)]>
                       (st_assets s)) s)
  | acc_asset_mint asset to amount info :
      amount ≠ 0 → st_assets s !! asset = Some info → ai_issuer info = sender →
      mintable (ai_policy info) = true → ai_supply info + amount ≤ u128_max →
      gate_open s asset None (Some to) →
      accepts s sender (Tx.AssetMint asset to amount) [Event.AssetMinted asset to amount]
        (credited to asset amount
           (set_assets (<[asset := ai_set_supply
                            (wrapping u128_max (ai_supply info + amount)) info]> (st_assets s)) s))
  | acc_asset_burn asset amount destination info :
      amount ≠ 0 → (length destination ≤ MAX_BURN_DESTINATION)%nat →
      st_assets s !! asset = Some info → gate_open s asset (Some sender) None →
      amount ≤ balance s sender asset →
      accepts s sender (Tx.AssetBurn asset amount destination)
        [Event.AssetBurned asset sender amount destination]
        (set_assets (<[asset := ai_set_burned (sat_add u128_max (ai_burned info) amount) info]>
                       (st_assets s)) (debited sender asset amount s))
  | acc_asset_freeze asset account frozen info :
      st_assets s !! asset = Some info → ai_issuer info = sender →
      freezable (ai_policy info) = true →
      accepts s sender (Tx.AssetFreeze asset account frozen)
        [Event.AssetFrozen asset account frozen]
        (set_assets (<[asset := ai_set_frozen (if frozen then {[account]} ∪ ai_frozen info
                                               else ai_frozen info ∖ {[account]}) info]>
                       (st_assets s)) s)
  | acc_asset_pause asset paused info :
      st_assets s !! asset = Some info → ai_issuer info = sender →
      pausable (ai_policy info) = true →
      accepts s sender (Tx.AssetPause asset paused) [Event.AssetPaused asset paused]
        (set_assets (<[asset := ai_set_paused paused info]> (st_assets s)) s).

(** ** The handlers refine the relation *)

Lemma debit_ok id asset amount s s' u :
  debit id asset amount s = (s', Ok u) → amount ≤ balance s id asset ∧ s' = debited id asset amount s.
Proof. unfold debit. intros H. mrun. split; [by apply Z.ltb_ge|done]. Qed.
Lemma credit_ok id asset amount s s' r :
  credit id asset amount s = (s', r) → s' = credited id asset amount s ∧ r = Ok tt.
Proof. intros H. by apply modifyM_inv in H. Qed.
Lemma put_asset_ok asset i s s' r :
  put_asset asset i s = (s', r) → s' = set_assets (<[asset := i]> (st_assets s)) s ∧ r = Ok tt.
Proof. intros H. by apply modifyM_inv in H. Qed.
Lemma put_account_ok id a s s' r :
  put_account id a s = (s', r) → s' = set_accounts (<[id := a]> (st_accounts s)) s ∧ r = Ok tt.
Proof. intros H. by apply modifyM_inv in H. Qed.
Lemma put_channel_ok id c s s' r :
  put_channel id c s = (s', r) → s' = set_channels (<[id := c]> (st_channels s)) s ∧ r = Ok tt.
Proof. intros H. by apply modifyM_inv in H. Qed.
Lemma on_mandates_ok (m : M MandateTree Mandate.SpendError unit) s s' u :
  on_mandates m s = (s', Ok u) →
  ∃ t', m (st_mandates s) = (t', Ok tt) ∧ s' = set_mandates t' s.
Proof.
  intros H. apply zoom_inv in H as (t' & r & H & -> & Hr). destruct r as [[]|e|]; simplify_eq/=.
  eauto.
Qed.
Lemma refuseR_ok {E} c (e : E) u : refuseR c e = Ok u → c = false.
Proof. by destruct c. Qed.
Lemma bindR_ok {E A B} (r : res E A) (k : A → res E B) b :
  bindR r k = Ok b → ∃ a, r = Ok a ∧ k a = Ok b.
Proof. destruct r; [eauto|done|done]. Qed.
Lemma ok_orR_ok {E A} (o : option A) (e : E) a : ok_orR o e = Ok a → o = Some a.
Proof. destruct o; [by intros [= ->]|done]. Qed.
Lemma mapErr_ok {E E' A} (f : E → E') (r : res E A) a : mapErr f r = Ok a → r = Ok a.
Proof. destruct r; [by intros [= ->]|done|done]. Qed.
End spec.

(** Inversion of accepted runs, extended to the state's own actions and to
    read-only methods; guards are turned into propositions. *)
Ltac srun_step :=
  match goal with
  | x : unit |- _ => destruct x
  | H : Ok _ = ?r |- _ => lazymatch r with Ok _ => fail | _ => symmetry in H end
  | H : bindR _ _ = Ok _ |- _ => apply bindR_ok in H; destruct H as (? & ? & H); cbn beta in *
  | H : ok_orR _ _ = Ok _ |- _ => apply ok_orR_ok in H
  | H : refuseR _ _ = Ok _ |- _ => apply refuseR_ok in H
  | H : mapErr _ _ = Ok _ |- _ => apply mapErr_ok in H
  | H : debit _ _ _ _ = (_, Ok _) |- _ => apply debit_ok in H; destruct H as [H ->]
  | H : credit _ _ _ _ = (_, Ok _) |- _ => apply credit_ok in H; destruct H as [-> _]
  | H : put_asset _ _ _ = (_, Ok _) |- _ => apply put_asset_ok in H; destruct H as [-> _]
  | H : put_account _ _ _ = (_, Ok _) |- _ => apply put_account_ok in H; destruct H as [-> _]
  | H : put_channel _ _ _ = (_, Ok _) |- _ => apply put_channel_ok in H; destruct H as [-> _]
  | H : on_mandates _ _ = (_, Ok _) |- _ =>
      apply on_mandates_ok in H; destruct H as (? & H & ->)
  | _ => mrun_step
  end.
Ltac guard_step :=
  match goal with
  | H : negb _ = false |- _ => apply negb_false_iff in H
  | H : orb _ _ = false |- _ => apply orb_false_iff in H; destruct H
  | H : bool_decide _ = true |- _ => apply bool_decide_eq_true in H
  | H : bool_decide _ = false |- _ => apply bool_decide_eq_false in H
  | H : (_ =? _) = false |- _ => apply Z.eqb_neq in H
  | H : (_ <? _) = false |- _ => apply Z.ltb_ge in H
  | H : (_ <=? _) = false |- _ => apply Z.leb_gt in H
  | H : ¬ is_Some _ |- _ => apply eq_None_not_Some in H
  end.
Ltac srun := repeat (srun_step || guard_step).

Section refinement.
Context {SHAKE : Shake} {SHA2 : Sha2} {CODECS : Codecs}.

Lemma accepts_eq s sender tx ev s1 s' : accepts s sender tx ev s1 → s1 = s' → accepts s sender tx ev s'.
Proof. by intros H <-. Qed.

Lemma transfer_sound sender to asset amount s s' ev :
  do_transfer sender to asset amount s = (s', Ok ev) →
  accepts s sender (Tx.Transfer to asset amount) ev s'.
Proof. unfold do_transfer. intros H. srun. by constructor. Qed.

Lemma account_create_sound sender id auth_commit asset amount s s' ev :
  do_account_create sender id auth_commit asset amount s = (s', Ok ev) →
  accepts s sender (Tx.AccountCreate id auth_commit asset amount) ev s'.
Proof.
  unfold do_account_create. intros H. srun.
  pose proof (acc_account_create s sender id auth_commit asset amount) as A.
  destruct (0 <? amount) eqn:E.
  - srun. apply A; [done|done|]. by intros _.
  - srun. apply A; [done|done|]. apply Z.ltb_ge in E. lia.
Qed.

Lemma mandate_asset_ok s id a :
  mandate_asset s id = Ok a → ∃ n, st_mandates s !! id = Some n ∧ mn_asset n = a.
Proof. unfold mandate_asset. intros H. srun. eauto. Qed.
(** Both insertion entry points insert the node under an attenuating parent. *)
Lemma insert_node_cases (b : bool) node t t' u :
  (if b then insert_asset_bound node else insert_node node) t = (t', Ok u) →
  t' = <[mn_id node := node]> t ∧
  ∀ p, mn_parent node = Some p →
    ∃ pn, t !! p = Some pn ∧ attenuated node pn ∧ (b = true → mn_asset pn = mn_asset node).
Proof.
  destruct b; intros H.
  - apply insert_asset_bound_ok in H as [H Hc]. apply insert_node_ok in H as [-> Hp].
    split; [done|]. intros p Hpar. destruct (Hp p Hpar) as (pn & Hpn & Ha).
    destruct (proj1 (check_asset_bound_ok _ _) Hc p Hpar) as (pn' & Hpn' & He).
    exists pn. simplify_eq. auto.
  - apply insert_node_ok in H as [-> Hp]. split; [done|]. intros p Hpar.
    destruct (Hp p Hpar) as (pn & Hpn & Ha). by exists pn.
Qed.
Lemma mandate_create_sound sender id parent holder asset rate bmax pmax init expiry tier s s' ev :
  do_mandate_create sender id parent holder asset rate bmax pmax init expiry tier s = (s', Ok ev) →
  accepts s sender (Tx.MandateCreate id parent holder asset rate bmax pmax init expiry tier) ev s'.
Proof.
  unfold do_mandate_create. intros H. srun.
  match goal with H : match parent with _ => _ end _ = (?x, Ok ()) |- _ =>
    assert (x = s ∧ ∀ p, parent = Some p → holder_of s p = Ok sender) as [-> Hhold];
      [destruct parent; [destruct (asset_bound s)|]; srun; naive_solver|clear H] end.
  match goal with H : (if _ then _ else _) (st_mandates s) = _ |- _ =>
    apply insert_node_cases in H as [-> Hpar] end.
  eapply accepts_eq.
  - eapply acc_mandate_create; [reflexivity|done| |reflexivity].
    intros p Hp. split; [by apply Hhold|]. by apply Hpar.
  - destruct (bool_decide (parent = None)); srun; done.
Qed.

Lemma authorised_draw_intro s sender leaf amount asset funder t' :
  holder_of s leaf = Ok sender → mandate_asset s leaf = Ok asset →
  root_funder s leaf = Ok funder →
  Mandate.spend leaf amount (st_time s) (st_mandates s) = (t', Ok tt) →
  amount ≤ balance s funder asset → authorised_draw s sender leaf amount asset funder t'.
Proof. by constructor. Qed.

Lemma mandate_spend_sound sender leaf to amount s s' ev :
  do_mandate_spend sender leaf to amount s = (s', Ok ev) →
  accepts s sender (Tx.MandateSpend leaf to amount) ev s'.
Proof.
  unfold do_mandate_spend. intros H. srun. subst. eapply acc_mandate_spend; [done| |done].
  by apply authorised_draw_intro.
Qed.

Lemma mandate_revoke_sound sender target s s' ev :
  do_mandate_revoke sender target s = (s', Ok ev) →
  accepts s sender (Tx.MandateRevoke target) ev s'.
Proof.
  unfold do_mandate_revoke. intros H. srun. subst.
  match goal with H : revoke _ _ = _ |- _ => rewrite revoke_spec in H end.
  simplify_option_eq. by econstructor.
Qed.

Lemma channel_open_sound sender id mandate payee asset tip price steps expiry s s' ev :
  do_channel_open sender id mandate payee asset tip price steps expiry s = (s', Ok ev) →
  accepts s sender (Tx.ChannelOpen id mandate payee asset tip price steps expiry) ev s'.
Proof.
  unfold do_channel_open. intros H. srun. subst.
  match goal with H : checked _ _ = Some _ |- _ => apply checked_some in H as [? ->] end.
  eapply accepts_eq.
  - eapply acc_channel_open; try done.
    intros Hc. rewrite Hc in *. by apply Z.ltb_ge.
  - reflexivity.
Qed.

Lemma channel_settle_sound sender id word step s s' ev :
  do_channel_settle id word step s = (s', Ok ev) →
  accepts s sender (Tx.ChannelSettle id word step) ev s'.
Proof.
  unfold do_channel_settle. intros H. srun. destruct x0 as [[paid payee] asset].
  unfold settle_claim in *. srun. simplify_eq.
  match goal with H : checked _ _ = Some _ |- _ => apply checked_some in H as [? ->] end.
  match goal with H : verify_settlement _ _ _ = true |- _ =>
    apply verify_settlement_spec in H end.
  eapply accepts_eq.
  - eapply acc_channel_settle; try done.
    intros Hc. rewrite Hc in *. by apply Z.ltb_ge.
  - match goal with H : chan_refunded _ = false |- _ => by rewrite H end.
Qed.

Lemma channel_refund_sound sender id s s' ev :
  do_channel_refund sender id s = (s', Ok ev) →
  accepts s sender (Tx.ChannelRefund id) ev s'.
Proof.
  unfold do_channel_refund. intros H. srun. destruct x0 as [[amount payer] asset].
  unfold refund_claim in *. srun. simplify_eq. by constructor.
Qed.
Lemma asset_register_sound sender asset symbol decimals policy s s' ev :
  do_asset_register sender asset symbol decimals policy s = (s', Ok ev) →
  accepts s sender (Tx.AssetRegister asset symbol decimals policy) ev s'.
Proof. unfold do_asset_register. intros H. srun. by constructor. Qed.

Lemma issuer_entry_ok s sender asset allowed info :
  issuer_entry s sender asset allowed = Ok info →
  st_assets s !! asset = Some info ∧ ai_issuer info = sender ∧ allowed (ai_policy info) = true.
Proof. unfold issuer_entry. intros H. srun. done. Qed.
Lemma asset_mint_sound sender asset to amount s s' ev :
  do_asset_mint sender asset to amount s = (s', Ok ev) →
  accepts s sender (Tx.AssetMint asset to amount) ev s'.
Proof.
  unfold do_asset_mint. intros H. srun.
  repeat match goal with
    | H : issuer_entry _ _ _ _ = Ok _ |- _ => apply issuer_entry_ok in H as (? & ? & ?)
    | H : checked _ _ = Some _ |- _ => apply checked_some in H as [? ->] end.
  simplify_eq. eapply accepts_eq; [by eapply acc_asset_mint|done].
Qed.
Lemma asset_burn_sound sender asset amount destination s s' ev :
  do_asset_burn sender asset amount destination s = (s', Ok ev) →
  accepts s sender (Tx.AssetBurn asset amount destination) ev s'.
Proof.
  unfold do_asset_burn. intros H. srun.
  eapply accepts_eq; [eapply acc_asset_burn; try done|done]. by apply Nat.ltb_ge.
Qed.
Lemma asset_freeze_sound sender asset account frozen s s' ev :
  do_asset_freeze sender asset account frozen s = (s', Ok ev) →
  accepts s sender (Tx.AssetFreeze asset account frozen) ev s'.
Proof.
  unfold do_asset_freeze. intros H. srun.
  match goal with H : issuer_entry _ _ _ _ = Ok _ |- _ => apply issuer_entry_ok in H as (? & ? & ?) end.
  by econstructor.
Qed.
Lemma asset_pause_sound sender asset paused s s' ev :
  do_asset_pause sender asset paused s = (s', Ok ev) →
  accepts s sender (Tx.AssetPause asset paused) ev s'.
Proof.
  unfold do_asset_pause. intros H. srun.
  match goal with H : issuer_entry _ _ _ _ = Ok _ |- _ => apply issuer_entry_ok in H as (? & ? & ?) end.
  by econstructor.
Qed.

Lemma append_expect_ok c p p' u :
  append_expect c p = (p', Ok u) →
  ∃ t', appended (pool_tree p) c t' ∧ p' = pool_set_tree t' p.
Proof.
  unfold append_expect. intros H. mrun.
  match goal with H : zoom _ _ _ _ _ = _ |- _ =>
    apply zoom_inv in H as (t' & r & Ha & -> & Hr) end.
  destruct r as [o|e|]; simplify_eq/=. exists t'. split; [by eexists|done].
Qed.
Lemma on_pool_ok {A} key p (m : M PoolState StateError A) s s' a :
  on_pool key p m s = (s', Ok a) → ∃ p', m p = (p', Ok a) ∧ s' = put_pool key p' s.
Proof.
  intros H. apply zoom_inv in H as (p' & r & H & -> & Hr).
  destruct r as [x|e|]; simplify_eq/=. eauto.
Qed.
Lemma put_pool_twice key p q s : put_pool key p (put_pool key q s) = put_pool key p s.
Proof. destruct key; simpl; [done|]. unfold set_pools; simpl. by rewrite insert_insert_eq. Qed.
Lemma new_pool_ok s a : new_pool (pool_version (st_pool s)) a pool_default = (fresh_pool s a, Ok tt).
Proof.
  unfold new_pool, bindM, modifyM.
  by rewrite (seal_anchor_ok []) by apply tree_repr_new.
Qed.
Lemma entry_pool_ok key s s' p :
  entry_pool key s = (s', Ok p) →
  p = target_pool s key ∧ ∀ q, put_pool key q s' = put_pool key q s.
Proof.
  unfold entry_pool, bindM, getM. intros H. destruct (pool_ref s key) as [q|] eqn:Hq.
  - mrun. unfold target_pool, pool_ref in *. destruct key; [by simplify_eq|].
    by rewrite Hq.
  - destruct key as [|a]; [done|]. apply on_pool_ok in H as (p' & H & ->).
    rewrite new_pool_ok in H. simplify_eq.
    unfold pool_ref in Hq. unfold target_pool. rewrite Hq. split; [done|].
    intros q. by rewrite put_pool_twice.
Qed.
Lemma pool_ref_target s key p : pool_ref s key = Some p → p = target_pool s key.
Proof. destruct key; simpl; [congruence|]. by intros ->. Qed.

Lemma mint_to_pool_sound sender asset value commitment proof ct s s' ev :
  do_mint_to_pool sender asset value commitment proof s = (s', Ok ev) →
  accepts s sender (Tx.MintToPool asset value commitment proof ct) ev s'.
Proof.
  unfold do_mint_to_pool. intros H. srun.
  repeat match goal with
    | H : on_pool _ _ _ _ = _ |- _ => apply on_pool_ok in H as (? & H & ->)
    | H : append_expect _ _ = _ |- _ => apply append_expect_ok in H as (? & ? & ->)
    | H : entry_pool _ _ = _ |- _ => apply entry_pool_ok in H as [-> Hput]
    | _ => mrun_step end.
  eapply accepts_eq.
  - eapply acc_mint_to_pool; try done. intros [Hs|Hk].
    + rewrite bool_decide_eq_true_2 in * by done. simpl in *. by guard_step.
    + rewrite (bool_decide_eq_false_2 (_ = Legacy)) in * by done. simpl in *. by guard_step.
  - by rewrite Hput.
Qed.

(** The pieces of [do_shielded_spend], one by one. *)
Lemma unshield_gate_ok s fee asset credit_to s1 u :
  (if 0 <? fee then let* a := expect asset in readM (λ s, asset_gate s a None credit_to)
   else retM tt) s = (s1, Ok u) →
  s1 = s ∧ (0 < fee → is_Some asset) ∧ ∀ a, 0 < fee → asset = Some a → gate_open s a None credit_to.
Proof.
  intros H. destruct (Z.ltb_spec 0 fee); srun; [|split_and!; [done|lia|lia]].
  split_and!; [done|by eexists|]. intros b _ Hb. simplify_eq. done.
Qed.
Lemma shielded_draw_ok s sender fee mandate s1 u :
  shielded_mandate_check s sender fee mandate = Ok tt →
  match mandate with
  | Some m => on_mandates (Mandate.spend m fee (st_time s))
  | None => retM tt
  end s = (s1, Ok u) →
  ∃ m', s1 = set_mandates m' s ∧
    match mandate with
    | Some m => holder_of s m = Ok sender ∧ fee ≠ 0 ∧
        Mandate.spend m fee (st_time s) (st_mandates s) = (m', Ok tt)
    | None => m' = st_mandates s
    end.
Proof.
  unfold shielded_mandate_check. intros Hc H. destruct mandate as [m|]; srun.
  - subst. eauto.
  - exists (st_mandates s). split; [by destruct s|done].
Qed.
Lemma spend_pool_ok nullifier out out2 fee p p' u :
  (modifyM (λ p, pool_set_nullifiers ({[nullifier]} ∪ pool_nullifiers p) p) ;;;
   append_expect out ;;; append_expect out2 ;;;
   if 0 <? fee then modifyM (λ p, pool_set_total (sat_sub (pool_total_shielded p) fee) p)
   else retM tt) p = (p', Ok u) →
  ∃ t1 t2, appended (pool_tree p) out t1 ∧ appended t1 out2 t2 ∧
    p' = spent_pool nullifier fee t2 p.
Proof.
  intros H. mrun.
  repeat match goal with
    | H : append_expect _ _ = _ |- _ => apply append_expect_ok in H as (? & ? & ->) end.
  do 2 eexists. split; [done|]. split; [done|].
  unfold spent_pool. destruct (0 <? fee); by mrun.
Qed.
Lemma unshield_credit_ok s fee credit_to asset s1 u :
  (if 0 <? fee then let* to := expect credit_to in let* a := expect asset in credit to a fee
   else retM tt) s = (s1, Ok u) →
  (0 < fee → is_Some credit_to) ∧
  s1 = match credit_to, asset with
       | Some to, Some a => if 0 <? fee then credited to a fee s else s
       | _, _ => s
       end.
Proof.
  intros H. destruct (Z.ltb_spec 0 fee); srun.
  - by subst.
  - split; [lia|]. by destruct credit_to, asset.
Qed.

Lemma shielded_spend_sound sender anchor nullifier out out2 fee credit_to mandate proof ct ct2 s s' ev :
  do_shielded_spend sender anchor nullifier out out2 fee credit_to mandate proof s = (s', Ok ev) →
  accepts s sender (Tx.ShieldedSpend anchor nullifier out out2 fee credit_to mandate proof ct ct2) ev s'.
Proof.
  unfold do_shielded_spend. intros H. srun.
  repeat match goal with
    | H : (if _ then bindM _ (λ a, readM _) else _) _ = _ |- _ =>
        apply unshield_gate_ok in H as (-> & Hsome & Hgate)
    | Hc : shielded_mandate_check _ _ _ _ = _, H : (match mandate with _ => _ end) _ = (_, Ok _) |- _ =>
        eapply shielded_draw_ok in H as (m' & -> & Hdraw); [|exact Hc]; clear Hc
    | H : on_pool _ _ _ _ = _ |- _ => apply on_pool_ok in H as (? & H & ->)
    | H : (if _ then bindM _ _ else _) _ = _ |- _ =>
        apply unshield_credit_ok in H as [Hcr ->]
    | H : bindM (modifyM _) _ _ = _ |- _ =>
        apply spend_pool_ok in H as (t1 & t2 & Ht1 & Ht2 & ->) end.
  eapply accepts_eq.
  - eapply acc_shielded_spend; try done.
    + intros Hf. split; [by apply Hcr|by apply Hsome].
    + instantiate (1 := m'). destruct mandate as [m|]; [|done]. naive_solver.
  - done.
Qed.

(** The refinement: whatever [dispatch] accepts, the relation allows. *)
Lemma dispatch_sound sender tx s s' ev :
  dispatch sender tx s = (s', Ok ev) → accepts s sender tx ev s'.
Proof.
  destruct tx; cbn [dispatch];
    eauto using transfer_sound, mandate_create_sound, mandate_spend_sound, mandate_revoke_sound,
      channel_open_sound, channel_settle_sound, channel_refund_sound, mint_to_pool_sound,
      shielded_spend_sound, account_create_sound, asset_register_sound, asset_mint_sound,
      asset_burn_sound, asset_freeze_sound, asset_pause_sound.
Qed.
End refinement.

(** ** Completeness: what the relation allows, [dispatch] accepts *)

Section execution.
Context {S E : Type}.
Implicit Types (s : S).
Lemma run_get {B} (k : S → M S E B) s : bindM getM k s = k s s.
Proof. done. Qed.
Lemma run_modify {B} f (k : unit → M S E B) s : bindM (modifyM f) k s = k tt (f s).
Proof. done. Qed.
Lemma run_ret {A B} (a : A) (k : A → M S E B) s : bindM (retM a) k s = k a s.
Proof. done. Qed.
Lemma run_refuse {B} c e (k : unit → M S E B) s : c = false → bindM (refuse_if c e) k s = k tt s.
Proof. by intros ->. Qed.
Lemma run_read {A B} f (a : A) (k : A → M S E B) s : f s = Ok a → bindM (readM f) k s = k a s.
Proof. unfold bindM, readM. by intros ->. Qed.
Lemma run_ok_or {A B} o e (a : A) (k : A → M S E B) s :
  o = Some a → bindM (ok_or o e) k s = k a s.
Proof. by intros ->. Qed.
Lemma run_expect {A B} o (a : A) (k : A → M S E B) s : o = Some a → bindM (expect o) k s = k a s.
Proof. by intros ->. Qed.
Lemma run_eq {A B} (m : M S E A) (k : A → M S E B) s s1 a :
  m s = (s1, Ok a) → bindM m k s = k a s1.
Proof. unfold bindM. by intros ->. Qed.
End execution.

Section completeness.
Context {SHAKE : Shake} {SHA2 : Sha2} {CODECS : Codecs}.

Lemma run_debit {B} id asset amount (k : unit → St B) s :
  amount ≤ balance s id asset → bindM (debit id asset amount) k s = k tt (debited id asset amount s).
Proof.
  intros H. apply run_eq. unfold debit. rewrite run_get, run_refuse; [done|].
  by apply Z.ltb_ge.
Qed.
Lemma run_expect_debit {B} id asset amount (k : unit → St B) s :
  amount ≤ balance s id asset →
  bindM (expectM (debit id asset amount)) k s = k tt (debited id asset amount s).
Proof.
  intros H. apply run_eq. unfold expectM.
  pose proof (run_debit id asset amount retM s H) as R. unfold bindM in R.
  destruct (debit id asset amount s) as [s1 [[]|e|]]; by simplify_eq/=.
Qed.
Lemma run_credit {B} id asset amount (k : unit → St B) s :
  bindM (credit id asset amount) k s = k tt (credited id asset amount s).
Proof. done. Qed.
Lemma run_mandates {B} m (k : unit → St B) s t' :
  m (st_mandates s) = (t', Ok tt) → bindM (on_mandates m) k s = k tt (set_mandates t' s).
Proof. intros H. apply run_eq. unfold on_mandates, zoom. by rewrite H. Qed.
Lemma refuseR_false {E} c (e : E) : c = false → refuseR c e = Ok tt.
Proof. by intros ->. Qed.
Lemma spend_check t leaf a now t' :
  Mandate.spend leaf a now t = (t', Ok tt) → Mandate.check t leaf a now = Ok tt.
Proof. unfold Mandate.spend. intros H. mrun. by destruct x0. Qed.
End completeness.

(** Decide a guard from the hypotheses of a rule. *)
Ltac guard_solve :=
  solve [ done
        | rewrite bool_decide_eq_true_2 by done; done
        | rewrite bool_decide_eq_false_2 by (done || congruence || by apply eq_None_not_Some); done
        | by apply Z.eqb_neq
        | by apply Z.ltb_ge
        | by apply Nat.ltb_ge
        | apply orb_false_iff; split; by apply Z.eqb_neq ].
Ltac exec_step :=
  first
    [ rewrite bindM_assoc | rewrite run_get | rewrite run_modify | rewrite run_ret | rewrite run_credit
    | rewrite run_refuse by guard_solve
    | erewrite run_read by eassumption
    | erewrite run_ok_or by eassumption
    | erewrite run_expect by (eassumption || reflexivity)
    | rewrite run_debit by assumption
    | rewrite run_expect_debit by assumption
    | erewrite run_mandates by eassumption ].
Ltac exec := repeat (exec_step; cbv beta iota zeta).

Section complete_handlers.
Context {SHAKE : Shake} {SHA2 : Sha2} {CODECS : Codecs}.

Lemma account_create_complete sender id auth_commit asset amount s :
  id = derive_account_id auth_commit → st_accounts s !! id = None →
  (0 < amount → gate_open s asset (Some sender) (Some id) ∧ amount ≤ balance s sender asset) →
  do_account_create sender id auth_commit asset amount s =
    (if 0 <? amount
     then credited id asset amount
            (set_accounts (<[id := mkAccount auth_commit 0]> (st_accounts s))
               (debited sender asset amount s))
     else set_accounts (<[id := mkAccount auth_commit 0]> (st_accounts s)) s,
     Ok [Event.AccountCreated id sender asset amount]).
Proof.
  intros Hid Hnew H. unfold do_account_create, put_account. exec.
  destruct (Z.ltb_spec 0 amount) as [Hp|]; [destruct (H Hp) as [Hg Hb]|]; exec; done.
Qed.

Lemma mandate_create_complete s sender id parent holder asset rate bmax pmax init expiry tier node :
  node = new_node s id parent holder asset rate bmax pmax init expiry tier →
  st_mandates s !! id = None →
  (∀ p, parent = Some p → holder_of s p = Ok sender ∧
     ∃ pn, st_mandates s !! p = Some pn ∧ attenuated node pn ∧
           (asset_bound s = true → mn_asset pn = asset)) →
  do_mandate_create sender id parent holder asset rate bmax pmax init expiry tier s =
    (if bool_decide (parent = None)
     then set_root_funding (<[id := sender]> (st_root_funding s))
            (set_mandates (<[id := node]> (st_mandates s)) s)
     else set_mandates (<[id := node]> (st_mandates s)) s, Ok [Event.MandateCreated id]).
Proof.
  intros Hnode Hnew Hpar. unfold do_mandate_create. exec.
  assert ((if asset_bound s then insert_asset_bound node else insert_node node) (st_mandates s)
          = (<[id := node]> (st_mandates s), Ok tt)) as Hins.
  { assert (insert_node node (st_mandates s) = (<[id := node]> (st_mandates s), Ok tt)) as Hi.
    { unfold insert_node. exec. subst node. cbn [mn_parent new_node].
      destruct parent as [p|]; exec; [|done].
      destruct (Hpar p eq_refl) as (_ & pn & Hpn & [Ha1 Ha2] & _). exec. done. }
    destruct (asset_bound s) eqn:Hb; [|done]. rewrite insert_asset_bound_eq; [done|].
    apply check_asset_bound_ok. intros p Hp. subst node. cbn [mn_parent new_node] in Hp.
    destruct (Hpar p Hp) as (_ & pn & Hpn & _ & Ha). exists pn. by rewrite (Ha eq_refl). }
  subst node. unfold new_node in Hins. destruct parent as [p|].
  - destruct (Hpar p eq_refl) as (Hh & pn & Hpn & _ & Ha). exec.
    destruct (asset_bound s) eqn:Hb.
    + assert (mandate_asset s p = Ok asset) as Hma.
      { unfold mandate_asset. rewrite Hpn. cbn. by rewrite Ha. }
      exec. done.
    + exec. done.
  - exec. done.
Qed.

Lemma channel_settle_complete s id word step c paid :
  st_channels s !! id = Some c → chan_refunded c = false →
  cs_highest_step_settled (chan_state c) < step ≤ cs_max_steps (chan_state c) →
  (payword_capped s = true → step - cs_highest_step_settled (chan_state c) ≤ MAX_SETTLE_DELTA) →
  hash_forward step word = cs_tip (chan_state c) →
  paid = cs_unit_price (chan_state c) * (step - cs_highest_step_settled (chan_state c)) →
  paid ≤ u128_max →
  gate_open s (cs_asset (chan_state c)) None (Some (cs_payee (chan_state c))) →
  do_channel_settle id word step s =
    (credited (cs_payee (chan_state c)) (cs_asset (chan_state c)) paid
       (set_channels (<[id := mkChannel (cs_set_highest step (chan_state c))
                                (wrapping u128_max (chan_escrow_remaining c - paid)) false]>
                        (st_channels s)) s), Ok [Event.ChannelSettled id step paid]).
Proof.
  intros Hc Hr Hstep Hcap Hw Hpaid Hmax Hg. unfold do_channel_settle, put_channel.
  assert (settle_claim s id word step =
          Ok (paid, cs_payee (chan_state c), cs_asset (chan_state c))) as Hclaim.
  { unfold settle_claim. rewrite Hc. cbn [ok_orR bindR]. rewrite Hr. cbn [refuseR bindR].
    rewrite (proj2 (Z.leb_gt _ _)), (proj2 (Z.ltb_ge _ _)) by lia. cbn [orb refuseR bindR].
    rewrite (refuseR_false (payword_capped s && _)).
    2: { destruct (payword_capped s); [|done]. apply Z.ltb_ge. by apply Hcap. }
    rewrite (proj2 (verify_settlement_spec _ _ _)) by done. cbn [negb refuseR bindR].
    rewrite <-Hpaid. by rewrite (proj2 (checked_some _ _ paid)) by done. }
  exec. by rewrite Hr.
Qed.
Lemma channel_refund_complete s sender id c :
  st_channels s !! id = Some c → chan_refunded c = false →
  cs_payer (chan_state c) = sender → cs_expiry (chan_state c) ≤ st_time s →
  gate_open s (cs_asset (chan_state c)) None (Some sender) →
  do_channel_refund sender id s =
    (credited sender (cs_asset (chan_state c)) (chan_escrow_remaining c)
       (set_channels (<[id := mkChannel (chan_state c) 0 true]> (st_channels s)) s),
     Ok [Event.ChannelRefunded id (chan_escrow_remaining c)]).
Proof.
  intros Hc Hr <- Hexp Hg. unfold do_channel_refund, put_channel.
  assert (refund_claim s (cs_payer (chan_state c)) id =
          Ok (chan_escrow_remaining c, cs_payer (chan_state c), cs_asset (chan_state c))) as Hclaim.
  { unfold refund_claim. rewrite Hc. cbn [ok_orR bindR]. rewrite Hr. cbn [refuseR bindR].
    rewrite bool_decide_eq_true_2 by done. cbn [negb refuseR bindR].
    by rewrite (proj2 (Z.ltb_ge _ _)). }
  exec. done.
Qed.

Lemma run_on_pool {B} key p (m : M PoolState StateError unit) p' (k : unit → St B) s :
  m p = (p', Ok tt) → bindM (on_pool key p m) k s = k tt (put_pool key p' s).
Proof. intros H. apply run_eq. unfold on_pool, zoom. by rewrite H. Qed.
Lemma run_append {B} c t' (k : unit → M PoolState StateError B) p :
  appended (pool_tree p) c t' → bindM (append_expect c) k p = k tt (pool_set_tree t' p).
Proof.
  intros [i H]. unfold append_expect. rewrite bindM_assoc. unfold zoom, bindM at 1. by rewrite H.
Qed.
Lemma appended_capacity t c t' :
  appended t c t' → has_capacity t 1 = true ∧ it_next_index t' = it_next_index t + 1.
Proof.
  intros [i H]. unfold append, bindM, getM, is_full in H.
  destruct (has_capacity t 1); cbn [negb] in H; [|done]. split; [done|].
  unfold expect, panicM, modifyM, retM in H. destruct (carry _ _ _ _ _); by simplify_eq/=.
Qed.
Lemma entry_pool_run key s :
  ∃ s1, entry_pool key s = (s1, Ok (target_pool s key)) ∧
    ∀ q, put_pool key q s1 = put_pool key q s.
Proof.
  unfold entry_pool, bindM, getM. destruct (pool_ref s key) as [q|] eqn:Hq.
  - exists s. split; [|done]. by rewrite (pool_ref_target _ _ _ Hq).
  - destruct key as [|a]; [done|]. eexists. split.
    + unfold on_pool, zoom. rewrite new_pool_ok. cbn [pool_ref target_pool] in *. by rewrite Hq.
    + intros q. by rewrite put_pool_twice.
Qed.

Lemma mint_to_pool_complete s sender asset value commitment proof key t' :
  value ≠ 0 → value ≤ u64_max → gate_open s asset (Some sender) None →
  pool_key_of_asset s asset = Ok key →
  (is_Some (st_assets s !! asset) ∨ key ≠ Legacy → pool_eligible_asset s asset = true) →
  mint_covered s proof (expected_mint_public commitment value) = true →
  value ≤ balance s sender asset →
  appended (pool_tree (target_pool s key)) commitment t' →
  do_mint_to_pool sender asset value commitment proof s =
    (put_pool key (minted_pool asset value t' (target_pool s key)) (debited sender asset value s),
     Ok [Event.PoolMinted commitment value]).
Proof.
  intros Hv Hm Hg Hk He Hp Hb Ha. unfold do_mint_to_pool. exec.
  assert (∀ c e (k : unit → St (list Event)), (pool_eligible_asset s asset = true → c = false) →
    (is_Some (st_assets s !! asset) ∨ key ≠ Legacy ∨ c = false) →
    bindM (refuse_if c e) k s = k tt s) as Hrun.
  { intros c e k H1 [H2|[H2|H2]]; apply run_refuse; auto. }
  rewrite Hrun; [|intros ->; by rewrite andb_false_r|].
  2: { case_bool_decide; auto. }
  exec. rewrite Hrun; [|intros ->; by rewrite andb_false_r|].
  2: { case_bool_decide; auto. }
  destruct (appended_capacity _ _ _ Ha) as [Hcap _].
  rewrite run_refuse.
  2: { unfold is_some_and. destruct (pool_ref s key) as [p|] eqn:Hq; [|done].
       apply pool_ref_target in Hq as ->. unfold is_full. by rewrite Hcap. }
  rewrite run_refuse by by rewrite Hp. exec.
  destruct (entry_pool_run key (debited sender asset value s)) as (s1 & Hs1 & Hput).
  assert (target_pool (debited sender asset value s) key = target_pool s key) as Ht by by destruct key.
  rewrite (run_eq _ _ _ _ _ Hs1). rewrite Ht.
  erewrite run_on_pool; [by rewrite Hput|]. exec.
  rewrite (run_append _ t') by done. done.
Qed.

Lemma shielded_spend_complete s sender anchor nullifier out out2 fee credit_to mandate proof key p m' t1 t2 :
  fee ≤ u64_max → (0 < fee → is_Some credit_to ∧ is_Some (pool_asset_of s key)) →
  pool_key_of_anchor s anchor = Some key → pool_ref s key = Some p →
  nullifier ∉ pool_nullifiers p →
  spend_covered s proof (expected_spend_public anchor nullifier out out2 fee credit_to) = true →
  (∀ a, 0 < fee → pool_asset_of s key = Some a → gate_open s a None credit_to) →
  match mandate with
  | Some m => holder_of s m = Ok sender ∧ fee ≠ 0 ∧
      Mandate.spend m fee (st_time s) (st_mandates s) = (m', Ok tt) ∧
      shielded_asset_check s (pool_asset_of s key) (Some m) = Ok tt
  | None => m' = st_mandates s
  end →
  appended (pool_tree p) out t1 → appended t1 out2 t2 →
  do_shielded_spend sender anchor nullifier out out2 fee credit_to mandate proof s =
    (let s1 := put_pool key (spent_pool nullifier fee t2 p) (set_mandates m' s) in
     match credit_to, pool_asset_of s key with
     | Some to, Some a => if 0 <? fee then credited to a fee s1 else s1
     | _, _ => s1
     end, Ok [Event.PoolSpent nullifier out out2 fee credit_to]).
Proof.
  intros Hf Hsome Hkey Hp Hnf Hcov Hgate Hm H1 H2. unfold do_shielded_spend.
  rewrite run_refuse by by apply Z.ltb_ge.
  rewrite run_refuse.
  2: { destruct (Z.ltb_spec 0 fee) as [Hpos|]; [|done]. destruct (Hsome Hpos) as [[to ->] _]. done. }
  rewrite (run_read _ tt).
  2: { unfold shielded_mandate_check. destruct mandate as [m|]; [|done].
       destruct Hm as (Hh & Hnz & Hs & _). rewrite (proj2 (Z.eqb_neq _ _) Hnz), Hh.
       cbn [refuseR bindR]. rewrite bool_decide_eq_true_2 by done. cbn [negb refuseR bindR].
       unfold check_mandate. by rewrite (spend_check _ _ _ _ _ Hs). }
  exec. rewrite run_refuse.
  2: { destruct (Z.ltb_spec 0 fee) as [Hpos|]; [|done]. destruct (Hsome Hpos) as [_ [a ->]]. done. }
  rewrite (run_read _ tt).
  2: { destruct mandate as [m|]; [|done]. by destruct Hm as (_ & _ & _ & ->). }
  rewrite (run_eq _ _ _ s tt).
  2: { destruct (Z.ltb_spec 0 fee) as [Hpos|]; [|done]. destruct (Hsome Hpos) as [_ [a Ha]].
       rewrite Ha. exec. unfold readM. by rewrite (Hgate a Hpos Ha). }
  exec. destruct (appended_capacity _ _ _ H1) as [C1 N1], (appended_capacity _ _ _ H2) as [C2 _].
  rewrite run_refuse.
  2: { apply negb_false_iff. unfold has_capacity, sat_add in *. rewrite N1 in C2.
       apply Z.leb_le in C1, C2. apply Z.leb_le. unfold u64_max in *.
       change (Z.shiftl 1 32) with (2 ^ 32) in *. lia. }
  rewrite run_refuse by by rewrite Hcov.
  rewrite (run_eq _ _ _ (set_mandates m' s) tt).
  2: { destruct mandate as [m|]; [|by subst m'; destruct s].
       destruct Hm as (_ & _ & Hs & _). unfold on_mandates, zoom. by rewrite Hs. }
  erewrite run_on_pool.
  2: { exec. rewrite (run_append _ t1), (run_append _ t2) by done.
       instantiate (1 := spent_pool nullifier fee t2 p). unfold spent_pool.
       by destruct (0 <? fee). }
  destruct (Z.ltb_spec 0 fee) as [Hpos|].
  - destruct (Hsome Hpos) as [[to ->] [a Ha]]. rewrite Ha. exec. done.
  - exec. by destruct credit_to, (pool_asset_of s key).
Qed.

Lemma issuer_entry_intro s sender asset (allowed : AssetPolicy → bool) info :
  st_assets s !! asset = Some info → ai_issuer info = sender → allowed (ai_policy info) = true →
  issuer_entry s sender asset allowed = Ok info.
Proof.
  intros Ha <- Hp. unfold issuer_entry. rewrite Ha. cbn [ok_orR bindR].
  rewrite bool_decide_eq_true_2 by done. cbn [negb refuseR bindR]. by rewrite Hp.
Qed.
Lemma dispatch_complete sender tx s s' ev :
  accepts s sender tx ev s' → dispatch sender tx s = (s', Ok ev).
Proof.
  intros H. destruct H; cbn [dispatch].
  - unfold do_transfer. exec. done.
  - by apply account_create_complete.
  - subst t'. by apply mandate_create_complete.
  - destruct H0 as [Hh Ha Hf Hs Hb]. unfold do_mandate_spend.
    assert (check_mandate s leaf amount = Ok tt) as Hc
      by (unfold check_mandate; by rewrite (spend_check _ _ _ _ _ Hs)).
    exec. done.
  - unfold do_mandate_revoke. exec.
    rewrite (run_mandates _ _ _ (<[target := mn_set_revoked true node]> (st_mandates s))); [done|].
    rewrite revoke_spec. by rewrite H.
  - match goal with H : authorised_draw _ _ _ _ _ _ _ |- _ => destruct H as [Hh Ha Hf Hs Hb] end.
    unfold do_channel_open, put_channel.
    assert (check_mandate s mandate deposit = Ok tt) as Hc
      by (unfold check_mandate; by rewrite (spend_check _ _ _ _ _ Hs)).
    assert (checked u128_max (unit_price * max_steps) = Some deposit) as Hd
      by (apply checked_some; by subst deposit).
    exec. rewrite run_refuse.
    2: { destruct (payword_capped s); [|done]. apply Z.ltb_ge. auto. }
    exec. done.
  - by apply channel_settle_complete.
  - by apply channel_refund_complete.
  - by apply mint_to_pool_complete.
  - by eapply shielded_spend_complete.
  - unfold do_asset_register, put_asset. exec. rewrite run_refuse by by rewrite H. exec. done.
  - unfold do_asset_mint, put_asset.
    assert (issuer_entry s sender asset mintable = Ok info) as Hi by by apply issuer_entry_intro.
    assert (checked u128_max (ai_supply info + amount) = Some (ai_supply info + amount)) as Hc
      by by apply checked_some.
    exec. done.
  - unfold do_asset_burn, put_asset. exec. done.
  - unfold do_asset_freeze, put_asset.
    assert (issuer_entry s sender asset freezable = Ok info) as Hi by by apply issuer_entry_intro.
    exec. done.
  - unfold do_asset_pause, put_asset.
    assert (issuer_entry s sender asset pausable = Ok info) as Hi by by apply issuer_entry_intro.
    exec. done.
Qed.
End complete_handlers.

(** * Results without a panic *)

Lemma bindR_calm {E A B} (r : res E A) (k : A → res E B) :
  r ≠ Panic → (∀ x, k x ≠ Panic) → bindR r k ≠ Panic.
Proof. intros Hr Hk. destruct r; [apply Hk|discriminate|done]. Qed.
Lemma refuseR_calm {E} c (e : E) : refuseR c e ≠ Panic.
Proof. by destruct c. Qed.
Lemma ok_orR_calm {E A} (o : option A) (e : E) : ok_orR o e ≠ Panic.
Proof. by destruct o. Qed.
Ltac calm :=
  repeat first [ apply refuseR_calm | apply ok_orR_calm | discriminate | apply bindR_calm; [|intros ?]
               | match goal with |- context [match ?x with _ => _ end] => destruct x end ].
