(* ===== verification/Envelope.v ===== *)
(** The transaction envelope and block application: fee, refund, ratchet,
    precomputed verdicts; and the induction principle over chains of blocks. *)

From S2P Require Export Spec.
#[local] Open Scope Z_scope.

(** Field widths of a transaction: what its Rust type guarantees. *)
Definition tx_ok (tx : Tx) : Prop :=
  match tx with
  | Tx.Transfer _ _ amount => in_u128 amount
  | Tx.MandateCreate _ _ _ _ rate bmax pmax init expiry tier =>
      in_u128 rate ∧ in_u128 bmax ∧ in_u128 pmax ∧ in_u128 init ∧ in_u64 expiry ∧ in_u8 tier
  | Tx.MandateSpend _ _ amount => in_u128 amount
  | Tx.MandateRevoke _ => True
  | Tx.ChannelOpen _ _ _ _ _ price steps expiry => in_u128 price ∧ in_u32 steps ∧ in_u64 expiry
  | Tx.ChannelSettle _ _ step => in_u32 step
  | Tx.ChannelRefund _ => True
  | Tx.MintToPool _ value _ _ _ => in_u128 value
  | Tx.ShieldedSpend _ _ _ _ fee _ _ _ _ _ => in_u128 fee
  | Tx.AccountCreate _ _ _ amount => in_u128 amount
  | Tx.AssetRegister _ _ decimals _ => in_u8 decimals
  | Tx.AssetMint _ _ amount => in_u128 amount
  | Tx.AssetBurn _ amount _ => in_u128 amount
  | Tx.AssetFreeze _ _ _ => True
  | Tx.AssetPause _ _ => True
  end.

Definition stx_ok (stx : SignedTx) : Prop := tx_ok (stx_payload stx) ∧ in_u64 (stx_nonce stx).

(** ** Projections of the elementary updates *)

Definition balances_ok (s : State) : Prop := map_Forall (λ _ v, in_u128 v) (st_balances s).

Lemma balance_credited s id asset a x y :
  balance (credited id asset a s) x y =
  if bool_decide ((x, y) = (id, asset)) then sat_add u128_max (balance s id asset) a else balance s x y.
Proof.
  unfold balance, credited. simpl. case_bool_decide as H.
  - injection H as -> ->. by rewrite lookup_insert_eq.
  - by rewrite lookup_insert_ne.
Qed.
Lemma balance_debited s id asset a x y :
  balance (debited id asset a s) x y =
  if bool_decide ((x, y) = (id, asset)) then balance s id asset - a else balance s x y.
Proof.
  unfold balance, debited. simpl. case_bool_decide as H.
  - injection H as -> ->. by rewrite lookup_insert_eq.
  - by rewrite lookup_insert_ne.
Qed.
Lemma balance_bounds s x y : balances_ok s → in_u128 (balance s x y).
Proof.
  intros H. unfold balance. destruct (st_balances s !! (x, y)) eqn:E; simpl.
  - by apply (H _ _ E).
  - unfold in_u128, u128_max. lia.
Qed.
Lemma balances_ok_insert s k v s' :
  balances_ok s → in_u128 v → st_balances s' = <[k := v]> (st_balances s) → balances_ok s'.
Proof. unfold balances_ok. intros H Hv ->. by apply map_Forall_insert_2. Qed.
Lemma balances_ok_credited s id asset a :
  balances_ok s → 0 ≤ a → balances_ok (credited id asset a s).
Proof.
  intros H Ha. eapply balances_ok_insert; [done| |reflexivity].
  pose proof (balance_bounds s id asset H). unfold in_u128, sat_add in *.
  assert (0 ≤ u128_max) by (unfold u128_max; lia). lia.
Qed.
Lemma balances_ok_debited s id asset a :
  balances_ok s → 0 ≤ a → a ≤ balance s id asset → balances_ok (debited id asset a s).
Proof.
  intros H Ha Hle. eapply balances_ok_insert; [done| |reflexivity].
  pose proof (balance_bounds s id asset H). unfold in_u128 in *. lia.
Qed.
(** Debit and refund cancel, down to the map. *)
Lemma credited_debited s id asset a :
  balances_ok s → 0 < a → a ≤ balance s id asset → credited id asset a (debited id asset a s) = s.
Proof.
  intros H Ha Hle. pose proof (balance_bounds s id asset H) as Hb.
  assert (st_balances s !! (id, asset) = Some (balance s id asset)) as Hl.
  { unfold balance in *. destruct (st_balances s !! (id, asset)); simpl in *; [done|lia]. }
  unfold credited. rewrite balance_debited, bool_decide_eq_true_2 by done.
  unfold debited. simpl. rewrite insert_insert_eq, sat_add_small by (unfold in_u128 in Hb; lia).
  rewrite Z.sub_add, insert_id by done. by destruct s.
Qed.

Section envelope.
Context {SHAKE : Shake} {SHA2 : Sha2} {CODECS : Codecs}.

Definition charged (id : AccountId) (s : State) : State :=
  if 0 <? fee_due s then debited id (st_fee_asset s) (fee_due s) s else s.
Definition burned (fee : Amount) (s : State) : State :=
  if 0 <? fee then set_fees_burned (sat_add u128_max (st_fees_burned s) fee) s else s.
Definition ratcheted (stx : SignedTx) (acc : Account) (s : State) : State :=
  set_accounts (<[stx_sender stx := mkAccount (stx_next_auth stx)
                    (wrapping u64_max (acc_nonce acc + 1))]> (st_accounts s)) s.

(** The fee step, as a function. *)
Lemma fee_step_ok id s s1 u :
  (if 0 <? fee_due s then
     refuse_if (balance s id (st_fee_asset s) <? fee_due s)
       (StateError.InsufficientFee (balance s id (st_fee_asset s)) (fee_due s)) ;;;
     expectM (debit id (st_fee_asset s) (fee_due s))
   else retM tt) s = (s1, Ok u) →
  s1 = charged id s ∧ (0 < fee_due s → fee_due s ≤ balance s id (st_fee_asset s)).
Proof.
  unfold charged. intros H. destruct (Z.ltb_spec 0 (fee_due s)); srun; [done|].
  split; [done|lia].
Qed.

(** An accepted envelope: the checks passed, the fee was taken first, the payload
    had its effect, the fee was burned, the account ratcheted. *)
Record applied (stx : SignedTx) (pre : option bool) (s s' : State) (ev : list Event) : Prop :=
  mkApplied {
    ap_envelope : check_envelope stx pre s = Ok tt;
    ap_fee : 0 < fee_due s → fee_due s ≤ balance s (stx_sender stx) (st_fee_asset s);
    ap_effect : ∃ s2 acc, accepts (charged (stx_sender stx) s) (stx_sender stx) (stx_payload stx) ev s2 ∧
      st_accounts s2 !! stx_sender stx = Some acc ∧
      s' = ratcheted stx acc (burned (fee_due s) s2);
  }.
Lemma apply_tx_ok stx pre s s' ev : apply_tx_at stx pre s = (s', Ok ev) → applied stx pre s s' ev.
Proof.
  unfold apply_tx_at. intros H. mrun. destruct x0.
  match goal with H : (if _ then _ else _) _ = (_, Ok ?u) |- _ => apply fee_step_ok in H as [-> Hfee] end.
  match goal with H : on_errM _ _ _ = _ |- _ => rename H into Hd end.
  unfold on_errM in Hd. destruct (dispatch _ _ _) as [s2 [ev2|e|]] eqn:Hdis; [injection Hd as <- <-|done|done].
  apply dispatch_sound in Hdis.
  match goal with H : (if _ then modifyM _ else _) _ = (?y, _) |- _ => rename H into Hb, y into s3 end.
  assert (s3 = burned (fee_due s) s2) as ->.
  { unfold burned. destruct (0 <? fee_due s); by mrun. }
  srun. constructor; [done|done|]. exists s2. eexists. split; [done|]. split; [|done].
  unfold burned in *. by destruct (0 <? fee_due s).
Qed.

Lemma apply_tx_complete stx pre s s' ev : applied stx pre s s' ev → apply_tx_at stx pre s = (s', Ok ev).
Proof.
  intros [Henv Hfee (s2 & acc & Hacc & Hl & ->)]. unfold apply_tx_at.
  rewrite (run_read _ tt) by done. rewrite run_get. cbv zeta.
  apply dispatch_complete in Hacc. unfold charged in Hacc.
  rewrite (run_eq _ _ _ (charged (stx_sender stx) s) tt).
  2: { unfold charged. destruct (Z.ltb_spec 0 (fee_due s)) as [Hp|]; [|done].
       rewrite run_refuse by (apply Z.ltb_ge; auto).
       pose proof (run_expect_debit (stx_sender stx) (st_fee_asset s) (fee_due s) retM s (Hfee Hp)) as R.
       unfold bindM in R. by destruct (expectM _ s) as [? [[]|?|]]; simplify_eq/=. }
  rewrite (run_eq _ _ _ s2 ev) by (unfold on_errM, charged; by rewrite Hacc).
  unfold burned. destruct (0 <? fee_due s); [rewrite run_modify|rewrite run_ret];
    rewrite run_get; (rewrite (run_expect _ acc); [done|by simpl]).
Qed.

(** After [dispatch], nothing can fail; before it, nothing is mutated but the
    fee, which the refusal returns. *)
Lemma fee_step_err id s s1 e :
  (if 0 <? fee_due s then
     refuse_if (balance s id (st_fee_asset s) <? fee_due s)
       (StateError.InsufficientFee (balance s id (st_fee_asset s)) (fee_due s)) ;;;
     expectM (debit id (st_fee_asset s) (fee_due s))
   else retM tt) s = (s1, Err e) → s1 = s.
Proof.
  destruct (0 <? fee_due s); [|done]. intros H. apply bindM_inv in H.
  destruct H as [(s2 & u & H1 & H2)|[(e' & H1 & _)|[_ [=]]]].
  - by apply expectM_err in H2.
  - by apply refuse_if_err in H1 as (-> & _).
Qed.
Lemma refund_restores id s s1 :
  balances_ok s → (0 < fee_due s → fee_due s ≤ balance s id (st_fee_asset s)) →
  s1 = charged id s →
  (if 0 <? fee_due s then fst (credit id (st_fee_asset s) (fee_due s) s1) else s1) = s.
Proof.
  intros Hb Hf ->. unfold charged. destruct (Z.ltb_spec 0 (fee_due s)) as [Hp|]; [|done].
  by apply credited_debited; auto.
Qed.
Lemma apply_tx_err stx pre s s' e :
  balances_ok s → apply_tx_at stx pre s = (s', Err e) → s' = s.
Proof.
  intros Hb H. unfold apply_tx_at in H.
  apply bindM_inv in H as [(s1 & [] & H1 & H)|[(e' & H1 & _)|[_ [=]]]]; apply readM_inv in H1 as [-> _];
    [|done].
  rewrite run_get in H. cbv zeta in H.
  apply bindM_inv in H as [(s1 & [] & H1 & H)|[(e' & H1 & _)|[_ [=]]]];
    [|by apply fee_step_err in H1].
  apply fee_step_ok in H1 as [-> Hfee].
  apply bindM_inv in H as [(s2 & ev & H1 & H)|[(e' & H1 & _)|[_ [=]]]].
  - exfalso. assert (noerr (S := State) (E := StateError) (A := list Event)
      ((if 0 <? fee_due s
        then modifyM (λ s0, set_fees_burned (sat_add u128_max (st_fees_burned s0) (fee_due s)) s0)
        else retM tt) ;;;
       let* s0 := getM in
       let* acc := expect (st_accounts s0 !! stx_sender stx) in
       put_account (stx_sender stx)
         (mkAccount (stx_next_auth stx) (wrapping u64_max (acc_nonce acc + 1))) ;;;
       retM ev)) as Hn by frame.
    by eapply Hn.
  - unfold on_errM in H1. destruct (dispatch _ _ _) as [s3 [ev3|e3|]] eqn:Hd; try done.
    injection H1 as <- _. apply atomic_dispatch in Hd as ->. by apply refund_restores.
Qed.

(** Checking the envelope is read-only and reads accounts only. *)
Lemma check_envelope_ok stx pre s u :
  check_envelope stx pre s = Ok u →
  ∃ acc, st_accounts s !! stx_sender stx = Some acc ∧ stx_nonce stx = acc_nonce acc ∧
    pk_commit (stx_lamport_pk stx) = acc_auth_commit acc ∧
    default (verify_envelope stx) pre = true.
Proof.
  unfold check_envelope. intros H. apply bindR_ok in H as (acc & Hacc & H).
  apply ok_orR_ok in Hacc. apply bindR_ok in H as (? & Hn & H).
  apply bindR_ok in H as (? & Ha & H). apply refuseR_ok in Hn, Ha.
  apply negb_false_iff in Hn, Ha. apply Z.eqb_eq in Hn. apply bool_decide_eq_true in Ha.
  exists acc. split_and!; [done..|]. destruct (default _ pre); [done|]. simpl in H.
  by destruct (bool_decide _).
Qed.
Lemma check_envelope_nopanic stx pre s : check_envelope stx pre s ≠ Panic.
Proof.
  unfold check_envelope, refuseR. destruct (st_accounts s !! _); simpl; [|done].
  repeat case_match; done.
Qed.
Lemma apply_tx_pre stx : apply_tx_at stx (Some (verify_envelope stx)) = apply_tx_at stx None.
Proof. done. Qed.
End envelope.

(** ** Chains of blocks *)

Section chain.
Context {SHAKE : Shake} {SHA2 : Sha2} {CODECS : Codecs}.

(** The states a node moves through: blocks, with or without precomputed
    verdicts, and coverage installed in between; the index counts the
    transactions carried. *)
Inductive reach : nat → State → State → Prop :=
  | reach_refl s : reach 0 s s
  | reach_block n s s1 s2 height time txs verdicts receipts :
      reach n s s1 → in_u64 height → in_u64 time → Forall stx_ok txs →
      apply_block_verified height time txs verdicts s1 = (s2, Ok receipts) →
      reach (n + length txs) s s2
  | reach_cover n s s1 cover : reach n s s1 → reach n s (set_agg_cover cover s1).

(** A relation kept by every transaction and by the block frame is kept by
    every chain. *)
Definition frame_closed (R : relation State) : Prop :=
  (∀ s h t, in_u64 h → in_u64 t → st_time s ≤ t → R s (set_time t (set_height h s))) ∧
  (∀ s p, pool_nullifiers p = pool_nullifiers (st_pool s) → pool_tree p = pool_tree (st_pool s) →
     pool_asset p = pool_asset (st_pool s) → pool_total_shielded p = pool_total_shielded (st_pool s) →
     pool_version p = pool_version (st_pool s) → R s (set_pool p s)) ∧
  (∀ s a q p, st_pools s !! a = Some q →
     pool_nullifiers p = pool_nullifiers q → pool_tree p = pool_tree q →
     pool_asset p = pool_asset q → pool_total_shielded p = pool_total_shielded q →
     pool_version p = pool_version q → R s (set_pools (<[a := p]> (st_pools s)) s)) ∧
  (∀ s c, R s (set_agg_cover c s)).
Definition tx_closed (R : relation State) : Prop :=
  ∀ stx pre s s' r, stx_ok stx → apply_tx_at stx pre s = (s', r) → r ≠ Panic → R s s'.

Lemma seal_anchor_frame {E} p p' r :
  seal_anchor (E := E) p = (p', r) →
  pool_nullifiers p' = pool_nullifiers p ∧ pool_tree p' = pool_tree p ∧
  pool_asset p' = pool_asset p ∧ pool_total_shielded p' = pool_total_shielded p ∧
  pool_version p' = pool_version p.
Proof.
  unfold seal_anchor, bindM, getM, expect. destruct (root (pool_tree p)).
  - unfold retM, modifyM. intros H. by simplify_eq/=.
  - unfold panicM. intros H. by simplify_eq/=.
Qed.
Lemma seal_pools_list (R : relation State) `{!PreOrder R} l s :
  frame_closed R → (∀ a p, (a, p) ∈ l → st_pools s !! a = Some p) → NoDup l.*1 →
  R s (fst (for_eachM (λ e, on_pool (Asset e.1) e.2 seal_anchor) l s)).
Proof.
  intros (_ & _ & Hpools & _). revert s. induction l as [|[a p] l IH]; intros s Hin Hnd; [done|].
  cbn [for_eachM fst snd]. apply NoDup_cons in Hnd as [Ha Hnd].
  unfold bindM, on_pool, zoom. destruct (seal_anchor p) as [p' r] eqn:Hs.
  apply seal_anchor_frame in Hs as (? & ? & ? & ? & ?).
  assert (R s (put_pool (Asset a) p' s)) as Hstep.
  { apply (Hpools s a p); auto. apply Hin. by left. }
  destruct r as [u|e|]; simpl; try done. etrans; [exact Hstep|]. apply IH; [|done].
  intros b q Hb. simpl. rewrite lookup_insert_ne.
  - apply Hin. by right.
  - intros ->. apply Ha. by apply (list_elem_of_fmap_2 fst) in Hb.
Qed.
Lemma seal_pools_frame (R : relation State) `{!PreOrder R} s :
  frame_closed R → R s (fst (seal_pools s)).
Proof.
  intros HR. pose proof HR as (_ & Hpool & _). unfold seal_pools. rewrite run_get.
  unfold bindM at 1, on_pool at 1, zoom at 1. destruct (seal_anchor (st_pool s)) as [p r] eqn:Hs.
  apply seal_anchor_frame in Hs as (? & ? & ? & ? & ?).
  assert (R s (put_pool Legacy p s)) as Hstep by (apply Hpool; auto).
  destruct r as [u|e|]; simpl; try done. etrans; [exact Hstep|].
  apply (seal_pools_list R _ _ HR).
  - intros a q Hq. simpl. by apply elem_of_btree_iter.
  - rewrite btree_iter_perm. apply NoDup_fst_map_to_list.
Qed.
Lemma tryM_ok {S E E' A} (m : M S E A) s s' x :
  tryM (E' := E') m s = (s', Ok x) → ∃ r, m s = (s', r) ∧ r ≠ Panic.
Proof. unfold tryM. destruct (m s) as [s1 [a|e|]]; intros H; simplify_eq; eauto. Qed.
(** Relations that count: [R n] after [n] transactions. *)
Definition graded (R : nat → relation State) : Prop :=
  (∀ s, R 0%nat s s) ∧
  ∀ n m s1 s2 s3, R n s1 s2 → R m s2 s3 → R (n + m)%nat s1 s3.
Lemma graded_const (R : relation State) `{!PreOrder R} : graded (λ _, R).
Proof. split; [done|]. intros n m s1 s2 s3 H1 H2. by etrans. Qed.
Lemma graded_0 R : graded R → PreOrder (R 0%nat).
Proof. intros [H1 H2]. split; [exact H1|]. intros s1 s2 s3 A B. apply (H2 0 0)%nat with s2; done. Qed.

Lemma apply_txs_frame R i txs v s s' rs :
  graded R → tx_closed (R 1%nat) → Forall stx_ok txs →
  apply_txs i txs v s = (s', Ok rs) → R (length txs) s s'.
Proof.
  intros [H0 Hadd] HR Hok. revert i s rs. induction Hok as [|stx txs Hstx Hok IH]; intros i s rs H.
  { cbn [apply_txs] in H. by mrun. }
  cbn [apply_txs] in H. mrun.
  match goal with H : (match v with _ => _ end) s = (?x, _) |- _ =>
    assert (x = s) as -> by (destruct v; by mrun) end.
  match goal with H : tryM _ _ = _ |- _ => apply tryM_ok in H as (r & Hr & Hp) end.
  eapply (Hadd 1%nat); [by eapply HR|]. eauto.
Qed.
Lemma block_frame R h t txs v s s' rs :
  graded R → frame_closed (R 0%nat) → tx_closed (R 1%nat) →
  in_u64 h → in_u64 t → Forall stx_ok txs →
  apply_block_verified h t txs v s = (s', Ok rs) → R (length txs) s s'.
Proof.
  intros Hg HR Htx Hh Ht Hok H. pose proof HR as (Hht & _ & _ & Hcov). pose proof (graded_0 R Hg) as Hpo.
  unfold apply_block_verified in H. srun.
  match goal with H : seal_pools ?y = (?z, _) |- _ =>
    pose proof (seal_pools_frame (R 0%nat) y HR) as Hseal; rewrite H in Hseal end.
  match goal with H : apply_txs _ _ _ _ = _ |- _ => apply (apply_txs_frame R) in H as Htxs; [|done..] end.
  destruct Hg as [_ Hadd]. change (length txs) with (0 + length txs)%nat.
  eapply Hadd; [by apply (Hht s h t)|]. rewrite <-(Nat.add_0_r (length txs)).
  eapply Hadd; [exact Htxs|]. simpl in Hseal. etrans; [exact Hseal|]. apply Hcov.
Qed.
Lemma reach_graded R n s s' :
  graded R → frame_closed (R 0%nat) → tx_closed (R 1%nat) → reach n s s' → R n s s'.
Proof.
  intros Hg HR Htx. pose proof Hg as [H0 Hadd].
  induction 1 as [s|n s s1 s2 h t txs v rs _ IH Hh Ht Hok Hb|n s s1 c _ IH]; [done|..].
  - eapply Hadd; [exact IH|]. by apply (block_frame R h t txs v s1 s2 rs).
  - rewrite <-(Nat.add_0_r n). eapply Hadd; [exact IH|]. apply HR.
Qed.
Lemma reach_frame (R : relation State) `{!PreOrder R} n s s' :
  frame_closed R → tx_closed R → reach n s s' → R s s'.
Proof.
  intros HR Htx Hr. by apply (reach_graded (λ _, R) n s s' (graded_const R) HR Htx Hr).
Qed.
End chain.
