(* ===== verification/Invariant.v ===== *)
(** The well-formedness invariant of the state: established by genesis, kept by
    every transaction and block; under it no handler panics. *)

From S2P Require Export Envelope.
#[local] Open Scope Z_scope.

(** ** The invariant *)

(** The escrow of a channel covers exactly the steps not yet settled. *)
Definition channel_ok (c : Channel) : Prop :=
  let st := chan_state c in
  0 ≤ cs_unit_price st ∧ 0 ≤ cs_highest_step_settled st ≤ cs_max_steps st ∧
  cs_unit_price st * cs_max_steps st ≤ u128_max ∧
  chan_escrow_remaining c =
    if chan_refunded c then 0
    else cs_unit_price st * (cs_max_steps st - cs_highest_step_settled st).

Section invariant.
Context {SHAKE : Shake} {SHA2 : Sha2} {CODECS : Codecs}.

Definition pool_ok (p : PoolState) : Prop :=
  (∃ leaves, tree_repr leaves (pool_tree p)) ∧ in_u128 (pool_total_shielded p).

Record inv (s : State) : Prop := mkInv {
  inv_balances : balances_ok s;
  inv_mandates : tree_ok (st_mandates s);
  inv_channels : map_Forall (λ _ c, channel_ok c) (st_channels s);
  inv_pool : pool_ok (st_pool s);
  inv_pools : map_Forall (λ a p, pool_ok p ∧ pool_asset p = Some a) (st_pools s);
  inv_assets : map_Forall (λ _ i, in_u128 (ai_supply i) ∧ in_u128 (ai_burned i)) (st_assets s);
  inv_fees : in_u128 (st_fees_burned s) ∧ in_u128 (st_fee_micro s);
  inv_time : in_u64 (st_time s);
  (** Nothing is shielded in the legacy pool before its asset is pinned. *)
  inv_pin : pool_asset (st_pool s) = None → pool_total_shielded (st_pool s) = 0;
}.

Lemma in_u128_0 : in_u128 0.
Proof. unfold in_u128, u128_max. lia. Qed.
Lemma in_u128_sat_add x y : in_u128 x → 0 ≤ y → in_u128 (sat_add u128_max x y).
Proof. unfold in_u128, sat_add. assert (0 ≤ u128_max) by (unfold u128_max; lia). lia. Qed.
Lemma in_u128_sat_sub x y : in_u128 x → 0 ≤ y → in_u128 (sat_sub x y).
Proof. unfold in_u128, sat_sub. lia. Qed.

(** *** Pools *)
Lemma appended_repr leaves t c t' :
  tree_repr leaves t → appended t c t' → tree_repr (leaves ++ [c]) t'.
Proof.
  intros Hr [i H]. pose proof (append_spec (E := StateError) leaves t c Hr) as Ha.
  case_bool_decide.
  - destruct Ha as (t'' & Ha & Hr'). congruence.
  - congruence.
Qed.
Lemma pool_ok_fresh s a : pool_ok (fresh_pool s a).
Proof. split; [exists []; apply tree_repr_new|apply in_u128_0]. Qed.
Lemma pool_ok_target s key : inv s → pool_ok (target_pool s key).
Proof.
  intros Hs. destruct key as [|a]; simpl; [apply Hs|].
  destruct (st_pools s !! a) eqn:E; simpl; [by apply (inv_pools s Hs _ _ E)|apply pool_ok_fresh].
Qed.
Lemma pool_ok_minted asset value c t' p :
  pool_ok p → 0 ≤ value → appended (pool_tree p) c t' → pool_ok (minted_pool asset value t' p).
Proof.
  intros [[leaves Hr] Ht] Hv Ha. split; simpl; [|by apply in_u128_sat_add].
  eexists. by eapply appended_repr.
Qed.
Lemma pool_ok_spent nf fee c1 c2 t1 t2 p :
  pool_ok p → 0 ≤ fee → appended (pool_tree p) c1 t1 → appended t1 c2 t2 →
  pool_ok (spent_pool nf fee t2 p).
Proof.
  intros [[leaves Hr] Ht] Hv H1 H2. split; simpl.
  - eexists. eapply appended_repr; [|done]. by eapply appended_repr.
  - case_match; [by apply in_u128_sat_sub|done].
Qed.
Lemma inv_put_pool s key p :
  inv s → pool_ok p → (∀ a, key = Asset a → pool_asset p = Some a) →
  (pool_asset p = None → pool_total_shielded p = 0) → inv (put_pool key p s).
Proof.
  intros [] Hp Ha Hpin. destruct key as [|a]; constructor; simpl; try done.
  apply map_Forall_insert_2; [|done]. split; [done|by apply Ha].
Qed.

(** *** Mandates *)
Lemma inv_set_mandates s t : inv s → tree_ok t → inv (set_mandates t s).
Proof. intros [] Ht. by constructor. Qed.
Lemma inv_spend s leaf amount t' :
  inv s → 0 ≤ amount →
  Mandate.spend leaf amount (st_time s) (st_mandates s) = (t', Ok tt) → inv (set_mandates t' s).
Proof.
  intros Hs Ha H. apply inv_set_mandates; [done|].
  eapply spend_tree_ok; [apply Hs|done|apply Hs|done].
Qed.
Lemma inv_draw s sender leaf amount asset funder t' :
  inv s → 0 ≤ amount → authorised_draw s sender leaf amount asset funder t' →
  inv (debited funder asset amount (set_mandates t' s)).
Proof.
  intros Hs Ha [_ _ _ Hspend Hb]. pose proof (inv_spend _ _ _ _ Hs Ha Hspend) as Hs'.
  destruct Hs'. constructor; try done. by apply balances_ok_debited.
Qed.
Lemma inv_credited s id asset a : inv s → 0 ≤ a → inv (credited id asset a s).
Proof. intros [] Ha. constructor; try done. by apply balances_ok_credited. Qed.
Lemma inv_debited s id asset a :
  inv s → 0 ≤ a → a ≤ balance s id asset → inv (debited id asset a s).
Proof. intros [] Ha Hle. constructor; try done. by apply balances_ok_debited. Qed.
Lemma inv_set_assets s id i :
  inv s → in_u128 (ai_supply i) → in_u128 (ai_burned i) → inv (set_assets (<[id := i]> (st_assets s)) s).
Proof. intros [] H1 H2. constructor; try done. by apply map_Forall_insert_2. Qed.
Lemma inv_set_channels s id c :
  inv s → channel_ok c → inv (set_channels (<[id := c]> (st_channels s)) s).
Proof. intros [] H1. constructor; try done. by apply map_Forall_insert_2. Qed.
Lemma inv_set_accounts s a : inv s → inv (set_accounts a s).
Proof. intros []. by constructor. Qed.

(** *** Channels *)
Lemma settled_channel_ok c step :
  channel_ok c → chan_refunded c = false →
  cs_highest_step_settled (chan_state c) < step ≤ cs_max_steps (chan_state c) →
  let paid := cs_unit_price (chan_state c) * (step - cs_highest_step_settled (chan_state c)) in
  0 ≤ paid ≤ chan_escrow_remaining c ∧
  channel_ok (mkChannel (cs_set_highest step (chan_state c))
                (wrapping u128_max (chan_escrow_remaining c - paid)) false).
Proof.
  intros (Hp & Hh & Hm & He) Hr Hs paid. rewrite Hr in He.
  assert (0 ≤ paid ≤ chan_escrow_remaining c) as Hb by (subst paid; nia).
  split; [done|]. unfold channel_ok; cbn [chan_state cs_set_highest chan_escrow_remaining
    chan_refunded cs_unit_price cs_highest_step_settled cs_max_steps].
  split_and!; [done|lia|lia|done|]. rewrite wrapping_small by nia. subst paid. nia.
Qed.

(** ** Every accepted transaction keeps the invariant *)
Lemma accepts_inv s sender tx ev s' :
  accepts s sender tx ev s' → tx_ok tx → inv s → inv s'.
Proof.
  intros H Hok Hs. destruct H; simpl in Hok; unfold in_u128, in_u32 in Hok.
  - apply inv_credited; [|lia]. by apply inv_debited; [|lia|].
  - destruct (Z.ltb_spec 0 amount) as [Hp|]; [|by apply inv_set_accounts].
    apply inv_credited; [|lia]. apply inv_set_accounts, inv_debited; [done|lia|]. by apply H1.
  - assert (tree_ok t') as Ht.
    { subst t'. apply map_Forall_insert_2; [|apply Hs]. subst node. split; [done|].
      pose proof (inv_time s Hs) as Ht. unfold node_ok, in_u128, in_u64 in *; simpl. lia. }
    pose proof (inv_set_mandates _ _ Hs Ht) as Hs'. case_bool_decide; [|done].
    destruct Hs'. by constructor.
  - apply inv_credited; [|lia]. eapply inv_draw; [done|lia|done].
  - apply inv_set_mandates; [done|]. apply map_Forall_insert_2; [|apply Hs].
    by apply (inv_mandates s Hs _ _ H).
  - assert (0 ≤ deposit) by nia.
    pose proof (inv_draw _ _ _ _ _ _ _ Hs ltac:(done) H7) as Hs'.
    apply (inv_set_channels _ id _ Hs').
    unfold channel_ok; simpl. split_and!; [lia|lia|lia|lia|]. subst deposit. f_equal. lia.
  - pose proof (inv_channels s Hs _ _ H) as Hc.
    destruct (settled_channel_ok c step Hc H0 H1) as [Hb Hc'].
    apply inv_credited; [|subst paid; lia]. apply inv_set_channels; [done|]. by subst paid.
  - pose proof (inv_channels s Hs _ _ H) as (Hp & Hh & Hm & He).
    apply inv_credited; [|rewrite He, H0; nia]. apply inv_set_channels; [done|].
    unfold channel_ok; simpl. done.
  - apply inv_put_pool.
    + by apply inv_debited; [|lia|].
    + eapply pool_ok_minted; [by apply pool_ok_target|lia|done].
    + intros a ->. simpl. destruct (st_pools s !! a) eqn:E; simpl.
      * rewrite (proj2 (inv_pools s Hs _ _ E)). done.
      * done.
    + done.
  - assert (inv (set_mandates m' s)) as Hs1.
    { destruct mandate as [m|]; [|by subst m'; destruct s].
      destruct H6 as (_ & _ & Hsp & _). eapply inv_spend; [done| |done]. lia. }
    assert (inv (put_pool key (spent_pool nullifier fee t2 p) (set_mandates m' s))) as Hs2.
    { apply inv_put_pool; [done| | |].
      - eapply pool_ok_spent; [|lia|done|done]. apply pool_ref_target in H2 as ->.
        by apply pool_ok_target.
      - intros a ->. simpl in H2. by apply (inv_pools s Hs _ _ H2).
      - simpl. intros Hpn. destruct (Z.ltb_spec 0 fee) as [Hf|_].
        + destruct (H0 Hf) as [_ [a Ha]]. destruct key as [|b]; simpl in *; [congruence|].
          by rewrite (proj2 (inv_pools s Hs _ _ H2)) in Hpn.
        + destruct key as [|b]; simpl in *; [injection H2 as <-; by apply Hs|].
          by rewrite (proj2 (inv_pools s Hs _ _ H2)) in Hpn. }
    cbv zeta. repeat case_match; try done. all: apply inv_credited; [done|lia].
  - apply inv_set_assets; [done|apply in_u128_0..].
  - pose proof (inv_assets s Hs _ _ H0) as [Hsup Hbur].
    apply inv_credited; [|lia]. apply inv_set_assets; [done| |done]. simpl.
    unfold in_u128 in *. rewrite wrapping_small; lia.
  - pose proof (inv_assets s Hs _ _ H1) as [Hsup Hbur].
    apply (inv_set_assets (debited sender asset amount s)).
    + by apply inv_debited; [|lia|].
    + done.
    + simpl. by apply in_u128_sat_add; [|lia].
  - pose proof (inv_assets s Hs _ _ H) as [Hsup Hbur]. by apply inv_set_assets.
  - pose proof (inv_assets s Hs _ _ H) as [Hsup Hbur]. by apply inv_set_assets.
Qed.

(** ** The envelope keeps it *)
Lemma fee_due_nonneg s : inv s → 0 ≤ fee_due s.
Proof. intros Hs. pose proof (inv_fees s Hs) as [_ [Hf _]]. unfold fee_due. case_match; lia. Qed.
Lemma inv_charged s id :
  inv s → (0 < fee_due s → fee_due s ≤ balance s id (st_fee_asset s)) → inv (charged id s).
Proof.
  intros Hs Hf. unfold charged. destruct (Z.ltb_spec 0 (fee_due s)); [|done].
  apply inv_debited; auto. lia.
Qed.
Lemma inv_burned s fee : inv s → 0 ≤ fee → inv (burned fee s).
Proof.
  intros Hs Hf. unfold burned. case_match; [|done]. destruct Hs as [? ? ? ? ? ? [Hb Hm] ?].
  constructor; try done. simpl. split; [by apply in_u128_sat_add|done].
Qed.
Lemma apply_tx_inv stx pre s s' r :
  stx_ok stx → apply_tx_at stx pre s = (s', r) → r ≠ Panic → inv s → inv s'.
Proof.
  intros [Hok _] H Hp Hs. destruct r as [ev|e|]; [|by apply apply_tx_err in H as ->; [|apply Hs]|done].
  apply apply_tx_ok in H as [_ Hf (s2 & acc & Hacc & _ & ->)].
  apply inv_set_accounts, inv_burned; [|by apply fee_due_nonneg].
  eapply accepts_inv; [done..|by apply inv_charged].
Qed.

Definition keeps_inv (s s' : State) : Prop := inv s → inv s'.
#[export] Instance keeps_inv_preorder : PreOrder keeps_inv.
Proof. split; [intros s H; exact H|]. intros a b c H1 H2 Ha. auto. Qed.
Lemma pool_ok_same p q :
  pool_tree p = pool_tree q → pool_total_shielded p = pool_total_shielded q → pool_ok q → pool_ok p.
Proof. unfold pool_ok. by intros -> ->. Qed.
Lemma keeps_inv_frame : frame_closed keeps_inv.
Proof.
  split_and!.
  - intros s h t Hh Ht _ []. by constructor.
  - intros s p _ Ht Ha Htot _ Hs. apply (inv_put_pool s Legacy); [done| |done|].
    + eapply pool_ok_same; [done..|apply Hs].
    + rewrite Ha, Htot. apply Hs.
  - intros s a q p Hq _ Ht Ha Htot _ Hs. destruct (inv_pools s Hs _ _ Hq) as [Hok Hqa].
    apply (inv_put_pool s (Asset a)); [done| | |].
    + by eapply pool_ok_same.
    + intros b [= <-]. by rewrite Ha.
    + rewrite Ha, Hqa. done.
  - intros s c []. by constructor.
Qed.
Lemma keeps_inv_tx : tx_closed keeps_inv.
Proof. intros stx pre s s' r Hok H Hp Hs. by eapply apply_tx_inv. Qed.
Lemma reach_inv n s s' : reach n s s' → inv s → inv s'.
Proof. intros H. eapply (reach_frame keeps_inv); [apply keeps_inv_frame|apply keeps_inv_tx|done]. Qed.

(** *** Relations along a chain, under the invariant *)

Lemma apply_tx_cases stx pre s s' r :
  inv s → apply_tx_at stx pre s = (s', r) → r ≠ Panic → s' = s ∨ ∃ ev, applied stx pre s s' ev.
Proof.
  intros Hs H Hp. destruct r as [ev|e|]; [right; eauto using apply_tx_ok|left|done].
  eapply apply_tx_err; [apply Hs|done].
Qed.
(** A counting relation kept by every applied transaction of a well-formed
    state holds between the ends of every chain. *)
Lemma reach_rel (R : nat → relation State) n s s' :
  graded R → (∀ s, R 1%nat s s) → frame_closed (R 0%nat) →
  (∀ stx pre s s' ev, stx_ok stx → inv s → applied stx pre s s' ev → R 1%nat s s') →
  reach n s s' → inv s → R n s s'.
Proof.
  intros [H0 Hadd] Hrefl (F1 & F2 & F3 & F4) Htx Hr Hs.
  set (Q (n : nat) (s s' : State) := inv s → inv s' ∧ R n s s').
  assert (Q n s s') as HQ; [|by apply HQ].
  pose proof keeps_inv_frame as (G1 & G2 & G3 & G4).
  apply reach_graded; [| | |done].
  - split; [done|]. intros i j s1 s2 s3 H1 H2 Hi. destruct (H1 Hi) as [Hi2 ?].
    destruct (H2 Hi2). split; [done|by eapply Hadd].
  - split_and!.
    + intros ??????. split; [by apply G1|by apply F1].
    + intros ????????. split; [by apply G2|by apply F2].
    + intros ??????????. split; [by eapply G3|by eapply F3].
    + intros ???. split; [by apply G4|by apply F4].
  - intros stx pre s1 s2 r Hok H Hp Hi. split; [by eapply apply_tx_inv|].
    destruct (apply_tx_cases _ _ _ _ _ Hi H Hp) as [->|[ev Ha]]; [done|by eapply Htx].
Qed.
Lemma reach_rel_const (R : relation State) `{!PreOrder R} n s s' :
  frame_closed R →
  (∀ stx pre s s' ev, stx_ok stx → inv s → applied stx pre s s' ev → R s s') →
  reach n s s' → inv s → R s s'.
Proof. intros Hf Htx. apply (reach_rel (λ _, R)); [by apply graded_const|done..]. Qed.

(** ** No handler panics *)
Lemma bindM_panic {S E A B} (m : M S E A) (k : A → M S E B) s s' :
  bindM m k s = (s', Panic) →
  m s = (s', Panic) ∨ ∃ s1 a, m s = (s1, Ok a) ∧ k a s1 = (s', Panic).
Proof.
  intros H. apply bindM_inv in H as [(s1 & a & H1 & H2)|[(e & _ & [=])|[H1 _]]]; eauto.
Qed.
Lemma readM_nopanic {S E A} (f : S → res E A) s s' : f s ≠ Panic → readM f s ≠ (s', Panic).
Proof. unfold readM. congruence. Qed.
Lemma debit_nopanic id asset a s s' : debit id asset a s ≠ (s', Panic).
Proof.
  unfold debit. intros H. rewrite run_get in H. cbv zeta in H.
  apply bindM_panic in H as [H|(s1 & u & H1 & H)]; [by apply refuse_if_panic in H|done].
Qed.
Lemma expect_debit_nopanic id asset a s s' :
  a ≤ balance s id asset → expectM (E' := StateError) (E := StateError) (debit id asset a) s ≠ (s', Panic).
Proof.
  intros Hb H. pose proof (run_expect_debit id asset a retM s Hb) as R. unfold bindM in R.
  rewrite H in R. done.
Qed.
Lemma asset_gate_nopanic s asset from to : asset_gate s asset from to ≠ Panic.
Proof. unfold asset_gate, refuseR, bindR. repeat case_match; done. Qed.
Lemma issuer_entry_nopanic s sender asset allowed : issuer_entry s sender asset allowed ≠ Panic.
Proof. unfold issuer_entry, refuseR, bindR, ok_orR. repeat case_match; done. Qed.
Lemma h256_try_from_nopanic v : h256_try_from v ≠ Panic.
Proof. unfold h256_try_from. case_decide; done. Qed.
Lemma holder_of_nopanic s id : holder_of s id ≠ Panic.
Proof.
  unfold holder_of. destruct (st_mandates s !! id) as [n|]; simpl; [|done].
  pose proof (h256_try_from_nopanic (mn_holder_key n)). by destruct (h256_try_from _).
Qed.
Lemma mandate_asset_nopanic s id : mandate_asset s id ≠ Panic.
Proof. unfold mandate_asset. by destruct (st_mandates s !! id). Qed.
Lemma root_of_nopanic s leaf : root_of_mandate s leaf ≠ Panic.
Proof.
  unfold root_of_mandate, root_of.
  destruct (chain_of_total (st_mandates s) leaf) as [[c Hc]|[->| ->]]; [|done..].
  rewrite Hc. simpl. apply chain_of_ancestry in Hc as [Hc _].
  apply ancestry_last in Hc as (r & n & -> & _). done.
Qed.
Lemma check_asset_nopanic s leaf root : check_mandate_asset_bound s leaf root ≠ Panic.
Proof.
  unfold check_mandate_asset_bound, refuseR.
  pose proof (mandate_asset_nopanic s leaf). pose proof (mandate_asset_nopanic s root).
  destruct (mandate_asset s leaf), (mandate_asset s root); simpl; try done. by case_match.
Qed.
Lemma root_funder_nopanic s leaf : root_funder s leaf ≠ Panic.
Proof.
  unfold root_funder. pose proof (root_of_nopanic s leaf).
  destruct (root_of_mandate s leaf) as [root|e|]; simpl; try done.
  destruct (st_root_funding s !! root); simpl; [|done].
  pose proof (check_asset_nopanic s leaf root).
  destruct (asset_bound s); [|done]. by destruct (check_mandate_asset_bound s leaf root).
Qed.
Lemma check_mandate_nopanic s leaf a : check_mandate s leaf a ≠ Panic.
Proof.
  unfold check_mandate. pose proof (check_nopanic (st_mandates s) leaf a (st_time s)).
  by destruct (Mandate.check _ _ _ _).
Qed.
Lemma on_mandates_panic {A} (m : M MandateTree Mandate.SpendError A) s s' :
  on_mandates m s = (s', Panic) → ∃ t', m (st_mandates s) = (t', Panic).
Proof.
  intros H. apply zoom_inv in H as (t & r & H & _ & Hr). destruct r; simplify_eq/=. eauto.
Qed.
Lemma insert_nopanic (b : bool) node t t' :
  (if b then insert_asset_bound node else insert_node node) t ≠ (t', Panic).
Proof.
  assert (∀ t', insert_node node t ≠ (t', Panic)) as Hi.
  { intros t1 H. by apply insert_node_refused in H as [_ [e [=]]]. }
  destruct b; [|done]. unfold insert_asset_bound. intros H.
  apply bindM_panic in H as [H|(s1 & u & H1 & H)].
  - revert H. apply readM_nopanic. unfold check_asset_bound, ok_orR, bindR. repeat case_match; done.
  - apply readM_inv in H1 as [-> _]. by apply Hi in H.
Qed.
Lemma settle_claim_nopanic s id word step : settle_claim s id word step ≠ Panic.
Proof. unfold settle_claim, refuseR, bindR, ok_orR. repeat case_match; simplify_eq; done. Qed.
Lemma refund_claim_nopanic s sender id : refund_claim s sender id ≠ Panic.
Proof. unfold refund_claim, refuseR, bindR, ok_orR. repeat case_match; simplify_eq; done. Qed.
Lemma pool_key_nopanic s asset : pool_key_of_asset s asset ≠ Panic.
Proof. unfold pool_key_of_asset. repeat case_match; done. Qed.
End invariant.

Create HintDb hknopanic.
#[export] Hint Resolve asset_gate_nopanic issuer_entry_nopanic holder_of_nopanic
  mandate_asset_nopanic root_of_nopanic root_funder_nopanic check_mandate_nopanic
  settle_claim_nopanic refund_claim_nopanic pool_key_nopanic : hknopanic.

(** Where could a run have panicked?  Each read-only step, refusal and update is
    ruled out; what is left are the [expect]s. *)
Ltac panic_step :=
  match goal with
  | H : bindM _ _ _ = (_, Panic) |- _ =>
      apply bindM_panic in H; destruct H as [H|(? & ? & ? & H)]; cbn beta in *
  | H : refuse_if _ _ _ = (_, Panic) |- _ => by apply refuse_if_panic in H
  | H : ok_or _ _ _ = (_, Panic) |- _ => by apply ok_or_panic in H
  | H : readM _ _ = (_, Panic) |- _ =>
      exfalso; revert H; apply readM_nopanic; solve [auto with hknopanic]
  | H : debit _ _ _ _ = (_, Panic) |- _ => by apply debit_nopanic in H
  | H : credit _ _ _ _ = (_, Panic) |- _ => by apply credit_ok in H as [_ [=]]
  | H : put_asset _ _ _ = (_, Panic) |- _ => by apply put_asset_ok in H as [_ [=]]
  | H : put_account _ _ _ = (_, Panic) |- _ => by apply put_account_ok in H as [_ [=]]
  | H : put_channel _ _ _ = (_, Panic) |- _ => by apply put_channel_ok in H as [_ [=]]
  | H : modifyM _ _ = (_, Panic) |- _ => by apply modifyM_inv in H as [_ [=]]
  | H : getM _ = (_, Panic) |- _ => by apply getM_inv in H as [_ [=]]
  | H : retM _ _ = (_, Panic) |- _ => by apply retM_inv in H as [_ [=]]
  | H : expect _ _ = (_, Panic) |- _ => apply expect_panic in H; destruct H as [-> H]
  end.
Ltac panics := repeat (panic_step || srun_step || guard_step).

Section nopanic.
Context {SHAKE : Shake} {SHA2 : Sha2} {CODECS : Codecs}.

(** The funding part shared by a mandate spend and a channel opening. *)
Lemma spend_panic_absurd s leaf amount t' :
  inv s → 0 ≤ amount →
  Mandate.spend leaf amount (st_time s) (st_mandates s) = (t', Panic) → False.
Proof. intros Hs Ha H. by eapply spend_nopanic in H; [|apply Hs|]. Qed.

Lemma fresh_or_old key s s' : entry_pool key s ≠ (s', Panic).
Proof. destruct (entry_pool_run key s) as (s1 & H & _). rewrite H. by intros [= ]. Qed.
Lemma append_expect_runs p leaves c :
  tree_repr leaves (pool_tree p) → Z.of_nat (length leaves) + 1 ≤ 2 ^ 32 - 1 →
  ∃ t', append_expect c p = (pool_set_tree t' p, Ok tt) ∧ tree_repr (leaves ++ [c]) t'.
Proof.
  intros Hr Hl. pose proof (append_spec (E := StateError) leaves (pool_tree p) c Hr) as Ha.
  rewrite bool_decide_eq_true_2 in Ha by done. destruct Ha as (t' & Ha & Hr').
  exists t'. split; [|done]. pose proof (run_append c t' retM p ltac:(by eexists)) as R.
  unfold bindM, retM in R. by destruct (append_expect c p) as [p1 [[]|e|]]; simplify_eq/=.
Qed.
Lemma on_pool_panic {A} key p (m : M PoolState StateError A) s s' :
  on_pool key p m s = (s', Panic) → ∃ p', m p = (p', Panic).
Proof.
  intros H. apply zoom_inv in H as (p' & r & H & _ & Hr). destruct r; simplify_eq/=. eauto.
Qed.

Lemma mandate_spend_nopanic s sender leaf to amount s' :
  inv s → 0 ≤ amount → do_mandate_spend sender leaf to amount s ≠ (s', Panic).
Proof.
  intros Hs Ha H. unfold do_mandate_spend in H. panics.
  - apply on_mandates_panic in H as [t' H]. by eapply spend_panic_absurd.
  - by apply expect_debit_nopanic in H.
Qed.
Lemma channel_open_nopanic s sender id mandate payee asset tip price steps expiry s' :
  inv s → 0 ≤ price → 0 ≤ steps →
  do_channel_open sender id mandate payee asset tip price steps expiry s ≠ (s', Panic).
Proof.
  intros Hs Hp Hst H. unfold do_channel_open in H. panics.
  - apply on_mandates_panic in H as [t' H].
    match goal with H : checked _ _ = Some _ |- _ => apply checked_some in H as [? ->] end.
    eapply spend_panic_absurd; [done| |done]. nia.
  - by apply expect_debit_nopanic in H.
Qed.
Lemma channel_settle_nopanic s id word step s' : do_channel_settle id word step s ≠ (s', Panic).
Proof.
  intros H. unfold do_channel_settle in H. panics. destruct x0 as [[paid payee] asset]. panics.
  unfold settle_claim in *. panics. congruence.
Qed.
Lemma channel_refund_nopanic s sender id s' : do_channel_refund sender id s ≠ (s', Panic).
Proof.
  intros H. unfold do_channel_refund in H. panics. destruct x0 as [[paid payee] asset]. panics.
  unfold refund_claim in *. panics. congruence.
Qed.
Lemma asset_mint_nopanic s sender asset to amount s' : do_asset_mint sender asset to amount s ≠ (s', Panic).
Proof.
  intros H. unfold do_asset_mint in H. panics.
  match goal with H : issuer_entry _ _ _ _ = Ok _ |- _ => apply issuer_entry_ok in H as (? & ? & ?) end.
  congruence.
Qed.
Lemma mandate_create_nopanic s sender id parent holder asset rate bmax pmax init expiry tier s' :
  do_mandate_create sender id parent holder asset rate bmax pmax init expiry tier s ≠ (s', Panic).
Proof.
  intros H. unfold do_mandate_create in H. panics.
  - destruct parent; [destruct (asset_bound s)|]; panics.
  - apply on_mandates_panic in H as [t' H]. by apply insert_nopanic in H.
  - destruct (bool_decide (parent = None)); panics.
Qed.

Lemma capacity_length leaves t n :
  tree_repr leaves t → 0 ≤ n ≤ 2 ^ 32 → has_capacity t n = true →
  Z.of_nat (length leaves) + n ≤ 2 ^ 32 - 1.
Proof. intros Hr Hn H. rewrite (has_capacity_spec leaves) in H by done. by apply bool_decide_eq_true in H. Qed.

Lemma target_room s key leaves :
  tree_repr leaves (pool_tree (target_pool s key)) →
  is_some_and (pool_ref s key) (λ p, is_full (pool_tree p)) = false →
  Z.of_nat (length leaves) + 1 ≤ 2 ^ 32 - 1.
Proof.
  intros Hr H. destruct (pool_ref s key) as [p|] eqn:Hq; simpl in H.
  - apply pool_ref_target in Hq as ->. unfold is_full in H. apply negb_false_iff in H.
    by apply (capacity_length leaves _ 1) in H.
  - destruct key as [|a]; [done|]. simpl in Hq, Hr. rewrite Hq in Hr.
    destruct Hr as (Hn & _). simpl in Hn. lia.
Qed.
Lemma mint_to_pool_nopanic s sender asset value commitment proof s' :
  inv s → do_mint_to_pool sender asset value commitment proof s ≠ (s', Panic).
Proof.
  intros Hs H. unfold do_mint_to_pool in H. panics; [by apply fresh_or_old in H|].
  match goal with H : entry_pool ?k _ = _ |- _ => apply entry_pool_ok in H as [-> _]; rename k into key end.
  apply on_pool_panic in H as [p' H].
  destruct (pool_ok_target s key Hs) as [[leaves Hr] _].
  pose proof (target_room s key leaves Hr ltac:(assumption)) as Hl.
  rewrite run_modify in H.
  edestruct (append_expect_runs (pool_set_asset (Some (default asset
    (pool_asset (target_pool (debited sender asset value s) key))))
    (target_pool (debited sender asset value s) key)) leaves commitment) as (t' & Ha & _);
    [by destruct key|done|].
  rewrite (run_eq _ _ _ _ _ Ha) in H. done.
Qed.

Lemma shielded_mandate_check_nopanic s sender fee mandate :
  shielded_mandate_check s sender fee mandate ≠ Panic.
Proof.
  unfold shielded_mandate_check. destruct mandate as [m|]; [|done].
  destruct (fee =? 0); simpl; [done|]. pose proof (holder_of_nopanic s m).
  destruct (holder_of s m); simpl; try done. destruct (negb _); simpl; [done|].
  apply check_mandate_nopanic.
Qed.
Lemma shielded_asset_check_nopanic s asset mandate : shielded_asset_check s asset mandate ≠ Panic.
Proof.
  unfold shielded_asset_check. destruct mandate as [m|]; [|done]. destruct (asset_bound s); [|done].
  pose proof (root_of_nopanic s m). destruct (root_of_mandate s m) as [root|e|]; simpl; try done.
  pose proof (check_asset_nopanic s m root).
  destruct (check_mandate_asset_bound s m root); simpl; try done.
  pose proof (mandate_asset_nopanic s m). destruct (mandate_asset s m); simpl; try done.
  unfold refuseR. by case_match.
Qed.
Lemma pool_ref_of_anchor s anchor key :
  pool_key_of_anchor s anchor = Some key → is_Some (pool_ref s key).
Proof.
  unfold pool_key_of_anchor. case_match; [intros [= <-]; by eexists|].
  destruct (List.find _ _) as [[a p]|] eqn:E; [|done]. intros [= <-].
  apply List.find_some in E as [E _]. apply list_elem_of_In, elem_of_btree_iter in E.
  simpl. by rewrite E.
Qed.
End nopanic.
#[export] Hint Resolve shielded_mandate_check_nopanic shielded_asset_check_nopanic : hknopanic.

Section dispatch_nopanic.
Context {SHAKE : Shake} {SHA2 : Sha2} {CODECS : Codecs}.

Lemma guard_some {A} (b : bool) (o : option A) :
  b && bool_decide (o = None) = false → b = true → is_Some o.
Proof. intros H ->. simpl in H. apply bool_decide_eq_false in H. by apply not_eq_None_Some. Qed.
Lemma unshield_gate_nopanic s s' fee asset credit_to :
  (0 <? fee) && bool_decide (asset = None) = false →
  (if 0 <? fee then let* a := expect asset in readM (λ s, asset_gate s a None credit_to)
   else retM tt) s ≠ (s', Panic).
Proof.
  intros Hg H. destruct (0 <? fee) eqn:E; [|done].
  destruct (guard_some true asset Hg eq_refl) as [a ->]. panics. done.
Qed.
Lemma spend_body_nopanic p p' leaves nf out out2 fee :
  tree_repr leaves (pool_tree p) → Z.of_nat (length leaves) + 2 ≤ 2 ^ 32 - 1 →
  (modifyM (λ p, pool_set_nullifiers ({[nf]} ∪ pool_nullifiers p) p) ;;;
   append_expect out ;;; append_expect out2 ;;;
   if 0 <? fee then modifyM (λ p, pool_set_total (sat_sub (pool_total_shielded p) fee) p)
   else retM tt) p ≠ (p', Panic).
Proof.
  intros Hr Hl H. rewrite run_modify in H.
  destruct (append_expect_runs (pool_set_nullifiers ({[nf]} ∪ pool_nullifiers p) p) leaves out)
    as (t1 & H1 & Hr1); [done|lia|]. rewrite (run_eq _ _ _ _ _ H1) in H.
  match goal with H : bindM _ _ ?q = _ |- _ =>
    destruct (append_expect_runs q (leaves ++ [out]) out2) as (t2 & H2 & Hr2) end;
    [done|rewrite length_app; simpl; lia|]. rewrite (run_eq _ _ _ _ _ H2) in H.
  by destruct (0 <? fee).
Qed.
Lemma unshield_credit_nopanic s s' fee credit_to asset :
  (0 <? fee) && bool_decide (credit_to = None) = false →
  (0 <? fee) && bool_decide (asset = None) = false →
  (if 0 <? fee then let* to := expect credit_to in let* a := expect asset in credit to a fee
   else retM tt) s ≠ (s', Panic).
Proof.
  intros H1 H2 H. destruct (0 <? fee) eqn:E; [|done].
  destruct (guard_some true credit_to H1 eq_refl) as [to ->].
  destruct (guard_some true asset H2 eq_refl) as [a ->]. done.
Qed.

Lemma shielded_spend_nopanic s sender anchor nf out out2 fee credit_to mandate proof s' :
  inv s → 0 ≤ fee →
  do_shielded_spend sender anchor nf out out2 fee credit_to mandate proof s ≠ (s', Panic).
Proof.
  intros Hs Hf H. unfold do_shielded_spend in H. panics.
  1: by eapply unshield_gate_nopanic in H.
  all: match goal with H : (if _ then _ else _) _ = (_, Ok ?u) |- _ =>
         apply unshield_gate_ok in H as (-> & _) end.
  all: match goal with H : pool_key_of_anchor _ _ = Some _ |- _ =>
         destruct (pool_ref_of_anchor _ _ _ H) as [q Hq] end.
  - congruence.
  - destruct mandate as [m|]; [|done]. apply on_mandates_panic in H as [t' H].
    by eapply spend_panic_absurd.
  - match goal with H : (match mandate with _ => _ end) _ = (_, Ok _), Hc : shielded_mandate_check _ _ _ _ = _ |- _ =>
      eapply shielded_draw_ok in H as (m' & -> & _); [|exact Hc] end.
    apply on_pool_panic in H as [p' H]. clear q Hq.
    match goal with H : pool_ref ?st ?k = Some ?p |- _ =>
      destruct (pool_ok_target st k Hs) as [[leaves Hr] _];
      rewrite <-(pool_ref_target _ _ _ H) in Hr end.
    eapply spend_body_nopanic in H; [done|exact Hr|]. by eapply capacity_length.
  - by eapply unshield_credit_nopanic in H.
Qed.

Lemma dispatch_nopanic sender tx s s' :
  inv s → tx_ok tx → dispatch sender tx s ≠ (s', Panic).
Proof.
  intros Hs Hok H. destruct tx; cbn [dispatch] in H; simpl in Hok.
  - unfold do_transfer in H. panics.
  - by apply mandate_create_nopanic in H.
  - apply mandate_spend_nopanic in H; [done|done|apply Hok].
  - unfold do_mandate_revoke in H. panics. apply on_mandates_panic in H as [t' H].
    rewrite revoke_spec in H. by case_match.
  - apply channel_open_nopanic in H; [done|done|apply Hok|apply Hok].
  - by apply channel_settle_nopanic in H.
  - by apply channel_refund_nopanic in H.
  - by apply mint_to_pool_nopanic in H.
  - apply shielded_spend_nopanic in H; [done|done|apply Hok].
  - unfold do_account_create in H. destruct (0 <? amount); panics.
  - unfold do_asset_register in H. panics.
  - by apply asset_mint_nopanic in H.
  - unfold do_asset_burn in H. panics. done.
  - unfold do_asset_freeze in H. panics.
  - unfold do_asset_pause in H. panics.
Qed.

(** ** The envelope and the block *)
Lemma accepts_accounts s sender tx ev s' id acc :
  accepts s sender tx ev s' → st_accounts s !! id = Some acc → st_accounts s' !! id = Some acc.
Proof.
  intros H Hacc. destruct H; simpl; repeat case_match; simpl; try done.
  all: try (rewrite lookup_insert_ne; [done|congruence]).
  all: by destruct key.
Qed.
Lemma charged_accounts id s : st_accounts (charged id s) = st_accounts s.
Proof. unfold charged. by case_match. Qed.

Lemma apply_tx_nopanic stx pre s s' :
  inv s → stx_ok stx → apply_tx_at stx pre s ≠ (s', Panic).
Proof.
  intros Hs [Hok _] H. unfold apply_tx_at in H.
  apply bindM_panic in H as [H|(s1 & u & H1 & H)].
  { revert H. apply readM_nopanic, check_envelope_nopanic. }
  apply readM_inv in H1 as [-> Henv]. symmetry in Henv.
  apply check_envelope_ok in Henv as (acc & Hacc & _).
  rewrite run_get in H. cbv zeta in H.
  apply bindM_panic in H as [H|(s1 & u1 & H1 & H)].
  { destruct (0 <? fee_due s); [|done]. apply bindM_panic in H as [H|(s2 & u2 & H1 & H)].
    - by apply refuse_if_panic in H.
    - apply refuse_if_ok in H1 as [-> Hb]. by apply expect_debit_nopanic in H; [|apply Z.ltb_ge]. }
  destruct u1. apply fee_step_ok in H1 as [-> Hfee].
  apply bindM_panic in H as [H|(s1 & ev & H1 & H)].
  { unfold on_errM in H. destruct (dispatch _ _ _) as [s2 [ev|e|]] eqn:Hd; simplify_eq.
    apply dispatch_nopanic in Hd; [done|by apply inv_charged|done]. }
  unfold on_errM in H1. destruct (dispatch _ _ _) as [s2 [ev2|e|]] eqn:Hd; simplify_eq.
  apply dispatch_sound in Hd.
  apply (accepts_accounts _ _ _ _ _ (stx_sender stx) acc) in Hd; [|by rewrite charged_accounts].
  destruct (0 <? fee_due s); panics; simpl in *; congruence.
Qed.

Lemma seal_anchor_nopanic {E} p p' : pool_ok p → seal_anchor (E := E) p ≠ (p', Panic).
Proof. intros [[leaves Hr] _]. by rewrite (seal_anchor_ok leaves). Qed.
Lemma seal_pools_nopanic s s' : inv s → seal_pools s ≠ (s', Panic).
Proof.
  intros Hs H. unfold seal_pools in H. rewrite run_get in H.
  apply bindM_panic in H as [H|(s1 & u & _ & H)].
  - apply on_pool_panic in H as [p' H]. by apply seal_anchor_nopanic in H; [|apply Hs].
  - assert (∀ a p, (a, p) ∈ btree_iter (st_pools s) → pool_ok p) as Hall.
    { intros a p Hp. apply elem_of_btree_iter in Hp. by apply (inv_pools s Hs _ _ Hp). }
    revert s1 H Hall. generalize (btree_iter (st_pools s)) as l. clear.
    induction l as [|[a p] l IH]; intros s1 H Hall; [done|]. cbn [for_eachM fst snd] in H.
    apply bindM_panic in H as [H|(s2 & u2 & _ & H)].
    + apply on_pool_panic in H as [p' H]. apply seal_anchor_nopanic in H; [done|].
      eapply Hall. by left.
    + apply (IH s2); [done|]. intros b q Hq. eapply Hall. by right.
Qed.
Lemma apply_txs_nopanic i txs v s s' :
  inv s → Forall stx_ok txs → (∀ l, v = Some l → (i + length txs ≤ length l)%nat) →
  apply_txs i txs v s ≠ (s', Panic).
Proof.
  intros Hs Hok. revert i s Hs. induction Hok as [|stx txs Hstx Hok IH]; intros i s Hs Hv H; [done|].
  cbn [apply_txs length] in *. apply bindM_panic in H as [H|(s1 & pre & H1 & H)].
  { destruct v as [l|]; [|done]. panics. apply lookup_ge_None in H. specialize (Hv l eq_refl). lia. }
  assert (s1 = s) as -> by (destruct v; by mrun).
  apply bindM_panic in H as [H|(s2 & r & H2 & H)].
  { unfold tryM in H. destruct (apply_tx_at stx pre s) as [s2 [ev|e|]] eqn:E; simplify_eq.
    by apply apply_tx_nopanic in E. }
  apply tryM_ok in H2 as (r' & Hr & Hp).
  apply bindM_panic in H as [H|(s3 & rs & _ & H)]; [|done].
  apply IH in H; [done|by eapply apply_tx_inv|]. intros l Hl. specialize (Hv l Hl). lia.
Qed.
Lemma apply_block_nopanic h t txs v s s' :
  inv s → in_u64 h → in_u64 t → Forall stx_ok txs →
  apply_block_verified h t txs v s ≠ (s', Panic).
Proof.
  intros Hs Hh Ht Hok H. unfold apply_block_verified in H. panics.
  - match goal with H : apply_txs _ _ _ ?y = _ |- _ => apply apply_txs_nopanic in H end;
      [done|by apply keeps_inv_frame|done|].
    intros l ->. match goal with H : is_some_and _ _ = false |- _ => simpl in H;
      apply negb_false_iff in H; apply Nat.eqb_eq in H end. lia.
  - apply seal_pools_nopanic in H; [done|].
    match goal with H : apply_txs _ _ _ ?y = (_, Ok _) |- _ =>
      apply (apply_txs_frame (λ _, keeps_inv)) in H; [|apply graded_const; apply _|apply keeps_inv_tx|done] end.
    match goal with H : keeps_inv _ _ |- _ => apply H end. by apply keeps_inv_frame.
Qed.

(** ** Genesis *)
Definition genesis_ok (g : Genesis) : Prop :=
  in_u64 (g_time g) ∧ Forall (λ e, in_u128 e.2) (g_alloc g) ∧
  (∀ f, g_fee g = Some f → in_u128 (gf_micro f)).

Lemma inv_default t : in_u64 t → inv (set_time t state_default).
Proof.
  intros Ht. constructor; simpl; try done; try (apply map_Forall_empty).
  - split; [exists []; apply tree_repr_new|apply in_u128_0].
Qed.
(** A run from [s] neither panics nor breaks the invariant. *)
Definition safe {A} (m : St A) (s : State) : Prop := (m s).2 ≠ Panic ∧ inv (m s).1.
Lemma safe_bind {A B} (m : St A) (k : A → St B) s :
  safe m s → (∀ s1 a, m s = (s1, Ok a) → inv s1 → safe (k a) s1) → safe (bindM m k) s.
Proof.
  unfold safe, bindM. destruct (m s) as [s1 [a|e|]]; simpl; intros [H1 H2] Hk; [|done|done].
  by apply Hk.
Qed.
Lemma safe_quiet {A} (m : St A) s : quiet m → (m s).2 ≠ Panic → inv s → safe m s.
Proof. intros Hq Hp Hs. split; [done|]. by rewrite Hq. Qed.
Lemma safe_refuse c e s : inv s → safe (refuse_if c e) s.
Proof. intros Hs. by destruct c. Qed.
Lemma safe_modify f s : inv (f s) → safe (modifyM f) s.
Proof. done. Qed.
Lemma safe_for_each {A} (f : A → St unit) (P : A → Prop) l s :
  inv s → Forall P l → (∀ a s, P a → inv s → safe (f a) s) → safe (for_eachM f l) s.
Proof.
  intros Hs Hl Hf. revert s Hs. induction Hl as [|a l Ha Hl IH]; intros s Hs; [done|].
  cbn [for_eachM]. apply safe_bind; [by apply Hf|]. intros s1 u _ Hs1. by apply IH.
Qed.
Lemma genesis_account_safe ga s : inv s → safe (genesis_account ga) s.
Proof.
  intros Hs. unfold genesis_account. apply safe_bind; [done|]. intros s0 a [= <- <-] _.
  apply safe_bind; [by apply safe_modify, inv_set_accounts|]. intros. by apply safe_refuse.
Qed.
Lemma genesis_asset_safe ga s : inv s → safe (genesis_asset ga) s.
Proof.
  intros Hs. unfold genesis_asset. apply safe_bind; [by apply safe_refuse|]. intros s1 _ _ Hs1.
  apply safe_bind; [by apply safe_refuse|]. intros s2 _ _ Hs2.
  apply safe_bind; [done|]. intros s3 a _ Hs3.
  apply safe_bind; [|intros; by apply safe_refuse].
  by apply safe_modify, inv_set_assets; [|apply in_u128_0..].
Qed.
Lemma genesis_alloc_safe e s : in_u128 e.2 → inv s → safe (genesis_alloc e) s.
Proof.
  destruct e as [[id asset] amount]. simpl. intros Ha Hs.
  apply safe_bind; [by apply safe_modify, inv_credited; [|apply Ha]|]. intros s1 _ _ Hs1.
  apply safe_bind; [done|]. intros s2 s3 H _. apply getM_inv in H as [-> H]. injection H as ->.
  destruct (st_assets s1 !! asset) as [info|] eqn:E; [|done].
  pose proof (inv_assets _ Hs1 _ _ E) as [H1 H2].
  apply safe_modify, inv_set_assets; [done| |done]. by apply in_u128_sat_add; [|apply Ha].
Qed.
Lemma genesis_fee_safe f s : in_u128 (gf_micro f) → inv s → safe (genesis_fee f) s.
Proof.
  intros Hf Hs. assert (inv (set_fee_from (gf_from_height f) (set_fee_micro (gf_micro f) s))) as H1.
  { destruct Hs as [? ? ? ? ? ? [? ?] ?]. by constructor. }
  unfold genesis_fee. do 2 (unfold safe; rewrite run_modify). fold (safe (A := unit)).
  destruct (gf_asset f); [|done]. apply safe_modify. destruct H1. by constructor.
Qed.
Lemma genesis_steps_safe g s : genesis_ok g → inv s → safe (genesis_steps g) s.
Proof.
  intros (_ & Halloc & Hfee) Hs. unfold genesis_steps.
  apply safe_bind.
  { apply (safe_for_each _ (λ _, True)); [done|by apply Forall_true|]. intros; by apply genesis_account_safe. }
  intros s1 _ _ Hs1. apply safe_bind.
  { apply (safe_for_each _ (λ _, True)); [done|by apply Forall_true|]. intros; by apply genesis_asset_safe. }
  intros s2 _ _ Hs2. apply safe_bind.
  { eapply safe_for_each; [done|exact Halloc|]. intros; by apply genesis_alloc_safe. }
  intros s3 _ _ Hs3. apply safe_bind.
  { destruct (g_fee g) as [f|]; [|done]. apply genesis_fee_safe; auto. }
  intros s4 _ _ Hs4. apply safe_bind; [done|]. intros s5 s6 H _.
  apply getM_inv in H as [-> H]. injection H as ->.
  apply safe_bind; [by apply safe_refuse|]. intros s5 _ _ Hs5.
  destruct (inv_pool s4 Hs4) as [[leaves Hr] Ht4].
  unfold safe, on_pool, zoom. rewrite (seal_anchor_ok leaves) by done. split; [done|].
  apply (inv_put_pool s5 Legacy); [done|split; [by exists leaves|done]|done|apply Hs4].
Qed.
Lemma from_genesis_spec g :
  genesis_ok g → from_genesis g ≠ Panic ∧ ∀ s, from_genesis g = Ok s → inv s.
Proof.
  intros Hg. unfold from_genesis.
  destruct (genesis_steps_safe g _ Hg (inv_default _ (proj1 Hg))) as [Hp Hi].
  destruct (genesis_steps g _) as [s [u|e|]]; simpl in *; naive_solver.
Qed.
End dispatch_nopanic.
