(* ===== verification/Demo.v ===== *)
(** A concrete ledger for the witnesses: toy encoders, two accounts, one funded
    balance, and the facts about it that every witness needs. *)

From S2P Require Export Invariant.
From S2P Require Import Toy.
#[local] Open Scope Z_scope.

Definition toy_codecs : Codecs := {|
  json_tx := λ tx, Some [];
  bincode_spend_public := λ p, h256_bytes (sp_nullifier p);
  bincode_mint_public := λ p, h256_bytes (mp_commitment p);
|}.
Definition toy_state_codecs : StateCodecs := {|
  json_node := λ n, Some (h256_bytes (mn_id n));
  json_channel := λ c, Some (h256_bytes (cs_id (chan_state c)));
|}.
#[local] Existing Instances toy_shake toy_sha2 toy_codecs.

Definition alice : AccountId := id_of 1.
Definition bob : AccountId := id_of 2.
Definition usd : AssetId := id_of 3.

(** The ledger with Alice's account (key [[]], nonce 0) and a balance of 100. *)
Definition demo : State :=
  set_balances {[(alice, usd) := 100]}
    (set_accounts {[alice := mkAccount (pk_commit []) 0]} state_default).
(** The same with a 2-unit fee in the transferred asset from height 0. *)
Definition demo_fee : State := set_fee_asset usd (set_fee_micro 2 (set_fee_from 0 demo)).

(** Alice's next transaction, its signature checked beforehand. *)
Definition alice_sends (nonce : Z) (tx : Tx) : SignedTx := mkSignedTx alice nonce tx (pk_commit []) [] [].

Lemma balance_demo : balance demo alice usd = 100.
Proof. unfold balance, demo. simpl. by rewrite lookup_singleton_eq. Qed.
Lemma account_demo : st_accounts demo !! alice = Some (mkAccount (pk_commit []) 0).
Proof. apply lookup_singleton_eq. Qed.
Lemma inv_demo : inv demo.
Proof.
  destruct (inv_default 0 ltac:(ulia)). constructor; try done.
  unfold balances_ok, demo. simpl. apply map_Forall_singleton. ulia.
Qed.
Lemma inv_demo_fee : inv demo_fee.
Proof. destruct inv_demo as [? ? ? ? ? ? [? ?] ?]. constructor; done. Qed.

(** A payload the rules accept is applied: no fee, matching nonce and key. *)
Lemma demo_applied nonce (s s2 : State) tx ev :
  st_accounts s !! alice = Some (mkAccount (pk_commit []) nonce) → fee_due s = 0 →
  accepts s alice tx ev s2 → st_accounts s2 !! alice = Some (mkAccount (pk_commit []) nonce) →
  apply_tx_at (alice_sends nonce tx) (Some true) s =
  (set_accounts (<[alice := mkAccount (pk_commit []) (wrapping u64_max (nonce + 1))]> (st_accounts s2)) s2,
   Ok ev).
Proof.
  intros Hacc Hfee H H2. apply apply_tx_complete. constructor.
  - unfold check_envelope, alice_sends.
    cbn [stx_sender stx_nonce stx_lamport_pk default]. rewrite Hacc.
    cbn [ok_orR bindR acc_nonce acc_auth_commit]. by rewrite Z.eqb_refl, bool_decide_eq_true_2.
  - rewrite Hfee. lia.
  - unfold charged, burned. rewrite Hfee. cbn [Z.ltb Z.compare].
    exists s2, (mkAccount (pk_commit []) nonce). split; [exact H|]. split; [exact H2|reflexivity].
Qed.
(** Alice pays Bob. *)
Lemma demo_transfer_accepted nonce (s : State) amount :
  st_accounts s !! alice = Some (mkAccount (pk_commit []) nonce) →
  st_assets s = ∅ → fee_due s = 0 → 0 < amount → amount ≤ balance s alice usd →
  apply_tx_at (alice_sends nonce (Tx.Transfer bob usd amount)) (Some true) s =
  (set_accounts (<[alice := mkAccount (pk_commit []) (wrapping u64_max (nonce + 1))]> (st_accounts s))
     (credited bob usd amount (debited alice usd amount s)),
   Ok [Event.Transferred alice bob usd amount]).
Proof.
  intros Hacc Hassets Hfee Hpos Hle.
  apply (demo_applied nonce s (credited bob usd amount (debited alice usd amount s))); [done|done| |exact Hacc].
  constructor; [lia| |done]. unfold gate_open, asset_gate. by rewrite Hassets.
Qed.

(** The demo ledger with [usd] registered: all 100 issued are held by Alice. *)
Definition usd_info : AssetInfo := mkAsset "USD" 2 alice (mkPolicy true false true false) 100 0 false ∅ 0.
Definition demo_asset (info : AssetInfo) : State := set_assets {[usd := info]} demo.
Lemma usd_counters : in_u128 100.
Proof. ulia. Qed.
Lemma usd_no_burn : in_u128 0.
Proof. ulia. Qed.
Lemma inv_demo_asset info :
  in_u128 (ai_supply info) → in_u128 (ai_burned info) → inv (demo_asset info).
Proof. intros H1 H2. apply (inv_set_assets demo usd info inv_demo H1 H2). Qed.
Lemma usd_demo_asset info : st_assets (demo_asset info) !! usd = Some info.
Proof. apply lookup_singleton_eq. Qed.
Lemma usd_ne_fee : usd ≠ FEE_ASSET.
Proof. apply (bool_decide_unpack _). vm_compute. exact I. Qed.
Lemma alice_ne_bob : alice ≠ bob.
Proof. apply (bool_decide_unpack _). vm_compute. exact I. Qed.

(** A chain of no blocks. *)
Lemma reach_here (s : State) : reach 0 s s.
Proof. constructor. Qed.
Lemma stx_ok_sends nonce tx : in_u64 nonce → tx_ok tx → stx_ok (alice_sends nonce tx).
Proof. by split. Qed.

(** The demo ledger with a verifier that accepts and one spendable anchor. *)
Definition demo_pool : State :=
  let p := mkPool 1 None tree_new ∅ 0 [id_of 9] in
  mkState 0 0 (st_accounts demo) (st_balances demo) ∅ ∅ ∅ p (mkProofVerifier (λ _ _, true) (λ _ _, true))
    ∅ 0 u64_max 0 FEE_ASSET ∅ ∅ u64_max u64_max u64_max.
Definition demo_spend : Tx :=
  Tx.ShieldedSpend (id_of 9) (id_of 10) (id_of 11) (id_of 12) 0 None None [x00] [] [].
Lemma inv_demo_pool : inv demo_pool.
Proof.
  destruct inv_demo. by constructor.
Qed.
Lemma appended_new c1 c2 : ∃ t1 t2, appended tree_new c1 t1 ∧ appended t1 c2 t2.
Proof.
  pose proof (append_spec (E := StateError) [] tree_new c1 tree_repr_new) as H1.
  rewrite bool_decide_eq_true_2 in H1 by (simpl; lia). destruct H1 as (t1 & H1 & Hr).
  pose proof (append_spec (E := StateError) _ t1 c2 Hr) as H2.
  rewrite bool_decide_eq_true_2 in H2 by (simpl; lia). destruct H2 as (t2 & H2 & _).
  exists t1, t2. split; eexists; eassumption.
Qed.
Lemma demo_spend_accepted :
  ∃ s1 ev, apply_tx_at (alice_sends 0 demo_spend) (Some true) demo_pool = (s1, Ok ev) ∧
    pool_anchors (st_pool s1) = [id_of 9].
Proof.
  destruct (appended_new (id_of 11) (id_of 12)) as (t1 & t2 & H1 & H2).
  eexists _, _. split.
  - apply (demo_applied 0 demo_pool); [exact account_demo|reflexivity| |].
    + eapply (acc_shielded_spend _ _ (id_of 9) (id_of 10) (id_of 11) (id_of 12) 0 None None [x00] [] []
        Legacy (st_pool demo_pool) ∅ t1 t2); try done.
      all: unfold demo_pool; simpl; try (intros; lia); try apply not_elem_of_empty; try exact H1; try exact H2.
    + exact account_demo.
  - reflexivity.
Qed.
