(* ===== verification/Account.v ===== *)
(** An account that signs from a file (hk-node/src/account.rs, the wallet and the
    RPC replies of demo.rs, [hk_submit] of attest.rs): the one-time keys are a
    ratchet, the next index is saved before a transaction leaves, and the
    index of the chain is adopted before every one.

    What the outside does comes from a script: each reply of the node, each
    outcome of a write; a script that has run out is a killed process. *)

From S2P Require Export Lamport Tx Text.
From S2P Require Import Signer State Toy Demo.
#[local] Open Scope Z_scope.

(** [Display] of a JSON value. *)
Class JsonText := show_value : Value → string.

(** * Replies of the node *)

(** [{ "error": e }] stands for a reply that did not come. *)
Definition no_reply (e : string) : Value := VObj [("error", VStr e)].
Definition account_nonce (v : Value) : option Z :=
  r ← vget "result" v;
  found ← (vget "found" r ≫= vbool);
  match found with true => vget "nonce" r ≫= vu64 | false => None end.
Definition receipt (v : Value) : option string :=
  r ← vget "result" v;
  found ← (vget "found" r ≫= vbool);
  match found with true => vget "detail" r ≫= vstr | false => None end.
Definition chain_height (v : Value) : Z := default 0 (vpath ["result"; "height"] v ≫= vu64).
Definition SUBMIT_FAILED : string := "submit-failed".
Definition submit_txid (v : Value) : option string := vpath ["result"; "txid"] v ≫= vstr.
Definition submit_reply `{JsonText} (v : Value) : string :=
  match submit_txid v with
  | Some txid => txid
  | None => SUBMIT_FAILED +:+ ": " +:+ show_value v
  end.

(** * The file and the wallet *)

Record AccountFile := mkAccountFile { af_seed : string; af_id : string; af_next_nonce : Z }.
Definition af_set_nonce (n : Z) (f : AccountFile) : AccountFile := mkAccountFile f.(af_seed) f.(af_id) n.
(** [parse_h256] *)
Definition parse_h256 (s : string) : option H256 := h256_of_hex (trim s).
Record Wallet := mkWallet { wa_seed : bytes; wa_id : AccountId; wa_next_nonce : Z }.

Section wallet.
Context {SHAKE : Shake} {CODECS : Codecs}.
Definition commit_at (seed : bytes) (nonce : Z) : H256 := pk_commit (keygen seed nonce).2.
Definition derived_id (auth_commit : H256) : H256 := shake256_32 DOM_ACCOUNT_ID [h256_bytes auth_commit].
(** [sign_tx]; [None] is the panic of a payload that does not encode. *)
Definition sign_tx (seed : bytes) (id : AccountId) (nonce : Z) (payload : Tx) : option SignedTx :=
  let '(sk, pk) := keygen seed nonce in
  let next_auth := commit_at seed (wrapping u64_max (nonce + 1)) in
  digest ← signing_digest payload id nonce next_auth;
  Some (mkSignedTx id nonce payload next_auth pk (sign sk digest)).
(** [Wallet::sign] *)
Definition wallet_sign (payload : Tx) (w : Wallet) : option (SignedTx * Wallet) :=
  tx ← sign_tx w.(wa_seed) w.(wa_id) w.(wa_next_nonce) payload;
  Some (tx, mkWallet w.(wa_seed) w.(wa_id) (wrapping u64_max (w.(wa_next_nonce) + 1))).
(** [Wallet::rollback] *)
Definition rollback (w : Wallet) : Wallet := mkWallet w.(wa_seed) w.(wa_id) (wrapping u64_max (w.(wa_next_nonce) - 1)).
End wallet.

(** * The outside *)

(** How an append to a file ends: [AFailed n] and [AKilled n] leave [n] bytes.  The
    answers are those to appends, replacements of a file, requests to the node
    (with [no_reply] for a failed one), requests whose failure the caller is
    told, draws of randomness, submissions, and the bridge's other requests. *)
Inductive Append := ADone | AFailed (n : nat) | AKilled (n : nat).
Inductive Answer :=
  | OnAppend (now : Z) (a : Append)
  | OnSave (w : WriteOutcome)
  | OnHk (v : Value)
  | OnReply (r : string + Value)
  | OnFresh (h : H256)
  | OnSubmit (entered : bool) (v : Value)
  | OnEth (r : string + Value)
  | OnSend (entered : bool) (r : string + Value)
  | OnCosign (r : string + Value).
(** What left the process; [entered] says whether it took effect out there. *)
Inductive Sent :=
  | SentTx (tx : SignedTx) (entered : bool)
  | SentRaw (raw : bytes) (entered : bool).
Inductive CliError := Killed | Fail (text : string).

Record Client := mkClient { cl_account : option AccountFile; cl_script : list Answer; cl_sent : list Sent }.
Definition cl_set_account (f : option AccountFile) (c : Client) : Client := mkClient f c.(cl_script) c.(cl_sent).
Definition cl_send (x : Sent) (c : Client) : Client := mkClient c.(cl_account) c.(cl_script) (c.(cl_sent) ++ [x]).
#[local] Notation Cl A := (M Client CliError A).

(** The [Result] as a value; a killed process has none. *)
Definition attempt {S A} (m : M S CliError A) : M S CliError (string + A) :=
  λ s, match m s with
       | (s1, Ok a) => (s1, Ok (inr a))
       | (s1, Err (Fail e)) => (s1, Ok (inl e))
       | (s1, Err Killed) => (s1, Err Killed)
       | (s1, Panic) => (s1, Panic)
       end.
(** The next answer, of the kind the operation expects. *)
Definition next_answer {A} (pick : Answer → option A) : Cl A :=
  λ c, match c.(cl_script) with
       | x :: script =>
           match pick x with
           | Some a => (mkClient c.(cl_account) script c.(cl_sent), Ok a)
           | None => (c, Err Killed)
           end
       | [] => (c, Err Killed)
       end.
Definition hk_rpc : Cl Value := next_answer (λ x, match x with OnHk v => Some v | _ => None end).
Definition save (f : AccountFile) : Cl unit :=
  let* w := next_answer (λ x, match x with OnSave w => Some w | _ => None end) in
  match w with
  | WDone => modifyM (cl_set_account (Some f))
  | WNotSynced => modifyM (cl_set_account (Some f)) ;;; failM (Fail "save")
  | WNotRenamed => failM (Fail "save")
  end.

Section submit.
Context {SHAKE : Shake} {CODECS : Codecs} {TEXT : JsonText}.

(** The request [hk_submitTx]. *)
Definition post_tx (tx : SignedTx) : Cl Value :=
  let* '(entered, v) := next_answer (λ x, match x with OnSubmit e v => Some (e, v) | _ => None end) in
  modifyM (cl_send (SentTx tx entered)) ;;; retM v.
(** [demo::submit] *)
Definition submit (tx : SignedTx) : Cl string :=
  let* v := post_tx tx in retM (submit_reply v).
(** The head of [hk_submit] and [sign_submit]: the transaction, signed at the
    nonce of the chain and reserved in the file. *)
Definition reserve_sign (payload : Tx) : Cl (SignedTx * AccountFile) :=
  let* c := getM in
  let* f := ok_or c.(cl_account) (Fail "no account") in
  let* seed := ok_or (hex_decode f.(af_seed)) (Fail "seed") in
  let* id := ok_or (parse_h256 f.(af_id)) (Fail "id") in
  let* v := hk_rpc in
  match account_nonce v with
  | None => failM (Fail "issuer account does not exist on-chain")
  | Some n =>
      let f := if n =? f.(af_next_nonce) then f else af_set_nonce n f in
      let* '(tx, w) := expect (wallet_sign payload (mkWallet seed id f.(af_next_nonce))) in
      let f := af_set_nonce w.(wa_next_nonce) f in
      save f ;;;
      retM (tx, f)
  end.
Definition roll_back (f : AccountFile) : AccountFile := af_set_nonce (wrapping u64_max (f.(af_next_nonce) - 1)) f.
Definition hk_submit (payload : Tx) : Cl string :=
  let* '(tx, f) := reserve_sign payload in
  let* txid := submit tx in
  if starts_with SUBMIT_FAILED txid
  then attempt (save (roll_back f)) ;;; failM (Fail txid)
  else retM txid.

(** Up to [n] looks at the receipt of a transaction. *)
Fixpoint wait_receipt (n : nat) : Cl (option string) :=
  match n with
  | O => retM None
  | S n =>
      let* v := hk_rpc in
      match receipt v with Some r => retM (Some r) | None => wait_receipt n end
  end.
(** [sign_submit] of account.rs, the command line *)
Definition sign_submit (payload : Tx) : Cl unit :=
  let* '(tx, f) := reserve_sign payload in
  let* txid := submit tx in
  if starts_with SUBMIT_FAILED txid then save (roll_back f) ;;; failM (Fail txid)
  else
    let* r := wait_receipt 30 in
    match r with
    | Some r => if starts_with "rejected" r then save (roll_back f) ;;; failM (Fail r) else retM tt
    | None => retM tt
    end.
(** [send_payload] of hk-wallet-core, the wallets; the seed is the opened file's *)
Definition send_payload (seed : bytes) (id : AccountId) (payload : Tx) : Cl string :=
  let* v := hk_rpc in
  match account_nonce v with
  | None => failM (Fail "This wallet isn't on-chain yet")
  | Some nonce =>
      let* c := getM in
      let* f := ok_or c.(cl_account) (Fail "no account") in
      let f := af_set_nonce (wrapping u64_max (nonce + 1)) f in
      let back : Cl unit := attempt (save (af_set_nonce nonce f)) ;;; retM tt in
      save f ;;;
      let* tx := expect (sign_tx seed id nonce payload) in
      let* v := post_tx tx in
      match submit_txid v with
      | None => back ;;; failM (Fail (show_value v))
      | Some txid =>
          let* r := wait_receipt 75 in
          match r with
          | Some r => if starts_with "rejected" r then back ;;; failM (Fail r) else retM txid
          | None => failM (Fail "no receipt after 60 s")
          end
      end
  end.
End submit.
#[global] Arguments sign_tx : simpl never.
#[global] Arguments wrapping : simpl never.

(** * The key of a payment *)

Definition mute : relation Client := λ c c', c'.(cl_sent) = c.(cl_sent).
#[export] Instance mute_preorder : PreOrder mute.
Proof. split; [done|]. intros x y z H1 H2. unfold mute in *. congruence. Qed.
Lemma mute_next_answer {A} (pick : Answer → option A) : respects mute (next_answer pick).
Proof. intros c. unfold next_answer. destruct (cl_script c) as [|x script]; [done|]. by destruct (pick x). Qed.
Lemma mute_attempt {A} (m : M Client CliError A) : respects mute m → respects mute (attempt m).
Proof. intros H c. specialize (H c). unfold attempt. by destruct (m c) as [? [|[]|]]. Qed.
Ltac mute :=
  repeat first
    [ apply respects_bind; [apply _| |intros ?]
    | apply mute_next_answer
    | apply mute_attempt
    | apply respects_quiet; [apply _|solve [auto with hkframe]]
    | apply respects_modify; by intros []
    | match goal with |- context [match ?x with _ => _ end] => destruct x end ].
Lemma mute_save f : respects mute (save f).
Proof. unfold save. mute. Qed.
Lemma mute_wait_receipt n : respects mute (wait_receipt n).
Proof. induction n as [|n IH]; cbn [wait_receipt]; [by mute|]. unfold hk_rpc. mute. done. Qed.

Section payments.
#[local] Opaque sign_tx keygen verify Lamport.sign.
Context {SHAKE : Shake} {CODECS : Codecs} {TEXT : JsonText}.
Implicit Types (c : Client) (p : Tx).

(** The seed and id of a file. *)
Definition opens (f : AccountFile) (seed : bytes) (id : AccountId) : Prop :=
  hex_decode f.(af_seed) = Some seed ∧ parse_h256 f.(af_id) = Some id.
(** The node, asked for the nonce, answered [n]. *)
Definition told (n : Z) c : Prop := ∃ v script, c.(cl_script) = OnHk v :: script ∧ account_nonce v = Some n.

Lemma told_det n m c : told n c → told m c → n = m.
Proof. intros (v & s & E & Hv) (w & u & F & Hw). rewrite E in F. injection F as -> _. congruence. Qed.
Lemma hk_rpc_ok c c' v : hk_rpc c = (c', Ok v) → ∃ script, c.(cl_script) = OnHk v :: script.
Proof.
  unfold hk_rpc, next_answer. destruct (cl_script c) as [|x script]; [done|]. destruct x; naive_solver.
Qed.
Lemma reserve_sign_mute p : respects mute (reserve_sign p).
Proof. unfold reserve_sign, hk_rpc. mute. all: by apply mute_save. Qed.
Lemma wallet_sign_tx p w tx w' :
  wallet_sign p w = Some (tx, w') → sign_tx w.(wa_seed) w.(wa_id) w.(wa_next_nonce) p = Some tx.
Proof. unfold wallet_sign. destruct (sign_tx _ _ _ _); cbn; [|done]. by intros [= -> _]. Qed.
Lemma adopt_nonce n f : (if n =? f.(af_next_nonce) then f else af_set_nonce n f).(af_next_nonce) = n.
Proof. by destruct (Z.eqb_spec n f.(af_next_nonce)). Qed.
Lemma reserve_sign_ok p c c' tx f :
  reserve_sign p c = (c', Ok (tx, f)) →
  ∃ f0 seed id n, c.(cl_account) = Some f0 ∧ opens f0 seed id ∧ told n c ∧ sign_tx seed id n p = Some tx.
Proof.
  intros H. unfold reserve_sign in H. mrun.
  match goal with E : hk_rpc _ = (_, Ok ?v) |- _ => apply hk_rpc_ok in E as (script & E) end.
  case_match; [|done]. mrun. eexists _, _, _, _. split_and!; [done|by split|by eexists _, _|].
  match goal with H : (let (_, _) := ?x in _) _ = _, E : wallet_sign _ _ = Some ?x |- _ =>
    destruct x as [tx0 w]; apply wallet_sign_tx in E; cbn in E; rewrite adopt_nonce in E end.
  mrun. by simplify_eq.
Qed.
Lemma post_tx_run tx c :
  (∃ e v, (post_tx tx c).2 = Ok v ∧ (post_tx tx c).1.(cl_sent) = c.(cl_sent) ++ [SentTx tx e]) ∨
  post_tx tx c = (c, Err Killed).
Proof.
  unfold post_tx, bindM, next_answer. destruct (cl_script c) as [|[] script]; cbn; eauto 10.
Qed.
Lemma silent_bind {A B} (m : M Client CliError A) (k : A → M Client CliError B) c :
  (∀ x, respects mute (k x)) → (bindM m k c).1.(cl_sent) = (m c).1.(cl_sent).
Proof. intros Hk. unfold bindM. destruct (m c) as [c1 [x|e|]]; [apply Hk|done..]. Qed.

(** What a payment by [m] sends: nothing, or the payload under the key of the
    nonce the node told, whatever index the file has. *)
Definition keyed seed id p c c' : Prop :=
  mute c c' ∨ ∃ n tx e, told n c ∧ sign_tx seed id n p = Some tx ∧ c'.(cl_sent) = c.(cl_sent) ++ [SentTx tx e].
Lemma post_keyed {A} seed id p n tx c0 c (k : Value → M Client CliError A) :
  mute c0 c → told n c0 → sign_tx seed id n p = Some tx → (∀ v, respects mute (k v)) →
  keyed seed id p c0 (bindM (post_tx tx) k c).1.
Proof.
  intros Hm Ht Hs Hk. destruct (post_tx_run tx c) as [(e & v & _ & E)|E].
  - right. exists n, tx, e. split_and!; [done..|]. by rewrite silent_bind, E, Hm.
  - left. unfold mute in *. by rewrite silent_bind, E.
Qed.
Lemma reserve_sign_keyed {A} p f seed id c (k : SignedTx * AccountFile → M Client CliError A) :
  c.(cl_account) = Some f → opens f seed id →
  (∀ tx f c1 n, mute c c1 → told n c → sign_tx seed id n p = Some tx → keyed seed id p c (k (tx, f) c1).1) →
  keyed seed id p c (bindM (reserve_sign p) k c).1.
Proof.
  intros Hf [Ho1 Ho2] Hk. pose proof (reserve_sign_mute p c) as Hm. unfold bindM.
  destruct (reserve_sign p c) as [c1 [[tx f1]|e|]] eqn:E; cbn in Hm |- *; [|by left..].
  apply reserve_sign_ok in E as (f0 & seed' & id' & n & Hf0 & [? ?] & Ht & Hs). simplify_eq. by eapply Hk.
Qed.

Lemma keyed_bind {A B} seed id p c0 c (m : M Client CliError A) (k : A → M Client CliError B) :
  respects mute m → mute c0 c → (∀ x c1, m c = (c1, Ok x) → mute c0 c1 → keyed seed id p c0 (k x c1).1) →
  keyed seed id p c0 (bindM m k c).1.
Proof.
  intros Hm H0 Hk. specialize (Hm c). unfold bindM.
  destruct (m c) as [c1 [x|e|]]; cbn in Hm |- *; [|left; by etrans..]. apply Hk; [done|by etrans].
Qed.
(** The three programs that pay from an account file. *)
Inductive pays (seed : bytes) (id : AccountId) (p : Tx) (c : Client) : Client → Prop :=
  | pays_service f : c.(cl_account) = Some f → opens f seed id → pays seed id p c (hk_submit p c).1
  | pays_command f : c.(cl_account) = Some f → opens f seed id → pays seed id p c (sign_submit p c).1
  | pays_wallet : pays seed id p c (send_payload seed id p c).1.
Lemma pays_keyed seed id p c c' : pays seed id p c c' → keyed seed id p c c'.
Proof.
  intros [f Hf Ho|f Hf Ho|].
  - unfold hk_submit. apply (reserve_sign_keyed _ f); [done..|]. intros tx f' c1 n Hm Ht Hs.
    unfold submit. rewrite bindM_assoc. eapply post_keyed; [done..|]. intros v. mute; by apply mute_save.
  - unfold sign_submit. apply (reserve_sign_keyed _ f); [done..|]. intros tx f' c1 n Hm Ht Hs.
    unfold submit. rewrite bindM_assoc. eapply post_keyed; [done..|]. intros v. mute; first [by apply mute_save|by apply mute_wait_receipt].
  - unfold send_payload. apply keyed_bind; [by apply mute_next_answer|done|]. intros v c1 E H1.
    assert (Ht : ∀ n, account_nonce v = Some n → told n c).
    { apply hk_rpc_ok in E as [script E]. by exists v, script. }
    destruct (account_nonce v) as [n|]; [|by left]. specialize (Ht n eq_refl).
    apply keyed_bind; [by mute|done|]. intros c2 c3 _ H2. apply keyed_bind; [by mute|done|]. intros f c4 _ H4.
    apply keyed_bind; [by apply mute_save|done|]. intros [] c5 _ H5.
    destruct (sign_tx seed id n p) as [tx|] eqn:Hs; [|by left]. cbn [expect]. rewrite bindM_ret_l.
    eapply post_keyed; [done..|]. intros w. mute; first [by apply mute_save|by apply mute_wait_receipt].
Qed.
#[local] Transparent sign_tx.
Lemma sign_tx_verifies seed id n p tx :
  sign_tx seed id n p = Some tx →
  ∃ d, signing_digest p id n tx.(stx_next_auth) = Some d ∧ tx.(stx_payload) = p ∧ tx.(stx_nonce) = n ∧
    tx.(stx_lamport_pk) = (keygen seed n).2 ∧ verify (keygen seed n).2 d tx.(stx_sig) = Ok tt.
Proof.
  unfold sign_tx. pose proof (verify_sign seed n) as V. destruct (keygen seed n) as [sk pk].
  destruct (signing_digest _ _ _ _) as [d|] eqn:Ed; [|done].
  intros H. injection H as <-. exists d. by split_and!.
Qed.

(** C40: payments that wait share their one-time key.  The command line, the bridge and
    the wallets save the next index before a payment leaves, and then sign at the nonce
    of the chain whatever the saved index is; so two payments made while the chain still
    answers the same nonce (the first is pending, or was refused) are signed
    by one key.  Both signatures verify, and from the two anyone makes a valid one
    of every digest whose bits each agree with one of theirs. *)
Theorem pending_payment_reuses_key seed id p1 p2 c1 c1' c2 c2' n :
  pays seed id p1 c1 c1' → pays seed id p2 c2 c2' →
  ¬ mute c1 c1' → ¬ mute c2 c2' → told n c1 → told n c2 →
  let pk := (keygen seed n).2 in
  ∃ tx1 e1 d1 tx2 e2 d2,
    c1'.(cl_sent) = c1.(cl_sent) ++ [SentTx tx1 e1] ∧ c2'.(cl_sent) = c2.(cl_sent) ++ [SentTx tx2 e2] ∧
    tx1.(stx_payload) = p1 ∧ tx2.(stx_payload) = p2 ∧ tx1.(stx_lamport_pk) = pk ∧ tx2.(stx_lamport_pk) = pk ∧
    verify pk d1 tx1.(stx_sig) = Ok tt ∧ verify pk d2 tx2.(stx_sig) = Ok tt ∧
    ∀ d, bits_between d1 d2 d → verify pk d (splice d1 tx1.(stx_sig) d2 tx2.(stx_sig) d) = Ok tt.
Proof.
  intros P1 P2 M1 M2 T1 T2.
  destruct (pays_keyed _ _ _ _ _ P1) as [?|(n1 & tx1 & e1 & Ht1 & S1 & E1)]; [done|].
  destruct (pays_keyed _ _ _ _ _ P2) as [?|(n2 & tx2 & e2 & Ht2 & S2 & E2)]; [done|].
  rewrite <-(told_det _ _ _ T1 Ht1) in S1. rewrite <-(told_det _ _ _ T2 Ht2) in S2.
  apply sign_tx_verifies in S1 as (d1 & _ & ? & _ & ? & V1). apply sign_tx_verifies in S2 as (d2 & _ & ? & _ & ? & V2).
  exists tx1, e1, d1, tx2, e2, d2. repeat (split; [assumption|]). intros d Hd.
  exact (splice_verifies _ _ _ _ _ _ V1 V2 Hd).
Qed.
End payments.

(** * A witness *)

Module Sample.
#[local] Existing Instances toy_shake toy_sha2 toy_codecs.
#[export] Instance text : JsonText := λ _, "".
Definition file (nonce : Z) : AccountFile := mkAccountFile "01" (hex (h256_bytes (id_of 7))) nonce.
(** The reply to a question for the nonce, and to a submission. *)
Definition nonce_reply (n : Z) : Value := VObj [("result", VObj [("found", VBool true); ("nonce", VNum n)])].
Definition txid_reply (s : string) : Value := VObj [("result", VObj [("accepted", VBool true); ("txid", VStr s)])].
Definition client (nonce : Z) : Client :=
  mkClient (Some (file nonce)) [OnHk (nonce_reply 4); OnSave WDone; OnSubmit true (txid_reply "aa")] [].
Definition pay (n : Z) : Tx := Tx.Transfer (id_of 9) (id_of 2) n.
End Sample.

#[local] Existing Instances toy_shake toy_sha2 toy_codecs.
#[local] Existing Instance Sample.text.
Lemma sample_pays n k : pays [x01] (id_of 7) (Sample.pay k) (Sample.client n) (hk_submit (Sample.pay k) (Sample.client n)).1.
Proof. apply (pays_service _ _ _ _ (Sample.file n)); [done|by split]. Qed.
Lemma sample_told n : told 4 (Sample.client n).
Proof. by eexists _, _. Qed.
Lemma sample_speaks n : n = 4 ∨ n = 5 → ∀ k, k = 10 ∨ k = 20 →
  ¬ mute (Sample.client n) (hk_submit (Sample.pay k) (Sample.client n)).1.
Proof.
  intros Hn k Hk H. apply (f_equal length) in H.
  destruct Hn as [->| ->], Hk as [->| ->]; vm_compute in H; discriminate.
Qed.
(** The file was saved at 5 after the first payment; the chain still says 4. *)
Lemma pending_payment_reuses_key_witness :
  let pk := (keygen [x01] 4).2 in
  ∃ tx1 tx2 d1 d2, tx1.(stx_payload) = Sample.pay 10 ∧ tx2.(stx_payload) = Sample.pay 20 ∧
    verify pk d1 tx1.(stx_sig) = Ok tt ∧ verify pk d2 tx2.(stx_sig) = Ok tt.
Proof.
  destruct (pending_payment_reuses_key [x01] (id_of 7) (Sample.pay 10) (Sample.pay 20) (Sample.client 4) _ (Sample.client 5) _ 4
    (sample_pays 4 10) (sample_pays 5 20) (sample_speaks 4 (or_introl eq_refl) 10 (or_introl eq_refl))
    (sample_speaks 5 (or_intror eq_refl) 20 (or_intror eq_refl)) (sample_told 4) (sample_told 5))
    as (tx1 & e1 & d1 & tx2 & e2 & d2 & _ & _ & P1 & P2 & _ & _ & V1 & V2 & _).
  exact (ex_intro _ tx1 (ex_intro _ tx2 (ex_intro _ d1 (ex_intro _ d2 (conj P1 (conj P2 (conj V1 V2))))))).
Defined.
