(* ===== verification/Shielding.v ===== *)
(** The shielded side of a wallet (hk-wallet-core/src/shield.rs and client.rs): the
    file with its master seed, its one-time counters and what it has scanned; the pool
    feed, page by page; shielding, unshielding, paying.

    The file is the opened one (vault.rs seals it at rest), errors are the text of
    their first part, and calls of one wallet do not overlap (the app's
    WalletVm.kt lets one run at a time). *)

From S2P Require Import Signer.
From S2P Require Export Account Notes.
#[local] Open Scope Z_scope.

Definition OTS_CAPACITY : Z := 64.
Definition POOL_PAGE : Z := 2000.
(** The native unit, 32 bytes of 9. *)
Definition USD : AssetId := h256_rep x09.

(** * The file *)

Record StoredNote := mkStored {
  sn_leaf_index : Z;
  sn_commitment : string;
  sn_value : Z;
  sn_rho : string;
  sn_rcm : string;
  sn_memo : string;
  sn_spent : bool;
}.
Definition sn_set_spent (n : StoredNote) : StoredNote :=
  mkStored n.(sn_leaf_index) n.(sn_commitment) n.(sn_value) n.(sn_rho) n.(sn_rcm) n.(sn_memo) true.
Record ScanCache := mkCache { ca_chain_id : string; ca_scanned_through : Z; ca_notes : list StoredNote }.
#[export] Instance cache_eq_dec : EqDecision ScanCache.
Proof. assert (EqDecision StoredNote) by solve_decision. solve_decision. Defined.
Definition cache_default : ScanCache := mkCache "" 0 [].
Record ShieldFile := mkShield {
  sh_master_hex : string;
  sh_next_ots_index : Z;
  sh_next_note_tag : Z;
  sh_scan : ScanCache;
  sh_pools : gmap string ScanCache;
}.
Definition sh_set_ots (n : Z) (f : ShieldFile) : ShieldFile :=
  mkShield f.(sh_master_hex) n f.(sh_next_note_tag) f.(sh_scan) f.(sh_pools).
Definition sh_set_tag (n : Z) (f : ShieldFile) : ShieldFile :=
  mkShield f.(sh_master_hex) f.(sh_next_ots_index) n f.(sh_scan) f.(sh_pools).

Definition stored_note (d : Discovered) : StoredNote :=
  mkStored d.(dc_leaf_index) (hex (h256_bytes d.(dc_commitment))) d.(dc_note).(note_value)
    (hex (h256_bytes d.(dc_note).(note_rho))) (hex (h256_bytes d.(dc_note).(note_rcm))) (hex d.(dc_memo)) false.
Definition to_discovered (owner : H256) (n : StoredNote) : option Discovered :=
  rho ← h256_of_hex n.(sn_rho);
  rcm ← h256_of_hex n.(sn_rcm);
  commitment ← h256_of_hex n.(sn_commitment);
  Some (mkDiscovered (mkNote n.(sn_value) owner rho rcm) commitment n.(sn_leaf_index) (default [] (hex_decode n.(sn_memo)))).
(** [cache_mut]: the cache of a pool, and its replacement. *)
Definition cache_of (asset : AssetId) (f : ShieldFile) : ScanCache :=
  if bool_decide (asset = USD) then f.(sh_scan)
  else default cache_default (f.(sh_pools) !! hex (h256_bytes asset)).
Definition put_cache (asset : AssetId) (c : ScanCache) (f : ShieldFile) : ShieldFile :=
  if bool_decide (asset = USD) then mkShield f.(sh_master_hex) f.(sh_next_ots_index) f.(sh_next_note_tag) c f.(sh_pools)
  else mkShield f.(sh_master_hex) f.(sh_next_ots_index) f.(sh_next_note_tag) f.(sh_scan) (<[hex (h256_bytes asset) := c]> f.(sh_pools)).
Definition keys (f : ShieldFile) : option WalletKeys := wallet_keys <$> hex_decode f.(sh_master_hex).

(** The file as it is read, and what a power loss may leave of it. *)
Record ShieldDisk := mkShieldDisk { sd_visible : option ShieldFile; sd_survivors : list (option ShieldFile) }.
Definition write_shield (f : ShieldFile) (w : WriteOutcome) (d : ShieldDisk) : ShieldDisk * bool :=
  match w with
  | WNotRenamed => (d, false)
  | WNotSynced => (mkShieldDisk (Some f) (d.(sd_survivors) ++ [Some f]), false)
  | WDone => (mkShieldDisk (Some f) [Some f], true)
  end.

(** * The wallet

    [pu_proved] are the witnesses that went to the prover. *)

Inductive Proved := ProvedMint (w : MintWitness) | ProvedSpend (w : SpendWitness).
Record Purse := mkPurse { pu_client : Client; pu_disk : ShieldDisk; pu_proved : list Proved }.
Definition pu_set_client (c : Client) (p : Purse) : Purse := mkPurse c p.(pu_disk) p.(pu_proved).
Definition pu_set_disk (d : ShieldDisk) (p : Purse) : Purse := mkPurse p.(pu_client) d p.(pu_proved).
Definition pu_prove (w : Proved) (p : Purse) : Purse := mkPurse p.(pu_client) p.(pu_disk) (p.(pu_proved) ++ [w]).
#[local] Notation Pu A := (M Purse CliError A).
Definition on_client {A} (m : M Client CliError A) : Pu A := zoom pu_client pu_set_client (λ e, e) m.
Definition fail {A} (e : string) : Pu A := failM (Fail e).
(** [Http::rpc] and the posts to the prover *)
Definition rpc : Pu Value :=
  let* r := on_client (next_answer (λ x, match x with OnReply r => Some r | _ => None end)) in
  match r with inl e => fail e | inr v => retM v end.
Definition fresh32 : Pu H256 := on_client (next_answer (λ x, match x with OnFresh h => Some h | _ => None end)).

(** [chain_info]: identifier, height, and the fee of a transaction sent now *)
Record ChainInfo := mkChainInfo { ci_chain_id : string; ci_height : Z; ci_fee_micro : Amount; ci_fee_from : Z }.
Definition chain_info_of (v : Value) : option ChainInfo :=
  r ← vget "result" v;
  let '(micro, from) := match vget "fee" r with
    | Some f => (default 0 ((vget "micro" f ≫= vstr) ≫= parse_u128), default u64_max (vget "from_height" f ≫= vu64))
    | None => (0, u64_max)
    end in
  Some (mkChainInfo (default "?" (vget "chain_id" r ≫= vstr)) (default 0 (vget "height" r ≫= vu64)) micro from).
Definition fee_now (c : ChainInfo) : Amount :=
  if (0 <? c.(ci_fee_micro)) && (c.(ci_fee_from) <=? wrapping u64_max (c.(ci_height) + 1)) then c.(ci_fee_micro) else 0.
Definition chain_info : Pu ChainInfo := let* v := rpc in ok_or (chain_info_of v) (Fail "rpc: no result").
Definition height : Pu Z := let* c := chain_info in retM c.(ci_height).
Definition balance_of : Pu Amount :=
  let* v := rpc in retM (default 0 ((vpath ["result"; "amount"] v ≫= vstr) ≫= parse_u128)).
Definition nullifier_is_spent : Pu bool :=
  let* r := attempt rpc in
  retM match r with inr v => default false (vpath ["result"; "spent"] v ≫= vbool) | inl _ => false end.
(** [prove]: the prover's health, then the witness *)
Definition prove (w : Proved) : Pu bytes :=
  let* h := rpc in
  match vget "result" h with
  | None => fail "prover is not healthy"
  | Some _ =>
      modifyM (pu_prove w) ;;;
      let* v := rpc in
      match vget "error" v with
      | Some _ => fail "prover error"
      | None =>
          let* r := ok_or (vget "result" v) (Fail "prover: no result") in
          let* p := ok_or (vget "proof" r ≫= vstr) (Fail "prover: no proof in result") in
          ok_or (hex_decode p) (Fail "hex")
      end
  end.

(** [addr_encode] and [addr_decode] *)
Definition addr_encode (a : Address) : string := "hkaddr:" +:+ hex (h256_bytes a.(ad_tag)) +:+ hex a.(ad_kem_pk).
Definition addr_decode (s : string) : option Address :=
  if starts_with "hkaddr:" (trim s)
  then
    b ← hex_decode (trim (String.substring 7 (String.length (trim s) - 7) (trim s)));
    if (length b <=? 32)%nat then None else Some (mkAddress (h256_of (take 32 b)) (drop 32 b))
  else None.

(** * The pool feed *)

Definition parse_hash (s : string) : option H256 := h256_of_hex s.
Definition page_entry (e : Value) : option Entry :=
  idx ← (vget "index" e ≫= vu64);
  cm ← ((vget "commitment" e ≫= vstr) ≫= parse_hash);
  ct ← hex_decode (default "" (vget "stealth_ct" e ≫= vstr));
  Some (idx, cm, ct).
(** The reply to [hk_getPoolNotes]: entries, the next cursor, the pool's size. *)
Definition notes_page (v : Value) : option (list Entry * option Z * option Z) :=
  r ← vget "result" v;
  arr ← (vget "notes" r ≫= varr);
  entries ← mapM page_entry arr;
  Some (entries, vget "next" r ≫= vu64, vget "total" r ≫= vu64).
Definition entry_index (e : Entry) : Z := e.1.1.
(** The loop of [pool_notes_from]; every turn asks for a page. *)
Fixpoint notes_loop (fuel : nat) (from cursor : Z) (all : list Entry) : Pu (list Entry * Z) :=
  match fuel with
  | O => failM Killed
  | S fuel =>
      let* v := rpc in
      let* '(page, next, total) := ok_or (notes_page v) (Fail "hk_getPoolNotes") in
      let all := all ++ filter (λ e, from <= entry_index e) page in
      let done := retM (all, default (foldr Z.max from ((λ e, entry_index e + 1) <$> all)) total) in
      match next with
      | Some n => if cursor <? n then notes_loop fuel from n all else done
      | None => done
      end
  end.
Definition pool_notes_from (from : Z) : Pu (list Entry * Z) :=
  let* p := getM in notes_loop (S (length p.(pu_client).(cl_script))) from from [].
(** The reply to [hk_getPoolLeaves], put behind the leaves read so far. *)
Fixpoint push_leaves (i : Z) (arr : list Value) (leaves : list H256) : option (list H256) :=
  match arr with
  | [] => Some leaves
  | l :: arr =>
      if Z.of_nat (length leaves) <=? i
      then h ← (vstr l ≫= parse_hash); push_leaves (i + 1) arr (leaves ++ [h])
      else push_leaves (i + 1) arr leaves
  end.
Fixpoint leaves_loop (fuel : nat) (cursor : Z) (leaves : list H256) : Pu (list H256) :=
  match fuel with
  | O => failM Killed
  | S fuel =>
      let* v := rpc in
      let* r := ok_or (vget "result" v) (Fail "hk_getPoolLeaves") in
      let* arr := ok_or (vget "leaves" r ≫= varr) (Fail "hk_getPoolLeaves") in
      let* leaves := ok_or (push_leaves (default 0 (vget "from" r ≫= vu64)) arr leaves) (Fail "bad leaf") in
      match vget "next" r ≫= vu64 with
      | Some n => if cursor <? n then leaves_loop fuel n leaves else retM leaves
      | None => retM leaves
      end
  end.
Definition pool_leaves_all : Pu (list H256) :=
  let* p := getM in leaves_loop (S (length p.(pu_client).(cl_script))) 0 [].
Fixpoint contains (p s : string) : bool :=
  starts_with p s || match s with String _ s => contains p s | EmptyString => false end.

Section flows.
Context {SHAKE : Shake} {SHA2 : Sha2} {KEM : MlKem} {CODECS : Codecs} {TEXT : JsonText}.

(** [pool_path]: siblings and root, from the node or from all leaves *)
Definition pool_path (index : Z) : Pu (list H256 * H256) :=
  let* r := attempt rpc in
  let from_leaves :=
    let* leaves := pool_leaves_all in
    if Z.of_nat (length leaves) <=? index then fail "leaf is not in the pool"
    else expect (full_tree_path leaves index) in
  match r with
  | inl _ => from_leaves
  | inr v =>
      match vget "result" v with
      | Some r =>
          let* sib := ok_or (vget "siblings" r ≫= varr) (Fail "hk_getPoolPath: no siblings") in
          let* siblings := ok_or (mapM (λ s, parse_hash (default "" (vstr s))) sib) (Fail "sibling") in
          let* root := ok_or ((vget "root" r ≫= vstr) ≫= parse_hash) (Fail "root") in
          retM (siblings, root)
      | None =>
          match vget "error" v ≫= vstr with
          | Some e => if contains "out of range" e then fail e else from_leaves
          | None => from_leaves
          end
      end
  end.

(** * Counters *)

Definition load_shield : Pu (option ShieldFile) := let* p := getM in retM p.(pu_disk).(sd_visible).
Definition save_shield (f : ShieldFile) : Pu unit :=
  let* w := on_client (next_answer (λ x, match x with OnSave w => Some w | _ => None end)) in
  let* p := getM in
  let '(d, ok) := write_shield f w p.(pu_disk) in
  modifyM (pu_set_disk d) ;;;
  if ok then retM tt else fail "shield.json".
Definition load_or_create_shield : Pu ShieldFile :=
  let* o := load_shield in
  match o with
  | Some f => retM f
  | None =>
      let* master := fresh32 in
      let f := mkShield (hex (h256_bytes master)) 0 1 cache_default ∅ in
      save_shield f ;;; retM f
  end.
Definition reserve_ots (f : ShieldFile) : Pu (ShieldFile * Z) :=
  let i := f.(sh_next_ots_index) in
  if OTS_CAPACITY <=? i then fail "spend-tree exhausted"
  else let f := sh_set_ots (i + 1) f in save_shield f ;;; retM (f, i).
Definition reserve_tag (f : ShieldFile) : Pu (ShieldFile * Z) :=
  let t := f.(sh_next_note_tag) in
  let f := sh_set_tag (wrapping u64_max (t + 1)) f in save_shield f ;;; retM (f, t).

(** * The notes of a wallet *)

(** A discovered note is kept if none of its leaf is. *)
Definition keep_note (notes : list StoredNote) (d : Discovered) : list StoredNote :=
  if existsb (λ n, n.(sn_leaf_index) =? d.(dc_leaf_index)) notes then notes else notes ++ [stored_note d].
Definition keep_epoch (k : WalletKeys) (entries : list Entry) (acc : option (list StoredNote)) (epoch : Z) : option (list StoredNote) :=
  notes ← acc; found ← scan_at k epoch entries; Some (foldl keep_note notes found).
(** The last loop of [my_notes]: the notes with whether they are spent. *)
Fixpoint mark_spent (owner : H256) (notes : list StoredNote) : Pu (list (StoredNote * Discovered)) :=
  match notes with
  | [] => retM []
  | n :: notes =>
      let* d := ok_or (to_discovered owner n) (Fail "shield.json") in
      let* spent := (if n.(sn_spent) then retM true else nullifier_is_spent) in
      let n := if spent then sn_set_spent n else n in
      let* rest := mark_spent owner notes in
      retM ((n, d) :: rest)
  end.
(** [my_notes]; the file is saved when any of it changed *)
Definition my_notes (k : WalletKeys) (asset : AssetId) (f : ShieldFile) : Pu (ShieldFile * list (Discovered * bool)) :=
  let* ci := attempt chain_info in
  let chain_id := match ci with inr c => c.(ci_chain_id) | inl _ => "" end in
  let c0 := cache_of asset f in
  let c := if bool_decide (c0.(ca_chain_id) = chain_id) then c0 else mkCache chain_id 0 [] in
  let* '(entries, total) := pool_notes_from c.(ca_scanned_through) in
  let* '(c, entries, total) :=
    (if total <? c.(ca_scanned_through)
     then let* '(entries, total) := pool_notes_from 0 in retM (mkCache c.(ca_chain_id) 0 [], entries, total)
     else retM (c, entries, total)) in
  let* notes :=
    match entries with
    | [] => retM c.(ca_notes)
    | _ =>
        let* h := height in
        expect (foldl (keep_epoch k entries) (Some c.(ca_notes)) (seqZ 0 (epoch_of h + 1)))
    end in
  let* owner := expect (owner_tag k) in
  let* marked := mark_spent owner notes in
  let c := mkCache c.(ca_chain_id) (Z.max total c.(ca_scanned_through)) marked.*1 in
  let f' := put_cache asset c f in
  (if bool_decide (cache_of asset f = c) then retM tt else save_shield f') ;;;
  retM (f', (λ nd, (nd.2, nd.1.(sn_spent))) <$> marked).
(** [pick_note]: the smallest unspent note that covers the amount *)
Definition pick_note (notes : list (Discovered * bool)) (amt : Amount) : option Discovered :=
  let c := fst <$> filter (λ ds, ds.2 = false ∧ amt <= ds.1.(dc_note).(note_value)) notes in
  head (sort_by (λ a b, a.(dc_note).(note_value) <=? b.(dc_note).(note_value)) c).

(** * The flows *)

(** [parse_h256] of the wallets, which also takes prefixes [0x] off *)
Fixpoint strip_0xs (s : string) : string :=
  if starts_with "0x" s then match s with String _ (String _ r) => strip_0xs r | _ => s end else s.
Definition parse_h256 (s : string) : option H256 := h256_of_hex (strip_0xs (trim s)).
(** [signer] *)
Definition signer : Pu (bytes * AccountId) :=
  let* p := getM in
  let* f := ok_or p.(pu_client).(cl_account) (Fail "no wallet yet") in
  let* seed := ok_or (hex_decode f.(af_seed)) (Fail "seed") in
  let* id := ok_or (parse_h256 f.(af_id)) (Fail "id") in
  retM (seed, id).
Definition keys_of (f : ShieldFile) : Pu WalletKeys := ok_or (keys f) (Fail "master_hex").
Definition require_fee : Pu unit :=
  let* ci := chain_info in
  let* bal := balance_of in
  refuse_if (bal <? fee_now ci) (Fail "The network fee is paid from your transparent native balance").
(** A note sealed for our own address of the chain's epoch. *)
Definition seal_own (k : WalletKeys) (n : Note) (memo : string) : Pu bytes :=
  let* h := height in
  let* to := expect (address_at k (epoch_of h)) in
  let* coin := fresh32 in
  let* '(ct, _) := ok_or (seal_note n to coin (str_bytes memo)) (Fail "seal failed") in
  retM ct.
Definition dummy_note : Pu Note := let* rho := fresh32 in let* rcm := fresh32 in retM (mkNote 0 zero_h256 rho rcm).
Definition planned (r : res string SpendPlan) : Pu SpendPlan :=
  match r with Ok p => retM p | Err e => fail ("build_spend: " +:+ e) | Panic => panicM end.
Definition send (seed : bytes) (id : AccountId) (payload : Tx) : Pu string := on_client (send_payload seed id payload).

Definition do_scan (asset : AssetId) : Pu (list (Discovered * bool)) :=
  let* f := load_or_create_shield in
  let* k := keys_of f in
  let* _ := height in
  let* '(_, notes) := my_notes k asset f in
  retM notes.
Definition do_shield (amount : Amount) (asset : AssetId) : Pu string :=
  let* '(seed, id) := signer in
  let* f := load_or_create_shield in
  let* k := keys_of f in
  (if bool_decide (asset = USD) then
     let* ci := chain_info in
     let* bal := balance_of in
     refuse_if (bal <? sat_add u128_max amount (fee_now ci)) (Fail "Not enough transparent balance")
   else
     chain_info ;;; require_fee ;;;
     let* bal := balance_of in
     refuse_if (bal <? amount) (Fail "Not enough")) ;;;
  refuse_if (u64_max <? amount) (Fail "amount too large for a single note") ;;;
  let* '(f, tag) := reserve_tag f in
  let* note := expect (self_note k amount tag) in
  let '(witness, public) := build_mint note in
  let* ct := seal_own k note "shield" in
  let* proof := prove (ProvedMint witness) in
  send seed id (Tx.MintToPool asset amount public.(mp_commitment) proof ct).
(** [do_unshield]: change first, an empty second output *)
Definition do_unshield (amount : Amount) (asset : AssetId) : Pu string :=
  let* '(seed, id) := signer in
  let* f := load_or_create_shield in
  let* k := keys_of f in
  require_fee ;;;
  let* '(f, notes) := my_notes k asset f in
  let* input := ok_or (pick_note notes amount) (Fail "no single shielded note covers the amount") in
  let change_v := input.(dc_note).(note_value) - amount in
  let* '(siblings, root) := pool_path input.(dc_leaf_index) in
  let* '(f, tag) := reserve_tag f in
  let* '(f, ots) := reserve_ots f in
  let* change := expect (self_note k change_v tag) in
  let* change_ct := seal_own k change "change" in
  let* dummy := dummy_note in
  let* plan := planned (build_spend_with_path siblings root input.(dc_leaf_index) input.(dc_note) k ots change dummy amount id) in
  let* proof := prove (ProvedSpend plan.(pl_witness)) in
  let p := plan.(pl_public) in
  send seed id (Tx.ShieldedSpend p.(sp_merkle_root) p.(sp_nullifier) p.(sp_out_commitment) p.(sp_out2_commitment)
    amount (Some id) None proof change_ct []).
Definition do_pay (to : string) (amount : Amount) (memo : string) (asset : AssetId) : Pu string :=
  let* '(seed, id) := signer in
  let* to := ok_or (addr_decode to) (Fail "bad address") in
  let* f := load_or_create_shield in
  let* k := keys_of f in
  require_fee ;;;
  let* '(f, notes) := my_notes k asset f in
  let* input := ok_or (pick_note notes amount) (Fail "no single shielded note covers the amount") in
  let change_v := input.(dc_note).(note_value) - amount in
  let* coin := fresh32 in
  let* entropy := fresh32 in
  let* out := ok_or (build_output to amount coin entropy (str_bytes memo)) (Fail "could not build the output") in
  let* '(siblings, root) := pool_path input.(dc_leaf_index) in
  let* '(f, tag) := reserve_tag f in
  let* '(f, ots) := reserve_ots f in
  let* change := expect (self_note k change_v tag) in
  let* change_ct := seal_own k change "change" in
  let* plan := planned (build_spend_with_path siblings root input.(dc_leaf_index) input.(dc_note) k ots out.(so_note) change 0 zero_h256) in
  let* proof := prove (ProvedSpend plan.(pl_witness)) in
  let p := plan.(pl_public) in
  send seed id (Tx.ShieldedSpend p.(sp_merkle_root) p.(sp_nullifier) p.(sp_out_commitment) p.(sp_out2_commitment)
    0 None None proof out.(so_stealth_ct) change_ct).
End flows.

(** * No one-time key and no note secret is used twice *)

(** A wallet over its life: calls, each with whatever account file and answers it meets
    and cut off where these end; and power losses, after which one of the
    surviving files is read. *)
Inductive Call := CScan (asset : AssetId) | CShield (amount : Amount) (asset : AssetId)
  | CUnshield (amount : Amount) (asset : AssetId) | CPay (to : string) (amount : Amount) (memo : string) (asset : AssetId).
Section life.
Context {SHAKE : Shake} {SHA2 : Sha2} {KEM : MlKem} {CODECS : Codecs} {TEXT : JsonText}.
Definition run_call (c : Call) : Pu unit :=
  match c with
  | CScan a => do_scan a ;;; retM tt
  | CShield x a => do_shield x a ;;; retM tt
  | CUnshield x a => do_unshield x a ;;; retM tt
  | CPay to x memo a => do_pay to x memo a ;;; retM tt
  end.
Inductive purse_life : Z → Purse → Prop :=
  | life_new c : purse_life 0 (mkPurse c (mkShieldDisk None [None]) [])
  | life_call n p c account script :
      purse_life n p → purse_life (n + 1) (run_call c (pu_set_client (mkClient account script p.(pu_client).(cl_sent)) p)).1
  | life_loss n p o : purse_life n p → o ∈ p.(pu_disk).(sd_survivors) → purse_life n (pu_set_disk (mkShieldDisk o [o]) p).
End life.
Definition spent_leaf (x : Proved) : list Z :=
  match x with ProvedSpend w => [path_index w.(sw_ots_path)] | ProvedMint _ => [] end.
(** The note a witness makes for the wallet itself has the secrets of the tag. *)
Definition own_note `{Shake, Sha2} (k : WalletKeys) (x : Proved) (tag : Z) : Prop :=
  ∃ v n, self_note k v tag = Some n ∧
  match x with ProvedMint w => w.(mw_note) = n
  | ProvedSpend w => w.(sw_nk) = nk k ∧ (w.(sw_out_note) = n ∨ w.(sw_out2_note) = n) end.

Section proofs.
Context {SHAKE : Shake} {SHA2 : Sha2} {KEM : MlKem} {CODECS : Codecs} {TEXT : JsonText}.
Implicit Types (p : Purse) (k : WalletKeys) (f : ShieldFile) (tags : list Z) (n : Z).

Definition still : relation Purse := λ p p', p'.(pu_disk) = p.(pu_disk) ∧ p'.(pu_proved) = p.(pu_proved).
#[local] Instance still_preorder : PreOrder still.
Proof. split; [by split|]. intros x y z [] []. split; congruence. Qed.
Lemma still_client {A} (m : M Client CliError A) : respects still (on_client m).
Proof. intros p. unfold on_client, zoom. destruct (m (pu_client p)) as [c [x|e|]]; by destruct p. Qed.
Lemma still_attempt {A} (m : Pu A) : respects still m → respects still (attempt m).
Proof. intros H p. specialize (H p). unfold attempt. by destruct (m p) as [? [|[]|]]. Qed.
Ltac still :=
  repeat first
    [ solve [auto with hkstill]
    | apply respects_bind; [apply _| |intros ?]
    | apply still_client
    | apply still_attempt
    | apply respects_quiet; [apply _|solve [auto with hkframe]]
    | match goal with |- context [match ?x with _ => _ end] => destruct x end ].
Create HintDb hkstill.
Lemma quiet_fail_text {A} e : quiet (fail e : Pu A).
Proof. apply quiet_fail. Qed.
#[local] Hint Resolve quiet_fail_text : hkframe.
Lemma still_rpc : respects still rpc.
Proof. unfold rpc, fail. still. Qed.
#[local] Hint Resolve still_rpc : hkstill.
Lemma still_fresh : respects still fresh32.
Proof. apply still_client. Qed.
Lemma still_chain_info : respects still chain_info.
Proof. unfold chain_info. still. Qed.
#[local] Hint Resolve still_fresh still_chain_info : hkstill.
Lemma still_height : respects still height.
Proof. unfold height. still. Qed.
Lemma still_balance : respects still balance_of.
Proof. unfold balance_of. still. Qed.
Lemma still_spent : respects still nullifier_is_spent.
Proof. unfold nullifier_is_spent. still. Qed.
#[local] Hint Resolve still_height still_balance still_spent : hkstill.
Lemma still_notes_loop fuel from cursor all : respects still (notes_loop fuel from cursor all).
Proof. revert cursor all. induction fuel as [|fuel IH]; intros cursor all; cbn [notes_loop]; still; apply IH. Qed.
Lemma still_leaves_loop fuel cursor l : respects still (leaves_loop fuel cursor l).
Proof. revert cursor l. induction fuel as [|fuel IH]; intros cursor l; cbn [leaves_loop]; still; apply IH. Qed.
#[local] Hint Resolve still_notes_loop still_leaves_loop : hkstill.
Lemma still_pool_notes from : respects still (pool_notes_from from).
Proof. unfold pool_notes_from. still. Qed.
Lemma still_pool_path i : respects still (pool_path i).
Proof. unfold pool_path, pool_leaves_all, fail. still. Qed.
Lemma still_mark_spent owner l : respects still (mark_spent owner l).
Proof. induction l as [|x l IH]; cbn [mark_spent]; still; apply IH. Qed.
Lemma still_require_fee : respects still require_fee.
Proof. unfold require_fee. still. Qed.
Lemma still_seal_own k x memo : respects still (seal_own k x memo).
Proof. unfold seal_own. still. Qed.
Lemma still_dummy : respects still dummy_note.
Proof. unfold dummy_note. still. Qed.
Lemma still_signer : respects still signer.
Proof. unfold signer. still. Qed.
Lemma still_send seed id x : respects still (send seed id x).
Proof. apply still_client. Qed.
#[local] Hint Resolve still_pool_notes still_pool_path still_mark_spent still_require_fee still_seal_own still_dummy
  still_signer still_send : hkstill.

(** ** What the files of a wallet hold *)

Definition leaves_of (l : list Proved) : list Z := concat (spent_leaf <$> l).
Definition covers k (proved : list Proved) tags n (o : option ShieldFile) : Prop :=
  match o with
  | None => proved = []
  | Some f => (proved ≠ [] → keys f = Some k) ∧ (∀ i, i ∈ leaves_of proved → i < f.(sh_next_ots_index)) ∧
      (∀ t, t ∈ tags → t < f.(sh_next_note_tag)) ∧ 0 ≤ f.(sh_next_note_tag) ≤ n + 1
  end.
Record book n k tags p : Prop := {
  bo_leaves : NoDup (leaves_of p.(pu_proved));
  bo_tags : NoDup tags;
  bo_own : Forall2 (own_note k) p.(pu_proved) tags;
  bo_visible : covers k p.(pu_proved) tags n p.(pu_disk).(sd_visible);
  bo_survivors : Forall (covers k p.(pu_proved) tags n) p.(pu_disk).(sd_survivors);
}.
Definition kept n p : Prop := ∃ k tags, book n k tags p.
(** [f] is in memory, and on disk but for its caches. *)
Definition counters f : string * Z * Z := (f.(sh_master_hex), f.(sh_next_ots_index), f.(sh_next_note_tag)).
Definition loaded k n f p : Prop :=
  ∃ tags, book n k tags p ∧ keys f = Some k ∧ ∃ f0, p.(pu_disk).(sd_visible) = Some f0 ∧ counters f0 = counters f.
(** The tag, and the leaf if one is, are reserved in every file there may be. *)
Definition reserved k n f (t : Z) (leaf : option Z) p : Prop :=
  ∃ tags, book n k tags p ∧ keys f = Some k ∧ p.(pu_disk) = mkShieldDisk (Some f) [Some f] ∧
    t ∉ tags ∧ t < f.(sh_next_note_tag) ∧
    ∀ i, leaf = Some i → i ∉ leaves_of p.(pu_proved) ∧ i < f.(sh_next_ots_index).

Definition stable (Q : Purse → Prop) : Prop := ∀ p p', still p p' → Q p → Q p'.
Lemma stable_kept n : stable (kept n).
Proof. intros p p' [E1 E2] (k & tags & []). exists k, tags. constructor; by rewrite ?E1, ?E2. Qed.
Lemma stable_loaded k n f : stable (loaded k n f).
Proof. intros p p' [E1 E2] (tags & [] & ?). exists tags. split; [constructor|]; by rewrite ?E1, ?E2. Qed.
Lemma stable_reserved k n f t leaf : stable (reserved k n f t leaf).
Proof. intros p p' [E1 E2] (tags & [] & ?). exists tags. split; [constructor|]; by rewrite ?E1, ?E2. Qed.
Lemma run_still {A B} (Q R : Purse → Prop) (m : Pu A) (h : A → Pu B) Q' :
  respects still m → stable Q → (∀ p, Q p → R p) → (∀ x, run_to Q (h x) Q' R) → run_to Q (bindM m h) Q' R.
Proof.
  intros Hm HQ HR Hh. apply (run_to_bind _ _ _ _ (λ _, Q)); [|exact Hh].
  eapply run_to_conseq; [exact (respects_run_to _ _ _ Hm HQ)|done|done|exact HR].
Qed.
Lemma covers_mono k pr tags n m o : n ≤ m → covers k pr tags n o → covers k pr tags m o.
Proof. intros Hn. destruct o as [f|]; [|done]. intros (? & ? & ? & ?). split_and!; [done..|lia|lia]. Qed.
Lemma book_mono n m k tags p : n ≤ m → book n k tags p → book m k tags p.
Proof.
  intros Hn []. constructor; [done..|by eapply covers_mono|]. eapply Forall_impl; [done|]. intros o. by apply covers_mono.
Qed.
Lemma kept_mono n m p : n ≤ m → kept n p → kept m p.
Proof. intros Hn (k & tags & H). exists k, tags. by eapply book_mono. Qed.
Lemma loaded_kept k n f p : loaded k n f p → kept n p.
Proof. intros (tags & ? & _). by exists k, tags. Qed.
Lemma reserved_kept k n f t leaf p : reserved k n f t leaf p → kept n p.
Proof. intros (tags & ? & _). by exists k, tags. Qed.

Lemma save_shield_run n k tags f pr :
  run_to (λ p, book n k tags p ∧ p.(pu_proved) = pr ∧ covers k pr tags n (Some f)) (save_shield f)
    (λ _ p, book n k tags p ∧ p.(pu_proved) = pr ∧ p.(pu_disk) = mkShieldDisk (Some f) [Some f]) (book n k tags).
Proof.
  unfold save_shield. apply (run_to_bind _ _ _ _ (λ _ p, book n k tags p ∧ p.(pu_proved) = pr ∧ covers k pr tags n (Some f))).
  { eapply run_to_conseq; [apply (respects_run_to still (λ p, book n k tags p ∧ p.(pu_proved) = pr ∧ covers k pr tags n (Some f)))|..];
      [apply still_client| |done|done|by intros p []].
    intros p p' [E1 E2] ([] & ? & ?). split; [constructor; by rewrite ?E1, ?E2|]. by rewrite E2. }
  intros w p ([Hl Ht Ho Hv Hs] & Hp & Hc). destruct w; cbn.
  - by constructor.
  - constructor; cbn; [done..|by rewrite Hp|]. apply Forall_app. split; [done|]. rewrite Hp. by constructor.
  - split; [|done]. constructor; cbn; [done..|by rewrite Hp|]. rewrite Hp. by constructor.
Qed.
Lemma load_or_create_run n :
  0 ≤ n → run_to (kept n) load_or_create_shield (λ f p, kept n p ∧ p.(pu_disk).(sd_visible) = Some f) (kept n).
Proof.
  intros Hn. unfold load_or_create_shield, load_shield. intros p Hk. cbn.
  destruct (sd_visible (pu_disk p)) as [f|] eqn:Ev; [done|]. revert p Hk Ev.
  assert (H : run_to (λ p, kept n p ∧ sd_visible (pu_disk p) = None)
    (let* master := fresh32 in save_shield (mkShield (hex (h256_bytes master)) 0 1 cache_default ∅) ;;;
       retM (mkShield (hex (h256_bytes master)) 0 1 cache_default ∅))
    (λ f p, kept n p ∧ sd_visible (pu_disk p) = Some f) (kept n)).
  { apply run_still; [apply still_fresh| |by intros p []|].
    { intros p p' Hst [Hk Hv]. split; [by eapply stable_kept|]. by destruct Hst as [-> _]. }
    intros master p [(k & tags & Hb) Hv]. pose proof (bo_visible _ _ _ _ Hb) as Hnil. rewrite Hv in Hnil. cbn in Hnil.
    pose proof (bo_own _ _ _ _ Hb) as Ho. rewrite Hnil in Ho. apply Forall2_nil_inv_l in Ho as ->.
    set (f := mkShield _ _ _ _ _). assert (Hc : covers k [] [] n (Some f)).
    { cbn. split_and!; [done|by intros ? ?%not_elem_of_nil..|done|lia]. }
    pose proof (save_shield_run n k [] f [] p (conj Hb (conj Hnil Hc))) as Hrun. unfold bindM.
    destruct (save_shield f p) as [p1 [[]|e|]]; cbn in Hrun |- *; [|by exists k, []..].
    destruct Hrun as (Hb1 & _ & ->). split; [by exists k, []|done]. }
  intros p Hk Ev. exact (H p (conj Hk Ev)).
Qed.
Lemma keys_of_run n f : run_to (λ p, kept n p ∧ p.(pu_disk).(sd_visible) = Some f) (keys_of f) (λ k, loaded k n f) (kept n).
Proof.
  intros p [(k & tags & Hb) Hv]. unfold keys_of. destruct (keys f) as [k'|] eqn:Ek; cbn; [|by exists k, tags].
  exists tags. split; [|split; [done|by exists f]]. destruct (decide (pu_proved p = [])) as [Hnil|Hne].
  - destruct Hb as [Hl Ht Ho Hvis Hs]. rewrite Hnil in Ho. pose proof (Forall2_nil_inv_l _ _ Ho) as ->.
    assert (Hc : ∀ o, covers k (pu_proved p) [] n o → covers k' (pu_proved p) [] n o).
    { intros [g|]; [|done]. intros (_ & Hg). split; [by intros []|exact Hg]. }
    constructor; [done|done|rewrite Hnil; constructor|by apply Hc|]. eapply Forall_impl; [exact Hs|done].
  - pose proof (bo_visible _ _ _ _ Hb) as H. rewrite Hv in H. destruct H as [H _]. specialize (H Hne). by simplify_eq.
Qed.
Lemma put_cache_counters asset c f : counters (put_cache asset c f) = counters f.
Proof. unfold put_cache. by case_bool_decide. Qed.
Lemma counters_keys f g : counters f = counters g → keys f = keys g.
Proof. unfold counters, keys. by intros [= -> _ _]. Qed.
Lemma counters_covers k pr tags n f g : counters f = counters g → covers k pr tags n (Some f) → covers k pr tags n (Some g).
Proof. intros E (H1 & H2). rewrite (counters_keys _ _ E) in H1. injection E as _ E1 E2. rewrite E1, E2 in H2. by split. Qed.
Lemma loaded_same k n f g p : counters f = counters g → loaded k n f p → loaded k n g p.
Proof.
  intros E (tags & Hb & Hk & f0 & Hv & E0). exists tags. split; [done|]. rewrite <-(counters_keys _ _ E).
  split; [done|]. exists f0. by rewrite E0.
Qed.
Lemma save_loaded k n f : run_to (loaded k n f) (save_shield f) (λ _, loaded k n f) (kept n).
Proof.
  intros p (tags & Hb & Hk & f0 & Hv & E0). pose proof (bo_visible _ _ _ _ Hb) as Hc. rewrite Hv in Hc.
  pose proof (save_shield_run n k tags f _ p (conj Hb (conj eq_refl (counters_covers _ _ _ _ _ _ E0 Hc)))) as Hrun.
  destruct (save_shield f p) as [p1 [[]|e|]]; cbn in Hrun; [|by exists k, tags..].
  destruct Hrun as (Hb1 & _ & Hd). exists tags. split; [done|]. split; [done|]. exists f. by rewrite Hd.
Qed.
Lemma my_notes_run k n asset f :
  run_to (loaded k n f) (my_notes k asset f) (λ x, loaded k n x.1) (kept n).
Proof.
  unfold my_notes.
  assert (Hst : stable (loaded k n f)) by apply stable_loaded. assert (HR : ∀ p, loaded k n f p → kept n p) by apply loaded_kept.
  apply run_still; [still|done|done|]. intros ci. apply run_still; [still|done|done|]. intros [entries total].
  apply run_still; [still|done|done|]. intros [[c es] tot]. apply run_still; [still|done|done|]. intros notes.
  apply run_still; [still|done|done|]. intros owner. apply run_still; [still|done|done|]. intros marked.
  set (c' := mkCache _ _ _). assert (E : counters f = counters (put_cache asset c' f)) by by rewrite put_cache_counters.
  apply (run_to_bind _ _ _ _ (λ _, loaded k n (put_cache asset c' f))).
  - apply (run_to_pre _ (loaded k n (put_cache asset c' f))); [|intros p; by apply loaded_same].
    case_bool_decide; [by apply run_to_ret|apply save_loaded].
  - intros _. by apply run_to_ret.
Qed.
Lemma loaded_entry k n f p : loaded k n f p → ∃ tags, book n k tags p ∧ keys f = Some k ∧ covers k p.(pu_proved) tags n (Some f).
Proof.
  intros (tags & Hb & Hk & f0 & Hv & E0). exists tags. split_and!; [done..|].
  pose proof (bo_visible _ _ _ _ Hb) as Hc. rewrite Hv in Hc. by eapply counters_covers.
Qed.
Lemma reserve_tag_run k n f :
  n + 1 < u64_max → run_to (loaded k n f) (reserve_tag f) (λ x, reserved k (n + 1) x.1 x.2 None) (kept (n + 1)).
Proof.
  intros Hn p (tags & Hb & Hk & Hc)%loaded_entry. unfold reserve_tag. set (t := sh_next_note_tag f).
  destruct Hc as (Hm & Hl & Ht & Hb1). assert (wrapping u64_max (t + 1) = t + 1) as ->.
  { unfold wrapping, t. rewrite Z.mod_small by lia. done. }
  assert (Hc' : covers k (pu_proved p) tags (n + 1) (Some (sh_set_tag (t + 1) f))).
  { cbn. split_and!; [done|done| |unfold t; lia|unfold t; lia]. intros t' Ht'. specialize (Ht t' Ht'). unfold t. lia. }
  assert (Hb' : book (n + 1) k tags p) by (apply (book_mono n); [lia|done]).
  pose proof (save_shield_run (n + 1) k tags _ _ p (conj Hb' (conj eq_refl Hc'))) as Hrun. unfold bindM.
  destruct (save_shield _ p) as [p1 [[]|e|]]; cbn in Hrun |- *; [|by exists k, tags..].
  destruct Hrun as (Hb2 & _ & Hd). exists tags. split_and!; [done|done|done| |cbn; lia|done].
  intros Hin. specialize (Ht t Hin). unfold t in Ht. lia.
Qed.
Lemma reserve_ots_run k n f t :
  run_to (reserved k n f t None) (reserve_ots f) (λ x, reserved k n x.1 t (Some x.2)) (kept n).
Proof.
  intros p (tags & Hb & Hk & Hd & Ht & Htf & _). unfold reserve_ots. destruct (OTS_CAPACITY <=? sh_next_ots_index f); [by exists k, tags|].
  set (i := sh_next_ots_index f). pose proof (bo_visible _ _ _ _ Hb) as Hc. rewrite Hd in Hc. destruct Hc as (Hm & Hl & Htg & Hbd).
  assert (Hc' : covers k (pu_proved p) tags n (Some (sh_set_ots (i + 1) f))).
  { cbn. split_and!; [done| |done|lia|lia]. intros j Hj. specialize (Hl j Hj). unfold i. lia. }
  pose proof (save_shield_run n k tags _ _ p (conj Hb (conj eq_refl Hc'))) as Hrun. unfold bindM.
  destruct (save_shield _ p) as [p1 [[]|e|]]; cbn in Hrun |- *; [|by exists k, tags..].
  destruct Hrun as (Hb2 & Hp & Hd2). exists tags. split_and!; [done|done|done|done|done|].
  intros j [= <-]. rewrite Hp. split; [|cbn; lia]. intros Hin. specialize (Hl i Hin). unfold i in Hl. lia.
Qed.
Lemma leaves_of_snoc l x : leaves_of (l ++ [x]) = leaves_of l ++ spent_leaf x.
Proof. unfold leaves_of. rewrite fmap_app, concat_app. cbn [fmap list_fmap concat]. by rewrite app_nil_r. Qed.
(** The witness that goes to the prover uses up what was reserved. *)
Lemma prove_run k n f t leaf w :
  own_note k w t → spent_leaf w = match leaf with Some i => [i] | None => [] end →
  run_to (reserved k n f t leaf) (prove w) (λ _, kept n) (kept n).
Proof.
  intros Hw Hl. unfold prove. apply run_still; [still|apply stable_reserved|apply reserved_kept|]. intros h.
  destruct (vget "result" h); [|intros p Hp; by eapply reserved_kept].
  apply (run_to_bind _ _ _ _ (λ _, kept n)).
  - intros p (tags & [Hbl Hbt Hbo Hbv Hbs] & Hk & Hd & Ht & Htf & Hi). cbn. exists k, (tags ++ [t]).
    assert (Hc : covers k (pu_proved p ++ [w]) (tags ++ [t]) n (Some f)).
    { rewrite Hd in Hbv. destruct Hbv as (_ & H1 & H2 & H3). cbn. split_and!; [done| | |lia|lia].
      - intros i. rewrite leaves_of_snoc, Hl, elem_of_app. intros [H|H]; [by apply H1|]. destruct leaf as [j|]; [|by apply not_elem_of_nil in H].
        apply list_elem_of_singleton in H as ->. by apply Hi.
      - intros t' [H| ->%list_elem_of_singleton]%elem_of_app; [by apply H2|done]. }
    constructor; cbn [pu_prove pu_disk pu_proved].
    + rewrite leaves_of_snoc, Hl. apply NoDup_app. split; [done|]. destruct leaf as [i|]; [|split; [by intros ? _ ?%not_elem_of_nil|constructor]].
      split; [|apply NoDup_singleton]. intros j Hj ->%list_elem_of_singleton. by destruct (Hi i eq_refl).
    + apply NoDup_app. split; [done|]. split; [|apply NoDup_singleton]. by intros j Hj ->%list_elem_of_singleton.
    + apply Forall2_app; [done|]. by repeat constructor.
    + by rewrite Hd.
    + rewrite Hd. cbn. by constructor.
  - intros _. apply run_still; [still|apply stable_kept|done|]. intros reply.
    eapply run_to_conseq; [apply (respects_run_to still (kept n))|done|done|done]; [still|apply stable_kept].
Qed.

(** ** The calls *)

Lemma run_to_expect {A B} (Q R : Purse → Prop) (o : option A) (h : A → Pu B) Q' :
  (∀ p, Q p → R p) → (∀ x, o = Some x → run_to Q (h x) Q' R) → run_to Q (bindM (expect o) h) Q' R.
Proof. intros HR Hh p Hp. destruct o as [x|]; [by apply (Hh x eq_refl)|by apply HR]. Qed.
Lemma run_to_planned {B} (Q R : Purse → Prop) r (h : SpendPlan → Pu B) Q' :
  (∀ p, Q p → R p) → (∀ x, r = Ok x → run_to Q (h x) Q' R) → run_to Q (bindM (planned r) h) Q' R.
Proof. intros HR Hh p Hp. destruct r as [x|e|]; [by apply (Hh x eq_refl)|by apply HR..]. Qed.
Lemma plan_witness siblings root i x k ots o1 o2 fee credit plan :
  build_spend_with_path siblings root i x k ots o1 o2 fee credit = Ok plan →
  let w := plan.(pl_witness) in
  w.(sw_nk) = nk k ∧ w.(sw_out_note) = o1 ∧ w.(sw_out2_note) = o2 ∧ path_index w.(sw_ots_path) = ots.
Proof.
  unfold build_spend_with_path, authorize, spend_auth. destruct (negb _); [done|]. destruct (negb _); [done|].
  destruct (auth_siblings _ _ _) as [sib|]; [|done]. cbn [mbind option_bind]. destruct (run _); [|done..]. by intros [= <-].
Qed.
(** The head of every call that moves money: the file, the keys. *)
Lemma run_load {B} n (h : ShieldFile → Pu B) Q' R :
  0 ≤ n → (∀ p, kept n p → R p) → (∀ f, run_to (λ p, kept n p ∧ p.(pu_disk).(sd_visible) = Some f) (h f) Q' R) →
  run_to (kept n) (bindM load_or_create_shield h) Q' R.
Proof.
  intros Hn HR Hh. eapply run_to_bind; [|exact Hh]. eapply run_to_conseq; [by apply (load_or_create_run n)|done|done|done].
Qed.
Lemma run_keys {B} n f (h : WalletKeys → Pu B) Q' R :
  (∀ p, kept n p → R p) → (∀ k, run_to (loaded k n f) (h k) Q' R) →
  run_to (λ p, kept n p ∧ p.(pu_disk).(sd_visible) = Some f) (bindM (keys_of f) h) Q' R.
Proof. intros HR Hh. eapply run_to_bind; [|exact Hh]. eapply run_to_conseq; [apply (keys_of_run n)|done|done|done]. Qed.
Lemma run_notes {B} k n asset f (h : ShieldFile * list (Discovered * bool) → Pu B) Q' R :
  (∀ p, kept n p → R p) → (∀ f' l, run_to (loaded k n f') (h (f', l)) Q' R) →
  run_to (loaded k n f) (bindM (my_notes k asset f) h) Q' R.
Proof.
  intros HR Hh. apply (run_to_bind _ _ _ _ (λ x, loaded k n x.1)); [|intros [f' l]; apply Hh].
  eapply run_to_conseq; [apply (my_notes_run k n)|done|done|done].
Qed.
Lemma run_tag {B} k n f (h : ShieldFile * Z → Pu B) Q' R :
  n + 1 < u64_max → (∀ p, kept (n + 1) p → R p) → (∀ f' t, run_to (reserved k (n + 1) f' t None) (h (f', t)) Q' R) →
  run_to (loaded k n f) (bindM (reserve_tag f) h) Q' R.
Proof.
  intros Hn HR Hh. apply (run_to_bind _ _ _ _ (λ x, reserved k (n + 1) x.1 x.2 None)); [|intros [f' t]; apply Hh].
  eapply run_to_conseq; [by apply (reserve_tag_run k n)|done|done|done].
Qed.
Lemma run_ots {B} k n f t (h : ShieldFile * Z → Pu B) Q' R :
  (∀ p, kept n p → R p) → (∀ f' i, run_to (reserved k n f' t (Some i)) (h (f', i)) Q' R) →
  run_to (reserved k n f t None) (bindM (reserve_ots f) h) Q' R.
Proof.
  intros HR Hh. apply (run_to_bind _ _ _ _ (λ x, reserved k n x.1 t (Some x.2))); [|intros [f' i]; apply Hh].
  eapply run_to_conseq; [apply (reserve_ots_run k n f t)|done|done|done].
Qed.
(** The end of every such call: the witness, the payment. *)
Lemma prove_send_run k n f t leaf w seed id (tx : bytes → Tx) :
  own_note k w t → spent_leaf w = match leaf with Some i => [i] | None => [] end →
  run_to (reserved k n f t leaf) (let* proof := prove w in send seed id (tx proof)) (λ _, kept n) (kept n).
Proof.
  intros Hw Hl. eapply run_to_bind; [by apply prove_run|]. intros proof.
  eapply run_to_conseq; [apply (respects_run_to still (kept n)); [still|apply stable_kept]|done..].
Qed.
#[local] Hint Resolve stable_kept stable_loaded stable_reserved : hkstill.
Lemma kept_next n p : kept n p → kept (n + 1) p.
Proof. apply kept_mono. lia. Qed.
Lemma loaded_next k n f p : loaded k n f p → kept (n + 1) p.
Proof. intros H. by eapply kept_next, loaded_kept. Qed.
#[local] Hint Resolve kept_next loaded_next reserved_kept : hkstill.
(** A step that leaves the wallet alone. *)
Ltac pass := apply run_still; [still|by auto with hkstill|by eauto with hkstill|intros ?].

Lemma do_scan_run n asset : 0 ≤ n → run_to (kept n) (do_scan asset) (λ _, kept (n + 1)) (kept (n + 1)).
Proof.
  intros Hn. unfold do_scan. apply run_load; [done|by eauto with hkstill|]. intros f. apply run_keys; [by eauto with hkstill|].
  intros k. pass. apply run_notes; [by eauto with hkstill|]. intros f' l. apply run_to_ret. by eauto with hkstill.
Qed.
Lemma do_shield_run n amount asset :
  0 ≤ n → n + 1 < u64_max → run_to (kept n) (do_shield amount asset) (λ _, kept (n + 1)) (kept (n + 1)).
Proof.
  intros Hn Hmax. unfold do_shield. pass. case_match. apply run_load; [done|by eauto with hkstill|]. intros f.
  apply run_keys; [by eauto with hkstill|]. intros k. pass. pass. apply run_tag; [done|done|]. intros f' t.
  apply run_to_expect; [by eauto with hkstill|]. intros note Hnote. cbn [build_mint]. pass.
  apply prove_send_run; [|done]. by exists amount, note.
Qed.
Lemma do_unshield_run n amount asset :
  0 ≤ n → n + 1 < u64_max → run_to (kept n) (do_unshield amount asset) (λ _, kept (n + 1)) (kept (n + 1)).
Proof.
  intros Hn Hmax. unfold do_unshield. pass. case_match. apply run_load; [done|by eauto with hkstill|]. intros f.
  apply run_keys; [by eauto with hkstill|]. intros k. pass. apply run_notes; [by eauto with hkstill|]. intros f1 notes.
  pass. pass. case_match. apply run_tag; [done|done|]. intros f2 t. apply run_ots; [done|]. intros f3 i.
  apply run_to_expect; [by eauto with hkstill|]. intros change Hc. pass. pass.
  apply run_to_planned; [by eauto with hkstill|]. intros plan Hp. apply plan_witness in Hp as (Hnk & Ho1 & Ho2 & Hi).
  apply prove_send_run; [|cbn; by rewrite Hi]. eexists _, change. split; [done|]. split; [done|by left].
Qed.
Lemma do_pay_run n to amount memo asset :
  0 ≤ n → n + 1 < u64_max → run_to (kept n) (do_pay to amount memo asset) (λ _, kept (n + 1)) (kept (n + 1)).
Proof.
  intros Hn Hmax. unfold do_pay. pass. case_match. pass. apply run_load; [done|by eauto with hkstill|]. intros f.
  apply run_keys; [by eauto with hkstill|]. intros k. pass. apply run_notes; [by eauto with hkstill|]. intros f1 notes.
  pass. pass. pass. pass. pass. case_match. apply run_tag; [done|done|]. intros f2 t. apply run_ots; [done|]. intros f3 i.
  apply run_to_expect; [by eauto with hkstill|]. intros change Hc. pass.
  apply run_to_planned; [by eauto with hkstill|]. intros plan Hp. apply plan_witness in Hp as (Hnk & Ho1 & Ho2 & Hi).
  apply prove_send_run; [|cbn; by rewrite Hi]. eexists _, change. split; [done|]. split; [done|by right].
Qed.
Lemma life_kept n p : purse_life n p → 0 ≤ n ∧ (n < u64_max → kept n p).
Proof.
  induction 1 as [c|n p c account script _ [Hn IH]|n p o _ [Hn IH] Ho].
  - split; [done|]. intros _. exists (mkWalletKeys [] 0), []. constructor; cbn; try done; [constructor|constructor|by constructor..].
  - split; [lia|]. intros Hmax. specialize (IH ltac:(lia)). apply (stable_kept _ _ (pu_set_client (mkClient account script p.(pu_client).(cl_sent)) p)) in IH; [|done].
    revert IH. generalize (pu_set_client (mkClient account script p.(pu_client).(cl_sent)) p). apply run_to_any.
    assert (H : ∀ {A} (m : Pu A), run_to (kept n) m (λ _, kept (n + 1)) (kept (n + 1)) →
      run_to (kept n) (m ;;; retM tt) (λ _, kept (n + 1)) (kept (n + 1))).
    { intros A m Hm. eapply run_to_bind; [exact Hm|]. intros x. by apply run_to_ret. }
    destruct c; apply H; [by apply do_scan_run|by apply do_shield_run|by apply do_unshield_run|by apply do_pay_run].
  - split; [done|]. intros Hmax. destruct (IH Hmax) as (k & tags & [Hl Ht Hown Hv Hs]). exists k, tags.
    assert (Hc : covers k p.(pu_proved) tags n o) by (by eapply (Forall_forall _ _), Ho).
    constructor; cbn; [done..|by repeat constructor].
Qed.
(** C19: no one-time key and no note secret is used twice.  Over any life of a wallet,
    with shields, unshields, payments and scans that may be cut off anywhere, writes of
    its file that fail or are not synced, and power losses: the witnesses it let out
    are signed by different leaves of one spend tree, and the notes they make for the
    wallet itself have the secrets of different tags. *)
Theorem no_leaf_or_tag_used_twice n p :
  purse_life n p → n < u64_max → ∃ k tags,
    NoDup (leaves_of p.(pu_proved)) ∧ NoDup tags ∧ Forall2 (own_note k) p.(pu_proved) tags.
Proof. intros [_ H]%life_kept Hn. destruct (H Hn) as (k & tags & []). by exists k, tags. Qed.
End proofs.
