(* ===== verification/Eth.v ===== *)
(** The Ethereum client of the bridge (hk-node/src/eth.rs): ABI and RLP encoding,
    the EIP-712 digest, the events, and the JSON-RPC calls.

    Keccak and secp256k1 are parameters.  What the contract and the network read
    of the encodings is in EthSpec.v. *)

From S2P Require Export Account.
From S2P Require Import Signer.
#[local] Open Scope Z_scope.

Class Keccak := keccak : bytes → H256.
(** A secp256k1 key: its uncompressed public point (65 bytes), and signing. *)
Class Secp := {
  ec_public : bytes → option bytes;
  ec_sign : bytes → H256 → option (bytes * Z);
}.

(** * Hex and quantities *)

Definition strip_0x (s : string) : string :=
  match s with
  | String a (String b r) =>
      if (Ascii.N_of_ascii a =? 48)%N && ((Ascii.N_of_ascii b =? 120)%N || (Ascii.N_of_ascii b =? 88)%N) then r else s
  | _ => s
  end.
Definition hex0x (b : bytes) : string := "0x" +:+ hex b.
Definition unhex (s : string) : option bytes := hex_decode (strip_0x (trim s)).
(** [qty]: a hexadecimal quantity, with the lower-case prefix only. *)
Definition qty (v : Value) : option Z :=
  s ← vstr v;
  let t := match s with
           | String a (String b r) =>
               if (Ascii.N_of_ascii a =? 48)%N && (Ascii.N_of_ascii b =? 120)%N then r else s
           | _ => s
           end in
  match t with EmptyString => Some 0 | _ => parse_radix u128_max 16 t end.

Record Address := mkAddress { address_bytes : bytes; address_len : length address_bytes = 20%nat }.
Lemma address_eq a b : address_bytes a = address_bytes b → a = b.
Proof. destruct a as [x p], b as [y q]. cbn. intros ->. f_equal. apply (proof_irrel (A := _ = _)). Qed.
#[export] Instance address_dec : EqDecision Address.
Proof.
  intros a b. destruct (decide (address_bytes a = address_bytes b)) as [E|n].
  - left. by apply address_eq.
  - right. by intros ->.
Defined.
Definition address_of_bytes (b : bytes) : option Address :=
  match decide (length b = 20%nat) with left H => Some (mkAddress b H) | right _ => None end.
(** [Address::parse] *)
Definition address_parse (s : string) : option Address := unhex s ≫= address_of_bytes.

(** * ABI *)

Section eth.
Context {KECCAK : Keccak} {SECP : Secp}.

Definition keccak256 (parts : list bytes) : H256 := keccak (concat parts).
Definition selector (sg : string) : bytes := take 4 (h256_bytes (keccak256 [str_bytes sg])).
Definition word_u (n : Z) : bytes := replicate 16 x00 ++ be_bytes 16 n.
Definition word_addr (a : Address) : bytes := replicate 12 x00 ++ address_bytes a.
(** The heads of the elements of a [bytes[]] of signatures, from offset [off]. *)
Fixpoint sig_offsets (off : Z) (sigs : list bytes) : bytes :=
  match sigs with [] => [] | _ :: sigs => word_u off ++ sig_offsets (off + 32 + 96) sigs end.
Definition encode_attested_call (fn_sig : string) (to : Address) (amount : Z) (id : H256) (sigs : list bytes) : bytes :=
  selector fn_sig ++ word_addr to ++ word_u amount ++ h256_bytes id ++ word_u 128 ++
  word_u (Z.of_nat (length sigs)) ++ sig_offsets (32 * Z.of_nat (length sigs)) sigs ++
  concat ((λ s, word_u 65 ++ s ++ replicate (96 - 65) x00) <$> sigs).
Definition encode_view_b32 (fn_sig : string) (x : H256) : bytes := selector fn_sig ++ h256_bytes x.
Definition encode_view (fn_sig : string) : bytes := selector fn_sig.
Definition encode_view_addr (fn_sig : string) (a : Address) : bytes := selector fn_sig ++ word_addr a.
Definition encode_attestor_query (a : Address) : bytes := encode_view_addr "isAttestor(address)" a.
Definition decode_word_u (b : bytes) : option Z :=
  if (length b <? 32)%nat then None
  else if existsb (λ x, negb (bool_decide (x = x00))) (take 16 b) then None
  else Some (be_val (take 16 (drop 16 b))).
Definition decode_word_b32 (b : bytes) : option H256 :=
  if (length b <? 32)%nat then None else Some (h256_of (take 32 b)).

(** * Events *)

Record BridgeEvent := mkBridgeEvent {
  be_id : H256;
  be_from : Address;
  be_hk_account : H256;
  be_amount : Z;
  be_nonce : Z;
  be_block : Z;
  be_tx_hash : string;
  be_log_index : Z;
}.
Definition LOCKED_SIG : string := "Locked(bytes32,address,uint256,bytes32,uint256)".
Definition BURNED_SIG : string := "Burned(bytes32,address,uint256,bytes32,uint256)".
Definition event_topic (sg : string) : H256 := keccak256 [str_bytes sg].
Definition topic (l : list Value) (i : nat) : option bytes :=
  b ← (v ← l !! i; unhex (default "" (vstr v)));
  if bool_decide (length b = 32%nat) then Some b else None.
Definition decode_bridge_event (log : Value) : option BridgeEvent :=
  topics ← (vget "topics" log ≫= varr);
  if negb (Z.of_nat (length topics) =? 4) then None else
  t1 ← topic topics 1;
  t2 ← topic topics 2;
  t3 ← topic topics 3;
  data ← unhex (default "" (vget "data" log ≫= vstr));
  if Z.of_nat (length data) <? 64 then None else
  from ← address_of_bytes (drop 12 t2);
  amount ← decode_word_u (take 32 data);
  nonce ← decode_word_u (take 32 (drop 32 data));
  block ← qty (default VNull (vget "blockNumber" log));
  log_index ← qty (default (VStr "0x0") (vget "logIndex" log));
  Some (mkBridgeEvent (h256_of t1) from (h256_of t3) amount nonce (wrapping u64_max block)
          (default "" (vget "transactionHash" log ≫= vstr)) log_index).

(** * EIP-712 *)

Definition domain_separator (name : string) (chain_id : Z) (contract : Address) : H256 :=
  let typehash := keccak256 [str_bytes "EIP712Domain(string name,string version,uint256 chainId,address verifyingContract)"] in
  keccak256 [h256_bytes typehash; h256_bytes (keccak256 [str_bytes name]); h256_bytes (keccak256 [str_bytes "1"]);
             word_u chain_id; word_addr contract].
Definition attest_struct_hash (type_sig : string) (to : Address) (amount : Z) (id : H256) : H256 :=
  keccak256 [h256_bytes (keccak256 [str_bytes type_sig]); word_addr to; word_u amount; h256_bytes id].
Definition typed_digest (domain struct_hash : H256) : H256 :=
  keccak256 [[x19; x01]; h256_bytes domain; h256_bytes struct_hash].
Definition UNLOCK_TYPE : string := "Unlock(address to,uint256 amount,bytes32 burnId)".
Definition MINT_TYPE : string := "Mint(address to,uint256 amount,bytes32 mintId)".

(** * Keys *)

Record EthSigner := mkEthSigner { sg_key : bytes; sg_address : Address }.
Definition address_of (key : bytes) : option Address :=
  p ← ec_public key; address_of_bytes (drop 12 (h256_bytes (keccak256 [drop 1 p]))).
Definition signer_from_hex (s : string) : option EthSigner :=
  b ← unhex s;
  if negb (Z.of_nat (length b) =? 32) then None else a ← address_of b; Some (mkEthSigner b a).
(** [r ‖ s ‖ v] *)
Definition sign_digest (sg : EthSigner) (digest : H256) : option bytes :=
  '(rs, rid) ← ec_sign sg.(sg_key) digest; Some (rs ++ [byte_of (27 + rid)]).

(** * RLP and transactions *)

Fixpoint strip_leading_zeros (b : bytes) : bytes :=
  match b with x :: r => if bool_decide (x = x00) then strip_leading_zeros r else b | [] => [] end.
Definition rlp_len (len : nat) (offset : Z) : bytes :=
  if (len <? 56)%nat then [byte_of (offset + Z.of_nat len)]
  else let be := strip_leading_zeros (be_bytes 8 (Z.of_nat len)) in
       byte_of (offset + 55 + Z.of_nat (length be)) :: be.
Definition rlp_bytes (b : bytes) : bytes :=
  match b with
  | [x] => if byte_val x <? 128 then b else rlp_len (length b) 128 ++ b
  | _ => rlp_len (length b) 128 ++ b
  end.
Definition rlp_uint (n : Z) : bytes :=
  if n =? 0 then [x80] else rlp_bytes (strip_leading_zeros (be_bytes 16 n)).
Definition rlp_list (items : list bytes) : bytes :=
  let payload := concat items in rlp_len (length payload) 192 ++ payload.
Record Tx1559 := mkTx1559 {
  tx_chain_id : Z;
  tx_nonce : Z;
  tx_max_priority_fee : Z;
  tx_max_fee : Z;
  tx_gas : Z;
  tx_to : Address;
  tx_value : Z;
  tx_data : bytes;
}.
Definition tx_body (tx : Tx1559) : list bytes :=
  [rlp_uint tx.(tx_chain_id); rlp_uint tx.(tx_nonce); rlp_uint tx.(tx_max_priority_fee); rlp_uint tx.(tx_max_fee);
   rlp_uint tx.(tx_gas); rlp_bytes (address_bytes tx.(tx_to)); rlp_uint tx.(tx_value); rlp_bytes tx.(tx_data); rlp_list []].
(** [sign_tx] *)
Definition sign_1559 (sg : EthSigner) (tx : Tx1559) : option bytes :=
  let body := tx_body tx in
  '(rs, y) ← ec_sign sg.(sg_key) (keccak256 [x02 :: rlp_list body]);
  Some (x02 :: rlp_list (body ++ [rlp_uint y; rlp_bytes (strip_leading_zeros (take 32 rs));
                                  rlp_bytes (strip_leading_zeros (drop 32 rs))])).

(** * The JSON-RPC client

    [EthClient::call]: a reply that did not come, an error, or a result. *)
#[local] Notation Cl A := (M Client CliError A).
Definition call_result (r : string + Value) : res CliError Value :=
  match r with
  | inl e => Err (Fail e)
  | inr v => match vget "error" v with
             | Some _ => Err (Fail "error")
             | None => match vget "result" v with Some x => Ok x | None => Err (Fail "no result") end
             end
  end.
Definition eth_request : Cl Value :=
  let* r := next_answer (λ x, match x with OnEth r => Some r | _ => None end) in
  readM (λ _, call_result r).
Definition bad : CliError := Fail "bad reply".
Definition request_qty : Cl Z := let* v := eth_request in ok_or (qty v) bad.
Definition block_number : Cl Z := let* n := request_qty in retM (wrapping u64_max n).
(** [tagged_block] and [base_fee] *)
Definition tagged_block : Cl Z :=
  let* b := eth_request in
  refuse_if (is_null b) (Fail "no such block") ;;;
  let* n := ok_or (qty (default VNull (vget "number" b))) bad in
  retM (wrapping u64_max n).
Definition base_fee : Cl Z :=
  let* b := eth_request in
  ok_or (qty (default (VStr "0x0") (vget "baseFeePerGas" b))) bad.
Definition eth_logs : Cl (list Value) := let* r := eth_request in ok_or (varr r) (Fail "eth_getLogs: not an array").
(** [eth_call] and a word of its answer *)
Definition eth_call : Cl bytes := let* r := eth_request in ok_or (unhex (default "" (vstr r))) bad.
Definition eth_call_u : Cl Z := let* b := eth_call in ok_or (decode_word_u b) bad.
Definition priority_fee : Cl Z :=
  let* r := attempt eth_request in
  match r with
  | inr v => ok_or (qty v) bad
  | inl _ => retM 1500000000
  end.
Definition send_raw (raw : bytes) : Cl string :=
  let* '(entered, r) := next_answer (λ x, match x with OnSend e r => Some (e, r) | _ => None end) in
  modifyM (cl_send (SentRaw raw entered)) ;;;
  let* v := readM (λ _, call_result r) in
  ok_or (vstr v) (Fail "eth_sendRawTransaction: no hash").
Definition receipt_status : Cl (option (bool * Z)) :=
  let* r := eth_request in
  if is_null r then retM None
  else
    let* st := ok_or (qty (default (VStr "0x0") (vget "status" r))) bad in
    let* b := ok_or (qty (default (VStr "0x0") (vget "blockNumber" r))) bad in
    retM (Some (st =? 1, wrapping u64_max b)).
Definition send_call (chain_id : Z) (sg : EthSigner) (to : Address) (data : bytes) : Cl string :=
  let* nonce := request_qty in
  let* gas := request_qty in
  let* base := base_fee in
  let* prio := priority_fee in
  let tx := mkTx1559 chain_id nonce prio (wrapping u128_max (wrapping u128_max (base * 2) + prio))
              (wrapping u128_max (gas * 12) / 10) to 0 data in
  let* raw := ok_or (sign_1559 sg tx) (Fail "sign") in
  send_raw raw.
End eth.
