(* ===== verification/EthSpec.v ===== *)
(** What Ethereum reads of the bridge's messages: decoders of RLP and of the ABI
    written from their specifications, and the round trips of the encoders of
    Eth.v (hk-node/src/eth.rs) through them. *)

From S2P Require Import Signer.
From S2P Require Export Eth.
#[local] Open Scope Z_scope.

(** The curve signs with 64 bytes and the parity of a point. *)
Class SecpLaws (SECP : Secp) : Prop :=
  ec_sign_shape k h rs y : ec_sign k h = Some (rs, y) → length rs = 64%nat ∧ (y = 0 ∨ y = 1).

(** * RLP *)

Inductive Rlp := RlpString (b : bytes) | RlpList (items : list Rlp).
Definition split_off (k : Z) (l : bytes) : option (bytes * bytes) :=
  if k <=? Z.of_nat (length l) then Some (take (Z.to_nat k) l, drop (Z.to_nat k) l) else None.
(** The length that follows in [n] bytes. *)
Definition long_payload (n : Z) (l : bytes) : option (bytes * bytes) :=
  '(h, r) ← split_off n l; split_off (be_val h) r.
(** The first item: whether it is a list, its payload, what follows. *)
Definition rlp_head (l : bytes) : option (bool * bytes * bytes) :=
  match l with
  | [] => None
  | b :: r =>
      let n := byte_val b in
      if n <? 128 then Some (false, [b], r)
      else if n <? 184 then '(p, r) ← split_off (n - 128) r; Some (false, p, r)
      else if n <? 192 then '(p, r) ← long_payload (n - 183) r; Some (false, p, r)
      else if n <? 248 then '(p, r) ← split_off (n - 192) r; Some (true, p, r)
      else '(p, r) ← long_payload (n - 247) r; Some (true, p, r)
  end.
Fixpoint rlp_items (fuel : nat) (l : bytes) : option (list Rlp) :=
  match l, fuel with
  | [], _ => Some []
  | _, O => None
  | _, S fuel =>
      '(nested, p, r) ← rlp_head l;
      x ← (if (nested : bool) then RlpList <$> rlp_items fuel p else Some (RlpString p));
      xs ← rlp_items fuel r;
      Some (x :: xs)
  end.
(** An integer: big-endian without leading zeros. *)
Definition rlp_int (b : bytes) : option Z :=
  match b with x00 :: _ => None | _ => Some (be_val b) end.
(** A signed transaction of type 2: the transaction, the parity, r and s.  The
    list has twelve items, so fuel of thirteen reads it. *)
Definition decode_1559 (raw : bytes) : option (Tx1559 * Z * Z * Z) :=
  match raw with
  | x02 :: l =>
      match rlp_items 13 l with
      | Some [RlpList [RlpString c; RlpString n; RlpString p; RlpString m; RlpString g; RlpString a; RlpString v;
                       RlpString d; RlpList []; RlpString y; RlpString r; RlpString s]] =>
          c ← rlp_int c; n ← rlp_int n; p ← rlp_int p; m ← rlp_int m; g ← rlp_int g;
          a ← address_of_bytes a; v ← rlp_int v; y ← rlp_int y; r ← rlp_int r; s ← rlp_int s;
          Some (mkTx1559 c n p m g a v d, y, r, s)
      | _ => None
      end
  | _ => None
  end.

(** * The ABI of [f(address,uint256,bytes32,bytes[])] *)

Definition abi_word (off : Z) (d : bytes) : option bytes :=
  if 0 <=? off then '(w, _) ← split_off 32 (drop (Z.to_nat off) d); Some w else None.
Definition abi_uint (off : Z) (d : bytes) : option Z := be_val <$> abi_word off d.
Definition abi_bytes (off : Z) (d : bytes) : option bytes :=
  n ← abi_uint off d; '(b, _) ← split_off n (drop (Z.to_nat (off + 32)) d); Some b.
(** [k] elements whose heads are at [off]; their offsets count from [base]. *)
Fixpoint abi_array (k : nat) (base off : Z) (d : bytes) : option (list bytes) :=
  match k with
  | O => Some []
  | S k =>
      h ← abi_uint off d; b ← abi_bytes (base + h) d; bs ← abi_array k base (off + 32) d; Some (b :: bs)
  end.
Definition decode_attested (call : bytes) : option (bytes * Address * Z * H256 * list bytes) :=
  '(sel, d) ← split_off 4 call;
  w ← abi_word 0 d;
  to ← (if bool_decide (take 12 w = replicate 12 x00) then address_of_bytes (drop 12 w) else None);
  amount ← abi_uint 32 d;
  id ← abi_word 64 d;
  off ← abi_uint 96 d;
  n ← abi_uint off d;
  sigs ← abi_array (Z.to_nat n) (off + 32) (off + 32) d;
  Some (sel, to, amount, h256_of id, sigs).

(** * Round trips *)

Lemma address_of_bytes_bytes a : address_of_bytes (address_bytes a) = Some a.
Proof. unfold address_of_bytes. destruct (decide _) as [H|n]; [f_equal; by apply address_eq|]. by destruct n, a. Qed.

Lemma le_val_app l k : le_val (l ++ k) = le_val l + 256 ^ Z.of_nat (length l) * le_val k.
Proof.
  induction l as [|b l IH]; [cbn [app le_val length]; lia|]. cbn [app le_val length].
  rewrite IH, Nat2Z.inj_succ, Z.pow_succ_r by lia. ring.
Qed.
Lemma be_val_cons b l : be_val (b :: l) = byte_val b * 256 ^ Z.of_nat (length l) + be_val l.
Proof. unfold be_val. cbn [rev]. rewrite le_val_app, length_rev. cbn [le_val]. ring. Qed.
Lemma be_val_bound l : 0 ≤ be_val l < 256 ^ Z.of_nat (length l).
Proof. unfold be_val. rewrite <-length_rev. apply le_val_bound. Qed.
Lemma strip_val b : be_val (strip_leading_zeros b) = be_val b.
Proof.
  induction b as [|x b IH]; [done|]. cbn [strip_leading_zeros]. case_bool_decide; [subst|done]. by rewrite IH, be_val_cons.
Qed.
Lemma strip_minimal b : rlp_int (strip_leading_zeros b) = Some (be_val b).
Proof.
  rewrite <-strip_val. induction b as [|x b IH]; [done|]. cbn [strip_leading_zeros]. case_bool_decide; [done|]. by destruct x.
Qed.
Lemma strip_length b : (length (strip_leading_zeros b) ≤ length b)%nat.
Proof. induction b as [|x b IH]; [done|]. cbn. case_bool_decide; cbn in *; lia. Qed.
Lemma split_off_app l r : split_off (Z.of_nat (length l)) (l ++ r) = Some (l, r).
Proof.
  unfold split_off. rewrite (proj2 (Z.leb_le _ _)) by (rewrite length_app; lia).
  by rewrite Nat2Z.id, take_app_length, drop_app_length.
Qed.
(** The two forms of a length. *)
Lemma rlp_len_read len off (nested : bool) p rest :
  length p = len → Z.of_nat len < 2 ^ 64 → (off = 128 ∧ nested = false ∨ off = 192 ∧ nested = true) →
  rlp_head (rlp_len len off ++ p ++ rest) = Some (nested, p, rest).
Proof.
  intros Hl Hlen Hoff. unfold rlp_len. destruct (Nat.ltb_spec len 56) as [Hs|Hs].
  - cbn [app rlp_head]. rewrite byte_val_of, Z.mod_small by lia.
    destruct Hoff as [[-> ->]|[-> ->]].
    all: repeat match goal with |- context [?a <? ?b] => destruct (Z.ltb_spec a b); [try lia|try lia] end.
    all: match goal with |- context [split_off ?n _] => replace n with (Z.of_nat (length p)) by lia end; by rewrite split_off_app.
  - set (be := strip_leading_zeros (be_bytes 8 (Z.of_nat len))).
    assert (Hv : be_val be = Z.of_nat len) by (unfold be; rewrite strip_val, be_val_bytes, Z.mod_small; lia).
    assert (Hbl : (length be ≤ 8)%nat) by (unfold be; etrans; [apply strip_length|by rewrite length_be_bytes]).
    assert (Hb1 : (1 ≤ length be)%nat) by (destruct be; [cbn in Hv; lia|cbn; lia]).
    assert (Hlp : long_payload (Z.of_nat (length be)) (be ++ p ++ rest) = Some (p, rest)).
    { unfold long_payload. rewrite split_off_app. cbn [mbind option_bind]. rewrite Hv, <-Hl. apply split_off_app. }
    cbn [app rlp_head]. rewrite byte_val_of, Z.mod_small by lia.
    destruct Hoff as [[-> ->]|[-> ->]].
    all: repeat match goal with |- context [?a <? ?b] => destruct (Z.ltb_spec a b); [try lia|try lia] end.
    all: match goal with |- context [long_payload ?n _] => replace n with (Z.of_nat (length be)) by lia end; by rewrite Hlp.
Qed.
Lemma rlp_bytes_read b rest :
  Z.of_nat (length b) < 2 ^ 64 → rlp_head (rlp_bytes b ++ rest) = Some (false, b, rest).
Proof.
  intros Hl. assert (H : rlp_head ((rlp_len (length b) 128 ++ b) ++ rest) = Some (false, b, rest)).
  { rewrite <-app_assoc. apply rlp_len_read; [done|done|by left]. }
  unfold rlp_bytes. destruct b as [|x [|y b]]; [exact H| |exact H].
  destruct (byte_val x <? 128) eqn:E; [|exact H]. cbn [app rlp_head]. by rewrite E.
Qed.
Lemma rlp_uint_read n : 0 ≤ n ≤ u128_max → ∃ b, rlp_int b = Some n ∧ ∀ rest, rlp_head (rlp_uint n ++ rest) = Some (false, b, rest).
Proof.
  intros Hn. unfold rlp_uint. destruct (Z.eqb_spec n 0) as [->|Hz]; [exists []; split; [done|]; intros rest; by apply (rlp_bytes_read [])|].
  exists (strip_leading_zeros (be_bytes 16 n)). split.
  - rewrite strip_minimal, be_val_bytes, Z.mod_small; [done|]. unfold u128_max in Hn. lia.
  - intros rest. apply rlp_bytes_read. pose proof (strip_length (be_bytes 16 n)). rewrite length_be_bytes in *. lia.
Qed.
Lemma length_rlp_len len off : (length (rlp_len len off) ≤ 9)%nat.
Proof.
  unfold rlp_len. case_match; cbn [length]; [lia|]. pose proof (strip_length (be_bytes 8 (Z.of_nat len))).
  rewrite length_be_bytes in *. lia.
Qed.
Lemma length_rlp_bytes b : (length (rlp_bytes b) ≤ 9 + length b)%nat.
Proof.
  pose proof (length_rlp_len (length b) 128). unfold rlp_bytes.
  destruct b as [|x [|y b]]; [|case_match|]; rewrite ?length_app; cbn [length] in *; lia.
Qed.
Lemma length_rlp_uint n : (length (rlp_uint n) ≤ 25)%nat.
Proof.
  unfold rlp_uint. case_match; [cbn; lia|]. pose proof (length_rlp_bytes (strip_leading_zeros (be_bytes 16 n))).
  pose proof (strip_length (be_bytes 16 n)). rewrite length_be_bytes in *. lia.
Qed.
Lemma rlp_items_string fuel l p r : rlp_head l = Some (false, p, r) → rlp_items (S fuel) l = cons (RlpString p) <$> rlp_items fuel r.
Proof. intros H. destruct l; [done|]. cbn [rlp_items]. by rewrite H. Qed.
Lemma rlp_items_list fuel l p r :
  rlp_head l = Some (true, p, r) →
  rlp_items (S fuel) l = (x ← rlp_items fuel p; xs ← rlp_items fuel r; Some (RlpList x :: xs)).
Proof. intros H. destruct l; [done|]. cbn [rlp_items]. rewrite H. cbn [mbind option_bind]. by destruct (rlp_items fuel p). Qed.

Section reads.
Context {KECCAK : Keccak} {SECP : Secp} {SLAWS : SecpLaws SECP}.

Definition in_range (tx : Tx1559) : Prop :=
  0 ≤ tx.(tx_chain_id) ≤ u128_max ∧ 0 ≤ tx.(tx_nonce) ≤ u128_max ∧ 0 ≤ tx.(tx_max_priority_fee) ≤ u128_max ∧
  0 ≤ tx.(tx_max_fee) ≤ u128_max ∧ 0 ≤ tx.(tx_gas) ≤ u128_max ∧ 0 ≤ tx.(tx_value) ≤ u128_max ∧
  Z.of_nat (length tx.(tx_data)) < 2 ^ 32.
(** The twelve items of a transaction, read. *)
Lemma body_reads tx y r s :
  in_range tx → (y = 0 ∨ y = 1) → (length r ≤ 32)%nat → (length s ≤ 32)%nat →
  ∃ c n p m g v yb,
    rlp_int c = Some tx.(tx_chain_id) ∧ rlp_int n = Some tx.(tx_nonce) ∧ rlp_int p = Some tx.(tx_max_priority_fee) ∧
    rlp_int m = Some tx.(tx_max_fee) ∧ rlp_int g = Some tx.(tx_gas) ∧ rlp_int v = Some tx.(tx_value) ∧ rlp_int yb = Some y ∧
    rlp_items 12 (concat (tx_body tx ++ [rlp_uint y; rlp_bytes r; rlp_bytes s])) =
      Some [RlpString c; RlpString n; RlpString p; RlpString m; RlpString g; RlpString (address_bytes tx.(tx_to)); RlpString v;
            RlpString tx.(tx_data); RlpList []; RlpString yb; RlpString r; RlpString s].
Proof.
  intros (Hc & Hn & Hp & Hm & Hg & Hv & Hd) Hy Hr Hs.
  apply rlp_uint_read in Hc as (c & Ec & Rc), Hn as (n & En & Rn), Hp as (p & Ep & Rp), Hm as (m & Em & Rm), Hg as (g & Eg & Rg), Hv as (v & Ev & Rv).
  destruct (rlp_uint_read y) as (yb & Ey & Ry); [unfold u128_max; lia|].
  exists c, n, p, m, g, v, yb. split_and!; try done.
  unfold tx_body. cbn [app concat].
  erewrite rlp_items_string by apply Rc. erewrite rlp_items_string by apply Rn. erewrite rlp_items_string by apply Rp.
  erewrite rlp_items_string by apply Rm. erewrite rlp_items_string by apply Rg.
  erewrite rlp_items_string by (apply rlp_bytes_read; rewrite address_len; lia).
  erewrite rlp_items_string by apply Rv. erewrite rlp_items_string by (apply rlp_bytes_read; lia).
  erewrite rlp_items_list by (apply (rlp_len_read 0 192 true []); [done|done|by right]).
  erewrite rlp_items_string by apply Ry. erewrite rlp_items_string by (apply rlp_bytes_read; lia).
  erewrite rlp_items_string by (apply rlp_bytes_read; lia). done.
Qed.
Lemma body_short tx y r s :
  in_range tx → (length r ≤ 32)%nat → (length s ≤ 32)%nat →
  Z.of_nat (length (concat (tx_body tx ++ [rlp_uint y; rlp_bytes r; rlp_bytes s]))) < 2 ^ 64.
Proof.
  intros (_ & _ & _ & _ & _ & _ & Hd) Hr Hs. unfold tx_body. cbn [app concat]. rewrite !length_app.
  pose proof (length_rlp_bytes r). pose proof (length_rlp_bytes s). pose proof (length_rlp_bytes (tx_data tx)).
  pose proof (length_rlp_bytes (address_bytes (tx_to tx))) as Ha. rewrite address_len in Ha.
  repeat match goal with |- context [rlp_uint ?n] => pose proof (length_rlp_uint n); generalize dependent (length (rlp_uint n)); intros end.
  change (length (rlp_list [])) with 1%nat. cbn [length]. lia.
Qed.
(** C23: Ethereum reads the transaction that was signed.  The bytes [sign_tx] makes of a
    transaction decode, by a strict reader of RLP, to that transaction with the
    parity, r and s the curve gave for the hash of its unsigned form. *)
Theorem signed_transaction_reads_back sg tx raw :
  in_range tx → sign_1559 sg tx = Some raw →
  ∃ rs y, ec_sign sg.(sg_key) (keccak256 [x02 :: rlp_list (tx_body tx)]) = Some (rs, y) ∧
    decode_1559 raw = Some (tx, y, be_val (take 32 rs), be_val (drop 32 rs)).
Proof.
  intros Hr H. unfold sign_1559 in H. destruct (ec_sign _ _) as [[rs y]|] eqn:E; cbn [mbind option_bind] in H; [|done].
  injection H as <-. exists rs, y. split; [done|]. apply ec_sign_shape in E as [Hl Hy].
  set (r := strip_leading_zeros (take 32 rs)). set (s := strip_leading_zeros (drop 32 rs)).
  assert (Hrl : (length r ≤ 32)%nat) by (unfold r; etrans; [apply strip_length|rewrite length_take; lia]).
  assert (Hsl : (length s ≤ 32)%nat) by (unfold s; etrans; [apply strip_length|rewrite length_drop; lia]).
  destruct (body_reads tx y r s Hr Hy Hrl Hsl) as (c & n & p & m & g & v & yb & Ec & En & Ep & Em & Eg & Ev & Ey & Eb).
  unfold decode_1559, rlp_list. set (payload := concat _) in *.
  rewrite <-(app_nil_r (rlp_len _ _ ++ payload)), <-app_assoc.
  erewrite rlp_items_list by (apply (rlp_len_read (length payload) 192 true payload []); [done|by apply body_short|by right]).
  rewrite Eb. cbn [mbind option_bind rlp_items]. rewrite Ec, En, Ep, Em, Eg, Ev, Ey. cbn [mbind option_bind].
  rewrite address_of_bytes_bytes. cbn [mbind option_bind]. unfold r, s. rewrite !strip_minimal. cbn. by destruct tx.
Qed.

(** ** A call *)

Lemma word_at off d w r : drop off d = w ++ r → length w = 32%nat → abi_word (Z.of_nat off) d = Some w.
Proof.
  intros H Hw. unfold abi_word. rewrite (proj2 (Z.leb_le _ _)), Nat2Z.id, H by lia.
  change 32 with (Z.of_nat 32). by rewrite <-Hw, split_off_app.
Qed.
Lemma uint_at off d n r : drop off d = word_u n ++ r → 0 ≤ n ≤ u128_max → abi_uint (Z.of_nat off) d = Some n.
Proof.
  intros H Hn. unfold abi_uint. rewrite (word_at off d _ r H) by by unfold word_u; rewrite length_app, length_be_bytes.
  cbn [fmap option_fmap option_map]. f_equal. unfold word_u. assert (Hz : ∀ k l, be_val (replicate k x00 ++ l) = be_val l).
  { induction k as [|k IH]; intros l; [done|]. cbn [replicate app]. by rewrite be_val_cons, IH. }
  rewrite Hz, be_val_bytes, Z.mod_small; [done|]. unfold u128_max in Hn. lia.
Qed.
Lemma drop_word off (d w r : bytes) : drop off d = w ++ r → length w = 32%nat → drop (off + 32) d = r.
Proof. intros H <-. by rewrite <-drop_drop, H, drop_app_length. Qed.
Lemma length_offsets off sigs : length (sig_offsets off sigs) = (32 * length sigs)%nat.
Proof.
  revert off. induction sigs as [|s sigs IH]; intros off; [done|]. cbn [sig_offsets]. rewrite length_app, IH.
  unfold word_u. rewrite length_app, length_replicate, length_be_bytes. cbn [length]. lia.
Qed.
(** The encoding of one signature, and of all. *)
Definition sig_block (s : bytes) : bytes := word_u 65 ++ s ++ replicate (96 - 65) x00.
Lemma length_word n : length (word_u n) = 32%nat.
Proof. unfold word_u. by rewrite length_app, length_replicate, length_be_bytes. Qed.
Lemma length_block s : length s = 65%nat → length (sig_block s) = 128%nat.
Proof. intros H. unfold sig_block. rewrite !length_app, length_word, length_replicate. lia. Qed.
Lemma block_at off d s r : drop off d = sig_block s ++ r → length s = 65%nat → abi_bytes (Z.of_nat off) d = Some s.
Proof.
  intros H Hs. unfold abi_bytes. unfold sig_block in H. rewrite <-!app_assoc in H.
  rewrite (uint_at off d 65 _ H) by (unfold u128_max; lia). cbn [mbind option_bind].
  replace (Z.to_nat (Z.of_nat off + 32)) with (off + 32)%nat by lia. rewrite <-drop_drop, H, <-(length_word 65), drop_app_length.
  change 65 with (Z.of_nat 65). rewrite <-Hs at 1. by rewrite split_off_app.
Qed.
(** The heads from the [i]-th on and the blocks they point to. *)
Lemma array_reads d base off (sigs done_ : list bytes) total :
  Forall (λ s, length s = 65%nat) (done_ ++ sigs) → total = length (done_ ++ sigs) → Z.of_nat total < 2 ^ 64 →
  off = (base + 32 * length done_)%nat →
  (∃ r, drop off d = sig_offsets (32 * Z.of_nat total + 128 * Z.of_nat (length done_)) sigs ++ r) →
  drop (base + 32 * total) d = concat (sig_block <$> (done_ ++ sigs)) →
  abi_array (length sigs) (Z.of_nat base) (Z.of_nat off) d = Some sigs.
Proof.
  revert done_ off. induction sigs as [|s sigs IH]; intros done_ off Hf Ht Hb Ho [r Hh] Hd; [done|].
  cbn [abi_array length]. cbn [sig_offsets] in Hh. rewrite <-app_assoc in Hh.
  rewrite (uint_at _ _ _ _ Hh) by (unfold u128_max; rewrite length_app in Ht; cbn in Ht; lia). cbn [mbind option_bind].
  assert (Hs : length s = 65%nat) by (apply Forall_app in Hf as [_ Hf]; by apply Forall_cons in Hf as [? _]).
  assert (Hdn : length (concat (sig_block <$> done_)) = (128 * length done_)%nat).
  { clear -Hf. apply Forall_app in Hf as [Hf _]. induction Hf as [|x l Hx _ IHl]; [done|].
    rewrite fmap_cons. cbn [concat length]. rewrite length_app, length_block by done. lia. }
  replace (Z.of_nat base + (32 * Z.of_nat total + 128 * Z.of_nat (length done_))) with (Z.of_nat (base + 32 * total + 128 * length done_)) by lia.
  rewrite (block_at _ d s (concat (sig_block <$> sigs))); [|by rewrite <-drop_drop, Hd, fmap_app, concat_app, <-Hdn, drop_app_length; cbn|done].
  cbn [mbind option_bind]. replace (Z.of_nat off + 32) with (Z.of_nat (off + 32)) by lia.
  rewrite (IH (done_ ++ [s])); [done|by rewrite <-app_assoc|by rewrite Ht, <-app_assoc|done|rewrite length_app; cbn; lia| |by rewrite <-app_assoc].
  exists r. rewrite <-drop_drop, Hh, <-(length_word (32 * Z.of_nat total + 128 * Z.of_nat (length done_))), drop_app_length.
  f_equal. f_equal. rewrite length_app. cbn. lia.
Qed.
(** C24: the contract reads the call that was attested.  Decoded as the ABI says, the
    data of a call is its selector, the address paid, the amount, the
    identifier and the signatures, each of 65 bytes, in their order. *)
Theorem attested_call_reads_back fn to amount id sigs :
  0 ≤ amount ≤ u128_max → Forall (λ s, length s = 65%nat) sigs → Z.of_nat (length sigs) < 2 ^ 64 →
  decode_attested (encode_attested_call fn to amount id sigs) = Some (selector fn, to, amount, id, sigs).
Proof.
  intros Ha Hs Hn. unfold decode_attested, encode_attested_call.
  assert (Hsel : length (selector fn) = 4%nat) by (unfold selector; rewrite length_take, length_h256; lia).
  change 4 with (Z.of_nat 4). rewrite <-Hsel at 1. rewrite split_off_app. cbn [mbind option_bind].
  set (offs := sig_offsets _ sigs). set (blocks := concat _).
  set (d := word_addr to ++ _).
  assert (Hwa : length (word_addr to) = 32%nat) by (unfold word_addr; by rewrite length_app, length_replicate, address_len).
  assert (Hid : length (h256_bytes id) = 32%nat) by apply length_h256.
  assert (D1 := drop_word 0 d _ _ eq_refl Hwa). assert (D2 := drop_word 32 d _ _ D1 (length_word _)).
  assert (D3 := drop_word 64 d _ _ D2 Hid). assert (D4 := drop_word 96 d _ _ D3 (length_word _)).
  assert (D5 := drop_word 128 d _ _ D4 (length_word _)).
  rewrite (word_at 0 d _ _ eq_refl Hwa : abi_word 0 d = _). cbn [mbind option_bind].
  rewrite bool_decide_eq_true_2 by done. change (drop 12 (word_addr to)) with (address_bytes to). rewrite address_of_bytes_bytes.
  cbn [mbind option_bind]. rewrite (uint_at 32 d _ _ D1 Ha : abi_uint 32 d = _). cbn [mbind option_bind].
  rewrite (word_at 64 d _ _ D2 Hid : abi_word 64 d = _). cbn [mbind option_bind].
  rewrite (uint_at 96 d 128 _ D3 ltac:(unfold u128_max; lia) : abi_uint 96 d = _). cbn [mbind option_bind].
  rewrite (uint_at 128 d _ _ D4 ltac:(unfold u128_max; lia) : abi_uint 128 d = _). cbn [mbind option_bind].
  assert (Har : abi_array (length sigs) (128 + 32) (128 + 32) d = Some sigs).
  { apply (array_reads d 160 160 sigs [] (length sigs) Hs eq_refl Hn eq_refl).
    - exists blocks. change 160%nat with (128 + 32)%nat. rewrite D5. unfold offs. do 2 f_equal. cbn [length]. lia.
    - change (160 + 32 * length sigs)%nat with (128 + 32 + 32 * length sigs)%nat.
      rewrite <-drop_drop, D5, <-(length_offsets (32 * Z.of_nat (length sigs)) sigs). unfold offs. by rewrite drop_app_length. }
  rewrite Nat2Z.id, Har. cbn [mbind option_bind]. by rewrite h256_of_id.
Qed.
End reads.
