(* ===== verification/Attest.v ===== *)
(** The ledger of the bridge service (hk-node/src/attest.rs): one line of JSON per
    event, written and synced before the event is folded into memory, and folded
    again when the service starts; and the operator's [resolve].

    serde_json's text of an event is a parameter.  A write that fails or is cut
    by a kill leaves part of its line, and later lines follow it. *)

From S2P Require Export Account.
#[local] Open Scope Z_scope.

(** [struct Event] *)
Record Event := mkEvent {
  ae_t : Z;
  ae_kind : string;
  ae_id : string;
  ae_state : string;
  ae_fields : list (string * Value);
}.
Class LineText := { enc_event : Event → bytes; dec_event : bytes → option Event }.

(** [struct Record] *)
Record BridgeRecord := mkRecord {
  br_kind : string;
  br_id : string;
  br_state : string;
  br_amount : Z;
  br_to : string;
  br_at : Z;
  br_source_tx : string;
  br_hk_txid : option string;
  br_eth_tx : option string;
  br_note : option string;
  br_updated : Z;
  br_attempts : Z;
}.
Definition new_record (kind id : string) : BridgeRecord :=
  mkRecord kind id "" 0 "" 0 "" None None None 0 0.
(** The part of a ledger that is folded from its lines. *)
Record Books := mkBooks { bk_records : gmap string BridgeRecord; bk_eth_cursor : Z; bk_hk_cursor : Z }.
Definition record_key (kind id : string) : string := kind +:+ ":" +:+ id.

Definition or_else {A} (o : option A) (d : A) : A := default d o.
(** What an event of its key makes of a record. *)
Definition update (e : Event) (r : BridgeRecord) : BridgeRecord :=
  let f k := vfield k e.(ae_fields) in
  let str k := f k ≫= vstr in
  mkRecord r.(br_kind) r.(br_id) e.(ae_state)
    (or_else (str "amount" ≫= parse_u128) r.(br_amount))
    (or_else (str "to") r.(br_to))
    (or_else (f "at" ≫= vu64) r.(br_at))
    (or_else (str "source_tx") r.(br_source_tx))
    (match str "hk_txid" with Some s => Some s | None => r.(br_hk_txid) end)
    (match str "eth_tx" with Some s => Some s | None => r.(br_eth_tx) end)
    (match str "note" with Some s => Some s | None => r.(br_note) end)
    e.(ae_t)
    (match f "attempt" with Some _ => wrapping u32_max (r.(br_attempts) + 1) | None => r.(br_attempts) end).
(** [Ledger::fold] *)
Definition fold_event (b : Books) (e : Event) : Books :=
  if bool_decide (e.(ae_kind) = "cursor") then
    let n := default 0 (vfield "n" e.(ae_fields) ≫= vu64) in
    if bool_decide (e.(ae_id) = "eth") then mkBooks b.(bk_records) n b.(bk_hk_cursor)
    else if bool_decide (e.(ae_id) = "hk") then mkBooks b.(bk_records) b.(bk_eth_cursor) n
    else b
  else
    let k := record_key e.(ae_kind) e.(ae_id) in
    let r := default (new_record e.(ae_kind) e.(ae_id)) (b.(bk_records) !! k) in
    mkBooks (<[k := update e r]> b.(bk_records)) b.(bk_eth_cursor) b.(bk_hk_cursor).
Definition fold_events (es : list Event) (b : Books) : Books := foldl fold_event b es.
Definition new_books (eth_from hk_from : Z) : Books := mkBooks ∅ (sat_sub eth_from 1) (sat_sub hk_from 1).

(** * Lines *)

(** [BufRead::lines]: a line ends at a line feed, which a carriage return may precede. *)
Definition strip_cr (l : bytes) : bytes :=
  match last l with Some x0d => take (length l - 1) l | _ => l end.
Fixpoint lines_from (acc l : bytes) : list bytes :=
  match l with
  | [] => match acc with [] => [] | _ => [acc] end
  | b :: l => if bool_decide (b = x0a) then strip_cr acc :: lines_from [] l else lines_from (acc ++ [b]) l
  end.
Definition file_lines (f : bytes) : list bytes := lines_from [] f.
Definition is_blank (l : bytes) : bool := forallb (λ b, is_space (Ascii.ascii_of_byte b)) l.

Section ledger.
Context {LT : LineText}.

Fixpoint read_events (ls : list bytes) : option (list Event) :=
  match ls with
  | [] => Some []
  | l :: ls =>
      if is_blank l then read_events ls
      else e ← dec_event l; es ← read_events ls; Some (e :: es)
  end.
(** [Ledger::open]: the books, or the error of a line that does not parse. *)
Definition open_ledger (file : bytes) (eth_from hk_from : Z) : option Books :=
  es ← read_events (file_lines file); Some (fold_events es (new_books eth_from hk_from)).

Record Ledger := mkLedger { ld_file : bytes; ld_books : Books }.
Definition ld_append (b : bytes) (l : Ledger) : Ledger := mkLedger (l.(ld_file) ++ b) l.(ld_books).
Definition ld_fold (e : Event) (l : Ledger) : Ledger := mkLedger l.(ld_file) (fold_event l.(ld_books) e).
Definition event_line (e : Event) : bytes := enc_event e ++ [x0a].
(** [Ledger::write], with the time and the outcome of the append. *)
Definition write_event (kind id state : string) (fields : list (string * Value)) (now : Z) (a : Append) : M Ledger CliError unit :=
  let e := mkEvent now kind id state fields in
  match a with
  | ADone => modifyM (ld_append (event_line e)) ;;; modifyM (ld_fold e)
  | AFailed n => modifyM (ld_append (take n (event_line e))) ;;; failM (Fail "ledger")
  | AKilled n => modifyM (ld_append (take n (event_line e))) ;;; failM Killed
  end.
End ledger.

(** [cmd_ledger resolve], with the arguments parsed. *)
Definition RESOLUTIONS : list string := ["confirmed"; "seen"; "needs_review"].
Definition resolve {LT : LineText} (kind id state : string) (fields : list (string * Value)) (now : Z) (a : Append) : M bytes CliError unit :=
  let* file := getM in
  let* b := ok_or (open_ledger file 0 0) (Fail "ledger line") in
  refuse_if (negb (bool_decide (state ∈ RESOLUTIONS))) (Fail "usage") ;;;
  let* _ := ok_or (b.(bk_records) !! record_key kind id) (Fail "no record") in
  zoom (λ f, mkLedger f b) (λ l _, l.(ld_file)) (λ e, e) (write_event kind id state fields now a).

Definition has (kind id : string) (b : Books) : bool := bool_decide (is_Some (b.(bk_records) !! record_key kind id)).
(** [in_states], in the order of the keys *)
Definition in_states (kind : string) (states : list string) (b : Books) : list BridgeRecord :=
  filter (λ r, r.(br_kind) = kind ∧ r.(br_state) ∈ states) (btree_iter b.(bk_records)).*2.

(** * What a file reads back as *)

(** Strings and integers, the only values the service writes. *)
Definition scalar (v : Value) : Prop := match v with VStr _ | VNum _ => True | _ => False end.
Definition plain (e : Event) : Prop := NoDup e.(ae_fields).*1 ∧ Forall (λ kv, scalar kv.2) e.(ae_fields).
(** The same event, its fields in any order. *)
Definition same_event (e e' : Event) : Prop :=
  e'.(ae_t) = e.(ae_t) ∧ e'.(ae_kind) = e.(ae_kind) ∧ e'.(ae_id) = e.(ae_id) ∧ e'.(ae_state) = e.(ae_state) ∧
  ∀ k, vfield k e'.(ae_fields) = vfield k e.(ae_fields).
(** A beginning of the text of an event. *)
Definition frag `{LineText} (p : bytes) : Prop := ∃ e, plain e ∧ p ≠ [] ∧ p `prefix_of` enc_event e.
(** serde_json's text of an event is an object on one line: it reads back, and
    neither a part of it nor parts of several in a row do. *)
Class LineLaws (LT : LineText) : Prop := {
  line_roundtrip e : plain e → ∃ e', dec_event (enc_event e) = Some e' ∧ same_event e e';
  line_object e : plain e → ∃ l, enc_event e = x7b :: l;
  line_single e : plain e → Forall (λ b, b ≠ x0a ∧ b ≠ x0d) (enc_event e);
  line_cut e p : plain e → p `prefix_of` enc_event e → p ≠ enc_event e → dec_event p = None;
  line_glued p ps : frag p → ps ≠ [] → Forall frag ps → dec_event (p ++ concat ps) = None;
}.

Section file.
Context {LT : LineText} {LAWS : LineLaws LT}.
Implicit Types (e : Event) (es : list Event) (f g p t : bytes) (P Q : list Event → Prop).

Definition unbroken (l : bytes) : Prop := Forall (λ b, b ≠ x0a ∧ b ≠ x0d) l.
Definition glued t : Prop := ∃ p ps, frag p ∧ ps ≠ [] ∧ Forall frag ps ∧ t = p ++ concat ps.
Definition text es : bytes := concat (event_line <$> es).
(** What appends may make of a file: events of which [P] holds, behind them a part
    of a line, or a line that will never read and anything. *)
Inductive holds P : bytes → Prop :=
  | holds_text es : Forall plain es → P es → holds P (text es)
  | holds_tail es e p : Forall plain es → plain e → p ≠ [] → p `prefix_of` enc_event e →
      (p = enc_event e → P (es ++ [e])) → holds P (text es ++ p)
  | holds_dead es t g : Forall plain es → glued t → (g = [] ∨ ∃ g', g = x0a :: g') → holds P (text es ++ t ++ g).

Lemma lines_from_line acc l rest :
  unbroken l → lines_from acc (l ++ x0a :: rest) = strip_cr (acc ++ l) :: lines_from [] rest.
Proof.
  intros H. revert acc. induction H as [|b l [Hb _] _ IH]; intros acc; cbn.
  - by rewrite app_nil_r.
  - rewrite bool_decide_eq_false_2 by done. rewrite IH. by rewrite <-app_assoc.
Qed.
Lemma lines_from_last acc l : unbroken l → l ≠ [] → lines_from acc l = [acc ++ l].
Proof.
  intros H. revert acc. induction H as [|b l [Hb _] Hl IH]; intros acc Hn; [done|]. cbn.
  rewrite bool_decide_eq_false_2 by done. destruct l as [|c l].
  - cbn. by destruct acc.
  - rewrite IH by done. by rewrite <-app_assoc.
Qed.
Lemma strip_cr_unbroken l : unbroken l → strip_cr l = l.
Proof.
  intros H. unfold strip_cr. destruct (last l) as [b|] eqn:E; [|done].
  apply last_Some in E as [k ->]. apply Forall_app in H as [_ H]. apply Forall_singleton in H as [_ H]. by destruct b.
Qed.
Lemma not_blank l : is_blank (x7b :: l) = false.
Proof. done. Qed.
(** A first line that begins an object. *)
Lemma read_first l rest :
  unbroken (x7b :: l) → (rest = [] ∨ ∃ r, rest = x0a :: r) →
  read_events (file_lines ((x7b :: l) ++ rest)) =
    (e ← dec_event (x7b :: l); es ← read_events (file_lines (tail rest)); Some (e :: es)).
Proof.
  intros H Hr. unfold file_lines. destruct Hr as [->|[r ->]].
  - rewrite app_nil_r, lines_from_last by done. done.
  - rewrite lines_from_line, strip_cr_unbroken by done. done.
Qed.
Lemma enc_unbroken e : plain e → ∃ l, enc_event e = x7b :: l ∧ unbroken (x7b :: l).
Proof.
  intros H. destruct (line_object e H) as [l E]. exists l. split; [done|]. unfold unbroken. rewrite <-E. by apply line_single.
Qed.
Lemma frag_unbroken p : frag p → ∃ l, p = x7b :: l ∧ unbroken p.
Proof.
  intros (e & He & Hn & Hp). destruct (enc_unbroken e He) as (l & E & Hu). rewrite E in Hp.
  destruct p as [|b p]; [done|]. destruct Hp as [k Hk]. injection Hk as Hb ->.
  exists p. subst. split; [done|]. rewrite app_comm_cons in Hu. by apply Forall_app in Hu as [??].
Qed.
Lemma glued_unreadable t g : glued t → (g = [] ∨ ∃ g', g = x0a :: g') → read_events (file_lines (t ++ g)) = None.
Proof.
  intros (p & ps & Hp & Hn & Hps & ->) Hg. destruct (frag_unbroken p Hp) as (l & -> & Hu).
  pose proof (line_glued _ _ Hp Hn Hps) as Hd.
  cut (unbroken (x7b :: (l ++ concat ps))).
  { intros Hu'. pose proof (read_first _ g Hu' Hg) as R. cbn [app] in R, Hd |- *. by rewrite R, Hd. }
  change (unbroken ((x7b :: l) ++ concat ps)). apply Forall_app. split; [done|]. apply Forall_concat.
  eapply Forall_impl; [done|]. intros q Hq. by destruct (frag_unbroken q Hq) as (? & _ & ?).
Qed.
Lemma read_text es rest :
  Forall plain es → ∃ es', Forall2 same_event es es' ∧
    read_events (file_lines (text es ++ rest)) = app es' <$> read_events (file_lines rest).
Proof.
  induction 1 as [|e es He _ (es' & H2 & IH)].
  - exists []. split; [done|]. cbn. by destruct (read_events _).
  - destruct (line_roundtrip e He) as (e' & Hd & Hs). exists (e' :: es'). split; [by constructor|].
    unfold text. rewrite fmap_cons. cbn [concat]. unfold event_line at 1. rewrite <-!app_assoc. cbn [app].
    destruct (enc_unbroken e He) as (l & E & Hu). rewrite E in Hd |- *. rewrite read_first; [|done|by eauto].
    rewrite Hd. cbn [mbind option_bind tail]. fold (text es). rewrite IH. by destruct (read_events (file_lines rest)).
Qed.
Lemma same_refl e : same_event e e.
Proof. by repeat split. Qed.
(** A file of which [P] holds reads as events of which it holds, or not at all. *)
Lemma holds_read P f : holds P f → ∀ es', read_events (file_lines f) = Some es' → ∃ es, P es ∧ Forall2 same_event es es'.
Proof.
  intros [es Hes HP|es e p Hes He Hn Hp HP|es t g Hes Ht Hg] es' E.
  - destruct (read_text es [] Hes) as (es1 & H & R). rewrite app_nil_r in R. rewrite E in R. cbn in R.
    rewrite app_nil_r in R. simplify_eq. by exists es.
  - destruct (read_text es p Hes) as (es1 & H & R). rewrite E in R.
    assert (Hf : frag p) by by exists e. destruct (frag_unbroken p Hf) as (l & -> & Hu).
    pose proof (read_first l [] Hu (or_introl eq_refl)) as R1. rewrite app_nil_r in R1. rewrite R1 in R. clear R1.
    destruct (decide (x7b :: l = enc_event e)) as [Eq|Hne].
    + destruct (line_roundtrip e He) as (e' & Hd & Hs). rewrite Eq, Hd in R. cbn in R. simplify_eq.
      exists (es ++ [e]). split; [by apply HP|]. apply Forall2_app; [done|]. by constructor.
    + rewrite (line_cut e (x7b :: l)) in R by done. done.
  - destruct (read_text es (t ++ g) Hes) as (es1 & _ & R). rewrite E, glued_unreadable in R by done. done.
Qed.
(** ... and then of no others. *)
Lemma holds_same P f es' : holds P f → read_events (file_lines f) = Some es' → holds (λ es, P es ∧ Forall2 same_event es es') f.
Proof.
  intros H E. assert (Hr : ∀ Q, holds Q f → ∃ es, Q es ∧ Forall2 same_event es es') by (intros Q HQ; by eapply holds_read).
  destruct H as [es Hes HP|es e p Hes He Hn Hp HP|es t g Hes Ht Hg].
  - destruct (Hr _ (holds_text (eq es) es Hes eq_refl)) as (? & <- & ?). by apply holds_text.
  - apply (holds_tail _ es e); [done..|]. intros Hq. split; [by apply HP|].
    by destruct (Hr _ (holds_tail (eq (es ++ [e])) es e p Hes He Hn Hp (λ _, eq_refl))) as (? & <- & ?).
  - by destruct (Hr _ (holds_dead (λ _, False) es t g Hes Ht Hg)) as (? & [] & _).
Qed.
Lemma holds_mono P Q f : (∀ es, P es → Q es) → holds P f → holds Q f.
Proof.
  intros H [es ? ?|es e p ? ? ? ? ?|es t g ? ? ?];
    [apply holds_text|eapply holds_tail|apply holds_dead]; eauto.
Qed.
Lemma text_snoc es e : text (es ++ [e]) = text es ++ event_line e.
Proof. unfold text. rewrite fmap_app, concat_app. cbn. by rewrite app_nil_r. Qed.
Lemma glued_app t p : glued t → frag p → glued (t ++ p).
Proof.
  intros (q & qs & Hq & Hn & Hqs & ->) Hp. exists q, (qs ++ [p]). split; [done|]. split; [by destruct qs|].
  split; [by apply Forall_app_2; [|constructor]|]. rewrite concat_app. cbn. by rewrite app_nil_r, app_assoc.
Qed.
Lemma frag_glued p q : frag p → frag q → glued (p ++ q).
Proof. intros Hp Hq. exists p, [q]. cbn. rewrite app_nil_r. by repeat constructor. Qed.
Lemma enc_frag e : plain e → frag (enc_event e).
Proof. intros H. exists e. split; [done|]. split; [|done]. by destruct (line_object e H) as [l ->]. Qed.
(** A line written whole is the last event, if the file still reads. *)
Lemma holds_write P e f :
  plain e → holds P f → holds (λ es, ∃ es0, es = es0 ++ [e] ∧ P es0) (f ++ event_line e).
Proof.
  intros He [es ? ?|es e1 p ? ? ? ? ?|es t g ? Ht Hg].
  - rewrite <-text_snoc. apply holds_text; [by apply Forall_app_2; [|constructor]|by eauto].
  - unfold event_line. rewrite <-app_assoc, (app_assoc p). apply holds_dead; [done| |by eauto].
    apply frag_glued; [by exists e1|by apply enc_frag].
  - destruct Hg as [->|[g' ->]]; unfold event_line; rewrite <-!app_assoc; cbn.
    + rewrite (app_assoc t). apply holds_dead; [done| |by eauto]. by apply glued_app, enc_frag.
    + apply holds_dead; [done..|by eauto].
Qed.
(** A line written in part: its event may be the last one or not. *)
Lemma holds_part P e n f :
  plain e → holds P f → holds (λ es, P es ∨ ∃ es0, es = es0 ++ [e] ∧ P es0) (f ++ take n (event_line e)).
Proof.
  intros He Hf. destruct (decide (length (enc_event e) < n)%nat) as [Hn|Hn].
  { rewrite take_ge by (unfold event_line; rewrite length_app; cbn; lia).
    eapply holds_mono; [|by apply holds_write]. cbn. by right. }
  unfold event_line. rewrite take_app_le by lia.
  destruct (decide (take n (enc_event e) = [])) as [->|Hne].
  { rewrite app_nil_r. eapply holds_mono; [|done]. by left. }
  assert (Hp : take n (enc_event e) `prefix_of` enc_event e) by apply prefix_take.
  assert (Hfr : frag (take n (enc_event e))) by by exists e.
  destruct Hf as [es ? ?|es e1 p ? ? ? ? ?|es t g ? Ht Hg].
  - apply (holds_tail _ es e); [done..|]. intros _. right. by exists es.
  - rewrite <-app_assoc, <-(app_nil_r (p ++ _)). apply holds_dead; [done| |by left].
    apply frag_glued; [by exists e1|done].
  - destruct Hg as [->|[g' ->]]; rewrite <-!app_assoc; cbn.
    + rewrite <-(app_nil_r (t ++ _)). apply holds_dead; [done| |by left]. by apply glued_app.
    + apply holds_dead; [done..|by eauto].
Qed.
End file.
