(* ===== verification/Bridge.v ===== *)
(** The bridge service (hk-node/src/attest.rs): deposits seen on Ethereum are
    minted on the chain, burns seen on the chain are attested to Ethereum.  One
    loop, one ledger; a record is [submitting] on disk before anything leaves.

    Of [Health] only the safe head is kept: the rest is written and never read. *)

From S2P Require Export Attest Eth.
From S2P Require Import Signer.
#[local] Open Scope Z_scope.

(** The configuration, parsed, with the environment variables applied. *)
Record BridgeCfg := mkBridgeCfg {
  bc_chain_id : Z;
  bc_vault : Address;
  bc_wrapped : option Address;
  bc_signer : EthSigner;
  bc_vault_domain : H256;
  bc_wrapped_domain : option H256;
  bc_usdc : AssetId;
  bc_hkt : option AssetId;
  bc_confirm : string;
  bc_log_page : Z;
  bc_hk_batch : Z;
  bc_cosigners : list string;
}.

Record Svc := mkSvc { sv_client : Client; sv_ledger : Ledger; sv_safe : Z }.
Definition sv_set_client (c : Client) (s : Svc) : Svc := mkSvc c s.(sv_ledger) s.(sv_safe).
Definition sv_set_ledger (l : Ledger) (s : Svc) : Svc := mkSvc s.(sv_client) l s.(sv_safe).
Definition sv_set_safe (n : Z) (s : Svc) : Svc := mkSvc s.(sv_client) s.(sv_ledger) n.
#[local] Notation Sv A := (M Svc CliError A).
Definition on_client {A} (m : M Client CliError A) : Sv A := zoom sv_client sv_set_client id m.

(** * Reading blocks of the chain *)

(** [hk_burns_at]: the burns of an asset in a block, each with its receipt class;
    refused ones are left out. *)
Inductive BurnClass := BurnOk | BurnUnknown.
Definition burn_class (tx : Value) : option BurnClass :=
  match vget "receipt" tx with
  | Some (VStr r) => if starts_with "ok" r then Some BurnOk else None
  | Some (VObj _ as o) =>
      match vget "found" o ≫= vbool, vget "ok" o ≫= vbool with
      | Some true, Some true => Some BurnOk
      | Some true, _ => None
      | _, _ => Some BurnUnknown
      end
  | _ => Some BurnUnknown
  end.
Definition burn_of (asset_hex : string) (tx : Value) : option (string * Z * string * BurnClass) :=
  if negb (bool_decide (vget "kind" tx ≫= vstr = Some "asset_burn")) then None else
  let f := default VNull (vget "fields" tx) in
  if negb (bool_decide (vget "asset" f ≫= vstr = Some asset_hex)) then None else
  class ← burn_class tx;
  Some (default "" (vget "txid" tx ≫= vstr),
        default 0 (a ← (vget "amount" f ≫= vstr); parse_u128 a),
        default "" (vget "destination" f ≫= vstr), class).
Definition hk_burns (asset_hex : string) (v : Value) : option (list (string * Z * string * BurnClass)) :=
  match vget "error" v with
  | Some _ => None
  | None =>
      r ← vget "result" v;
      if bool_decide (vget "found" r ≫= vbool = Some false) then None
      else Some (omap (burn_of asset_hex) (default [] (vget "txs" r ≫= varr)))
  end.

Section service.
Context {SHAKE : Shake} {CODECS : Codecs} {TEXT : JsonText} {LT : LineText} {KECCAK : Keccak} {SECP : Secp}.
Context (cfg : BridgeCfg).

(** * The ledger *)

Definition next_append : Sv (Z * Append) :=
  on_client (next_answer (λ x, match x with OnAppend t a => Some (t, a) | _ => None end)).
Definition write (kind id state : string) (fields : list (string * Value)) : Sv unit :=
  let* '(now, a) := next_append in
  zoom sv_ledger sv_set_ledger (λ e : CliError, e) (write_event kind id state fields now a).
Definition cursor (chain : string) (n : Z) : Sv unit := write "cursor" chain "" [("n", VNum n)].
Definition books : Sv Books := λ s, (s, Ok s.(sv_ledger).(ld_books)).
Definition note (text : string) : list (string * Value) := [("note", VStr text)].

(** * Ethereum to the chain *)

(** [eth_safe_head] *)
Definition eth_safe_head (head : Z) : Sv Z :=
  let c := trim cfg.(bc_confirm) in
  if bool_decide (c ∈ ["finalized"; "safe"; "latest"]) then on_client tagged_block
  else let* n := ok_or (parse_u64 c) (Fail "eth.confirm") in retM (sat_sub head n).
Definition record_eth_event (kind : string) (ev : BridgeEvent) : Sv unit :=
  let id := hex (h256_bytes ev.(be_id)) in
  let* b := books in
  if has kind id b then retM tt
  else write kind id "seen"
    [("amount", VStr (pretty ev.(be_amount))); ("to", VStr (hex (h256_bytes ev.(be_hk_account))));
     ("at", VNum ev.(be_block)); ("source_tx", VStr ev.(be_tx_hash))].
Definition record_logs (kind : string) (logs : list Value) : Sv unit :=
  for_eachM (λ log, let* ev := ok_or (decode_bridge_event log) (Fail "log") in record_eth_event kind ev) logs.
(** The pages up to the head; each takes answers from the script, so as many
    turns as the script has answers are enough. *)
Fixpoint scan_pages (fuel : nat) (head : Z) : Sv unit :=
  match fuel with
  | O => failM Killed
  | S fuel =>
      let* b := books in
      if head <=? b.(bk_eth_cursor) then retM tt
      else
        let from := wrapping u64_max (b.(bk_eth_cursor) + 1) in
        let to := Z.min (wrapping u64_max (from + cfg.(bc_log_page) - 1)) head in
        let* locked := on_client eth_logs in
        record_logs "deposit" locked ;;;
        (match cfg.(bc_wrapped) with
         | Some _ => let* burned := on_client eth_logs in record_logs "wburn" burned
         | None => retM tt
         end) ;;;
        cursor "eth" to ;;;
        scan_pages fuel head
  end.
Definition script_length (s : Svc) : nat := length s.(sv_client).(cl_script).
Definition scan_eth : Sv unit :=
  let* head := on_client block_number in
  let* safe := eth_safe_head head in
  modifyM (sv_set_safe safe) ;;;
  let* s := getM in
  scan_pages (S (script_length s)) head.

(** A record that waits for a receipt. *)
Definition settle_receipt (kind id : string) (r : option string) : Sv unit :=
  match r with
  | Some rc => write kind id (if starts_with "ok" rc then "confirmed" else "rejected") (note rc)
  | None => retM tt
  end.
(** One record of [process_eth_events]. *)
Definition process_event (kind : string) (asset : AssetId) (safe : Z) (r : BridgeRecord) : Sv unit :=
  let id := r.(br_id) in
  if bool_decide (r.(br_state) = "submitted") then
    match r.(br_hk_txid) with
    | Some _ => let* v := on_client hk_rpc in settle_receipt kind id (receipt v)
    | None => retM tt
    end
  else if safe <? r.(br_at) then retM tt
  else match parse_h256 r.(br_to) with
  | None => write kind id "needs_review" (note "bad hk account id")
  | Some to =>
      let* v := on_client hk_rpc in
      match account_nonce v with
      | None =>
          if negb (bool_decide (r.(br_state) = "held_recipient"))
          then write kind id "held_recipient" (note "hk account does not exist yet") else retM tt
      | Some _ =>
          if r.(br_amount) =? 0 then write kind id "needs_review" (note "zero amount")
          else
            write kind id "submitting" [("attempt", VNum 1)] ;;;
            let* s := attempt (on_client (hk_submit (Tx.AssetMint asset to r.(br_amount)))) in
            match s with
            | inr txid =>
                write kind id "submitted" [("hk_txid", VStr txid)] ;;;
                let* rc := on_client (wait_receipt 30) in
                settle_receipt kind id rc
                | inl e => write kind id "seen" (note ("submit failed: " +:+ e)) ;;; failM (Fail e)
            end
      end
  end.
Definition OPEN_EVENTS : list string := ["seen"; "held_recipient"; "submitted"].
Definition process_kind (kind : string) (asset : AssetId) : Sv unit :=
  let* s := getM in
  for_eachM (process_event kind asset s.(sv_safe)) (in_states kind OPEN_EVENTS s.(sv_ledger).(ld_books)).
Definition process_eth_events : Sv unit :=
  process_kind "deposit" cfg.(bc_usdc) ;;;
  match cfg.(bc_hkt) with Some a => process_kind "wburn" a | None => retM tt end.

(** * The chain to Ethereum *)

Definition record_hk_burn (kind : string) (height : Z) (b : string * Z * string * BurnClass) : Sv unit :=
  let '(txid, amount, dest, class) := b in
  let* bk := books in
  if has kind txid bk then retM tt
  else
    let '(state, text) :=
      match class with
      | BurnUnknown => ("needs_review", "the node has no receipt for this burn")
      | BurnOk => if Z.of_nat (String.length dest) =? 40 then ("seen", "")
                  else ("unbridgeable", "destination is not a 20-byte address")
      end in
    write kind txid state
      ([("amount", VStr (pretty amount)); ("to", VStr ("0x" +:+ dest)); ("at", VNum height);
        ("source_tx", VStr txid)] ++ note text).
Definition scan_burns (kind : string) (asset : AssetId) (h : Z) : Sv unit :=
  let* v := on_client hk_rpc in
  let* burns := ok_or (hk_burns (hex (h256_bytes asset)) v) (Fail "hk_getBlock") in
  for_eachM (record_hk_burn kind h) burns.
Fixpoint scan_heights (fuel : nat) (stop : Z) : Sv unit :=
  match fuel with
  | O => failM Killed
  | S fuel =>
      let* b := books in
      if stop <=? b.(bk_hk_cursor) then retM tt
      else
        let h := wrapping u64_max (b.(bk_hk_cursor) + 1) in
        scan_burns "burn" cfg.(bc_usdc) h ;;;
        (match cfg.(bc_hkt) with Some a => scan_burns "wlock" a h | None => retM tt end) ;;;
        cursor "hk" h ;;;
        scan_heights fuel stop
  end.
Definition scan_hk : Sv unit :=
  let* v := on_client hk_rpc in
  let height := chain_height v in
  refuse_if (height =? 0) (Fail "hk: chain height 0 / RPC unreachable") ;;;
  let* s := getM in
  let stop := Z.min (wrapping u64_max (s.(sv_ledger).(ld_books).(bk_hk_cursor) + cfg.(bc_hk_batch))) height in
  scan_heights (S (script_length s)) stop.

(** Signatures ordered by the address of their signer, one for each. *)
Fixpoint dedup_by_address (l : list (Address * bytes)) : list (Address * bytes) :=
  match l with
  | x :: ((y :: _) as r) => if bool_decide (x.1 = y.1)
                            then match dedup_by_address r with _ :: r' => x :: r' | [] => [x] end
                            else x :: dedup_by_address r
  | l => l
  end.
(** The reply of a co-signer, if it is a signature and an address. *)
Definition cosignature (r : string + Value) : option (Address * bytes) :=
  match r with
  | inr v =>
      s ← (x ← (vget "sig" v ≫= vstr); unhex x);
      a ← (x ← (vget "address" v ≫= vstr); address_parse x);
      if Z.of_nat (length s) =? 65 then Some (a, s) else None
  | inl _ => None
  end.
Fixpoint ask_cosigners (urls : list string) : Sv (list (Address * bytes)) :=
  match urls with
  | [] => retM []
  | _ :: urls =>
      let* r := on_client (next_answer (λ x, match x with OnCosign r => Some r | _ => None end)) in
      let* l := ask_cosigners urls in
      retM (match cosignature r with Some s => s :: l | None => l end)
  end.
Definition attest (domain : H256) (type_sig : string) (to : Address) (amount : Z) (id : H256) : Sv (list bytes) :=
  let digest := typed_digest domain (attest_struct_hash type_sig to amount id) in
  let* own := ok_or (sign_digest cfg.(bc_signer) digest) (Fail "sign") in
  let* others := ask_cosigners cfg.(bc_cosigners) in
  let sigs := sort_by (λ a b, bytes_leb (address_bytes a.1) (address_bytes b.1))
                ((cfg.(bc_signer).(sg_address), own) :: others) in
  retM (dedup_by_address sigs).*2.

(** Twenty looks at the receipt of a sent call. *)
Fixpoint wait_call (n : nat) (kind id : string) : Sv unit :=
  match n with
  | O => retM tt
  | S n =>
      let* st := on_client receipt_status in
      match st with
      | Some (true, b) => write kind id "confirmed" (note ("eth block " +:+ pretty b))
      | Some (false, b) => write kind id "reverted" (note ("eth tx reverted in block " +:+ pretty b))
      | None => wait_call n kind id
      end
  end.
(** One record of [process_hk_burns]. *)
Definition process_burn (kind : string) (contract : Address) (domain : H256) (fn_sig type_sig : string)
    (paused : bool) (remaining : Z) (r : BridgeRecord) : Sv unit :=
  match h256_of_hex r.(br_id) with
  | None => retM tt
  | Some id =>
      let* processed := on_client eth_call_u in
      if processed =? 1 then
        if negb (bool_decide (r.(br_state) = "confirmed"))
        then write kind r.(br_id) "confirmed" (note "processed on chain") else retM tt
      else if bool_decide (r.(br_state) = "submitted") then
        match r.(br_eth_tx) with
        | Some _ =>
            let* st := on_client receipt_status in
            match st with
            | Some (false, b) => write kind r.(br_id) "reverted" (note ("eth tx reverted in block " +:+ pretty b))
            | _ => retM tt
            end
        | None => retM tt
        end
      else if paused then
        if negb (bool_decide (r.(br_state) = "queued_paused"))
        then write kind r.(br_id) "queued_paused" (note "contract paused") else retM tt
      else if remaining <? r.(br_amount) then
        if negb (bool_decide (r.(br_state) = "queued_cap"))
        then write kind r.(br_id) "queued_cap" (note ("daily cap: " +:+ pretty remaining +:+ " remaining today")) else retM tt
      else
        let* to := ok_or (address_parse r.(br_to)) (Fail "address") in
        let* sigs := attest domain type_sig to r.(br_amount) id in
        let data := encode_attested_call fn_sig to r.(br_amount) id sigs in
        write kind r.(br_id) "submitting" [("attempt", VNum 1)] ;;;
        let* s := attempt (on_client (send_call cfg.(bc_chain_id) cfg.(bc_signer) contract data)) in
        match s with
        | inr tx => write kind r.(br_id) "submitted" [("eth_tx", VStr tx)] ;;; wait_call 20 kind r.(br_id)
        | inl e => write kind r.(br_id) "seen" (note ("send failed: " +:+ e)) ;;; failM (Fail e)
        end
  end.
Definition OPEN_BURNS : list string := ["seen"; "queued_cap"; "queued_paused"; "submitted"].
Definition UNLOCK_FN : string := "unlock(address,uint256,bytes32,bytes[])".
Definition MINT_FN : string := "mint(address,uint256,bytes32,bytes[])".
Definition process_burns (kind : string) (contract : Address) (domain : H256) (fn_sig type_sig : string)
    (paused : bool) (remaining : Z) : Sv unit :=
  let* b := books in
  for_eachM (process_burn kind contract domain fn_sig type_sig paused remaining) (in_states kind OPEN_BURNS b).
Definition process_hk_burns : Sv unit :=
  let* paused := on_client eth_call_u in
  let* remaining := on_client eth_call_u in
  let* _ := attempt (on_client request_qty) in
  process_burns "burn" cfg.(bc_vault) cfg.(bc_vault_domain) UNLOCK_FN UNLOCK_TYPE (paused =? 1) remaining ;;;
  match cfg.(bc_wrapped), cfg.(bc_wrapped_domain) with
  | Some w, Some d => process_burns "wlock" w d MINT_FN MINT_TYPE (paused =? 1) remaining
  | _, _ => retM tt
  end.

(** * The loop *)

Definition tick : Sv unit := scan_eth ;;; process_eth_events ;;; scan_hk ;;; process_hk_burns.
End service.

(** The ledger's share of the reconciliation: what is backed in the vault beyond
    the supply. *)
Definition pending (kind : string) (states : list string) (b : Books) : Z :=
  wrapping u128_max (foldr Z.add 0 (br_amount <$> in_states kind states b)).
Definition PENDING_BURNS : list string :=
  ["seen"; "queued_cap"; "queued_paused"; "submitting"; "submitted"; "unbridgeable"; "reverted"; "needs_review"].
Definition PENDING_DEPOSITS : list string :=
  ["seen"; "held_recipient"; "submitting"; "submitted"; "rejected"; "needs_review"].
Definition reconciled (reserves supply_minus_burned : Z) (b : Books) : bool :=
  reserves =? wrapping u128_max
    (supply_minus_burned + pending "burn" PENDING_BURNS b + pending "deposit" PENDING_DEPOSITS b).
