(* ===== verification/Minting.v ===== *)
(** No deposit is minted twice: the life of the bridge service, with ticks cut
    short anywhere, kills, restarts from the ledger and an operator, and what its
    ledger knows of the mints that entered the chain. *)

From S2P Require Import Signer State Toy Demo.
From S2P Require Export Bridge.
#[local] Open Scope Z_scope.
#[local] Opaque sign_tx typed_digest attest_struct_hash encode_attested_call sign_digest sign_1559.

(** What a mint pays: an asset, to an account, an amount. *)
Definition Due : Type := AssetId * AccountId * Z.
Definition mint_sent (x : Sent) : option Due :=
  match x with
  | SentTx tx true => match tx.(stx_payload) with Tx.AssetMint asset to amount => Some (asset, to, amount) | _ => None end
  | _ => None
  end.
(** The mints that entered the chain, in order. *)
Definition minted (l : list Sent) : list Due := omap mint_sent l.
(** The asset of a kind that mints. *)
Definition mint_asset (cfg : BridgeCfg) (kind : string) : option AssetId :=
  if bool_decide (kind = "deposit") then Some cfg.(bc_usdc)
  else if bool_decide (kind = "wburn") then cfg.(bc_hkt) else None.
(** What a record is owed. *)
Definition due (cfg : BridgeCfg) (r : BridgeRecord) : option Due :=
  asset ← mint_asset cfg r.(br_kind); to ← parse_h256 r.(br_to); Some (asset, to, r.(br_amount)).
(** A record the service would mint for. *)
Definition WAITING : list string := ["seen"; "held_recipient"].

Section life.
Context {SHAKE : Shake} {CODECS : Codecs} {TEXT : JsonText} {LT : LineText} {KECCAK : Keccak} {SECP : Secp}.
Context (cfg : BridgeCfg).

(** A reply that reports a failure is of a transaction that did not enter. *)
Definition honest (x : Answer) : Prop :=
  match x with OnSubmit true v => starts_with SUBMIT_FAILED (submit_reply v) = false | _ => True end.

(** The service, off or running, and what it leaves on the disk and outside. *)
Record Life := mkLife { lf_file : bytes; lf_books : option Books; lf_sent : list Sent }.
Definition ended {A} (r : Svc * res CliError A) : Life :=
  mkLife r.1.(sv_ledger).(ld_file)
    match r.2 with Ok _ | Err (Fail _) => Some r.1.(sv_ledger).(ld_books) | Err Killed | Panic => None end
    r.1.(sv_client).(cl_sent).
(** A step: the service starts, ticks (its account file as other programs left it)
    and is killed, within a tick or between two; an operator resolves a record with
    the flags of the command line.  The command lets the operator send any record back
    to [seen], which asks for another mint: [unminted] is what the operator has to look
    up on the chain before that, and no check of the code. *)
Definition unminted (l : Life) (r : BridgeRecord) : Prop := ∀ d, due cfg r = Some d → d ∉ minted l.(lf_sent).
Inductive life_step (l : Life) : Life → Prop :=
  | life_start b ef hf :
      open_ledger l.(lf_file) ef hf = Some b → life_step l (mkLife l.(lf_file) (Some b) l.(lf_sent))
  | life_tick b account script safe :
      l.(lf_books) = Some b → Forall honest script →
      life_step l (ended (tick cfg (mkSvc (mkClient account script l.(lf_sent)) (mkLedger l.(lf_file) b) safe)))
  | life_kill : life_step l (mkLife l.(lf_file) None l.(lf_sent))
  | life_resolve b kind id state fields now a r :
      open_ledger l.(lf_file) 0 0 = Some b → b.(bk_records) !! record_key kind id = Some r →
      (state = "seen" → unminted l r) →
      Forall (λ kv, kv.1 ∈ ["note"; "hk_txid"; "eth_tx"] ∧ scalar kv.2) fields → NoDup fields.*1 →
      life_step l (mkLife (resolve kind id state fields now a l.(lf_file)).1 l.(lf_books) l.(lf_sent)).
(** From an empty ledger. *)
Inductive life : Life → Prop :=
  | life_new : life (mkLife [] None [])
  | life_next l l' : life l → life_step l l' → life l'.
End life.

(** * What a ledger knows of the mints *)

(** The minted records, each with what it was owed, in the order of the mints. *)
Definition Mints : Type := list (string * Due).
Definition RECORD_KINDS : list string := ["deposit"; "wburn"; "burn"; "wlock"].
Definition fold_record (e : Event) (m : gmap string BridgeRecord) : gmap string BridgeRecord :=
  if bool_decide (e.(ae_kind) = "cursor") then m
  else let k := record_key e.(ae_kind) e.(ae_id) in
       <[k := update e (default (new_record e.(ae_kind) e.(ae_id)) (m !! k))]> m.

Section books.
Context (cfg : BridgeCfg).
Implicit Types (L : Mints) (m f : gmap string BridgeRecord) (e : Event) (r : BridgeRecord) (k : string).
#[local] Notation due := (due cfg).

(** Of the records in memory, and of those the file would give back. *)
Definition known L m : Prop :=
  (∀ k r, m !! k = Some r → r.(br_kind) ∈ RECORD_KINDS ∧ k = record_key r.(br_kind) r.(br_id)) ∧
  ∀ k d, (k, d) ∈ L → ∃ r, m !! k = Some r ∧ r.(br_state) ∉ WAITING ∧ due r = Some d.
Definition agrees m f : Prop := ∀ k r, m !! k = Some r → ∃ r', f !! k = Some r' ∧ due r' = due r.
(** An event of a record that is there: its state only, and [seen] only when not minted. *)
Definition notes L m e : Prop :=
  is_Some (m !! record_key e.(ae_kind) e.(ae_id)) ∧
  vfield "amount" e.(ae_fields) = None ∧ vfield "to" e.(ae_fields) = None ∧
  (e.(ae_state) ∈ WAITING → ∀ d, (record_key e.(ae_kind) e.(ae_id), d) ∉ L).
(** The first event of a record. *)
Definition opens_record m e : Prop :=
  m !! record_key e.(ae_kind) e.(ae_id) = None ∧ e.(ae_kind) ∈ RECORD_KINDS ∧
  (∃ s a, vfield "amount" e.(ae_fields) = Some (VStr s) ∧ parse_u128 s = Some a) ∧
  ∃ s, vfield "to" e.(ae_fields) = Some (VStr s).
Definition admissible L m e : Prop := e.(ae_kind) = "cursor" ∨ e.(ae_kind) ∈ RECORD_KINDS ∧ (notes L m e ∨ opens_record m e).

Lemma record_key_inj k1 i1 k2 i2 :
  k1 ∈ RECORD_KINDS → k2 ∈ RECORD_KINDS → record_key k1 i1 = record_key k2 i2 → k1 = k2 ∧ i1 = i2.
Proof.
  intros H1%list_elem_of_In H2%list_elem_of_In E. cbn in H1, H2.
  destruct H1 as [<-|[<-|[<-|[<-|[]]]]], H2 as [<-|[<-|[<-|[<-|[]]]]]; (try discriminate); by injection E.
Qed.
Lemma kinds_cursor k : k ∈ RECORD_KINDS → k ≠ "cursor".
Proof. by intros H%list_elem_of_In ->; cbn in H; naive_solver. Qed.
Lemma update_kind e r : (update e r).(br_kind) = r.(br_kind) ∧ (update e r).(br_id) = r.(br_id) ∧ (update e r).(br_state) = e.(ae_state).
Proof. done. Qed.
Lemma update_due e r :
  vfield "amount" e.(ae_fields) = None → vfield "to" e.(ae_fields) = None → due (update e r) = due r.
Proof. intros Ha Ht. unfold Minting.due, update. cbn. by rewrite Ha, Ht. Qed.
Lemma update_due_fresh e r r' :
  r.(br_kind) = r'.(br_kind) → (∃ s a, vfield "amount" e.(ae_fields) = Some (VStr s) ∧ parse_u128 s = Some a) →
  (∃ s, vfield "to" e.(ae_fields) = Some (VStr s)) → due (update e r) = due (update e r').
Proof.
  intros Hk (s & a & Ha & Hp) (s' & Ht). unfold Minting.due, update. cbn. rewrite Hk, Ha, Ht. cbn. by rewrite Hp.
Qed.
(** A record that changes without changing what it is owed. *)
Lemma known_note L m e :
  e.(ae_kind) ≠ "cursor" → known L m → notes L m e → known L (fold_record e m).
Proof.
  intros Hk [HK HL] ((r & Hr) & Ha & Ht & Hs). unfold fold_record.
  rewrite bool_decide_eq_false_2 by done.
  rewrite Hr. cbn [default]. split.
  - intros k r1 [[<- <-]|[? H]]%lookup_insert_Some; [|by apply HK]. by apply (HK _ r).
  - intros k d Hin. destruct (HL k d Hin) as (r1 & H1 & H2 & H3).
    destruct (decide (record_key (ae_kind e) (ae_id e) = k)) as [<-|Hne].
    + rewrite lookup_insert_eq. eexists. split; [done|]. simplify_eq. rewrite update_due by done. split; [|done].
      intros Hw. by apply (Hs Hw d).
    + rewrite lookup_insert_ne by done. eauto.
Qed.
(** A record that opens, in a map of other records than those minted for. *)
Lemma known_open L m e :
  e.(ae_kind) ∈ RECORD_KINDS → known L m → (∀ d, (record_key e.(ae_kind) e.(ae_id), d) ∉ L) → known L (fold_record e m).
Proof.
  intros Hk [HK HL] Hn. unfold fold_record. rewrite bool_decide_eq_false_2 by by apply kinds_cursor. split.
  - intros k r1 [[<- <-]|[? H]]%lookup_insert_Some; [|by apply HK]. rewrite (proj1 (update_kind _ _)), (proj1 (proj2 (update_kind _ _))).
    destruct (m !! record_key (ae_kind e) (ae_id e)) as [r|] eqn:E; [by apply HK|done].
  - intros k d Hin. rewrite lookup_insert_ne by (intros <-; by apply (Hn d)). by apply HL.
Qed.
Lemma agrees_fold_file m f e :
  e.(ae_kind) ≠ "cursor" → (vfield "amount" e.(ae_fields) = None ∧ vfield "to" e.(ae_fields) = None ∨
    m !! record_key e.(ae_kind) e.(ae_id) = None) → agrees m f → agrees m (fold_record e f).
Proof.
  intros Hk Hc Ha k r Hr. destruct (Ha k r Hr) as (r' & Hr' & Hd). unfold fold_record.
  rewrite bool_decide_eq_false_2 by done.
  destruct (decide (record_key (ae_kind e) (ae_id e) = k)) as [<-|Hne].
  - destruct Hc as [[??]|?]; [|by simplify_eq]. rewrite lookup_insert_eq, Hr'. eexists. split; [done|].
    cbn [default]. by rewrite update_due.
  - rewrite lookup_insert_ne by done. eauto.
Qed.
Lemma agrees_fold L m f e : known L m → known L f → admissible L m e → agrees m f → agrees (fold_record e m) (fold_record e f).
Proof.
  intros Hm Hf Hadm Ha. unfold fold_record. destruct Hadm as [->|[Hk Hadm]]; [done|].
  rewrite bool_decide_eq_false_2 by by apply kinds_cursor.
  intros k r [[<- <-]|[Hne Hr]]%lookup_insert_Some; [|rewrite lookup_insert_ne by done; by apply Ha].
  rewrite lookup_insert_eq. eexists. split; [done|]. destruct Hadm as [((r & Hr) & ? & ? & _)|(Hr & _ & Hx & Ht)].
  - destruct (Ha _ _ Hr) as (r' & Hr' & Hd). rewrite Hr, Hr'. cbn [default]. by rewrite !update_due.
  - rewrite Hr. cbn [default]. apply update_due_fresh; [|done..].
    destruct (f !! record_key (ae_kind e) (ae_id e)) as [r'|] eqn:E; [|done]. cbn [default].
    destruct (proj1 Hf _ _ E) as [Hk' E']. apply record_key_inj in E' as [-> _]; done.
Qed.
Lemma admissible_fresh L m e :
  known L m → opens_record m e → ∀ d, (record_key e.(ae_kind) e.(ae_id), d) ∉ L.
Proof. intros [_ HL] (Hn & _) d Hin. destruct (HL _ _ Hin) as (r & Hr & _). congruence. Qed.
Lemma known_fold L m e : known L m → admissible L m e → known L (fold_record e m).
Proof.
  intros Hm [E|[Hk [Hn|Ho]]].
  - unfold fold_record. by rewrite E.
  - by apply known_note; [apply kinds_cursor|..].
  - apply known_open; [done..|]. by apply (admissible_fresh L m).
Qed.
(** What a file is to hold when [m] is in memory. *)
Definition backs L m f : Prop := known L f ∧ agrees m f.
Lemma backs_part L m f e : known L m → admissible L m e → backs L m f → backs L m (fold_record e f).
Proof.
  intros Hm Hadm [Hf Ha]. destruct Hadm as [E|[Hk Hadm]]; [unfold fold_record; by rewrite E|].
  destruct Hadm as [Hn|Ho].
  - destruct Hn as ((r & Hr) & ? & ? & Hs). destruct (Ha _ _ Hr) as (r' & Hr' & _). split.
    + apply known_note; [by apply kinds_cursor|done|]. split; [by exists r'|]. done.
    + apply agrees_fold_file; [by apply kinds_cursor|by left|done].
  - split.
    + apply known_open; [done..|]. by apply (admissible_fresh L m).
    + apply agrees_fold_file; [by apply kinds_cursor|right; apply Ho|done].
Qed.
Lemma backs_fold L m f e : known L m → admissible L m e → backs L m f → backs L (fold_record e m) (fold_record e f).
Proof.
  intros Hm Hadm [Hf Ha]. split; [|by eapply agrees_fold]. by apply (backs_part L m).
Qed.
(** One more mint. *)
Lemma known_mint L m k d r :
  known L m → m !! k = Some r → r.(br_state) ∉ WAITING → due r = Some d → known (L ++ [(k, d)]) m.
Proof.
  intros [HK HL] Hr Hs Hd. split; [done|]. intros k' d' Hin. apply elem_of_app in Hin as [Hin|Hin]; [by apply HL|].
  apply list_elem_of_singleton in Hin. simplify_eq. eauto.
Qed.
Lemma waiting_fresh L m k r d : known L m → m !! k = Some r → r.(br_state) ∈ WAITING → (k, d) ∉ L.
Proof. intros [_ HL] Hr Hs Hin. destruct (HL _ _ Hin) as (r' & ? & ? & _). by simplify_eq. Qed.
End books.

(** * The service keeps it *)

Definition recs (es : list Event) : gmap string BridgeRecord := foldl (λ m e, fold_record e m) ∅ es.
Lemma fold_event_records b e : (fold_event b e).(bk_records) = fold_record e b.(bk_records).
Proof. unfold fold_event, fold_record. by repeat case_bool_decide. Qed.
Lemma recs_snoc es e : recs (es ++ [e]) = fold_record e (recs es).
Proof. unfold recs. by rewrite foldl_app. Qed.
Lemma same_fold e e' m : same_event e e' → fold_record e' m = fold_record e m.
Proof.
  intros (Ht & Hk & Hi & Hs & Hf). unfold fold_record. rewrite Hk, Hi. case_bool_decide; [done|]. f_equal.
  unfold update. by rewrite !Hf, Ht, Hs.
Qed.
Lemma fold_events_recs es es' b :
  Forall2 same_event es es' → (fold_events es' b).(bk_records) = foldl (λ m e, fold_record e m) b.(bk_records) es.
Proof.
  intros H. revert b. induction H as [|e e' es es' He _ IH]; intros b; [done|]. cbn. unfold fold_events in IH. rewrite IH, fold_event_records.
  by rewrite (same_fold e e').
Qed.

Section service.
Context {SHAKE : Shake} {CODECS : Codecs} {TEXT : JsonText} {LT : LineText} {LAWS : LineLaws LT} {KECCAK : Keccak} {SECP : Secp}.
Context (cfg : BridgeCfg).
Implicit Types (L : Mints) (s : Svc) (c : Client) (e : Event).
#[local] Notation memory s := s.(sv_ledger).(ld_books).(bk_records).
#[local] Notation known := (known cfg).
#[local] Notation backs := (backs cfg).
#[local] Notation due := (due cfg).

Record fine L s : Prop := {
  fine_known : known L (memory s);
  fine_file : holds (λ es, backs L (memory s) (recs es)) s.(sv_ledger).(ld_file);
  fine_honest : Forall honest s.(sv_client).(cl_script);
  fine_minted : minted s.(sv_client).(cl_sent) = L.*2;
  fine_nodup : NoDup L.*1;
}.
(** What the client does besides minting. *)
Definition calm : relation Client := λ c c',
  (Forall honest c.(cl_script) → Forall honest c'.(cl_script)) ∧ minted c'.(cl_sent) = minted c.(cl_sent).
#[local] Instance calm_preorder : PreOrder calm.
Proof. split; [by split|]. intros x y z [H1 E1] [H2 E2]. split; [auto|congruence]. Qed.
Lemma calm_next_answer {A} (pick : Answer → option A) : respects calm (next_answer pick).
Proof.
  intros [f [|x script] sent]; unfold next_answer; cbn; [done|]. destruct (pick x); [|done].
  split; [|done]. cbn. by intros [_ H]%Forall_cons.
Qed.
Lemma calm_attempt {A} (m : M Client CliError A) : respects calm m → respects calm (attempt m).
Proof. intros H c. specialize (H c). unfold attempt. by destruct (m c) as [? [|[]|]]. Qed.
Lemma minted_snoc l x : minted (l ++ [x]) = minted l ++ match mint_sent x with Some d => [d] | None => [] end.
Proof. unfold minted. by rewrite omap_app. Qed.
Lemma calm_raw raw b : respects calm (modifyM (E := CliError) (cl_send (SentRaw raw b))).
Proof. intros c. split; [done|]. cbn. by rewrite minted_snoc, app_nil_r. Qed.
Ltac calm :=
  repeat first
    [ apply respects_bind; [apply _| |intros ?]
    | apply calm_next_answer
    | apply calm_raw
    | apply calm_attempt
    | apply respects_quiet; [apply _|solve [auto with hkframe]]
    | apply respects_modify; intros []; by split
    | match goal with |- context [match ?x with _ => _ end] => destruct x end ].
Lemma calm_save f : respects calm (save f).
Proof. unfold save. calm. Qed.
Lemma calm_hk_rpc : respects calm hk_rpc.
Proof. apply calm_next_answer. Qed.
Lemma calm_wait_receipt n : respects calm (wait_receipt n).
Proof. induction n as [|n IH]; cbn [wait_receipt]; unfold hk_rpc; calm. done. Qed.
Lemma calm_reserve_sign p : respects calm (reserve_sign p).
Proof. unfold reserve_sign, hk_rpc. calm. all: by apply calm_save. Qed.

(** ** The client's one mint *)

Lemma post_tx_honest tx c :
  Forall honest c.(cl_script) → ∃ r, (post_tx tx c).2 = r ∧ Forall honest (post_tx tx c).1.(cl_script) ∧
    (minted (post_tx tx c).1.(cl_sent) = minted c.(cl_sent) ∨
     minted (post_tx tx c).1.(cl_sent) = minted c.(cl_sent) ++ match mint_sent (SentTx tx true) with Some d => [d] | None => [] end ∧
     ∃ v, r = Ok v ∧ starts_with SUBMIT_FAILED (submit_reply v) = false).
Proof.
  intros H. eexists. split; [done|]. destruct c as [f [|x script] sent]; cbn; [by split; [|left]|].
  apply Forall_cons in H as [Hx H]. destruct x as [| | | | |en v| | |]; cbn; try (split; [by constructor|by left]).
  split; [done|]. rewrite minted_snoc. destruct en; [right|left; cbn; by rewrite app_nil_r].
  split; [done|]. by exists v.
Qed.
(** A submission that reports a failure minted nothing. *)
Definition mints_once (d : Due) c (x : Client * res CliError string) : Prop :=
  Forall honest x.1.(cl_script) ∧
  (minted x.1.(cl_sent) = minted c.(cl_sent) ∨
   minted x.1.(cl_sent) = minted c.(cl_sent) ++ [d] ∧ ∃ txid, x.2 = Ok txid).
Lemma hk_submit_mint p d c :
  Forall honest c.(cl_script) → (∀ tx, tx.(stx_payload) = p → mint_sent (SentTx tx true) = Some d) →
  mints_once d c (hk_submit p c).
Proof.
  intros Hc Hp. unfold hk_submit, bindM at 1. pose proof (calm_reserve_sign p c) as [Hh Hm].
  destruct (reserve_sign p c) as [c1 [[tx f]|e|]] eqn:E; cbn [fst snd] in Hh, Hm |- *; [|split; [by apply Hh|by left]..].
  apply reserve_sign_ok in E as (_ & seed & id & n & _ & _ & _ & Hs). apply sign_tx_verifies in Hs as (_ & _ & Ht & _).
  unfold submit. rewrite bindM_assoc. destruct (post_tx_honest tx c1 (Hh Hc)) as (r & Hr & Hh1 & Hm1). unfold bindM at 1.
  rewrite (Hp tx Ht) in Hm1. destruct (post_tx tx c1) as [c2 r2]. cbn [fst snd] in Hr, Hh1, Hm1 |- *. subst r2.
  destruct r as [v|e|]; [|unfold mints_once; cbn [fst snd]; split; [done|destruct Hm1 as [?|(? & ? & [=] & _)]; left; congruence]..].
  rewrite bindM_ret_l. destruct (starts_with SUBMIT_FAILED (submit_reply v)) eqn:Ev.
  - destruct Hm1 as [Hm1|(_ & v' & [= <-] & ?)]; [|congruence].
    pose proof (calm_attempt _ (calm_save (roll_back f)) c2) as [Hh2 Hm2].
    unfold bindM. destruct (attempt (save (roll_back f)) c2) as [c3 [x|e|]]; unfold mints_once; cbn [fst snd failM] in Hh2, Hm2 |- *;
      (split; [by apply Hh2|left; congruence]).
  - unfold mints_once. cbn [fst snd retM]. split; [done|].
    destruct Hm1 as [?|(? & _)]; [left; congruence|right; split; [congruence|by eexists]].
Qed.

(** ** Writes *)

Lemma fine_client L s c : fine L s → calm s.(sv_client) c → fine L (sv_set_client c s).
Proof. intros [? ? ? ? ?] [Hh Hm]. constructor; cbn; [done|done|by apply Hh|congruence|done]. Qed.
Lemma calm_fine {A} L (m : M Client CliError A) : respects calm m → run_to (fine L) (on_client m) (λ _, fine L) (fine L).
Proof.
  intros Hm s Hs. specialize (Hm s.(sv_client)). unfold on_client, zoom.
  destruct (m (sv_client s)) as [c [x|e|]]; by apply fine_client.
Qed.
(** A client step in between two looks at the ledger. *)
Lemma calm_with {A} (P : Ledger → Prop) L (m : M Client CliError A) :
  respects calm m →
  run_to (λ s, fine L s ∧ P s.(sv_ledger)) (on_client m) (λ _ s, fine L s ∧ P s.(sv_ledger)) (fine L).
Proof.
  intros Hm s [Hs HP]. specialize (Hm s.(sv_client)). unfold on_client, zoom.
  destruct (m (sv_client s)) as [c [x|e|]]; [split; [|done]|..]; by apply fine_client.
Qed.
(** A write keeps it, and done it is the last line of a file that still reads. *)
Lemma fine_write L kind id state fields s0 :
  (∀ now, let e := mkEvent now kind id state fields in plain e ∧ admissible L (memory s0) e) →
  run_to (λ s, fine L s ∧ s.(sv_ledger) = s0.(sv_ledger)) (write kind id state fields)
    (λ _ s, fine L s ∧ ∃ now, let e := mkEvent now kind id state fields in
       memory s = fold_record e (memory s0) ∧
       holds (λ es, backs L (memory s) (recs es) ∧ ∃ es0, es = es0 ++ [e] ∧ backs L (memory s0) (recs es0)) s.(sv_ledger).(ld_file))
    (fine L).
Proof.
  intros He. eapply run_to_bind.
  { apply (calm_with (λ l, l = s0.(sv_ledger))), calm_next_answer. }
  intros [now a] s [[HK HF HH HM HN] El]. specialize (He now) as [Hpl Hadm].
  rewrite <-El in Hadm |- *. unfold zoom, write_event.
  assert (HK' : known L (fold_record (mkEvent now kind id state fields) (memory s))) by (by apply known_fold).
  assert (HF' : holds (λ es, backs L (fold_record (mkEvent now kind id state fields) (memory s)) (recs es) ∧
    ∃ es0, es = es0 ++ [mkEvent now kind id state fields] ∧ backs L (memory s) (recs es0))
    (s.(sv_ledger).(ld_file) ++ event_line (mkEvent now kind id state fields))).
  { eapply holds_mono; [|by apply holds_write]. cbn. intros es (es0 & -> & Hb). rewrite recs_snoc.
    split; [by apply backs_fold|eauto]. }
  assert (HP : ∀ n, holds (λ es, backs L (memory s) (recs es))
    (s.(sv_ledger).(ld_file) ++ take n (event_line (mkEvent now kind id state fields)))).
  { intros n. eapply holds_mono; [|by apply (holds_part (λ es, backs L (memory s) (recs es)))]. cbn.
    intros es [?|(es0 & -> & Hb)]; [done|]. rewrite recs_snoc. by apply backs_part. }
  destruct a as [|n|n]; cbn; [|by constructor; cbn..].
  rewrite !fold_event_records. split; [|by exists now].
  constructor; cbn; rewrite ?fold_event_records; try done. eapply holds_mono; [|exact HF']. by intros es [? _].
Qed.

(** ** Operations that mint nothing *)

Definition tame {A} (m : M Svc CliError A) : Prop := ∀ L, respects (λ s s', fine L s → fine L s') m.
#[local] Instance fine_preorder L : PreOrder (λ s s', fine L s → fine L s').
Proof. split; [by intros ?|]. by intros x y z ? ? ?; auto. Qed.
Lemma tame_bind {A B} (m : M Svc CliError A) (k : A → M Svc CliError B) : tame m → (∀ x, tame (k x)) → tame (bindM m k).
Proof. intros Hm Hk L. apply respects_bind; [apply _|apply Hm|]. intros x. apply Hk. Qed.
Lemma tame_client {A} (m : M Client CliError A) : respects calm m → tame (on_client m).
Proof. intros Hm L s. apply (run_to_any _ _ _ (calm_fine L m Hm)). Qed.
Lemma tame_quiet {A} (m : M Svc CliError A) : quiet m → tame m.
Proof. intros Hm L. apply respects_quiet; [apply _|done]. Qed.
Lemma tame_for_each {A} (f : A → M Svc CliError unit) l : (∀ x, tame (f x)) → tame (for_eachM f l).
Proof. intros Hf L. apply respects_for_each; [apply _|]. intros x. apply Hf. Qed.
Lemma tame_safe n : tame (modifyM (sv_set_safe n)).
Proof. intros L s []. by constructor. Qed.
Lemma fine_after_write L kind id state fields s :
  (∀ now, let e := mkEvent now kind id state fields in plain e ∧ admissible L (memory s) e) →
  fine L s → fine L (write kind id state fields s).1.
Proof.
  intros He Hs. refine (run_to_any (λ s', fine L s' ∧ s'.(sv_ledger) = s.(sv_ledger)) _ _ _ s _); [|done].
  eapply run_to_conseq; [by apply fine_write|done|by intros x s' []|done].
Qed.
(** The fields of a note. *)
Definition noted (fields : list (string * Value)) : Prop :=
  NoDup fields.*1 ∧ Forall (λ kv, scalar kv.2) fields ∧ vfield "amount" fields = None ∧ vfield "to" fields = None.
Lemma noted_one k v : k ∈ ["note"; "attempt"; "hk_txid"; "eth_tx"; "n"] → scalar v → noted [(k, v)].
Proof.
  intros Hk Hv. apply list_elem_of_In in Hk. split; [apply NoDup_singleton|]. split; [by constructor|].
  cbn in Hk |- *. by destruct Hk as [<-|[<-|[<-|[<-|[<-|[]]]]]].
Qed.
Lemma fine_note L kind id state fields s :
  kind ∈ RECORD_KINDS → is_Some (memory s !! record_key kind id) → noted fields →
  (state ∈ WAITING → ∀ d, (record_key kind id, d) ∉ L) → fine L s → fine L (write kind id state fields s).1.
Proof. intros ? ? (? & ? & ? & ?) ?. apply fine_after_write. intros now. split; [by split|]. right. split; [done|]. by left. Qed.
Lemma tame_cursor chain n : tame (cursor chain n).
Proof.
  intros L s. unfold cursor. apply fine_after_write. intros now.
  destruct (noted_one "n" (VNum n) ltac:(by apply (bool_decide_unpack _); vm_compute) I) as (? & ? & _). split; [by split|by left].
Qed.
Lemma tame_books : tame books.
Proof. by intros L s. Qed.

(** The first event of a record, guarded by its absence. *)
Lemma tame_open kind id state amount to at_ fields :
  kind ∈ RECORD_KINDS → 0 ≤ amount ≤ u128_max → noted fields →
  (∀ x, x ∈ fields.*1 → x ∉ ["amount"; "to"; "at"; "source_tx"]) → 
  ∀ src, tame (let* b := books in
    if has kind id b then retM tt
    else write kind id state ([("amount", VStr (pretty amount)); ("to", VStr to); ("at", VNum at_); ("source_tx", VStr src)] ++ fields)).
Proof.
  intros Hk Ha (Hn & Hsc & _ & _) Hd src L s Hs. unfold bindM, books, has. case_bool_decide as Hin; [done|].
  apply fine_after_write; [|done]. intros now. split.
  - split; cbn [ae_fields]; [|by repeat constructor; auto]. rewrite fmap_app. apply NoDup_app. split; [|split; [|done]].
    + by apply (bool_decide_unpack _); vm_compute.
    + intros x Hx Hf. by apply (Hd x).
  - right. split; [done|]. right. split; [by apply eq_None_not_Some|]. split; [done|].
    split; [|by eexists]. exists (pretty amount), amount. split; [done|]. by apply parse_pretty.
Qed.

Lemma decode_word_bounds b z : decode_word_u b = Some z → 0 ≤ z ≤ u128_max.
Proof.
  unfold decode_word_u. case_match; [done|]. case_match; [done|]. intros [= <-]. unfold be_val.
  pose proof (le_val_bound (rev (take 16 (drop 16 b)))) as H1.
  assert (length (rev (take 16 (drop 16 b))) ≤ 16)%nat as Hl by (rewrite length_rev, length_take; lia).
  assert (256 ^ Z.of_nat (length (rev (take 16 (drop 16 b)))) ≤ 256 ^ 16) by (apply Z.pow_le_mono_r; lia).
  unfold u128_max. lia.
Qed.
Lemma decoded_amount log ev : decode_bridge_event log = Some ev → 0 ≤ ev.(be_amount) ≤ u128_max.
Proof.
  unfold decode_bridge_event. intros H.
  repeat first [progress simplify_option_eq | case_match]; try done. by eapply decode_word_bounds.
Qed.
Lemma tame_record_logs kind logs : kind ∈ RECORD_KINDS → tame (record_logs kind logs).
Proof.
  intros Hk. apply tame_for_each. intros log L s Hs. unfold bindM. destruct (decode_bridge_event log) as [ev|] eqn:E; [|done].
  refine (tame_open kind _ "seen" _ _ _ [] Hk (decoded_amount _ _ E) _ _ _ L s Hs); [|by intros x ?%not_elem_of_nil].
  by repeat constructor.
Qed.
Lemma calm_request : respects calm eth_request.
Proof. unfold eth_request. calm. Qed.
Ltac calmer := calm; try first [done | apply calm_request | apply calm_hk_rpc].
Lemma calm_tagged : respects calm tagged_block.
Proof. unfold tagged_block. calmer. Qed.
Lemma calm_logs : respects calm eth_logs.
Proof. unfold eth_logs. calmer. Qed.
Lemma calm_qty : respects calm request_qty.
Proof. unfold request_qty. calmer. Qed.
Lemma calm_block_number : respects calm block_number.
Proof. unfold block_number, request_qty. calmer. Qed.
Lemma calm_call : respects calm eth_call.
Proof. unfold eth_call. calmer. Qed.
Lemma calm_call_u : respects calm eth_call_u.
Proof. unfold eth_call_u, eth_call. calmer. Qed.
Lemma calm_receipt : respects calm receipt_status.
Proof. unfold receipt_status. calmer. Qed.
Lemma calm_send_call chain sg to data : respects calm (send_call chain sg to data).
Proof. unfold send_call, base_fee, priority_fee, send_raw, request_qty. calmer. Qed.

(** Walk an operation; [leaf] closes its parts. *)
Ltac tame_with leaf :=
  repeat first
    [ leaf
    | apply tame_cursor
    | apply tame_bind; [|intros ?]
    | apply tame_books
    | apply tame_safe
    | apply tame_client; first [apply calm_hk_rpc | apply calm_logs | apply calm_call_u | apply calm_receipt
        | apply calm_block_number | apply calm_tagged | apply calm_send_call | apply calm_next_answer | apply calm_attempt, calm_send_call]
    | apply tame_quiet; solve [auto with hkframe]
    | match goal with |- context [match ?x with _ => _ end] => destruct x end ].
Lemma tame_scan_pages fuel head : tame (scan_pages cfg fuel head).
Proof.
  induction fuel as [|fuel IH]; cbn [scan_pages]; [by apply tame_quiet|].
  tame_with ltac:(first [apply IH | apply tame_record_logs; by apply (bool_decide_unpack _); vm_compute]).
Qed.
Lemma tame_scan_eth : tame (scan_eth cfg).
Proof. unfold scan_eth, eth_safe_head. tame_with ltac:(apply tame_scan_pages). Qed.
Lemma burn_amount asset v txid amount dest class :
  burn_of asset v = Some (txid, amount, dest, class) → 0 ≤ amount ≤ u128_max.
Proof.
  unfold burn_of. intros H. repeat case_match; try done. destruct (burn_class v) as [cl|]; cbn in H; [|done].
  injection H as _ <- _ _. set (o := _ ≫= _). destruct o as [z|] eqn:E; cbn; [|unfold u128_max; lia].
  unfold o in E. destruct (_ ≫= vstr) as [t|] in E; cbn in E; [|done]. apply parse_radix_bounds in E; [|lia]. unfold u128_max in *. lia.
Qed.
Lemma tame_record_burn kind h b :
  kind ∈ RECORD_KINDS → 0 ≤ b.1.1.2 ≤ u128_max → tame (record_hk_burn kind h b).
Proof.
  intros Hk Ha. destruct b as [[[txid amount] dest] class]. unfold record_hk_burn.
  assert (Hn : ∀ t, noted (note t)) by by intros t; apply noted_one; [apply (bool_decide_unpack _); vm_compute|].
  assert (Hd : ∀ t x, x ∈ (note t).*1 → x ∉ ["amount"; "to"; "at"; "source_tx"]).
  { intros t x ->%list_elem_of_singleton. by apply (bool_decide_unpack _); vm_compute. }
  destruct class; [destruct (Z.of_nat (String.length dest) =? 40)|];
    exact (tame_open kind txid _ amount _ h (note _) Hk Ha (Hn _) (Hd _) txid).
Qed.
Lemma tame_scan_burns kind asset h : kind ∈ RECORD_KINDS → tame (scan_burns kind asset h).
Proof.
  intros Hk. unfold scan_burns. apply tame_bind; [apply tame_client, calm_hk_rpc|]. intros v.
  destruct (hk_burns _ v) as [burns|] eqn:E; [|by apply tame_quiet].
  intros L s Hs. cbn [ok_or]. rewrite bindM_ret_l. revert s Hs.
  assert (Hb : Forall (λ b : string * Z * string * BurnClass, 0 ≤ b.1.1.2 ≤ u128_max) burns).
  { unfold hk_burns in E. repeat case_match; try done. destruct (vget "result" v) as [r|]; cbn in E; [|done].
    case_bool_decide; [done|]. injection E as <-. apply Forall_forall. intros [[[txid amount] dest] class] Hin.
    apply list_elem_of_omap in Hin as (tx & _ & Htx). cbn. by eapply burn_amount. }
  clear E. induction Hb as [|b bs Hb _ IH]; intros s Hs; [done|]. cbn [for_eachM].
  revert s Hs. change (respects (λ s s', fine L s → fine L s') (record_hk_burn kind h b ;;; for_eachM (record_hk_burn kind h) bs)).
  apply respects_bind; [apply _|by apply tame_record_burn|]. intros []. exact IH.
Qed.
Lemma tame_scan_hk : tame (scan_hk cfg).
Proof.
  assert (H : ∀ fuel stop, tame (scan_heights cfg fuel stop)); [|unfold scan_hk; tame_with ltac:(apply H)].
  intros fuel stop. induction fuel as [|fuel IH]; cbn [scan_heights]; [by apply tame_quiet|].
  tame_with ltac:(first [apply IH | apply tame_scan_burns; by apply (bool_decide_unpack _); vm_compute]).
Qed.

(** ** Notes on records that are there *)

Definition present (K : list string) s : Prop := ∀ k, k ∈ K → is_Some (memory s !! k).
Definition steady (K : list string) {A} (m : M Svc CliError A) : Prop :=
  ∀ L, respects (λ s s', fine L s ∧ present K s → fine L s' ∧ present K s') m.
#[local] Instance steady_preorder L K : PreOrder (λ s s', fine L s ∧ present K s → fine L s' ∧ present K s').
Proof. split; [by intros ?|]. by intros x y z ? ? ?; auto. Qed.
Lemma steady_bind {A B} K (m : M Svc CliError A) (k : A → M Svc CliError B) :
  steady K m → (∀ x, steady K (k x)) → steady K (bindM m k).
Proof. intros Hm Hk L. apply respects_bind; [apply _|apply Hm|]. intros x. apply Hk. Qed.
Lemma steady_for_each {A} K (f : A → M Svc CliError unit) l : (∀ x, x ∈ l → steady K (f x)) → steady K (for_eachM f l).
Proof.
  intros Hf. induction l as [|x l IH]; [by intros L s|]. apply steady_bind; [by apply Hf; left|]. intros [].
  apply IH. intros y Hy. apply Hf. by right.
Qed.
Lemma steady_quiet {A} K (m : M Svc CliError A) : quiet m → steady K m.
Proof. intros Hm L. apply respects_quiet; [apply _|done]. Qed.
Lemma client_ledger {A} (m : M Client CliError A) s : (on_client m s).1.(sv_ledger) = s.(sv_ledger).
Proof. unfold on_client, zoom. by destruct (m _) as [? []]. Qed.
Lemma steady_client {A} K (m : M Client CliError A) : respects calm m → steady K (on_client m).
Proof. intros Hm L s [Hs HK]. split; [by apply tame_client|]. unfold present in *. by rewrite client_ledger. Qed.
Lemma attempt_client {A} (m : M Client CliError A) K : respects calm m → steady K (attempt (on_client m)).
Proof.
  intros Hm L s Hs. pose proof (steady_client K m Hm L s Hs) as H. unfold attempt.
  by destruct (on_client m s) as [s' [x|[|]|]].
Qed.
(** The memory after a write. *)
Lemma write_memory kind id state fields s :
  ∃ b, memory (write kind id state fields s).1 = match b with Some now => fold_record (mkEvent now kind id state fields) (memory s) | None => memory s end.
Proof.
  unfold write, bindM at 1, next_append. pose proof (client_ledger (next_answer (λ x, match x with OnAppend t a => Some (t, a) | _ => None end)) s) as E.
  destruct (on_client _ s) as [s1 [[now a]|e|]]; cbn in E |- *; [|exists None; by rewrite E..].
  unfold zoom, write_event. destruct a as [|n|n]; cbn; [exists (Some now)|exists None..]; by rewrite ?fold_event_records, E.
Qed.
Lemma fold_record_present e m k : is_Some (m !! k) → is_Some (fold_record e m !! k).
Proof.
  intros H. unfold fold_record. case_bool_decide; [done|]. rewrite lookup_insert_is_Some.
  destruct (decide (record_key (ae_kind e) (ae_id e) = k)); auto.
Qed.
Lemma fold_record_at e m r :
  e.(ae_kind) ≠ "cursor" → m !! record_key e.(ae_kind) e.(ae_id) = Some r →
  fold_record e m !! record_key e.(ae_kind) e.(ae_id) = Some (update e r).
Proof.
  intros Hk Hr. unfold fold_record. rewrite bool_decide_eq_false_2 by done.
  by rewrite lookup_insert_eq, Hr.
Qed.
Lemma write_present kind id state fields s k : is_Some (memory s !! k) → is_Some (memory (write kind id state fields s).1 !! k).
Proof.
  intros H. destruct (write_memory kind id state fields s) as [[now|] ->]; [|done]. by apply fold_record_present.
Qed.
(** A record of a kind that does not mint. *)
Lemma other_fresh L m kind id d : known L m → kind ∈ RECORD_KINDS → mint_asset cfg kind = None → (record_key kind id, d) ∉ L.
Proof.
  intros [HK HL] Hk Hn Hin. destruct (HL _ _ Hin) as (r & Hr & _ & Hd). destruct (HK _ _ Hr) as [Hk' E].
  apply record_key_inj in E as [E _]; [|done..]. unfold Minting.due in Hd. by rewrite <-E, Hn in Hd.
Qed.
Lemma steady_write K kind id state fields :
  kind ∈ RECORD_KINDS → record_key kind id ∈ K → noted fields → state ∉ WAITING ∨ mint_asset cfg kind = None →
  steady K (write kind id state fields).
Proof.
  intros Hk Hin Hf Hs L s [Hl HK]. split; [|intros k Hk'; by apply write_present, HK]. apply fine_note; [done|by apply HK|done| |done].
  intros Hw d. destruct Hs as [?|Hn]; [done|]. by apply (other_fresh L (memory s)), Hn; destruct Hl.
Qed.
Lemma noted_note t : noted (note t).
Proof. apply noted_one; [by apply (bool_decide_unpack _); vm_compute|done]. Qed.

Ltac steady_with leaf :=
  repeat first
    [ leaf
    | apply steady_write; [done|done|first [apply noted_note|by apply noted_one; [apply (bool_decide_unpack _); vm_compute|]]|]
    | apply attempt_client, calm_send_call
    | apply attempt_client, calm_qty
    | apply steady_bind; [|intros ?]
    | apply steady_client; first [apply calm_hk_rpc | apply calm_call_u | apply calm_receipt | apply calm_next_answer]
    | apply steady_quiet; solve [auto with hkframe]
    | match goal with |- context [match ?x with _ => _ end] => destruct x end ].
Lemma steady_ask K urls : steady K (ask_cosigners urls).
Proof. induction urls as [|u urls IH]; cbn [ask_cosigners]; steady_with ltac:(apply IH). Qed.
Lemma steady_attest K domain ty to amount id : steady K (attest cfg domain ty to amount id).
Proof. unfold attest. steady_with ltac:(apply steady_ask). Qed.
Lemma steady_wait_call K n kind id :
  kind ∈ RECORD_KINDS → record_key kind id ∈ K → steady K (wait_call n kind id).
Proof.
  intros Hk Hin. induction n as [|n IH]; cbn [wait_call]; steady_with ltac:(apply IH); left; by apply (bool_decide_unpack _); vm_compute.
Qed.
Lemma steady_burn K kind contract domain fn ty paused remaining r :
  kind ∈ RECORD_KINDS → mint_asset cfg kind = None → record_key kind r.(br_id) ∈ K →
  steady K (process_burn cfg kind contract domain fn ty paused remaining r).
Proof.
  intros Hk Hn Hin. unfold process_burn.
  steady_with ltac:(first [apply steady_attest | by apply steady_wait_call]); by right.
Qed.
Lemma in_states_lookup L s kind states r :
  known L (memory s) → r ∈ in_states kind states s.(sv_ledger).(ld_books) →
  memory s !! record_key kind r.(br_id) = Some r ∧ r.(br_kind) = kind ∧ r.(br_state) ∈ states.
Proof.
  intros [HK _]. unfold in_states. intros [[<- Hs] Hin]%list_elem_of_filter.
  apply list_elem_of_fmap in Hin as ([k r'] & -> & Hkr). apply elem_of_btree_iter in Hkr.
  destruct (HK _ _ Hkr) as [_ E]. cbn in *. by rewrite <-E.
Qed.
Lemma tame_burns kind contract domain fn ty paused remaining :
  kind ∈ RECORD_KINDS → mint_asset cfg kind = None → tame (process_burns cfg kind contract domain fn ty paused remaining).
Proof.
  intros Hk Hn L s Hs. unfold process_burns, bindM, books.
  set (l := in_states kind OPEN_BURNS s.(sv_ledger).(ld_books)).
  refine (proj1 (steady_for_each ((λ r, record_key kind r.(br_id)) <$> l) _ l _ L s (conj Hs _))).
  - intros r Hr. apply steady_burn; [done..|]. by apply list_elem_of_fmap; exists r.
  - intros k (r & -> & Hr)%list_elem_of_fmap. destruct Hs. eapply in_states_lookup in Hr as (-> & _); done.
Qed.
Lemma tame_process_burns : tame (process_hk_burns cfg).
Proof.
  unfold process_hk_burns. repeat (apply tame_bind; [apply tame_client, calm_call_u|intros ?]).
  apply tame_bind; [|intros ?].
  { intros L s Hs. pose proof (attempt_client request_qty [] calm_qty L s) as H. apply H. by split; [|intros k ?%not_elem_of_nil]. }
  tame_with ltac:(apply tame_burns; [by apply (bool_decide_unpack _); vm_compute|done]).
Qed.

(** ** The mint of a record *)

Definition well s : Prop := ∃ L, fine L s.
Lemma steady_well {A} K (m : M Svc CliError A) L : steady K m → run_to (λ s, fine L s ∧ present K s) m (λ _, well) well.
Proof. intros Hm s H. apply (Hm L) in H as [H _]. destruct (m s) as [s' [x|e|]]; by exists L. Qed.
Lemma mint_kind kind asset : mint_asset cfg kind = Some asset → kind ∈ RECORD_KINDS.
Proof. unfold mint_asset. repeat case_bool_decide; subst; try done; intros _; by apply (bool_decide_unpack _); vm_compute. Qed.
(** The mint of the record whose [submitting] was the last line written. *)
Lemma fine_mint L k d r1 m0 e s c :
  fine L s → (∀ d, (k, d) ∉ L) → k = record_key e.(ae_kind) e.(ae_id) → e.(ae_kind) ∈ RECORD_KINDS → e.(ae_state) ∉ WAITING →
  memory s !! k = Some r1 → r1.(br_state) ∉ WAITING → due r1 = Some d →
  holds (λ es, backs L (memory s) (recs es) ∧ ∃ es0, es = es0 ++ [e] ∧ backs L m0 (recs es0)) s.(sv_ledger).(ld_file) →
  Forall honest c.(cl_script) → minted c.(cl_sent) = minted s.(sv_client).(cl_sent) ++ [d] →
  fine (L ++ [(k, d)]) (sv_set_client c s).
Proof.
  intros [HK HF HH HM HN] Hfr Hk Hek Hes Hr1 Hst Hd Hf Hc Hm. constructor; cbn [sv_client sv_ledger sv_set_client]; [| |done|..].
  - by eapply known_mint.
  - eapply holds_mono; [|exact Hf]. intros es ([Hkn Ha] & es0 & -> & _). split; [|done].
    destruct (Ha _ _ Hr1) as (r2 & Hr2 & Hd2). eapply known_mint; [done|exact Hr2| |congruence].
    rewrite recs_snoc in Hr2. unfold fold_record in Hr2. rewrite bool_decide_eq_false_2 in Hr2 by by apply kinds_cursor.
    rewrite <-Hk, lookup_insert_eq in Hr2. by injection Hr2 as <-.
  - rewrite fmap_app. cbn. congruence.
  - rewrite fmap_app. apply NoDup_app. split; [done|]. split; [|apply NoDup_singleton].
    intros k' Hin E%list_elem_of_singleton. apply list_elem_of_fmap in Hin as ([k1 d'] & E1 & Hin).
    cbn in E, E1. rewrite <-E1, E in Hin. by apply (Hfr d').
Qed.
(** The submission: on a failure nothing was minted and the record is as before. *)
Lemma submit_well L k d r1 m0 e s p :
  fine L s → (∀ d, (k, d) ∉ L) → k = record_key e.(ae_kind) e.(ae_id) → e.(ae_kind) ∈ RECORD_KINDS → e.(ae_state) ∉ WAITING →
  memory s !! k = Some r1 → r1.(br_state) ∉ WAITING → due r1 = Some d →
  holds (λ es, backs L (memory s) (recs es) ∧ ∃ es0, es = es0 ++ [e] ∧ backs L m0 (recs es0)) s.(sv_ledger).(ld_file) →
  (∀ tx, tx.(stx_payload) = p → mint_sent (SentTx tx true) = Some d) →
  match attempt (on_client (hk_submit p)) s with
  | (s', Ok (inl _)) => fine L s' ∧ present [k] s'
  | (s', Ok (inr _)) => ∃ L', fine L' s' ∧ present [k] s'
  | (s', _) => well s'
  end.
Proof.
  intros Hs Hfr Hk Hek Hes Hr1 Hst Hd Hf Hp.
  destruct (hk_submit_mint p d s.(sv_client) (fine_honest _ _ Hs) Hp) as [Hh Hm].
  assert (Hpr : ∀ c, present [k] (sv_set_client c s)) by (intros c k' ->%list_elem_of_singleton; cbn; by eexists).
  assert (Hcalm : ∀ c, Forall honest c.(cl_script) → minted c.(cl_sent) = minted s.(sv_client).(cl_sent) → fine L (sv_set_client c s)).
  { intros c ? ?. apply fine_client; [done|]. by split. }
  unfold attempt, on_client, zoom. destruct (hk_submit p (sv_client s)) as [c [txid|[|t]|]]; cbn [fst snd] in Hh, Hm.
  2-4: destruct Hm as [Hm|(_ & ? & [=])]; cbn; [exists L + idtac; auto].
  destruct Hm as [Hm|[Hm _]]; cbn; [exists L; auto|]. exists (L ++ [(k, d)]). split; [|done]. by eapply fine_mint.
Qed.

Lemma steady_settle K kind id rc : kind ∈ RECORD_KINDS → record_key kind id ∈ K → steady K (settle_receipt kind id rc).
Proof.
  intros Hk Hin. unfold settle_receipt.
  steady_with ltac:(fail); left; by apply (bool_decide_unpack _); vm_compute.
Qed.
Lemma well_note L K kind id state fields :
  kind ∈ RECORD_KINDS → record_key kind id ∈ K → noted fields → state ∉ WAITING →
  run_to (λ s, fine L s ∧ present K s) (write kind id state fields) (λ _, well) well.
Proof. intros ? ? ? ?. apply (steady_well K). apply steady_write; auto. Qed.
Lemma well_write L kind id state fields s :
  kind ∈ RECORD_KINDS → fine L s → is_Some (memory s !! record_key kind id) → noted fields →
  (state ∈ WAITING → ∀ d, (record_key kind id, d) ∉ L) → well (write kind id state fields s).1.
Proof. intros. exists L. by apply fine_note. Qed.
Lemma mint_payload asset to amount tx :
  tx.(stx_payload) = Tx.AssetMint asset to amount → mint_sent (SentTx tx true) = Some (asset, to, amount).
Proof. cbn. by intros ->. Qed.
(** From the submission on. *)
Lemma submission_well kind asset to r L s0 :
  mint_asset cfg kind = Some asset → r.(br_kind) = kind → parse_h256 r.(br_to) = Some to →
  memory s0 !! record_key kind r.(br_id) = Some r → (∀ d, (record_key kind r.(br_id), d) ∉ L) → fine L s0 →
  well ((write kind r.(br_id) "submitting" [("attempt", VNum 1)] ;;;
         let* s := attempt (on_client (hk_submit (Tx.AssetMint asset to r.(br_amount)))) in
         match s with
         | inr txid =>
             write kind r.(br_id) "submitted" [("hk_txid", VStr txid)] ;;;
             let* rc := on_client (wait_receipt 30) in
             settle_receipt kind r.(br_id) rc
         | inl e => write kind r.(br_id) "seen" (note ("submit failed: " +:+ e)) ;;; failM (Fail e)
         end) s0).1.
Proof.
  intros Ha Hrk Hto Hr Hfr Hs. assert (Hk : kind ∈ RECORD_KINDS) by by eapply mint_kind.
  assert (Hnw : ∀ x, x ∉ WAITING ↔ bool_decide (x ∈ WAITING) = false) by (intros x; by rewrite bool_decide_eq_false).
  assert (Hone : ∀ l v, l ∈ ["note"; "attempt"; "hk_txid"; "eth_tx"; "n"] → scalar v → noted [(l, v)]) by apply noted_one.
  refine (run_to_any (λ s, fine L s ∧ s.(sv_ledger) = s0.(sv_ledger)) well _ _ s0 (conj Hs eq_refl)).
  assert (Hattempt : noted [("attempt", VNum 1)]) by by apply Hone; [apply (bool_decide_unpack _); vm_compute|].
  eapply run_to_bind.
  { eapply run_to_conseq; [apply (fine_write L kind _ _ _ s0)|done|intros x s Hx; exact Hx|by exists L].
    intros now. destruct Hattempt as (? & ? & ? & ?). split; [by split|]. right. split; [done|]. left.
    split; [by exists r|]. split; [done|]. split; [done|]. done. }
  intros [] s (Hs1 & now & Hmem & Hfile). cbv zeta in Hmem, Hfile.
  set (e := mkEvent now kind r.(br_id) "submitting" [("attempt", VNum 1)]) in *.
  assert (Hr1 : memory s !! record_key kind r.(br_id) = Some (update e r)).
  { rewrite Hmem. by apply (fold_record_at e); [apply kinds_cursor|]. }
  assert (Hd : due (update e r) = Some (asset, to, r.(br_amount))).
  { rewrite update_due by done. unfold Minting.due. by rewrite Hrk, Ha, Hto. }
  pose proof (submit_well L _ _ _ _ e s (Tx.AssetMint asset to r.(br_amount)) Hs1 Hfr eq_refl Hk ltac:(by apply Hnw) Hr1 ltac:(by apply Hnw) Hd Hfile
    (mint_payload _ _ _)) as Hsub.
  unfold bindM at 1. destruct (attempt _ s) as [s2 [[t|txid]|x|]]; [| |done..].
  - destruct Hsub as [Hs2 Hp].
    pose proof (fine_note L kind r.(br_id) "seen" (note ("submit failed: " +:+ t)) s2 Hk (Hp _ (list_elem_of_here _ _)) (noted_note _) (λ _, Hfr) Hs2).
    unfold bindM. destruct (write _ _ _ _ s2) as [s3 []]; by exists L.
  - destruct Hsub as (L' & Hs2).
    refine (steady_well [record_key kind r.(br_id)] _ L' _ s2 Hs2).
    assert (record_key kind r.(br_id) ∈ [record_key kind r.(br_id)]) by apply list_elem_of_here.
    apply steady_bind; [apply steady_write; [done..| |left; by apply Hnw]|intros []].
    { by apply Hone; [apply (bool_decide_unpack _); vm_compute|]. }
    apply steady_bind; [apply steady_client, calm_wait_receipt|]. intros rc. by apply steady_settle.
Qed.
(** One turn of the minting loop, from the record as it is. *)
Lemma process_event_well kind asset safe r s0 :
  mint_asset cfg kind = Some asset → r.(br_kind) = kind → r.(br_state) ∈ OPEN_EVENTS →
  memory s0 !! record_key kind r.(br_id) = Some r → well s0 → well (process_event kind asset safe r s0).1.
Proof.
  intros Ha Hrk Hst Hr [L Hs]. assert (Hk : kind ∈ RECORD_KINDS) by by eapply mint_kind.
  set (K := [record_key kind r.(br_id)]). assert (Hin : record_key kind r.(br_id) ∈ K) by apply list_elem_of_here.
  assert (HK : present K s0) by (intros k ->%list_elem_of_singleton; by exists r).
  assert (Hq : ∀ m : M Svc CliError unit, steady K m → well (m s0).1).
  { intros m Hm. exists L. by apply (Hm L s0 (conj Hs HK)). }
  unfold process_event. case_bool_decide as Hsub.
  { apply Hq. steady_with ltac:(by apply steady_settle). }
  assert (Hw : r.(br_state) ∈ WAITING).
  { apply list_elem_of_In in Hst. cbn in Hst. destruct Hst as [<-|[<-|[?|[]]]]; [left|right; left|congruence]. }
  assert (Hfr : ∀ d, (record_key kind r.(br_id), d) ∉ L) by (intros d; destruct Hs; by eapply waiting_fresh).
  destruct (safe <? br_at r); [by apply Hq, steady_quiet; auto with hkframe|].
  destruct (parse_h256 (br_to r)) as [to|] eqn:Hto;
    [|apply Hq; steady_with ltac:(fail); left; by apply (bool_decide_unpack _); vm_compute].
  pose proof (tame_client hk_rpc calm_hk_rpc L s0 Hs) as Hs1. pose proof (client_ledger hk_rpc s0) as El.
  unfold bindM at 1. destruct (on_client hk_rpc s0) as [s1 [v|x|]]; [|by exists L..]. cbn [fst] in Hs1, El.
  rewrite <-El in Hr. destruct (account_nonce v) as [n|].
  - destruct (br_amount r =? 0); [|by apply (submission_well _ _ _ _ L)].
    apply (well_write L); [done|done|by exists r|apply noted_note|done].
  - destruct (negb _); [|by exists L]. apply (well_write L); [done|done|by exists r|apply noted_note|done].
Qed.

(** ** The loop over the records *)

Definition only (k : string) : relation Svc := λ s s', ∀ k', k' ≠ k → memory s' !! k' = memory s !! k'.
#[local] Instance only_preorder k : PreOrder (only k).
Proof. split; [by intros s k' _|]. intros x y z H1 H2 k' Hk. by rewrite H2, H1. Qed.
Lemma only_client {A} k (m : M Client CliError A) : respects (only k) (on_client m).
Proof. intros s k' _. by rewrite client_ledger. Qed.
Lemma only_attempt {A} k (m : M Client CliError A) : respects (only k) (attempt (on_client m)).
Proof. intros s. pose proof (only_client k m s) as H. unfold attempt. by destruct (on_client m s) as [? [|[]|]]. Qed.
Lemma only_write kind id state fields : respects (only (record_key kind id)) (write kind id state fields).
Proof.
  intros s k Hk. destruct (write_memory kind id state fields s) as [[now|] ->]; [|done].
  unfold fold_record. case_bool_decide; [done|]. by rewrite lookup_insert_ne by done.
Qed.
Lemma only_event kind asset safe r : respects (only (record_key kind r.(br_id))) (process_event kind asset safe r).
Proof.
  unfold process_event, settle_receipt.
  repeat first
    [ apply only_write | apply only_client | apply only_attempt
    | apply respects_bind; [apply _| |intros ?]
    | apply respects_quiet; [apply _|solve [auto with hkframe]]
    | match goal with |- context [match ?x with _ => _ end] => destruct x end ].
Qed.
Lemma states_nodup L kind states b :
  known L b.(bk_records) → NoDup ((λ r, record_key kind r.(br_id)) <$> in_states kind states b).
Proof.
  intros [HK _]. unfold in_states. set (all := btree_iter b.(bk_records)).
  assert (E : (λ r, record_key r.(br_kind) r.(br_id)) <$> all.*2 = all.*1).
  { rewrite <-list_fmap_compose. apply Forall_fmap_ext_1, Forall_forall. intros [k r] Hin.
    apply elem_of_btree_iter in Hin. cbn. symmetry. by apply HK. }
  assert (Hnd : NoDup all.*1) by (unfold all; rewrite btree_iter_perm; apply NoDup_fst_map_to_list).
  rewrite <-E in Hnd. rewrite (Forall_fmap_ext_1 _ (λ r, record_key r.(br_kind) r.(br_id))).
  - eapply sublist_NoDup; [exact Hnd|]. apply fmap_sublist, sublist_filter.
  - apply Forall_forall. by intros r [[<- _] _]%list_elem_of_filter.
Qed.
(** The records still to come are as they were when the loop began. *)
Lemma process_kind_well kind asset s :
  mint_asset cfg kind = Some asset → well s → well (process_kind kind asset s).1.
Proof.
  intros Ha Hs. unfold process_kind. rewrite run_get. set (l := in_states _ _ _).
  set (P := λ l s, well s ∧ NoDup ((λ r, record_key kind r.(br_id)) <$> l) ∧
    ∀ r, r ∈ l → memory s !! record_key kind r.(br_id) = Some r ∧ r.(br_kind) = kind ∧ r.(br_state) ∈ OPEN_EVENTS).
  refine (run_to_any (P l) well _ _ s _).
  - eapply run_to_conseq; [apply (run_to_for_each P _ well)|done|by intros [] ? []|done].
    intros r l' s1 (Hw & Hnd & Hl). destruct (Hl r (list_elem_of_here _ _)) as (Hr & Hrk & Hst).
    pose proof (process_event_well kind asset (sv_safe s) r s1 Ha Hrk Hst Hr Hw) as Hw'.
    pose proof (only_event kind asset (sv_safe s) r s1) as Ho. rewrite fmap_cons in Hnd. apply NoDup_cons in Hnd as [Hni Hnd].
    destruct (process_event _ _ _ r s1) as [s2 [[]|x|]]; [|done..]. split; [done|]. split; [done|]. intros r' Hr'.
    rewrite Ho; [by apply Hl; right|]. intros E. apply Hni. rewrite <-E. by apply list_elem_of_fmap; exists r'.
  - destruct Hs as [L Hs]. pose proof (fine_known _ _ Hs) as HK. split; [by exists L|]. split; [|by intros r; apply in_states_lookup with L].
    by apply (states_nodup L).
Qed.
Lemma tick_well s : well s → well (tick cfg s).1.
Proof.
  assert (Hb : ∀ A (m : M Svc CliError A) (k : M Svc CliError unit), (∀ s, well s → well (m s).1) → (∀ s, well s → well (k s).1) →
    ∀ s, well s → well ((m ;;; k) s).1).
  { intros A m k Hm Hk s1 Hs. specialize (Hm s1 Hs). unfold bindM. destruct (m s1) as [s2 [x|x|]]; auto. }
  assert (Ht : ∀ m : M Svc CliError unit, tame m → ∀ s, well s → well (m s).1) by (intros m Hm s1 [L Hs]; exists L; by apply Hm).
  unfold tick. revert s. apply Hb; [by apply Ht, tame_scan_eth|]. apply Hb; [|apply Hb; apply Ht; [apply tame_scan_hk|apply tame_process_burns]].
  unfold process_eth_events. apply Hb; [by intros s; apply process_kind_well|].
  destruct (bc_hkt cfg) as [a|] eqn:E; [|done]. intros s. apply process_kind_well. unfold mint_asset. by rewrite E.
Qed.

(** ** The life *)

Record sound L (l : Life) : Prop := {
  sound_books b : l.(lf_books) = Some b → known L b.(bk_records);
  sound_file : holds (λ es, known L (recs es) ∧ ∀ b, l.(lf_books) = Some b → agrees cfg b.(bk_records) (recs es)) l.(lf_file);
  sound_minted : minted l.(lf_sent) = L.*2;
  sound_nodup : NoDup L.*1;
}.
Lemma opened f ef hf b : open_ledger f ef hf = Some b →
  ∃ es', read_events (file_lines f) = Some es' ∧ ∀ es, Forall2 same_event es es' → recs es = b.(bk_records).
Proof.
  unfold open_ledger. destruct (read_events _) as [es'|]; [|done]. intros [= <-]. exists es'. split; [done|].
  intros es H. by rewrite (fold_events_recs es).
Qed.
Lemma sound_start L l ef hf b :
  sound L l → open_ledger l.(lf_file) ef hf = Some b → sound L (mkLife l.(lf_file) (Some b) l.(lf_sent)).
Proof.
  intros [_ HF HM HN] Ho. apply opened in Ho as (es' & Hr & He).
  assert (HF' := holds_same _ _ _ HF Hr). constructor; cbn; [|eapply holds_mono; [|exact HF']|done|done].
  - intros b' [= <-]. destruct (holds_read _ _ HF _ Hr) as (es & [HK _] & H2). by rewrite <-(He es).
  - intros es [[HK _] H2]. split; [done|]. intros b' [= <-]. rewrite (He es H2). intros k r Hr'. by exists r.
Qed.
Lemma sound_tick L l b account script safe :
  sound L l → l.(lf_books) = Some b → Forall honest script →
  ∃ L', sound L' (ended (tick cfg (mkSvc (mkClient account script l.(lf_sent)) (mkLedger l.(lf_file) b) safe))).
Proof.
  intros [HB HF HM HN] Hb Hh. set (s := mkSvc _ _ _). assert (Hs : well s).
  { exists L. constructor; cbn; [by apply HB| |done..]. eapply holds_mono; [|exact HF]. intros es [? Ha]. split; [done|by apply Ha]. }
  destruct (tick_well s Hs) as [L' [HK' HF' _ HM' HN']]. exists L'. unfold ended. constructor; cbn; [| |done|done].
  - by destruct (tick cfg s).2 as [|[]|]; intros b' [= <-].
  - eapply holds_mono; [|exact HF']. intros es [? ?]. split; [done|]. by destruct (tick cfg s).2 as [|[]|]; intros b' [= <-].
Qed.
Lemma operator_fields (fields : list (string * Value)) :
  NoDup fields.*1 → Forall (λ kv, kv.1 ∈ ["note"; "hk_txid"; "eth_tx"] ∧ scalar kv.2) fields → noted fields.
Proof.
  intros Hn Hf. assert (Hv : ∀ x, x ∉ ["note"; "hk_txid"; "eth_tx"] → vfield x fields = None).
  { intros x Hx. clear Hn. induction Hf as [|[k v] fs [Hk _] _ IH]; [done|]. cbn in Hk |- *. by rewrite bool_decide_eq_false_2 by (intros ->; auto). }
  repeat split; [done| | |]; [eapply Forall_impl; [exact Hf|by intros kv []]|apply Hv; by apply (bool_decide_unpack _); vm_compute..].
Qed.
Lemma operator_note L m e r :
  known L m → m !! record_key e.(ae_kind) e.(ae_id) = Some r →
  vfield "amount" e.(ae_fields) = None → vfield "to" e.(ae_fields) = None → e.(ae_state) ∈ RESOLUTIONS →
  (e.(ae_state) = "seen" → ∀ d, due r = Some d → d ∉ L.*2) → e.(ae_kind) ≠ "cursor" ∧ notes L m e.
Proof.
  intros HK Hr Ha Ht Hst Hg. split.
  - intros E. rewrite E in Hr. destruct (proj1 HK _ _ Hr) as [Hk Ek]. apply list_elem_of_In in Hk. cbn in Hk.
    destruct Hk as [Hk|[Hk|[Hk|[Hk|[]]]]]; rewrite <-Hk in Ek; discriminate.
  - split; [by exists r|]. split; [done|]. split; [done|]. intros Hw d Hin.
    destruct (proj2 HK _ _ Hin) as (r' & Hr1 & _ & Hd). rewrite Hr in Hr1. injection Hr1 as <-.
    assert (ae_state e = "seen") as Es.
    { apply list_elem_of_In in Hst, Hw. cbn in Hst, Hw. naive_solver congruence. }
    apply (Hg Es d Hd), list_elem_of_fmap. by exists (record_key (ae_kind e) (ae_id e), d).
Qed.
(** The operator's line, whole or in part. *)
Lemma sound_resolve L l b kind id state fields now a r :
  sound L l → open_ledger l.(lf_file) 0 0 = Some b → b.(bk_records) !! record_key kind id = Some r →
  (state = "seen" → ∀ d, due r = Some d → d ∉ minted l.(lf_sent)) → noted fields →
  sound L (mkLife (resolve kind id state fields now a l.(lf_file)).1 l.(lf_books) l.(lf_sent)).
Proof.
  intros [HB HF HM HN] Ho Hr Hg (Hn1 & Hn2 & Hn3 & Hn4). unfold resolve. rewrite run_get, Ho. cbn [ok_or]. rewrite bindM_ret_l.
  case_bool_decide as Hst; cbn [negb refuse_if]; [|by constructor]. rewrite bindM_ret_l, Hr. cbn [ok_or]. rewrite bindM_ret_l.
  set (e := mkEvent now kind id state fields). apply opened in Ho as (es' & Hrd & He).
  set (P := λ es, (known L (recs es) ∧ ∀ b0, l.(lf_books) = Some b0 → agrees cfg b0.(bk_records) (recs es)) ∧ Forall2 same_event es es').
  assert (HF' : holds P l.(lf_file)) by exact (holds_same _ _ _ HF Hrd).
  assert (He' : ∀ es, P es → (λ es, known L (recs es) ∧ ∀ b0, l.(lf_books) = Some b0 → agrees cfg b0.(bk_records) (recs es)) (es ++ [e])).
  { intros es [[HK Ha] H2]. rewrite recs_snoc. apply He in H2. rewrite <-H2 in Hr. rewrite HM in Hg.
    destruct (operator_note L (recs es) e r HK Hr Hn3 Hn4 Hst Hg) as [Hc Hnt].
    split; [by apply known_note|]. intros b0 Hb0. apply agrees_fold_file; [done|by left|by apply Ha]. }
  assert (Hpl : plain e) by by split.
  destruct a as [|n|n]; cbn; (constructor; cbn; [exact HB| |done|done]).
  - eapply holds_mono; [|by apply (holds_write P)]. cbn. intros es (es0 & -> & HP). by apply He'.
  - eapply holds_mono; [|by apply (holds_part P _ n)]. cbn. intros es [[? _]|(es0 & -> & HP)]; [done|by apply He'].
  - eapply holds_mono; [|by apply (holds_part P _ n)]. cbn. intros es [[? _]|(es0 & -> & HP)]; [done|by apply He'].
Qed.
Lemma life_sound l : life cfg l → ∃ L, sound L l.
Proof.
  induction 1 as [|l l' _ [L HL] Hstep].
  - exists []. constructor; [done| |done|apply NoDup_nil_2]. change (@nil Byte.byte) with (text []). apply holds_text; [done|].
    split; [|done]. by split; [|intros k d ?%not_elem_of_nil].
  - destruct Hstep as [b ef hf Ho|b account script safe Hb Hh| |b kind id state fields now a r Ho Hr Hg Hf Hn].
    + exists L. by eapply sound_start.
    + by eapply sound_tick.
    + exists L. destruct HL as [_ HF HM HN]. constructor; [done| |done|done]. eapply holds_mono; [|exact HF]. by intros es [? _].
    + exists L. apply (sound_resolve _ _ b _ _ _ _ _ _ r); [done..|]. by apply operator_fields.
Qed.

(** C20: no deposit is minted twice.  Whatever the nodes of both chains answer, writes
    to the ledger fail or are cut, and ticks, kills, restarts and resolutions interleave:
    the mints that entered the chain belong one by one to different records, of
    the books in memory and of those the ledger file gives back if it reads, each
    mint paying exactly what its record says, and no such record waits
    to be minted; provided a submission answered with a failure did not enter
    ([honest]), and an operator sends a record back to [seen] only while no mint of its
    asset, account and amount has entered ([unminted]), which the code does not check. *)
Theorem no_double_mint l :
  life cfg l → ∃ keys,
    NoDup keys ∧ ∀ b, l.(lf_books) = Some b ∨ (∃ ef hf, open_ledger l.(lf_file) ef hf = Some b) →
    Forall2 (λ k d, ∃ r, b.(bk_records) !! k = Some r ∧ k = record_key r.(br_kind) r.(br_id) ∧
                    r.(br_state) ∉ WAITING ∧ due r = Some d) keys (minted l.(lf_sent)).
Proof.
  intros [L [HB HF HM HN]]%life_sound. exists L.*1. split; [done|]. intros b Hb. rewrite HM.
  assert (known L b.(bk_records)) as [HK HL].
  { destruct Hb as [Hb|(ef & hf & Ho)]; [by apply HB|]. apply opened in Ho as (es' & Hr & He).
    destruct (holds_read _ _ HF _ Hr) as (es & [HK _] & H2). by rewrite <-(He es). }
  apply Forall2_fmap, Forall_Forall2_diag, Forall_forall. intros [k d] Hin. cbn.
  destruct (HL k d Hin) as (r & Hr & Hs & Hd). exists r. repeat split; [done| |done|done]. by apply HK.
Qed.
End service.

(** * A reply that is lost *)

Section lost.
Context {SHAKE : Shake} {CODECS : Codecs} {TEXT : JsonText} {LT : LineText} {KECCAK : Keccak} {SECP : Secp}.
#[local] Notation memory s := s.(sv_ledger).(ld_books).(bk_records).

(** What a turn is answered when its mint enters and the reply does not come back. *)
Definition lost_turn (v v' : Value) (t : Z) : list Answer :=
  [OnHk v; OnAppend t ADone; OnHk v; OnSave WDone; OnSubmit true v'; OnSave WDone; OnAppend t ADone].
(** A record ready to be minted, and the issuer's account. *)
Definition ready kind safe to (r : BridgeRecord) (s : Svc) : Prop :=
  memory s !! record_key kind r.(br_id) = Some r ∧ r.(br_state) ∈ WAITING ∧ r.(br_at) ≤ safe ∧
  parse_h256 r.(br_to) = Some to ∧ r.(br_amount) ≠ 0.
Definition funded seed id (s : Svc) : Prop := ∃ f, s.(sv_client).(cl_account) = Some f ∧ opens f seed id.

Lemma reserve_sign_run seed id n tx v p c rest :
  (∃ f, c.(cl_account) = Some f ∧ opens f seed id) → account_nonce v = Some n → sign_tx seed id n p = Some tx →
  c.(cl_script) = OnHk v :: OnSave WDone :: rest →
  ∃ f, reserve_sign p c = (mkClient (Some f) rest c.(cl_sent), Ok (tx, f)) ∧ opens f seed id.
Proof.
  intros (f & Hf & Ho1 & Ho2) Hv Hs Hc. destruct c as [a script sent]. cbn in Hf, Hc |- *. subst a script.
  unfold reserve_sign, hk_rpc, save, next_answer, bindM. cbn. rewrite Ho1. cbn. rewrite Ho2. cbn. rewrite Hv.
  unfold wallet_sign. cbn. rewrite adopt_nonce, Hs. cbn. eexists. split; [done|].
  by destruct (n =? af_next_nonce f).
Qed.
Lemma lost_submit seed id n tx v v' p c rest :
  (∃ f, c.(cl_account) = Some f ∧ opens f seed id) → account_nonce v = Some n → submit_txid v' = None →
  sign_tx seed id n p = Some tx →
  c.(cl_script) = [OnHk v; OnSave WDone; OnSubmit true v'; OnSave WDone] ++ rest →
  ∃ f, hk_submit p c = (mkClient (Some f) rest (c.(cl_sent) ++ [SentTx tx true]), Err (Fail (submit_reply v'))) ∧ opens f seed id.
Proof.
  intros Hf Hv Hv' Hs Hc. destruct (reserve_sign_run _ _ _ _ _ _ _ _ Hf Hv Hs Hc) as (f & Hr & Ho).
  assert (Hsf : starts_with SUBMIT_FAILED (submit_reply v') = true) by by unfold submit_reply; rewrite Hv'.
  unfold hk_submit, bindM at 1. rewrite Hr. unfold submit, post_tx, save, next_answer, bindM. cbn. rewrite Hsf. cbn.
  by eexists.
Qed.
(** A submission that enters leaves once, whatever is answered. *)
Lemma submit_sends seed id n tx v v' p c rest :
  (∃ f, c.(cl_account) = Some f ∧ opens f seed id) → account_nonce v = Some n → sign_tx seed id n p = Some tx →
  c.(cl_script) = [OnHk v; OnSave WDone; OnSubmit true v'] ++ rest →
  (hk_submit p c).1.(cl_sent) = c.(cl_sent) ++ [SentTx tx true].
Proof.
  intros Hf Hv Hs Hc. destruct (reserve_sign_run _ _ _ _ _ _ _ _ Hf Hv Hs Hc) as (f & Hr & Ho).
  unfold hk_submit, bindM at 1. rewrite Hr. unfold submit. rewrite bindM_assoc, silent_bind; [done|].
  intros w. mute; by apply mute_save.
Qed.
Lemma write_done kind id state fields t s rest :
  s.(sv_client).(cl_script) = OnAppend t ADone :: rest →
  let e := mkEvent t kind id state fields in
  write kind id state fields s =
    (mkSvc (mkClient s.(sv_client).(cl_account) rest s.(sv_client).(cl_sent))
       (mkLedger (s.(sv_ledger).(ld_file) ++ event_line e) (fold_event s.(sv_ledger).(ld_books) e)) s.(sv_safe), Ok tt).
Proof. intros E. unfold write, next_append, on_client, zoom, bindM, next_answer. rewrite E. done. Qed.
Lemma hk_rpc_done s v rest :
  s.(sv_client).(cl_script) = OnHk v :: rest →
  on_client hk_rpc s = (sv_set_client (mkClient s.(sv_client).(cl_account) rest s.(sv_client).(cl_sent)) s, Ok v).
Proof. intros E. unfold on_client, zoom, hk_rpc, next_answer. by rewrite E. Qed.
Lemma attempt_lost seed id n tx v v' p s rest :
  funded seed id s → account_nonce v = Some n → submit_txid v' = None → sign_tx seed id n p = Some tx →
  s.(sv_client).(cl_script) = [OnHk v; OnSave WDone; OnSubmit true v'; OnSave WDone] ++ rest →
  ∃ f, attempt (on_client (hk_submit p)) s =
    (sv_set_client (mkClient (Some f) rest (s.(sv_client).(cl_sent) ++ [SentTx tx true])) s, Ok (inl (submit_reply v'))) ∧ opens f seed id.
Proof.
  intros Hf Hv Hv' Hs E. destruct (lost_submit seed id n tx v v' p s.(sv_client) rest Hf Hv Hv' Hs E) as (f & Hrun & Ho).
  exists f. split; [|done]. unfold attempt, on_client, zoom. by rewrite Hrun.
Qed.
Lemma lost_turn_eq kind asset safe to r s seed id n tx v v' t rest :
  ready kind safe to r s → funded seed id s → account_nonce v = Some n → submit_txid v' = None →
  sign_tx seed id n (Tx.AssetMint asset to r.(br_amount)) = Some tx →
  s.(sv_client).(cl_script) = lost_turn v v' t ++ rest →
  ∃ f file x text, opens f seed id ∧ process_event kind asset safe r s =
    (mkSvc (mkClient (Some f) rest (s.(sv_client).(cl_sent) ++ [SentTx tx true]))
       (mkLedger file (fold_event (fold_event s.(sv_ledger).(ld_books) (mkEvent t kind r.(br_id) "submitting" [("attempt", VNum 1)]))
                         (mkEvent t kind r.(br_id) "seen" (note text)))) s.(sv_safe), Err x).
Proof.
  intros (Hr & Hw & Ha & Hto & Hn) Hf Hv Hv' Hs E. unfold process_event.
  rewrite bool_decide_eq_false_2 by (intros E'; rewrite E' in Hw; apply list_elem_of_In in Hw; cbn in Hw; naive_solver).
  rewrite (proj2 (Z.ltb_ge _ _)), Hto by done.
  unfold bindM at 1. rewrite (hk_rpc_done s v _ E), Hv, (proj2 (Z.eqb_neq _ _)) by done.
  unfold bindM at 1. erewrite write_done by done. cbn [fst snd sv_set_client sv_client sv_ledger cl_script].
  destruct Hf as (f & Hf & Ho). unfold bindM at 1.
  match goal with |- context [attempt _ ?s1] =>
    destruct (attempt_lost seed id n tx v v' (Tx.AssetMint asset to r.(br_amount)) s1 (OnAppend t ADone :: rest)) as (f1 & -> & Ho1) end;
    [by exists f|done..|].
  unfold bindM. erewrite write_done by done. eexists f1, _, _, _. by split.
Qed.
Lemma lost_turn_run kind asset safe to r s seed id n tx v v' t rest :
  kind ≠ "cursor" → ready kind safe to r s → funded seed id s → account_nonce v = Some n → submit_txid v' = None →
  sign_tx seed id n (Tx.AssetMint asset to r.(br_amount)) = Some tx →
  s.(sv_client).(cl_script) = lost_turn v v' t ++ rest →
  ∃ s1 x, process_event kind asset safe r s = (s1, Err x) ∧
    s1.(sv_client).(cl_script) = rest ∧ s1.(sv_client).(cl_sent) = s.(sv_client).(cl_sent) ++ [SentTx tx true] ∧
    funded seed id s1 ∧
    ∃ r1, ready kind safe to r1 s1 ∧ r1.(br_id) = r.(br_id) ∧ r1.(br_amount) = r.(br_amount).
Proof.
  intros Hc Hrd Hf Hv Hv' Hs E.
  destruct (lost_turn_eq kind asset safe to r s seed id n tx v v' t rest Hrd Hf Hv Hv' Hs E) as (f & file & x & text & Ho & ->).
  set (e1 := mkEvent t kind r.(br_id) "submitting" _). set (e2 := mkEvent t kind r.(br_id) "seen" _).
  eexists _, _. split; [done|]. split; [done|]. split; [done|]. split; [by exists f|].
  exists (update e2 (update e1 r)). destruct Hrd as (Hr & _ & Ha & Hto & Hn). split; [|done].
  split; [|by split; [left|]]. cbn. rewrite !fold_event_records.
  apply (fold_record_at e2 _ (update e1 r)), (fold_record_at e1); done.
Qed.
(** C25: a lost reply mints a deposit twice.  A submission whose reply is lost or not
    understood counts as one that never entered the mempool, and the record is
    [seen] again: when the mint did enter, and the chain now answers the next
    nonce, the next turn mints the same amount to the same account once more. *)
Theorem lost_reply_mints_twice kind asset safe to r s seed id n tx1 tx2 v1 v2 v' t1 t2 :
  kind ≠ "cursor" → ready kind safe to r s → funded seed id s →
  account_nonce v1 = Some n → account_nonce v2 = Some (n + 1) → submit_txid v' = None →
  sign_tx seed id n (Tx.AssetMint asset to r.(br_amount)) = Some tx1 →
  sign_tx seed id (n + 1) (Tx.AssetMint asset to r.(br_amount)) = Some tx2 →
  s.(sv_client).(cl_script) = lost_turn v1 v' t1 ++ lost_turn v2 v' t2 →
  let s1 := (process_event kind asset safe r s).1 in
  ∃ r1, memory s1 !! record_key kind r.(br_id) = Some r1 ∧ r1.(br_state) ∈ WAITING ∧
    let s2 := (process_event kind asset safe r1 s1).1 in
    minted s2.(sv_client).(cl_sent) =
      minted s.(sv_client).(cl_sent) ++ [(asset, to, r.(br_amount)); (asset, to, r.(br_amount))].
Proof.
  intros Hc Hrd Hf Hv1 Hv2 Hv' H1 H2 E. pose proof (sign_tx_verifies _ _ _ _ _ H1) as (_ & _ & Hp1 & _).
  pose proof (sign_tx_verifies _ _ _ _ _ H2) as (_ & _ & Hp2 & _).
  destruct (lost_turn_run kind asset safe to r s seed id n tx1 v1 v' t1 _ Hc Hrd Hf Hv1 Hv' H1 E)
    as (s1 & x1 & -> & E1 & S1 & Hf1 & r1 & Hr1 & Hid & Ham).
  cbn. exists r1. rewrite <-Hid. split; [apply Hr1|]. split; [apply Hr1|]. rewrite <-Ham in H2 |- *.
  rewrite <-(app_nil_r (lost_turn v2 v' t2)) in E1.
  destruct (lost_turn_run kind asset safe to r1 s1 seed id (n + 1) tx2 v2 v' t2 [] Hc Hr1 Hf1 Hv2 Hv' H2 E1)
    as (s2 & x2 & -> & _ & S2 & _).
  cbn. rewrite S2, S1, !minted_snoc, <-app_assoc. cbn [mint_sent]. rewrite Hp1, Hp2. by rewrite Ham.
Qed.
End lost.

(** * A deposit that is no longer there *)

Section reorg.
Context {SHAKE : Shake} {CODECS : Codecs} {TEXT : JsonText} {LT : LineText} {KECCAK : Keccak} {SECP : Secp}.
#[local] Notation memory s := s.(sv_ledger).(ld_books).(bk_records).

(** What a turn is answered up to a submission that enters. *)
Definition mint_turn (v v' : Value) (t : Z) : list Answer :=
  [OnHk v; OnAppend t ADone; OnHk v; OnSave WDone; OnSubmit true v'].
(** Nothing leaves. *)
Definition silent : relation Svc := λ s s', s'.(sv_client).(cl_sent) = s.(sv_client).(cl_sent).
#[local] Instance silent_preorder : PreOrder silent.
Proof. split; [done|]. intros x y z ? ?. unfold silent in *. congruence. Qed.
Lemma silent_client {A} (m : M Client CliError A) : respects mute m → respects silent (on_client m).
Proof. intros Hm s. specialize (Hm s.(sv_client)). unfold on_client, zoom. by destruct (m _) as [c [x|e|]]. Qed.
Lemma silent_write kind id state fields : respects silent (write kind id state fields).
Proof.
  apply respects_bind; [apply _|apply silent_client, mute_next_answer|]. intros [now a] s.
  unfold zoom, write_event. by destruct a.
Qed.
Lemma silent_after {A B} (m : M Svc CliError A) (k : A → M Svc CliError B) s :
  (∀ x, respects silent (k x)) → (bindM m k s).1.(sv_client).(cl_sent) = (m s).1.(sv_client).(cl_sent).
Proof. intros Hk. unfold bindM. destruct (m s) as [s1 [x|e|]]; [apply Hk|done..]. Qed.
Lemma attempt_sent {A} (m : M Client CliError A) s :
  (attempt (on_client m) s).1.(sv_client).(cl_sent) = (m s.(sv_client)).1.(cl_sent).
Proof. unfold attempt, on_client, zoom. by destruct (m _) as [c [x|[|x]|]]. Qed.
(** One turn of which the mint enters. *)
Lemma mint_turn_run kind asset safe to r s seed id n tx v v' t rest :
  ready kind safe to r s → funded seed id s → account_nonce v = Some n →
  sign_tx seed id n (Tx.AssetMint asset to r.(br_amount)) = Some tx →
  s.(sv_client).(cl_script) = mint_turn v v' t ++ rest →
  (process_event kind asset safe r s).1.(sv_client).(cl_sent) = s.(sv_client).(cl_sent) ++ [SentTx tx true].
Proof.
  intros (Hr & Hw & Ha & Hto & Hn) Hf Hv Hs E. unfold process_event.
  rewrite bool_decide_eq_false_2 by (intros E'; rewrite E' in Hw; apply list_elem_of_In in Hw; cbn in Hw; naive_solver).
  rewrite (proj2 (Z.ltb_ge _ _)), Hto by done.
  unfold bindM at 1. rewrite (hk_rpc_done s v _ E), Hv, (proj2 (Z.eqb_neq _ _)) by done.
  unfold bindM at 1. erewrite write_done by done. cbn [fst snd sv_set_client sv_client sv_ledger cl_script].
  rewrite silent_after, attempt_sent; [by rewrite (submit_sends seed id n tx v v' _ _ rest)|].
  intros [e|txid]; cbv beta iota.
  - apply respects_bind; [apply _|apply silent_write|]. intros []. by intros s'.
  - apply respects_bind; [apply _|apply silent_write|]. intros [].
    apply respects_bind; [apply _|apply silent_client, mute_wait_receipt|]. intros rc. unfold settle_receipt.
    destruct rc; [apply silent_write|by intros s'].
Qed.
(** A deposit that a reorganisation replaced is minted as it was first seen.  The
    identifier of a deposit is the hash of a counter, so after a reorganisation
    another deposit may have it; the record of the first one stays, and as soon as the
    number of its block is behind the safe head it is minted, without another
    look at Ethereum: its amount, to its account. *)
Theorem replaced_deposit_is_minted kind asset safe ev1 ev2 s seed id n tx v v' t t' rest :
  kind ≠ "cursor" → memory s !! record_key kind (hex (h256_bytes ev1.(be_id))) = None →
  ev2.(be_id) = ev1.(be_id) → 0 ≤ ev1.(be_block) ≤ safe → safe ≤ u64_max → 0 < ev1.(be_amount) ≤ u128_max →
  funded seed id s → account_nonce v = Some n →
  sign_tx seed id n (Tx.AssetMint asset ev1.(be_hk_account) ev1.(be_amount)) = Some tx →
  s.(sv_client).(cl_script) = OnAppend t ADone :: mint_turn v v' t' ++ rest →
  let s1 := ((record_eth_event kind ev1 ;;; record_eth_event kind ev2) s).1 in
  ∃ r, memory s1 !! record_key kind (hex (h256_bytes ev2.(be_id))) = Some r ∧
    minted (process_event kind asset safe r s1).1.(sv_client).(cl_sent) =
      minted s.(sv_client).(cl_sent) ++ [(asset, ev1.(be_hk_account), ev1.(be_amount))].
Proof.
  intros Hc Hno Hid Hb Hsafe Ha Hf Hv Hs E. cbv zeta. rewrite Hid.
  set (e := mkEvent t kind (hex (h256_bytes ev1.(be_id))) "seen"
    [("amount", VStr (pretty ev1.(be_amount))); ("to", VStr (hex (h256_bytes ev1.(be_hk_account))));
     ("at", VNum ev1.(be_block)); ("source_tx", VStr ev1.(be_tx_hash))]).
  set (s2 := mkSvc (mkClient s.(sv_client).(cl_account) (mint_turn v v' t' ++ rest) s.(sv_client).(cl_sent))
    (mkLedger (s.(sv_ledger).(ld_file) ++ event_line e) (fold_event s.(sv_ledger).(ld_books) e)) s.(sv_safe)).
  assert (Hm : memory s2 !! record_key kind (hex (h256_bytes ev1.(be_id))) = Some (update e (new_record kind (hex (h256_bytes ev1.(be_id)))))).
  { cbn. rewrite fold_event_records. unfold fold_record. rewrite bool_decide_eq_false_2 by done. cbn.
    by rewrite lookup_insert_eq, Hno. }
  assert (E2 : (record_eth_event kind ev1 ;;; record_eth_event kind ev2) s = (s2, Ok tt)).
  { unfold record_eth_event, has. rewrite Hid. unfold bindM, books.
    rewrite bool_decide_eq_false_2 by by rewrite Hno; intros []. erewrite write_done by done.
    rewrite bool_decide_eq_true_2; [done|]. exact (ex_intro _ _ Hm). }
  rewrite E2. cbn [fst]. set (r := update _ _) in Hm. exists r. split; [exact Hm|].
  assert (Hra : r.(br_amount) = ev1.(be_amount)).
  { change (default 0 (parse_u128 (pretty ev1.(be_amount))) = ev1.(be_amount)). unfold parse_u128. by rewrite parse_pretty by lia. }
  pose proof (sign_tx_verifies _ _ _ _ _ Hs) as (_ & _ & Hp & _). rewrite <-Hra in Hs.
  rewrite (mint_turn_run kind asset safe ev1.(be_hk_account) r s2 seed id n tx v v' t' rest); [|split; [done|]|done..].
  - by rewrite minted_snoc, (mint_payload _ _ _ _ Hp).
  - split; [by left|]. rewrite Hra. split; [|split; [|lia]].
    + change (default 0 (vu64 (VNum ev1.(be_block))) ≤ safe). cbn [vu64].
      rewrite (proj2 (Z.leb_le 0 _)), (proj2 (Z.leb_le _ u64_max)) by lia. cbn. lia.
    + change (parse_h256 (hex (h256_bytes ev1.(be_hk_account))) = Some ev1.(be_hk_account)).
      unfold parse_h256. by rewrite trim_hex, h256_of_hex_hex.
Qed.
End reorg.
