(* ===== verification/BridgeDemo.v ===== *)
(** A codec for the lines of the bridge's ledger that meets the laws of
    Attest.v, and sample runs of the service: the witnesses of Minting.v and
    EthSpec.v. *)

From S2P Require Import Signer State Toy Demo.
From S2P Require Export EthSpec Minting.
#[local] Open Scope Z_scope.

(** * Lines *)

Module Lines.
(** A brace, the bits of the event's code, a brace. *)
Definition Flat : Type := Z * string * string * string * list (string * (string + Z)).
Definition flat_value (v : Value) : string + Z := match v with VStr s => inl s | VNum n => inr n | _ => inr 0 end.
Definition value_of (x : string + Z) : Value := match x with inl s => VStr s | inr n => VNum n end.
Definition flat (e : Attest.Event) : Flat :=
  (e.(ae_t), e.(ae_kind), e.(ae_id), e.(ae_state), (λ kv, (kv.1, flat_value kv.2)) <$> e.(ae_fields)).
Definition event_of (x : Flat) : Attest.Event :=
  let '(t, kind, id, state, fields) := x in Attest.mkEvent t kind id state ((λ kv, (kv.1, value_of kv.2)) <$> fields).
Fixpoint bits (p : positive) : bytes :=
  match p with xH => [x7d] | xO p => x30 :: bits p | xI p => x31 :: bits p end.
Fixpoint of_bits (l : bytes) : option positive :=
  match l with
  | [x7d] => Some xH
  | x30 :: l => xO <$> of_bits l
  | x31 :: l => xI <$> of_bits l
  | _ => None
  end.
Definition line (e : Attest.Event) : bytes := x7b :: bits (encode (flat e)).
Definition of_line (l : bytes) : option Attest.Event :=
  match l with x7b :: l => p ← of_bits l; event_of <$> decode p | _ => None end.
#[export] Instance text : LineText := {| enc_event := line; dec_event := of_line |}.

Lemma of_bits_bits p : of_bits (bits p) = Some p.
Proof.
  induction p as [p IH|p IH|]; cbn; [| |done].
  - by rewrite IH.
  - by rewrite IH.
Qed.
Lemma of_bits_shape l p : of_bits l = Some p → l = bits p.
Proof.
  revert p. induction l as [|b l IH]; intros p H; [done|].
  destruct b; try discriminate H; cbn in H.
  1,2: destruct (of_bits l) as [q|] eqn:E; [|done]; injection H as <-; cbn; f_equal; by apply IH.
  destruct l; [|done]. by injection H as <-.
Qed.
Lemma bits_bytes p : Forall (λ b, b ≠ x0a ∧ b ≠ x0d ∧ b ≠ x7b) (bits p).
Proof. induction p; cbn; repeat constructor; done. Qed.
(** No code is the beginning of another text of bits. *)
Lemma bits_prefix p q l : bits p ++ l = bits q → l = [].
Proof.
  revert q. induction p as [p IH|p IH|]; intros [q|q|] H; try discriminate H; injection H; eauto.
Qed.
Lemma frag_brace p : frag p → ∃ r, p = x7b :: r.
Proof. intros (e & _ & Hn & [k Hk]). destruct p as [|b p]; [done|]. injection Hk as <- _. by exists p. Qed.
#[export] Instance laws : LineLaws text.
Proof.
  constructor.
  - intros e [_ Hs]. exists e. split; [|by apply same_refl]. cbn. rewrite of_bits_bits. cbn. rewrite decode_encode. cbn.
    destruct e as [t k i st fs]. cbn in Hs |- *. do 2 f_equal. rewrite <-list_fmap_compose. rewrite <-(list_fmap_id fs) at 2.
    apply Forall_fmap_ext_1. eapply Forall_impl; [exact Hs|]. by intros [f []] Hv.
  - intros e _. by eexists.
  - intros e _. constructor; [done|]. eapply Forall_impl; [apply bits_bytes|]. naive_solver.
  - intros e p _ [k Hk] Hne. cbn in Hk |- *. destruct p as [|b p]; [done|]. injection Hk as <- Hk. cbn.
    destruct (of_bits p) as [q|] eqn:E; [|done]. apply of_bits_shape in E as ->. symmetry in Hk. pose proof (bits_prefix _ _ _ Hk) as ->.
    rewrite app_nil_r in Hk. destruct Hne. exact (f_equal (cons x7b) Hk).
  - intros p ps (r & ->)%frag_brace Hn Hps. destruct ps as [|q ps]; [done|]. apply Forall_cons in Hps as [(c & ->)%frag_brace _]. cbn.
    destruct (of_bits _) as [x|] eqn:E; [|done]. apply of_bits_shape in E. pose proof (bits_bytes x) as H. rewrite <-E in H.
    apply Forall_app in H as [_ H]. apply Forall_cons in H as [(_ & _ & ?) _]. done.
Qed.
End Lines.

(** * The service *)

Module Bridged.
#[local] Existing Instances toy_shake toy_sha2 toy_codecs.
#[export] Existing Instances Sample.text Lines.text Lines.laws.
#[export] Instance keccak_sample : Keccak := toy_sha2.
#[export] Instance secp_sample : Secp := {| ec_public := λ _, Some (replicate 65 x01); ec_sign := λ _ h, Some (replicate 64 x02, 0) |}.
#[export] Instance secp_laws : SecpLaws secp_sample.
Proof. intros k h rs y. by intros [= <- <-]; split; [|left]. Qed.
Definition address : Address := match address_of_bytes (replicate 20 x07) with Some a => a | None => mkAddress (replicate 20 x07) eq_refl end.
Definition usdc : AssetId := id_of 50.
Definition cfg : BridgeCfg :=
  mkBridgeCfg 11155111 address None (mkEthSigner [] address) (id_of 1) None usdc None "1" 100 10 [].
Definition call : Tx1559 := mkTx1559 11155111 0 1500000000 (2 ^ 100) 120000 address 0 (replicate 100 xff).
Definition result (v : Value) : string + Value := inr (VObj [("result", v)]).
(** A deposit of 7 units in block 4, by the contract's log. *)
Definition log : Value :=
  VObj [("topics", VArr (VStr <$> [hex0x (h256_bytes (id_of 9)); hex0x (h256_bytes (id_of 33)); hex0x (h256_bytes (id_of 8)); hex0x (h256_bytes (id_of 2))]));
        ("data", VStr (hex0x (be_bytes 32 7 ++ be_bytes 32 0)));
        ("blockNumber", VStr "0x4"); ("transactionHash", VStr "0xaa")].
Definition receipt_reply (s : string) : Value := VObj [("result", VObj [("found", VBool true); ("detail", VStr s)])].
(** A tick that sees the deposit in the head block less one, mints it, and is killed. *)
Definition script : list Answer :=
  [OnEth (result (VStr "0x5")); OnEth (result (VArr [log])); OnAppend 1 ADone; OnAppend 2 ADone;
   OnHk (Sample.nonce_reply 0); OnAppend 3 ADone;
   OnHk (Sample.nonce_reply 4); OnSave WDone; OnSubmit true (Sample.txid_reply "bb"); OnAppend 4 ADone;
   OnHk (receipt_reply "ok"); OnAppend 5 (AKilled 0)].
Definition start : Life := mkLife [] (Some (new_books 5 0)) [].
Definition killed : Life :=
  ended (tick cfg (mkSvc (mkClient (Some (Sample.file 4)) script []) (mkLedger [] (new_books 5 0)) 0)).
(** A record that waits, and a service whose two submissions enter and are not answered. *)
Definition waiting : BridgeRecord :=
  mkRecord "deposit" "d1" "seen" 7 (hex (h256_bytes (id_of 2))) 4 "0xaa" None None None 1 0.
Definition unanswered : Svc :=
  mkSvc (mkClient (Some (Sample.file 4))
          (lost_turn (Sample.nonce_reply 4) (no_reply "timed out") 1 ++ lost_turn (Sample.nonce_reply 5) (no_reply "timed out") 2) [])
    (mkLedger [] (mkBooks {[ "deposit:d1" := waiting ]} 4 0)) 4.
(** Two deposits with one identifier, and a service that has seen neither. *)
Definition deposit (to amount : Z) : BridgeEvent := mkBridgeEvent (id_of 9) address (id_of to) amount 1 4 "0xaa" 0.
Definition unaware : Svc :=
  mkSvc (mkClient (Some (Sample.file 4)) (OnAppend 1 ADone :: mint_turn (Sample.nonce_reply 4) (Sample.txid_reply "bb") 2) [])
    (mkLedger [] (mkBooks ∅ 4 0)) 4.
Definition mint7 : Tx := Tx.AssetMint usdc (id_of 2) 7.
End Bridged.

#[local] Existing Instances toy_shake toy_sha2 toy_codecs.
Import Bridged.
Lemma sample_bridge_life : life cfg killed.
Proof.
  apply (life_next _ start); [apply (life_next _ (mkLife [] None [])); [constructor|]|].
  - by apply (life_start _ (mkLife [] None []) (new_books 5 0) 5 0).
  - apply (life_tick _ start _ _ script 0); [done|]. by repeat constructor.
Qed.
(** The service was killed before it wrote the receipt down. *)
Lemma no_double_mint_witness :
  minted killed.(lf_sent) = [(usdc, id_of 2, 7)] ∧
  ∃ b keys, open_ledger killed.(lf_file) 5 0 = Some b ∧ NoDup keys ∧
    Forall2 (λ k d, ∃ r, b.(bk_records) !! k = Some r ∧ k = record_key r.(br_kind) r.(br_id) ∧
                    r.(br_state) ∉ WAITING ∧ due cfg r = Some d) keys [(usdc, id_of 2, 7)].
Proof.
  assert (E : minted killed.(lf_sent) = [(usdc, id_of 2, 7)]) by (vm_compute; reflexivity).
  split; [exact E|]. destruct (no_double_mint cfg killed sample_bridge_life) as (keys & Hn & H).
  destruct (open_ledger killed.(lf_file) 5 0) as [b|] eqn:Ho; [|exfalso; vm_compute in Ho; discriminate].
  exists b, keys. split; [reflexivity|]. split; [exact Hn|]. rewrite <-E. apply H. right. exists 5, 0. exact Ho.
Defined.
Lemma sample_signs n : n = 4 ∨ n = 5 → is_Some (sign_tx [x01] (id_of 7) n mint7).
Proof.
  intros Hn. destruct (sign_tx [x01] (id_of 7) n mint7) eqn:E; [by eexists|]. exfalso.
  destruct Hn as [->| ->]; vm_compute in E; discriminate.
Qed.
Lemma sample_ready : ready "deposit" 4 (id_of 2) waiting unanswered.
Proof. split; [done|]. split; [by left|]. by vm_compute. Qed.
Lemma lost_reply_mints_twice_witness :
  let s1 := (process_event "deposit" usdc 4 waiting unanswered).1 in
  ∃ r1, s1.(sv_ledger).(ld_books).(bk_records) !! "deposit:d1" = Some r1 ∧
    minted (process_event "deposit" usdc 4 r1 s1).1.(sv_client).(cl_sent) = [(usdc, id_of 2, 7); (usdc, id_of 2, 7)].
Proof.
  destruct (sample_signs 4 (or_introl eq_refl)) as [tx1 E1]. destruct (sample_signs 5 (or_intror eq_refl)) as [tx2 E2].
  destruct (lost_reply_mints_twice "deposit" usdc 4 (id_of 2) waiting unanswered [x01] (id_of 7) 4 tx1 tx2
    (Sample.nonce_reply 4) (Sample.nonce_reply 5) (no_reply "timed out") 1 2
    ltac:(discriminate) sample_ready (ex_intro _ (Sample.file 4) (conj eq_refl (conj eq_refl eq_refl)))
    eq_refl eq_refl eq_refl E1 E2 eq_refl) as (r1 & Hr & _ & H).
  exact (ex_intro _ r1 (conj Hr H)).
Defined.
(** The second deposit is of 900 units, to another account. *)
Lemma replaced_deposit_is_minted_witness :
  let s1 := ((record_eth_event "deposit" (deposit 2 7) ;;; record_eth_event "deposit" (deposit 3 900)) unaware).1 in
  ∃ r, s1.(sv_ledger).(ld_books).(bk_records) !! record_key "deposit" (hex (h256_bytes (id_of 9))) = Some r ∧
    minted (process_event "deposit" usdc 4 r s1).1.(sv_client).(cl_sent) = [(usdc, id_of 2, 7)].
Proof.
  destruct (sample_signs 4 (or_introl eq_refl)) as [tx E].
  apply (replaced_deposit_is_minted "deposit" usdc 4 (deposit 2 7) (deposit 3 900) unaware [x01] (id_of 7) 4 tx
    (Sample.nonce_reply 4) (Sample.txid_reply "bb") 1 2 []);
    [discriminate|reflexivity|reflexivity|cbn; lia|unfold u64_max; lia|cbn; unfold u128_max; lia| |reflexivity|exact E|reflexivity].
  exists (Sample.file 4). split; [reflexivity|split; reflexivity].
Defined.
Lemma signed_transaction_reads_back_witness :
  ∃ raw rs y, sign_1559 cfg.(bc_signer) call = Some raw ∧
    decode_1559 raw = Some (call, y, be_val (take 32 rs), be_val (drop 32 rs)).
Proof.
  destruct (sign_1559 cfg.(bc_signer) call) as [raw|] eqn:E; [|exfalso; vm_compute in E; discriminate].
  destruct (signed_transaction_reads_back cfg.(bc_signer) call raw) as (rs & y & _ & H); [|exact E|].
  - unfold in_range, u128_max. cbn. lia.
  - exists raw, rs, y. split; [reflexivity|exact H].
Defined.
Lemma attested_call_reads_back_witness :
  decode_attested (encode_attested_call UNLOCK_FN address 7 (id_of 9) [replicate 65 x01; replicate 65 x02]) =
    Some (selector UNLOCK_FN, address, 7, id_of 9, [replicate 65 x01; replicate 65 x02]).
Proof.
  apply attested_call_reads_back; [unfold u128_max; lia|repeat constructor|cbn; lia].
Defined.
