(* ===== verification/Typed.v ===== *)
(** The ledger as a value of its Rust types: whatever genesis and blocks do to it,
    every number it stores stays within the width its field has, so that none of
    the additions and subtractions of the handlers ever wraps around. *)

From S2P Require Export Invariant.
From S2P Require Import Demo Toy.
#[local] Open Scope Z_scope.

Section typed.
Context {SHAKE : Shake} {SHA2 : Sha2} {CODECS : Codecs}.

(** The integer fields of [State] and of what it stores, each at its width. *)
Record well_typed (s : State) : Prop := mkWellTyped {
  wt_clock : in_u64 (st_height s) ∧ in_u64 (st_time s);
  wt_nonces : map_Forall (λ _ a, in_u64 (acc_nonce a)) (st_accounts s);
  wt_balances : map_Forall (λ _ v, in_u128 v) (st_balances s);
  wt_mandates : map_Forall (λ id n, mn_id n = id ∧ in_u128 (mn_rate_per_sec n) ∧ in_u128 (mn_buffer_max n) ∧
    in_u128 (mn_buffer n) ∧ in_u128 (mn_per_tx_max n) ∧ in_u64 (mn_expiry n) ∧ in_u64 (mn_last_accrual n) ∧
    in_u8 (mn_tier n)) (st_mandates s);
  wt_channels : map_Forall (λ _ c, in_u128 (chan_escrow_remaining c) ∧ in_u128 (cs_unit_price (chan_state c)) ∧
    in_u64 (cs_max_steps (chan_state c)) ∧ in_u64 (cs_highest_step_settled (chan_state c)) ∧
    cs_highest_step_settled (chan_state c) ≤ cs_max_steps (chan_state c) ∧ in_u64 (cs_expiry (chan_state c))) (st_channels s);
  wt_pools : ∀ key p, pool_ref s key = Some p →
    in_u8 (pool_version p) ∧ in_u128 (pool_total_shielded p) ∧ 0 ≤ it_next_index (pool_tree p) < 2 ^ 32 ∧
    length (it_frontier (pool_tree p)) = TREE_DEPTH;
  wt_assets : map_Forall (λ _ i, in_u128 (ai_supply i) ∧ in_u128 (ai_burned i) ∧ in_u8 (ai_decimals i) ∧
    in_u64 (ai_registered_at i)) (st_assets s);
  wt_fees : in_u128 (st_fees_burned s) ∧ in_u128 (st_fee_micro s) ∧ in_u64 (st_fee_from s);
  wt_gates : in_u64 (st_multi_pool_from s) ∧ in_u64 (st_mandate_asset_from s) ∧ in_u64 (st_payword_cap_from s);
}.
(** A genesis at the widths of its fields. *)
Definition genesis_typed (g : Genesis) : Prop :=
  genesis_ok g ∧ Forall (λ a, in_u8 (gas_decimals a)) (g_assets g) ∧ (∀ f, g_fee g = Some f → in_u64 (gf_from_height f)).

(** ** The widths that the invariant of the ledger does not have *)

Definition terms_sized (c : Channel) : Prop :=
  in_u128 (cs_unit_price (chan_state c)) ∧ in_u64 (cs_max_steps (chan_state c)) ∧ in_u64 (cs_expiry (chan_state c)).
Definition entry_sized (i : AssetInfo) : Prop := in_u8 (ai_decimals i) ∧ in_u64 (ai_registered_at i).
Record sized (s : State) : Prop := mkSized {
  sz_height : in_u64 (st_height s);
  sz_nonces : map_Forall (λ _ a, in_u64 (acc_nonce a)) (st_accounts s);
  sz_tiers : map_Forall (λ _ n, in_u8 (mn_tier n)) (st_mandates s);
  sz_terms : map_Forall (λ _ c, terms_sized c) (st_channels s);
  sz_version : in_u8 (pool_version (st_pool s));
  sz_versions : map_Forall (λ _ p, in_u8 (pool_version p)) (st_pools s);
  sz_assets : map_Forall (λ _ i, entry_sized i) (st_assets s);
  sz_gates : in_u64 (st_fee_from s) ∧ in_u64 (st_multi_pool_from s) ∧ in_u64 (st_mandate_asset_from s) ∧
    in_u64 (st_payword_cap_from s);
}.
(** ** The elementary updates *)
Lemma sized_balances s v : sized s → sized (set_balances v s).
Proof. intros []. by constructor. Qed.
Lemma sized_credited s id asset a : sized s → sized (credited id asset a s).
Proof. apply sized_balances. Qed.
Lemma sized_debited s id asset a : sized s → sized (debited id asset a s).
Proof. apply sized_balances. Qed.
Lemma sized_account s id a : sized s → in_u64 (acc_nonce a) → sized (set_accounts (<[id := a]> (st_accounts s)) s).
Proof. intros [] Ha. constructor; try done. by apply map_Forall_insert_2. Qed.
Lemma sized_mandates s t : sized s → map_Forall (λ _ n, in_u8 (mn_tier n)) t → sized (set_mandates t s).
Proof. intros [] Ht. by constructor. Qed.
Lemma sized_channel s id c : sized s → terms_sized c → sized (set_channels (<[id := c]> (st_channels s)) s).
Proof. intros [] Hc. constructor; try done. by apply map_Forall_insert_2. Qed.
Lemma sized_pool s key p : sized s → in_u8 (pool_version p) → sized (put_pool key p s).
Proof. intros [] Hp. destruct key; constructor; try done. by apply map_Forall_insert_2. Qed.
Lemma sized_asset s a i : sized s → entry_sized i → sized (set_assets (<[a := i]> (st_assets s)) s).
Proof. intros [] Hi. constructor; try done. by apply map_Forall_insert_2. Qed.
Lemma sized_version s key p : sized s → pool_ref s key = Some p → in_u8 (pool_version p).
Proof. intros [] H. destruct key as [|a]; cbn in H; [by injection H as <-|by eapply sz_versions0]. Qed.
Lemma sized_target s key : sized s → in_u8 (pool_version (target_pool s key)).
Proof.
  intros Hs. destruct key as [|a]; [apply Hs|]. cbn. destruct (st_pools s !! a) as [p|] eqn:E; [|apply Hs].
  by apply (sized_version s (Asset a)).
Qed.
(** A draw changes no tier. *)
Lemma spend_tiers t leaf a now t' r :
  tree_ok t → 0 ≤ a → Mandate.spend leaf a now t = (t', r) →
  map_Forall (λ _ n, in_u8 (mn_tier n)) t → map_Forall (λ _ n, in_u8 (mn_tier n)) t'.
Proof.
  intros Ht Ha Hs H id n Hn. apply spend_evolves in Hs as [_ Hs]; [|done..]. specialize (Hs id). rewrite Hn in Hs.
  destruct (t !! id) as [m|] eqn:Hm; [|done]. injection Hs as Hs. pose proof (H id m Hm) as Hw. cbn in Hw |- *. congruence.
Qed.
Lemma sized_draw s t' leaf a now r :
  inv s → sized s → 0 ≤ a → Mandate.spend leaf a now (st_mandates s) = (t', r) → sized (set_mandates t' s).
Proof. intros Hi Hs Ha H. apply sized_mandates; [done|]. eapply spend_tiers; [apply Hi|exact Ha|exact H|apply Hs]. Qed.
#[local] Hint Resolve sized_credited sized_debited sized_account sized_channel sized_pool sized_asset : core.

(** ** Every transaction, every block *)

Lemma accepts_sized s sender tx ev s' : accepts s sender tx ev s' → tx_ok tx → inv s → sized s → sized s'.
Proof.
  intros H Hok Hi Hs. destruct H; cbn in Hok.
  - by auto.
  - assert (Ha : in_u64 (acc_nonce (mkAccount auth_commit 0))) by (cbn; ulia). case_match; [|by auto].
    apply sized_credited. by apply (sized_account (debited sender asset amount s)); auto.
  - assert (Hs' : sized (set_mandates t' s)).
    { subst t' node. apply sized_mandates; [done|]. apply map_Forall_insert_2; [by apply Hok|apply Hs]. }
    case_bool_decide; [|done]. destruct Hs'. by constructor.
  - destruct H0 as [_ _ _ Hsp _]. apply sized_credited, sized_debited. eapply sized_draw; [done..| |exact Hsp]. ulia.
  - apply sized_mandates; [done|]. apply map_Forall_insert_2; [|apply Hs]. exact (sz_tiers s Hs _ _ H).
  - destruct H7 as [_ _ _ Hsp _]. assert (0 ≤ deposit) by (unfold in_u128, in_u32 in Hok; nia).
    assert (Hd : sized (debited funder asset deposit (set_mandates t' s))).
    { apply sized_debited. by eapply sized_draw. }
    apply (sized_channel _ id _ Hd). unfold terms_sized. cbn. split_and!; ulia.
  - apply sized_credited. apply sized_channel; [done|]. exact (sz_terms s Hs _ _ H).
  - apply sized_credited. apply sized_channel; [done|]. exact (sz_terms s Hs _ _ H).
  - apply sized_pool; [by auto|]. cbn. by apply sized_target.
  - assert (Hm : sized (set_mandates m' s)).
    { destruct mandate as [m|]; [|by subst m'; destruct s]. destruct H6 as (_ & _ & Hsp & _).
      eapply sized_draw; [done..| |exact Hsp]. ulia. }
    assert (Hp : sized (put_pool key (spent_pool nullifier fee t2 p) (set_mandates m' s))).
    { apply sized_pool; [done|]. cbn. by apply (sized_version s key). }
    cbv zeta. repeat case_match; by auto.
  - apply sized_asset; [done|]. split; [exact Hok|apply Hs].
  - apply sized_credited, sized_asset; [done|]. exact (sz_assets s Hs _ _ H0).
  - apply (sized_asset (debited sender asset amount s)); [by auto|]. exact (sz_assets s Hs _ _ H1).
  - apply sized_asset; [done|]. exact (sz_assets s Hs _ _ H).
  - apply sized_asset; [done|]. exact (sz_assets s Hs _ _ H).
Qed.
Lemma applied_sized stx pre s s' ev : stx_ok stx → inv s → applied stx pre s s' ev → sized s → sized s'.
Proof.
  intros [Hok _] Hi [_ Hf (s2 & acc & Hacc & Hl & ->)] Hs.
  assert (Hc : sized (charged (stx_sender stx) s)) by (unfold charged; case_match; by auto).
  apply accepts_sized in Hacc as H2; [|done|by apply inv_charged|done].
  apply sized_account; [|apply wrapping_in_u64]. unfold burned. case_match; [|done]. destruct H2. by constructor.
Qed.
Definition keeps_sized (s s' : State) : Prop := sized s → sized s'.
#[local] Instance keeps_sized_preorder : PreOrder keeps_sized.
Proof. split; [intros s H; exact H|]. intros a b c H1 H2 Ha. auto. Qed.
Lemma reach_sized n s s' : reach n s s' → inv s → sized s → sized s'.
Proof.
  apply (reach_rel_const keeps_sized).
  - split_and!.
    + intros s1 h t Hh _ _ []. by constructor.
    + intros s1 p _ _ _ _ E []. constructor; cbn; by rewrite ?E.
    + intros s1 a q p Hq _ _ _ _ E Hs. apply (sized_pool s1 (Asset a) p Hs). rewrite E. by apply (sized_version s1 (Asset a)).
    + intros s1 c []. by constructor.
  - intros stx pre s1 s2 ev Hok Hi Ha Hs. by eapply applied_sized.
Qed.
Lemma respects_for {A} (f : A → St unit) (P : A → Prop) l :
  (∀ x, P x → respects keeps_sized (f x)) → Forall P l → respects keeps_sized (for_eachM f l).
Proof.
  intros Hf. induction 1 as [|x l Hx _ IH]; cbn [for_eachM]; [by apply respects_quiet; [apply _|]|].
  apply respects_bind; [apply _|by apply Hf|by intros []].
Qed.
Lemma account_sized ga : respects keeps_sized (genesis_account ga).
Proof.
  intros s Hs. unfold genesis_account. rewrite run_get. cbv zeta. unfold put_account. rewrite run_modify.
  assert (sized (set_accounts (<[ga_id ga := mkAccount (ga_auth_commit ga) 0]> (st_accounts s)) s)).
  { apply sized_account; [done|]. cbn. ulia. }
  unfold refuse_if. by case_match.
Qed.
Lemma asset_sized ga : in_u8 (gas_decimals ga) → respects keeps_sized (genesis_asset ga).
Proof.
  intros Hd. unfold genesis_asset. do 2 (apply respects_bind; [apply _|apply respects_quiet; [apply _|by auto with hkframe]|intros _]).
  intros s Hs. rewrite run_get. cbv zeta. unfold put_asset. rewrite run_modify.
  assert (sized (set_assets (<[gas_id ga := mkAsset (gas_symbol ga) (gas_decimals ga) (gas_issuer ga) (gas_policy ga) 0 0 false ∅ 0]>
    (st_assets s)) s)) by (apply sized_asset; [done|]; split; [done|cbn; ulia]).
  unfold refuse_if. by case_match.
Qed.
Lemma alloc_sized e : respects keeps_sized (genesis_alloc e).
Proof.
  destruct e as [[id asset] amount]. unfold genesis_alloc. intros s Hs. unfold credit. rewrite run_modify, run_get.
  destruct (st_assets _ !! asset) as [info|] eqn:E; [|by apply sized_balances].
  apply (sized_asset (set_balances _ s)); [by apply sized_balances|]. exact (sz_assets s Hs _ _ E).
Qed.
Lemma fee_sized f : in_u64 (gf_from_height f) → respects keeps_sized (genesis_fee f).
Proof.
  intros Hf. unfold genesis_fee.
  walk_respects ltac:(intros []; constructor; try done; cbn; naive_solver).
Qed.
Lemma genesis_sized g : genesis_typed g → respects keeps_sized (genesis_steps g).
Proof.
  intros (_ & Hd & Hfee). unfold genesis_steps.
  apply respects_bind; [apply _|apply (respects_for _ (λ _, True)); [by intros; apply account_sized|by apply Forall_true]|intros _].
  apply respects_bind; [apply _|eapply respects_for; [exact asset_sized|exact Hd]|intros _].
  apply respects_bind; [apply _|apply (respects_for _ (λ _, True)); [by intros; apply alloc_sized|by apply Forall_true]|intros _].
  apply respects_bind; [apply _| |intros _].
  { destruct (g_fee g) as [f|]; [by apply fee_sized, Hfee|]. by apply respects_quiet; [apply _|auto with hkframe]. }
  intros s Hs. rewrite run_get. unfold refuse_if. destruct (is_some_and _ _); [done|]. rewrite run_ret.
  unfold on_pool, zoom. destruct (seal_anchor (st_pool s)) as [p [u|e|]] eqn:E;
    apply seal_anchor_frame in E as (_ & _ & _ & _ & E); (apply (sized_pool s Legacy); [done|]; rewrite E; apply Hs).
Qed.
Lemma well_typed_intro s : inv s → sized s → well_typed s.
Proof.
  intros [Hb Hm Hc Hp Hps Ha [Hf1 Hf2] Ht _] [Hh Hn Hti Hte Hv Hvs Hen (Hg & Hg')]. constructor; try done.
  - intros id n Hi. destruct (Hm id n Hi) as (E & H1 & H2 & H3 & H4 & H5 & H6). pose proof (Hti id n Hi) as H7.
    split_and!; try done. unfold in_u128 in *. lia.
  - intros id c Hi. destruct (Hc id c Hi) as (H1 & H2 & H3 & H4). destruct (Hte id c Hi) as (H5 & H6 & H7).
    split_and!; [|done|done|ulia|lia|done]. rewrite H4.
    unfold in_u128. destruct (chan_refunded c); [unfold u128_max; lia|]. nia.
  - assert (∀ p, pool_ok p → in_u128 (pool_total_shielded p) ∧ 0 ≤ it_next_index (pool_tree p) < 2 ^ 32 ∧
      length (it_frontier (pool_tree p)) = TREE_DEPTH) as Hpool.
    { intros p [[leaves (E & Hl & _ & Hlen & _)] Htot]. split_and!; [done|lia|done|done]. }
    intros [|a] p; cbn; [intros [= <-]; split; [done|by apply Hpool]|]. intros Hp'. split; [by apply (Hvs a)|]. by apply Hpool, (Hps a).
  - intros a i Hi. destruct (Ha a i Hi) as [H1 H2]. by destruct (Hen a i Hi).
Qed.

(** C39: the ledger stays a value of its types.  From any genesis whose numbers are
    within their widths, after any chain of blocks whose transactions' are, every
    number that the ledger stores is within the width of its Rust field: height, clock
    and activation heights, nonces, balances, all terms, buffers and tiers of mandates,
    all terms, escrows and settled steps of channels, versions, totals and leaf counts
    of pools, supplies, decimals and registration heights of assets, and fees. *)
Theorem chain_is_well_typed g s0 n s :
  genesis_typed g → from_genesis g = Ok s0 → reach n s0 s → well_typed s.
Proof.
  intros Hg Hs0 Hr. pose proof Hg as [Hok _]. assert (inv s0) as Hi by (by eapply from_genesis_spec).
  assert (sized s0) as Hc.
  { unfold from_genesis in Hs0. pose proof (genesis_sized g Hg (set_time (g_time g) state_default)) as Hk.
    destruct (genesis_steps g _) as [s1 [u|e|]]; [|done..]. injection Hs0 as <-. apply Hk.
    constructor; try apply map_Forall_empty; cbn; ulia. }
  apply well_typed_intro; [by eapply reach_inv|by eapply reach_sized].
Qed.
End typed.

(** ** Witness *)

#[local] Existing Instances toy_shake toy_sha2 toy_codecs.
Definition sample_genesis : Genesis := mkGenesis 3 [mkGenesisAccount alice (pk_commit [])] [(alice, usd, 100)] None [].
Definition sample_genesis_state : State := match from_genesis sample_genesis with Ok s => s | _ => demo end.
Definition sample_block : State * res StateError (list Receipt) :=
  apply_block_verified 1 7 [alice_sends 0 (Tx.Transfer bob usd 10)] (Some [true]) sample_genesis_state.
Lemma sample_block_applies : ∃ rs, sample_block.2 = Ok rs ∧ balance sample_block.1 bob usd = 10.
Proof. eexists. vm_compute. split; reflexivity. Qed.
Lemma chain_is_well_typed_witness : well_typed sample_block.1.
Proof.
  destruct sample_block_applies as (rs & Hb & _).
  apply (chain_is_well_typed sample_genesis sample_genesis_state 1 sample_block.1).
  - split; [|split; [constructor|done]]. split_and!; simpl; [ulia| |done]. constructor; [simpl; ulia|constructor].
  - vm_compute. reflexivity.
  - eapply (reach_block 0 _ sample_genesis_state sample_block.1 1 7 [alice_sends 0 (Tx.Transfer bob usd 10)] (Some [true]) rs).
    + constructor.
    + ulia.
    + ulia.
    + constructor; [|constructor]. apply stx_ok_sends; [ulia|simpl; ulia].
    + rewrite <-Hb. apply surjective_pairing.
Defined.
