(* ===== verification/Ledger.v ===== *)
(** The ledger's guarantees: who can move money and when, replay, double spends,
    refusals, precomputed verdicts, liveness of block application, snapshots. *)

From S2P Require Export Invariant.
From S2P Require Import Toy Demo.
#[local] Open Scope Z_scope.

Section envelope_claims.
Context {SHAKE : Shake} {SHA2 : Sha2} {CODECS : Codecs}.

(** C5: the handlers implement the transition relation.  A payload is accepted
    with these events and this state exactly when the rule of its kind allows
    it: every guard of the handler is necessary, together they are sufficient,
    and the state written is the rule's. *)
Theorem dispatch_refines_accepts sender tx s s' ev :
  dispatch sender tx s = (s', Ok ev) ↔ accepts s sender tx ev s'.
Proof. split; [apply dispatch_sound|apply dispatch_complete]. Qed.

(** What makes an envelope authentic, of the account [acc] and its sender: the nonce is
    the account's, the one-time key is the one the account committed to, and it signed
    the digest of payload, sender, nonce and next key (or a verdict that was computed
    before says so). *)
Record authentic (stx : SignedTx) (pre : option bool) (acc : Account) : Prop := {
  au_nonce : stx_nonce stx = acc_nonce acc;
  au_key : pk_commit (stx_lamport_pk stx) = acc_auth_commit acc;
  au_signature :
    match pre with
    | Some verdict => verdict = true
    | None => ∃ payload, json_tx (stx_payload stx) = Some payload ∧
        Lamport.verify (stx_lamport_pk stx)
          (shake256_32 DOM_TX_MSG [payload; h256_bytes (stx_sender stx); u64_le (stx_nonce stx); h256_bytes (stx_next_auth stx)])
          (stx_sig stx) = Ok tt
    end;
}.
Lemma is_ok_tt (r : res CryptoError unit) : is_ok r = true ↔ r = Ok tt.
Proof. by destruct r as [[]| |]. Qed.
Lemma verify_envelope_iff stx : verify_envelope stx = true ↔
  ∃ payload, json_tx (stx_payload stx) = Some payload ∧
    Lamport.verify (stx_lamport_pk stx)
      (shake256_32 DOM_TX_MSG [payload; h256_bytes (stx_sender stx); u64_le (stx_nonce stx); h256_bytes (stx_next_auth stx)])
      (stx_sig stx) = Ok tt.
Proof.
  unfold verify_envelope, stx_digest, signing_digest. destruct (json_tx _) as [payload|]; cbn [mbind option_bind].
  - rewrite is_ok_tt. split; [intros H; by exists payload|]. by intros (p & [= <-] & H).
  - by split; [|intros (p & ? & _)].
Qed.
Lemma check_envelope_iff stx pre s :
  check_envelope stx pre s = Ok tt ↔ ∃ acc, st_accounts s !! stx_sender stx = Some acc ∧ authentic stx pre acc.
Proof.
  split.
  - intros (acc & Hacc & Hn & Hk & Hv)%check_envelope_ok. exists acc. split; [done|]. constructor; [done..|].
    destruct pre; [done|]. by apply verify_envelope_iff.
  - intros (acc & Hacc & [Hn Hk Hv]). unfold check_envelope. rewrite Hacc. cbn [ok_orR bindR].
    rewrite Hn, Z.eqb_refl, bool_decide_eq_true_2 by done. cbn.
    assert (E : default (verify_envelope stx) pre = true) by (destruct pre; [done|by apply verify_envelope_iff]). by rewrite E.
Qed.
(** The flat fee: from its activation height on. *)
Definition fee_at (s : State) (fee : Amount) : Prop :=
  st_height s < st_fee_from s ∧ fee = 0 ∨ st_fee_from s ≤ st_height s ∧ fee = st_fee_micro s.
Definition paying (fee : Amount) (id : AccountId) (s : State) : State :=
  if 0 <? fee then set_balances (<[(id, st_fee_asset s) := balance s id (st_fee_asset s) - fee]> (st_balances s)) s else s.
Definition fee_burned (fee : Amount) (s : State) : State :=
  if 0 <? fee then set_fees_burned (Z.min (st_fees_burned s + fee) u128_max) s else s.
Lemma ratcheted_spec stx acc fee s :
  ratcheted stx acc (burned fee s) =
  set_accounts (<[stx_sender stx := mkAccount (stx_next_auth stx) ((acc_nonce acc + 1) mod 2 ^ 64)]> (st_accounts s)) (fee_burned fee s).
Proof. unfold ratcheted, burned, fee_burned, wrapping, sat_add. change (u64_max + 1) with (2 ^ 64). by destruct (0 <? fee). Qed.
(** C6: the envelope.  A transaction is applied exactly when its account exists with
    its nonce and its one-time key, that key signed its payload, sender, nonce
    and next key (or a verdict given beforehand is positive), and the fee of the height is covered;
    the fee leaves first, then the payload has its effect by the rule of its kind,
    then the fee is burned and the account is ratcheted to its next key and nonce. *)
Theorem apply_tx_refines_envelope stx pre s s' ev :
  apply_tx_at stx pre s = (s', Ok ev) ↔
  ∃ acc fee s2,
    st_accounts s !! stx_sender stx = Some acc ∧ authentic stx pre acc ∧
    fee_at s fee ∧ (0 < fee → fee ≤ balance s (stx_sender stx) (st_fee_asset s)) ∧
    accepts (paying fee (stx_sender stx) s) (stx_sender stx) (stx_payload stx) ev s2 ∧
    s' = set_accounts (<[stx_sender stx := mkAccount (stx_next_auth stx) ((acc_nonce acc + 1) mod 2 ^ 64)]> (st_accounts s2))
           (fee_burned fee s2).
Proof.
  assert (Hfee : ∀ fee, fee_at s fee ↔ fee = fee_due s).
  { intros fee. unfold fee_at, fee_due. destruct (Z.leb_spec (st_fee_from s) (st_height s)); lia. }
  split.
  - intros [Henv Hf (s2 & acc & Hacc & Hl & ->)]%apply_tx_ok. apply check_envelope_iff in Henv as (a & Ha & Hau).
    assert (Hk : st_accounts s2 !! stx_sender stx = Some a).
    { eapply accepts_accounts; [done|]. by rewrite charged_accounts. }
    rewrite Hk in Hl. injection Hl as <-. exists a, (fee_due s), s2. split_and!; [done|done|by apply Hfee|done|exact Hacc|].
    apply ratcheted_spec.
  - intros (acc & fee & s2 & Ha & Hau & ->%Hfee & Hf & Hacc & ->). apply apply_tx_complete. constructor; [|done|].
    + apply check_envelope_iff. by exists acc.
    + exists s2, acc. split; [exact Hacc|]. split; [|symmetry; apply ratcheted_spec].
      eapply accepts_accounts; [done|]. unfold paying. by case_match.
Qed.

(** C12: a refusal is free.  A transaction that is refused, at whatever stage,
    leaves the whole state as it was: the fee taken up front is returned. *)
Theorem refused_tx_changes_nothing stx pre s s' e :
  balances_ok s → apply_tx_at stx pre s = (s', Err e) → s' = s.
Proof. apply apply_tx_err. Qed.

(** ** Precomputed signature verdicts *)
Lemma apply_txs_verdicts pref txs s :
  apply_txs (length pref) txs (Some (verify_envelope <$> (pref ++ txs))) s =
  apply_txs (length pref) txs None s.
Proof.
  revert pref s. induction txs as [|stx txs IH]; intros pref s; [done|].
  cbn [apply_txs].
  assert ((verify_envelope <$> (pref ++ stx :: txs)) !! length pref = Some (verify_envelope stx)) as Hl.
  { rewrite list_lookup_fmap, lookup_app_r, Nat.sub_diag by done. done. }
  rewrite bindM_assoc, (run_expect _ _ _ _ Hl). rewrite !run_ret.
  apply bindM_ext; [done|intros r s1]. apply bindM_ext; [|done].
  specialize (IH (pref ++ [stx]) s1). rewrite length_app, <-app_assoc in IH.
  by rewrite Nat.add_comm in IH.
Qed.

(** Precomputed verdicts are only a cache.  Applying a block with the
    vector of envelope verdicts computed beforehand gives the same receipts
    and the same state as verifying every signature inline. *)
Theorem precomputed_verdicts_agree h t txs s :
  apply_block_verified h t txs (Some (verify_envelope <$> txs)) s = apply_block h t txs s.
Proof.
  unfold apply_block, apply_block_verified. rewrite !run_get.
  do 2 (apply bindM_ext; [done|intros _ ?]).
  apply bindM_ext; [by simpl; rewrite length_fmap, Nat.eqb_refl|intros _ ?].
  do 2 (apply bindM_ext; [done|intros _ ?]).
  apply bindM_ext; [apply (apply_txs_verdicts [])|done].
Qed.

(** ** Refused blocks *)
Lemma noerr_tryM {E' A} (m : St A) : noerr (tryM (E' := E') m).
Proof. intros s s' e. unfold tryM. destruct (m s) as [? []]; naive_solver. Qed.
Lemma noerr_apply_txs i txs v : noerr (apply_txs i txs v).
Proof.
  revert i. induction txs as [|stx txs IH]; intros i; cbn [apply_txs]; [apply noerr_ret|].
  apply noerr_bind; [destruct v; frame|]. intros pre.
  apply noerr_bind; [apply noerr_tryM|]. intros r. apply noerr_bind; [apply IH|].
  intros rs. apply noerr_ret.
Qed.
Lemma noerr_seal_pools : noerr seal_pools.
Proof. unfold seal_pools, on_pool. frame. Qed.

Lemma refused_block_errors h t txs v s s' e :
  apply_block_verified h t txs v s = (s', Err e) →
  (h ≠ wrapping u64_max (st_height s + 1) ∨ ∃ l, v = Some l ∧ length l ≠ length txs) ∧
    s' = s ∧ e = StateError.BadHeight ∨
  t < st_time s ∧ s' = s ∧ e = StateError.TimeBackwards.
Proof.
  unfold apply_block_verified. rewrite run_get. intros H.
  apply bindM_inv in H as [(s1 & u & H1 & H)|[(e' & H1 & [= ->])|[_ [=]]]].
  2: { apply refuse_if_err in H1 as (-> & H1 & ->). apply negb_true_iff, Z.eqb_neq in H1. auto. }
  apply refuse_if_ok in H1 as [-> _].
  apply bindM_inv in H as [(s1 & u1 & H1 & H)|[(e' & H1 & [= ->])|[_ [=]]]].
  2: { apply refuse_if_err in H1 as (-> & H1 & ->). apply Z.ltb_lt in H1. auto. }
  apply refuse_if_ok in H1 as [-> _].
  apply bindM_inv in H as [(s1 & u2 & H1 & H)|[(e' & H1 & [= ->])|[_ [=]]]].
  2: { apply refuse_if_err in H1 as (-> & H1 & ->). destruct v as [l|]; [|done]. simpl in H1.
       apply negb_true_iff, Nat.eqb_neq in H1. left. split_and!; eauto. }
  apply refuse_if_ok in H1 as [-> _]. exfalso. revert H. rewrite !run_modify.
  apply noerr_bind; [apply noerr_apply_txs|]. intros rs.
  apply noerr_bind; [apply noerr_seal_pools|]. intros _. frame.
Qed.

(** A block is refused whole or not at all.  The only refusals are a height
    that is not the successor, a time that goes backwards, and a verdict vector
    of the wrong length (reported as a bad height); each leaves the state as it
    was, and a transaction's own failure never refuses the block. *)
Theorem refused_block_changes_nothing h t txs v s s' e :
  apply_block_verified h t txs v s = (s', Err e) →
  s' = s ∧
  (e = StateError.BadHeight ∧
     (h ≠ wrapping u64_max (st_height s + 1) ∨ ∃ l, v = Some l ∧ length l ≠ length txs) ∨
   e = StateError.TimeBackwards ∧ t < st_time s).
Proof. intros H. apply refused_block_errors in H. tauto. Qed.
End envelope_claims.

(** ** Replay *)

Section replay.
Context {SHAKE : Shake} {SHA2 : Sha2} {CODECS : Codecs}.

(** After [n] transactions an account still exists and its nonce has advanced
    by at most [n], while the counter stays below its width. *)
Definition nonce_step (n : nat) (s s' : State) : Prop :=
  ∀ id acc, st_accounts s !! id = Some acc → 0 ≤ acc_nonce acc →
    acc_nonce acc + Z.of_nat n ≤ u64_max →
    ∃ acc', st_accounts s' !! id = Some acc' ∧
      acc_nonce acc ≤ acc_nonce acc' ≤ acc_nonce acc + Z.of_nat n.
Lemma nonce_step_same n s s' : st_accounts s' = st_accounts s → nonce_step n s s'.
Proof. intros H id acc Hacc H0 Hn. exists acc. rewrite H. split; [done|lia]. Qed.
Lemma nonce_step_graded : graded nonce_step.
Proof.
  split; [intros s; by apply nonce_step_same|].
  intros n m s1 s2 s3 H1 H2 id acc Hacc H0 Hn.
  destruct (H1 id acc) as (acc2 & Hacc2 & ?); [done|done|lia|].
  destruct (H2 id acc2) as (acc3 & Hacc3 & ?); [done|lia|lia|]. exists acc3. split; [done|lia].
Qed.
Lemma applied_accounts stx pre s s' ev :
  applied stx pre s s' ev →
  ∃ acc, st_accounts s !! stx_sender stx = Some acc ∧ stx_nonce stx = acc_nonce acc ∧
    st_accounts s' !! stx_sender stx =
      Some (mkAccount (stx_next_auth stx) (wrapping u64_max (acc_nonce acc + 1))) ∧
    ∀ id a, id ≠ stx_sender stx → st_accounts s !! id = Some a → st_accounts s' !! id = Some a.
Proof.
  intros [Henv _ (s2 & acc & Hacc & Hl & ->)]. destruct (check_envelope_ok _ _ _ _ Henv) as (a & Ha & Hn & _).
  assert (Hkeep : ∀ id a, st_accounts s !! id = Some a → st_accounts s2 !! id = Some a).
  { intros id b Hb. eapply accepts_accounts; [done|]. by rewrite charged_accounts. }
  rewrite (Hkeep _ _ Ha) in Hl. injection Hl as <-. exists a. split_and!; [done|done| |].
  - apply lookup_insert_eq.
  - intros id b Hne Hb. unfold ratcheted. simpl. rewrite lookup_insert_ne by done.
    unfold burned. case_match; by apply Hkeep.
Qed.
Lemma nonce_step_applied stx pre s s' ev : applied stx pre s s' ev → nonce_step 1 s s'.
Proof.
  intros (a & Ha & _ & Hs & Hother)%applied_accounts id acc Hacc H0 Hn.
  destruct (decide (id = stx_sender stx)) as [->|Hne].
  - rewrite Ha in Hacc. injection Hacc as ->. eexists. split; [exact Hs|]. simpl.
    rewrite wrapping_small by lia. lia.
  - exists acc. split; [by apply Hother|lia].
Qed.
Lemma reach_nonce n s s' : reach n s s' → inv s → nonce_step n s s'.
Proof.
  intros Hr Hs. apply (reach_rel nonce_step); [apply nonce_step_graded| | | |done|done].
  - intros s1. by apply nonce_step_same.
  - split_and!; intros; by apply nonce_step_same.
  - intros stx pre s1 s2 ev _ _ Ha. by eapply nonce_step_applied.
Qed.

(** C11: no replay.  Once an account has an accepted transaction at a nonce, no
    transaction of that account with that nonce (the same bytes or others) is
    accepted after any number of further blocks, as long as the account's
    64-bit counter has not run through its range: it is refused with a nonce
    error that names the account's current nonce. *)
Theorem replay_refused stx pre s s1 ev n s2 stx2 pre2 :
  inv s → stx_ok stx → apply_tx_at stx pre s = (s1, Ok ev) →
  reach n s1 s2 → stx_nonce stx + 1 + Z.of_nat n ≤ u64_max →
  stx_sender stx2 = stx_sender stx → stx_nonce stx2 = stx_nonce stx →
  ∃ cur, stx_nonce stx < cur ≤ stx_nonce stx + 1 + Z.of_nat n ∧
    apply_tx_at stx2 pre2 s2 = (s2, Err (StateError.BadNonce cur (stx_nonce stx))).
Proof.
  intros Hs Hok H Hr Hn Hsender Hnonce. pose proof Hok as [_ [H0 _]].
  assert (inv s1) as Hs1 by (by eapply apply_tx_inv).
  apply apply_tx_ok, applied_accounts in H as (a & Ha & Hna & Hs1a & _).
  rewrite Hna in Hn, H0 |- *. rewrite wrapping_small in Hs1a by lia.
  destruct (reach_nonce n s1 s2 Hr Hs1 _ _ Hs1a) as (b & Hb & Hb1); [simpl; lia..|].
  simpl in Hb1. exists (acc_nonce b). split; [lia|].
  unfold apply_tx_at, bindM at 1, readM, check_envelope. rewrite Hsender, Hb. cbn [ok_orR bindR].
  rewrite Hnonce, Hna. rewrite (proj2 (Z.eqb_neq _ _)) by lia. done.
Qed.
End replay.

(** ** Double spends *)

Section double_spend.
Context {SHAKE : Shake} {SHA2 : Sha2} {CODECS : Codecs}.

(** Pools never disappear and never forget a nullifier. *)
Definition nullifiers_grow (s s' : State) : Prop :=
  ∀ key p, pool_ref s key = Some p →
    ∃ p', pool_ref s' key = Some p' ∧ pool_nullifiers p ⊆ pool_nullifiers p'.
#[local] Instance nullifiers_grow_preorder : PreOrder nullifiers_grow.
Proof.
  split; [intros s key p Hp; by exists p|]. intros s1 s2 s3 H1 H2 key p Hp.
  destruct (H1 _ _ Hp) as (p2 & Hp2 & ?). destruct (H2 _ _ Hp2) as (p3 & Hp3 & ?).
  exists p3. split; [done|set_solver].
Qed.
Lemma nullifiers_grow_same s s' :
  st_pool s' = st_pool s → st_pools s' = st_pools s → nullifiers_grow s s'.
Proof. intros H1 H2 [|a] p Hp; exists p; simpl in *; by rewrite ?H1, ?H2. Qed.
Lemma nullifiers_grow_put s s1 key p' :
  st_pool s1 = st_pool s → st_pools s1 = st_pools s →
  (∀ p, pool_ref s key = Some p → pool_nullifiers p ⊆ pool_nullifiers p') →
  nullifiers_grow s (put_pool key p' s1).
Proof.
  intros H1 H2 Hp' key2 p Hp. destruct (decide (key2 = key)) as [->|Hne].
  - exists p'. split; [|by apply Hp']. destruct key; simpl; [done|apply lookup_insert_eq].
  - exists p. split; [|done]. destruct key as [|a], key2 as [|b]; simpl in *; rewrite ?H1, ?H2; try done.
    rewrite lookup_insert_ne; [done|congruence].
Qed.
Lemma accepts_nullifiers s sender tx ev s' : accepts s sender tx ev s' → nullifiers_grow s s'.
Proof.
  destruct 1; try (apply nullifiers_grow_same; simpl; repeat case_match; done).
  - apply nullifiers_grow_put; [done..|]. intros p Hp. simpl. destruct key as [|a]; simpl in *.
    + by simplify_eq.
    + by rewrite Hp.
  - cbv zeta. etrans.
    + apply (nullifiers_grow_put s (set_mandates m' s) key (spent_pool nullifier fee t2 p)); [done..|].
      intros q Hq. rewrite H2 in Hq. simplify_eq. simpl. set_solver.
    + apply nullifiers_grow_same; repeat case_match; done.
Qed.
Lemma charged_pools id s : st_pool (charged id s) = st_pool s ∧ st_pools (charged id s) = st_pools s.
Proof. unfold charged. by case_match. Qed.
Lemma applied_nullifiers stx pre s s' ev : applied stx pre s s' ev → nullifiers_grow s s'.
Proof.
  intros [_ _ (s2 & acc & Hacc & _ & ->)]. apply accepts_nullifiers in Hacc.
  etrans; [apply (nullifiers_grow_same s (charged (stx_sender stx) s)); apply charged_pools|].
  etrans; [exact Hacc|]. apply nullifiers_grow_same; unfold ratcheted, burned; simpl; by case_match.
Qed.
Lemma reach_nullifiers n s s' : reach n s s' → inv s → nullifiers_grow s s'.
Proof.
  intros Hr Hs. apply (reach_rel_const nullifiers_grow n); [| |done..].
  - split_and!.
    + intros. by apply nullifiers_grow_same.
    + intros s1 p Hn _ _ _ _. apply (nullifiers_grow_put s1 s1 Legacy p); [done..|].
      intros q [= <-]. by rewrite Hn.
    + intros s1 a q p Hq Hn _ _ _ _. apply (nullifiers_grow_put s1 s1 (Asset a) p); [done..|].
      intros r Hr'. simpl in Hr'. rewrite Hq in Hr'. simplify_eq. by rewrite Hn.
    + intros. by apply nullifiers_grow_same.
  - intros stx pre s1 s2 ev _ _ Ha. by eapply applied_nullifiers.
Qed.
Lemma pool_ref_ratcheted stx acc fee s key : pool_ref (ratcheted stx acc (burned fee s)) key = pool_ref s key.
Proof. unfold burned, ratcheted. by destruct (0 <? fee), key. Qed.
Lemma pool_ref_credited id asset a s key : pool_ref (credited id asset a s) key = pool_ref s key.
Proof. by destruct key. Qed.
Lemma pool_ref_put key p s : pool_ref (put_pool key p s) key = Some p.
Proof. destruct key; simpl; [done|apply lookup_insert_eq]. Qed.
(** An applied shielded spend, seen from the state before the envelope. *)
Lemma applied_spend stx pre s s' ev anchor nf out out2 fee credit_to mandate proof ct ct2 :
  applied stx pre s s' ev →
  stx_payload stx = Tx.ShieldedSpend anchor nf out out2 fee credit_to mandate proof ct ct2 →
  ∃ key p p', pool_key_of_anchor s anchor = Some key ∧ pool_ref s key = Some p ∧
    nf ∉ pool_nullifiers p ∧ pool_ref s' key = Some p' ∧ nf ∈ pool_nullifiers p'.
Proof.
  intros [_ _ (s2 & acc & Hacc & _ & ->)] Hpay. rewrite Hpay in Hacc.
  destruct (charged_pools (stx_sender stx) s) as [H1 H2].
  inversion Hacc as [| | | | | | | | |? ? ? ? ? ? ? ? ? ? key p m' t1 t2 _ _ Hk Hp Hnf| | | | |]; subst.
  exists key, p, (spent_pool nf fee t2 p). split_and!.
  - unfold pool_key_of_anchor in *. by rewrite H1, H2 in Hk.
  - destruct key; simpl in *; congruence.
  - done.
  - rewrite pool_ref_ratcheted. cbv zeta.
    repeat case_match; rewrite ?pool_ref_credited; apply pool_ref_put.
  - simpl. set_solver.
Qed.

(** C10: no double spend.  Once a shielded spend has published a nullifier in
    a pool, no later transaction, whoever sends it and whatever its proof,
    spends the same nullifier in that pool again. *)
Theorem no_double_spend stx pre s s1 ev anchor nf out out2 fee credit_to mandate proof ct ct2
    n s2 stx2 pre2 s3 ev2 anchor2 out' out2' fee' credit_to' mandate' proof' ct' ct2' key :
  inv s → stx_ok stx →
  stx_payload stx = Tx.ShieldedSpend anchor nf out out2 fee credit_to mandate proof ct ct2 →
  pool_key_of_anchor s anchor = Some key →
  apply_tx_at stx pre s = (s1, Ok ev) → reach n s1 s2 →
  stx_payload stx2 = Tx.ShieldedSpend anchor2 nf out' out2' fee' credit_to' mandate' proof' ct' ct2' →
  pool_key_of_anchor s2 anchor2 = Some key →
  apply_tx_at stx2 pre2 s2 ≠ (s3, Ok ev2).
Proof.
  intros Hs Hok Hpay Hkey H Hr Hpay2 Hkey2 H2.
  assert (inv s1) as Hs1 by (by eapply apply_tx_inv).
  apply apply_tx_ok in H, H2.
  destruct (applied_spend _ _ _ _ _ _ _ _ _ _ _ _ _ _ _ H Hpay) as (k & p & p' & Hk & _ & _ & Hp' & Hin).
  destruct (applied_spend _ _ _ _ _ _ _ _ _ _ _ _ _ _ _ H2 Hpay2) as (k2 & q & q' & Hk2 & Hq & Hnin & _).
  rewrite Hkey in Hk. rewrite Hkey2 in Hk2. simplify_eq.
  destruct (reach_nullifiers _ _ _ Hr Hs1 _ _ Hp') as (r & Hr2 & Hsub).
  rewrite Hq in Hr2. simplify_eq. set_solver.
Qed.
End double_spend.

(** ** The chain never halts *)

Section liveness.
Context {SHAKE : Shake} {SHA2 : Sha2} {CODECS : Codecs}.

Lemma apply_txs_length i txs v s s' rs :
  apply_txs i txs v s = (s', Ok rs) → length rs = length txs.
Proof.
  revert i s rs. induction txs as [|stx txs IH]; intros i s rs H; cbn [apply_txs] in H; mrun; [done|].
  simpl. f_equal. eauto.
Qed.

(** C8: no transaction can halt the chain.  From any well-typed genesis that is
    accepted, after any chain of blocks, the next block at the right height
    and a time that does not go back is applied whatever it carries: no
    [expect], index or assertion of the state machine fires, every transaction
    gets exactly one receipt, and the result is well formed again. *)
Theorem chain_never_halts g s0 n s h t txs v :
  genesis_ok g → from_genesis g = Ok s0 → reach n s0 s →
  h = wrapping u64_max (st_height s + 1) → in_u64 t → st_time s ≤ t → Forall stx_ok txs →
  (∀ l, v = Some l → length l = length txs) →
  ∃ s' receipts, apply_block_verified h t txs v s = (s', Ok receipts) ∧
    length receipts = length txs ∧ inv s'.
Proof.
  intros Hg Hs0 Hr Hh Ht Htime Hok Hv. assert (inv s) as Hs.
  { eapply reach_inv; [done|]. by eapply from_genesis_spec. }
  assert (in_u64 h) as Hhr by (subst h; apply wrapping_in_u64).
  destruct (apply_block_verified h t txs v s) as [s' r] eqn:E. destruct r as [rs|e|].
  - exists s', rs. split_and!; [done| |].
    + unfold apply_block_verified in E. srun.
      match goal with H : apply_txs _ _ _ _ = (_, Ok _) |- _ => rename H into Ha end.
      by eapply apply_txs_length.
    + apply (block_frame (λ _, keeps_inv) h t txs v s s' rs) in E; auto using graded_const,
        keeps_inv_preorder, keeps_inv_frame, keeps_inv_tx.
  - exfalso. apply refused_block_errors in E as [([?|(l & -> & Hl)] & _)|[? _]]; [done| |lia].
    by apply Hl, Hv.
  - by apply apply_block_nopanic in E.
Qed.
End liveness.

(** ** Whose money moves *)

Section authority.
Context {SHAKE : Shake} {SHA2 : Sha2} {CODECS : Codecs}.

(** The mandate a payload draws on, and the amount. *)
Definition draws (tx : Tx) : option (MandateId * Amount) :=
  match tx with
  | Tx.MandateSpend leaf _ amount => Some (leaf, amount)
  | Tx.ChannelOpen _ mandate _ _ _ unit_price max_steps _ => Some (mandate, unit_price * max_steps)
  | _ => None
  end.
Lemma credited_ge s id asset a x y :
  balances_ok s → 0 ≤ a → balance s x y ≤ balance (credited id asset a s) x y.
Proof.
  intros Hs Ha. rewrite balance_credited. case_bool_decide as H; [|done]. injection H as -> ->.
  pose proof (balance_bounds s id asset Hs) as [_ Hb]. unfold sat_add. lia.
Qed.
Lemma debited_drop s id asset a x y :
  balance (debited id asset a s) x y < balance s x y → x = id ∧ y = asset.
Proof. rewrite balance_debited. case_bool_decide as H; [by injection H|lia]. Qed.
(** A credit after a debit hides no other drop. *)
Lemma moved_drop s id asset a to asset' b s1 s2 x y :
  balances_ok s → 0 ≤ a ≤ balance s id asset → 0 ≤ b →
  st_balances s1 = st_balances s →
  st_balances s2 = st_balances (debited id asset a s1) →
  balance (credited to asset' b s2) x y < balance s x y → x = id ∧ y = asset.
Proof.
  intros Hs Ha Hb H1 H2 Hlt.
  assert (∀ x y, balance s2 x y = balance (debited id asset a s) x y) as Heq.
  { intros u v. unfold balance. rewrite H2. unfold debited, balance. simpl. by rewrite H1. }
  assert (balances_ok s2) as Hs2.
  { pose proof (balances_ok_debited s id asset a Hs ltac:(lia) ltac:(lia)) as Hd.
    unfold balances_ok in *. rewrite H2. unfold debited, balance in *. simpl in *. by rewrite H1. }
  pose proof (credited_ge s2 to asset' b x y Hs2 Hb) as Hge. rewrite Heq in Hge.
  apply (debited_drop s id asset a x y). lia.
Qed.

Lemma accepts_debits s sender tx ev s' x y :
  accepts s sender tx ev s' → tx_ok tx → inv s → balance s' x y < balance s x y →
  x = sender ∨ ∃ leaf amount t', draws tx = Some (leaf, amount) ∧
                 authorised_draw s sender leaf amount y x t'.
Proof.
  intros H Hok Hs Hlt. pose proof (inv_balances s Hs) as Hb.
  destruct H; simpl in Hok; unfold in_u128, in_u32 in Hok; try (by apply Z.lt_irrefl in Hlt).
  - left. apply (moved_drop s sender asset amount to asset amount s (debited sender asset amount s)) in Hlt
      as [-> _]; [done|done|lia|lia|done|done].
  - left. destruct (Z.ltb_spec 0 amount) as [Hp|]; [|by apply Z.lt_irrefl in Hlt].
    eapply (moved_drop s sender asset amount id asset amount s) in Hlt as [-> _];
      [done|done|split; [lia|by apply H1]|lia|reflexivity|reflexivity].
  - exfalso. case_bool_decide; by apply Z.lt_irrefl in Hlt.
  - right. eapply (moved_drop s funder asset amount _ _ _ (set_mandates t' s)) in Hlt as [-> ->];
      [by eauto 6|done| |lia|reflexivity|reflexivity].
    split; [lia|]. by eapply ad_balance.
  - right. subst deposit. eapply (debited_drop (set_mandates t' s)) in Hlt as [-> ->]. eauto 6.
  - exfalso. pose proof (inv_channels s Hs _ _ H) as Hc.
    destruct (settled_channel_ok c step Hc H0 H1) as [[Hpaid _] _].
    match goal with H : balance (credited ?i ?a ?p ?s1) x y < _ |- _ =>
      pose proof (credited_ge s1 i a p x y Hb ltac:(subst paid; lia)) end.
    unfold balance in *. simpl in *. lia.
  - exfalso. pose proof (inv_channels s Hs _ _ H) as (Hp & Hh & Hm & He). rewrite H0 in He.
    match goal with H : balance (credited ?i ?a ?p ?s1) x y < _ |- _ =>
      pose proof (credited_ge s1 i a p x y Hb ltac:(nia)) end.
    unfold balance in *. simpl in *. lia.
  - left. eapply (debited_drop s sender asset value x y). unfold balance in *. by destruct key.
  - exfalso. cbv zeta in Hlt.
    match type of Hlt with context [put_pool ?k ?p ?s1] =>
      assert (st_balances (put_pool k p s1) = st_balances s) as Hput by (by destruct k);
      generalize dependent (put_pool k p s1) end.
    intros s2 Hlt Hput. assert (balance s2 x y = balance s x y) as Heq by (unfold balance; by rewrite Hput).
    destruct credit_to as [to|], (pool_asset_of s key) as [a|], (0 <? fee); try lia.
    match goal with H : balance (credited ?i ?a ?p ?s1) x y < _ |- _ =>
      pose proof (credited_ge s1 i a p x y ltac:(unfold balances_ok; by rewrite Hput) ltac:(lia)) end.
    lia.
  - exfalso. match goal with H : balance (credited ?i ?a ?p ?s1) x y < _ |- _ =>
      pose proof (credited_ge s1 i a p x y Hb ltac:(lia)) end.
    unfold balance in *. simpl in *. lia.
  - left. by eapply (debited_drop s sender asset amount x y).
Qed.

Lemma balance_charged s id x y : x ≠ id → balance (charged id s) x y = balance s x y.
Proof.
  intros Hne. unfold charged. case_match; [|done]. rewrite balance_debited.
  by rewrite bool_decide_eq_false_2 by congruence.
Qed.
Lemma balance_ratcheted stx acc fee s x y : balance (ratcheted stx acc (burned fee s)) x y = balance s x y.
Proof. unfold burned. by case_match. Qed.

(** C9: nobody else can spend my balance.  If an accepted transaction lowers a
    balance, its owner is the account that signed the transaction, or the
    owner is the funder at the root of a mandate chain whose leaf the signer
    holds, in that leaf's asset, and the whole chain authorised the draw. *)
Theorem debits_are_authorised stx pre s s' ev x y :
  inv s → stx_ok stx → apply_tx_at stx pre s = (s', Ok ev) → balance s' x y < balance s x y →
  x = stx_sender stx ∨
  ∃ leaf amount t', draws (stx_payload stx) = Some (leaf, amount) ∧
    authorised_draw (charged (stx_sender stx) s) (stx_sender stx) leaf amount y x t'.
Proof.
  intros Hs [Hok _] H Hlt. destruct (decide (x = stx_sender stx)) as [|Hne]; [by left|right].
  apply apply_tx_ok in H as [_ Hf (s2 & acc & Hacc & _ & ->)].
  rewrite balance_ratcheted in Hlt.
  eapply accepts_debits in Hacc as [?|?]; [done|done|done|by apply inv_charged|].
  by rewrite balance_charged.
Qed.
End authority.

(** ** Issuer controls *)

Section issuer.
Context {SHAKE : Shake} {SHA2 : Sha2} {CODECS : Codecs}.

Lemma balance_credited_ne s id asset a x y :
  (x, y) ≠ (id, asset) → balance (credited id asset a s) x y = balance s x y.
Proof. intros H. rewrite balance_credited. by rewrite bool_decide_eq_false_2. Qed.
Lemma balance_debited_ne s id asset a x y :
  (x, y) ≠ (id, asset) → balance (debited id asset a s) x y = balance s x y.
Proof. intros H. rewrite balance_debited. by rewrite bool_decide_eq_false_2. Qed.

(** Every change of a balance passed the gate of its asset, with the account as
    source or destination. *)
Definition gated (s : State) (x : AccountId) (y : AssetId) : Prop :=
  ∃ from to, gate_open s y from to ∧ (from = Some x ∨ to = Some x).
Lemma accepts_gated s sender tx ev s' x y :
  accepts s sender tx ev s' → tx_ok tx → gated s x y ∨ balance s' x y = balance s x y.
Proof.
  intros H Hok. destruct H; simpl in Hok; try (by right).
  - destruct (decide ((x, y) = (to, asset))) as [[= -> ->]|H2]; [left; eexists _, _; eauto|].
    destruct (decide ((x, y) = (sender, asset))) as [[= -> ->]|H3]; [left; eexists _, _; eauto|].
    right. by rewrite balance_credited_ne, balance_debited_ne.
  - destruct (Z.ltb_spec 0 amount) as [Hp|]; [|by right]. destruct (H1 Hp) as [Hg _].
    destruct (decide ((x, y) = (id, asset))) as [[= -> ->]|H2]; [left; eexists _, _; eauto|].
    destruct (decide ((x, y) = (sender, asset))) as [[= -> ->]|H3]; [left; eexists _, _; eauto|].
    right. rewrite balance_credited_ne by done. by apply (balance_debited_ne s).
  - right. by case_bool_decide.
  - destruct (decide ((x, y) = (to, asset))) as [[= -> ->]|H2]; [left; eexists _, _; eauto|].
    destruct (decide ((x, y) = (funder, asset))) as [[= -> ->]|H3]; [left; eexists _, _; eauto|].
    right. rewrite balance_credited_ne by done. by apply (balance_debited_ne (set_mandates t' s)).
  - destruct (decide ((x, y) = (funder, asset))) as [[= -> ->]|Hn]; [left; eexists _, _; eauto|].
    right. by apply (balance_debited_ne (set_mandates t' s)).
  - destruct (decide ((x, y) = (cs_payee (chan_state c), cs_asset (chan_state c)))) as [[= -> ->]|Hn];
      [left; eexists _, _; eauto|right; by rewrite balance_credited_ne].
  - destruct (decide ((x, y) = (sender, cs_asset (chan_state c)))) as [[= -> ->]|Hn];
      [left; eexists _, _; eauto|right; by rewrite balance_credited_ne].
  - destruct (decide ((x, y) = (sender, asset))) as [[= -> ->]|Hn]; [left; eexists _, _; eauto|right].
    rewrite <-(balance_debited_ne s sender asset value) by done. by destruct key.
  - cbv zeta. destruct credit_to as [to|], (pool_asset_of s key) as [a|] eqn:Ha, (0 <? fee) eqn:Hf;
      try (right; by destruct key).
    apply Z.ltb_lt in Hf. specialize (H5 a Hf eq_refl).
    destruct (decide ((x, y) = (to, a))) as [[= -> ->]|Hn]; [left; eexists _, _; eauto|right].
    rewrite balance_credited_ne by done. by destruct key.
  - destruct (decide ((x, y) = (to, asset))) as [[= -> ->]|Hn];
      [left; eexists _, _; eauto|right; by rewrite balance_credited_ne].
  - destruct (decide ((x, y) = (sender, asset))) as [[= -> ->]|Hn];
      [left; eexists _, _; eauto|right; by apply (balance_debited_ne s)].
Qed.
Lemma gated_stopped s x y info :
  st_assets s !! y = Some info → ai_paused info = true ∨ x ∈ ai_frozen info → ¬ gated s x y.
Proof.
  intros Hi Hstop (from & to & Hg & Hx). unfold gate_open, asset_gate in Hg. rewrite Hi in Hg.
  destruct (ai_paused info) eqn:Hp; [done|]. destruct Hstop as [?|Hin]; [done|]. simpl in Hg.
  destruct Hx as [-> | ->]; simpl in Hg; rewrite (bool_decide_eq_true_2 _ Hin) in Hg;
    rewrite ?orb_true_r in Hg; done.
Qed.

(** Freeze and pause hold.  While an asset is paused, or an account is
    frozen for it, no transaction of any kind moves that account's balance of
    the asset, in or out: not a transfer, a mandate draw, a channel payment or
    refund, a shield or an unshield, a mint or a burn.  (The fee asset is the
    exception the genesis rule makes unfreezable.) *)
Theorem stopped_balance_fixed stx pre s s' r x y info :
  inv s → stx_ok stx → apply_tx_at stx pre s = (s', r) → y ≠ st_fee_asset s →
  st_assets s !! y = Some info → ai_paused info = true ∨ x ∈ ai_frozen info →
  balance s' x y = balance s x y.
Proof.
  intros Hs Hok H Hy Hi Hstop.
  destruct (apply_tx_cases _ _ _ _ _ Hs H) as [->|[ev [_ _ (s2 & acc & Hacc & _ & ->)]]]; [|done|].
  { intros ->. by apply apply_tx_nopanic in H. }
  rewrite balance_ratcheted.
  assert (balance (charged (stx_sender stx) s) x y = balance s x y) as <-.
  { unfold charged. case_match; [|done]. apply balance_debited_ne. congruence. }
  eapply accepts_gated in Hacc as [Hg|Hg]; [|exact Hg|apply Hok]. exfalso. revert Hg.
  apply (gated_stopped _ x y info); [|done]. unfold charged. by case_match.
Qed.

(** What an issuer can and cannot change of a registered asset. *)
Definition asset_evolves (i i' : AssetInfo) : Prop :=
  ai_symbol i' = ai_symbol i ∧ ai_decimals i' = ai_decimals i ∧ ai_issuer i' = ai_issuer i ∧
  ai_policy i' = ai_policy i ∧ ai_registered_at i' = ai_registered_at i ∧
  ai_supply i ≤ ai_supply i' ∧ ai_burned i ≤ ai_burned i' ∧
  (mintable (ai_policy i) = false → ai_supply i' = ai_supply i) ∧
  (freezable (ai_policy i) = false → ai_frozen i' = ai_frozen i) ∧
  (pausable (ai_policy i) = false → ai_paused i' = ai_paused i).
#[local] Instance asset_evolves_preorder : PreOrder asset_evolves.
Proof.
  split; [intros i; repeat split; lia|].
  intros i j k (E1 & E2 & E3 & E4 & E5 & ? & ? & E6 & E7 & E8) (F1 & F2 & F3 & F4 & F5 & ? & ? & F6 & F7 & F8).
  rewrite E4 in F6, F7, F8. split_and!; try congruence; try lia; intros Hm;
    [rewrite F6, E6 by done|rewrite F7, E7 by done|rewrite F8, E8 by done]; done.
Qed.
Definition registry_evolves (s s' : State) : Prop :=
  ∀ a i, st_assets s !! a = Some i → ∃ i', st_assets s' !! a = Some i' ∧ asset_evolves i i'.
#[local] Instance registry_evolves_preorder : PreOrder registry_evolves.
Proof.
  split; [intros s a i Hi; exists i; by split|]. intros s1 s2 s3 H1 H2 a i Hi.
  destruct (H1 _ _ Hi) as (j & Hj & ?). destruct (H2 _ _ Hj) as (k & Hk & ?).
  exists k. split; [done|by etrans].
Qed.
Lemma registry_same s s' : st_assets s' = st_assets s → registry_evolves s s'.
Proof. intros H a i Hi. exists i. rewrite H. by split. Qed.
Lemma registry_insert s s' a i' :
  st_assets s' = <[a := i']> (st_assets s) →
  (∀ i, st_assets s !! a = Some i → asset_evolves i i') → registry_evolves s s'.
Proof.
  intros H Hi b i Hb. rewrite H. destruct (decide (b = a)) as [->|].
  - rewrite lookup_insert_eq. eauto.
  - rewrite lookup_insert_ne by done. exists i. by split.
Qed.
Lemma accepts_registry s sender tx ev s' :
  accepts s sender tx ev s' → tx_ok tx → inv s → registry_evolves s s'.
Proof.
  intros H Hok Hs. destruct H; simpl in Hok; unfold in_u128 in Hok;
    try (apply registry_same; simpl; repeat case_match; by try destruct key).
  - eapply registry_insert; [reflexivity|]. intros i Hi. congruence.
  - eapply registry_insert; [reflexivity|]. intros i Hi. rewrite H0 in Hi. injection Hi as <-.
    pose proof (inv_assets s Hs _ _ H0) as [Hsup _]. unfold in_u128 in Hsup.
    unfold asset_evolves. simpl. rewrite wrapping_small by lia. split_and!; try done; try lia. congruence.
  - eapply registry_insert; [reflexivity|]. intros i Hi. rewrite H1 in Hi. injection Hi as <-.
    pose proof (inv_assets s Hs _ _ H1) as [_ Hb]. unfold in_u128 in Hb.
    unfold asset_evolves, sat_add. simpl. split_and!; try done; lia.
  - eapply registry_insert; [reflexivity|]. intros i Hi. rewrite H in Hi. injection Hi as <-.
    unfold asset_evolves. simpl. split_and!; try done. congruence.
  - eapply registry_insert; [reflexivity|]. intros i Hi. rewrite H in Hi. injection Hi as <-.
    unfold asset_evolves. simpl. split_and!; try done. congruence.
Qed.

(** An asset is what it was registered as.  Across any number of blocks a
    registered asset keeps its symbol, decimals, issuer, policy and height; its
    supply and burned counters only grow; and a policy without minting, freezing
    or pausing means the supply, the frozen set or the pause flag never change. *)
Theorem asset_policy_is_permanent n s s' a i :
  inv s → reach n s s' → st_assets s !! a = Some i →
  ∃ i', st_assets s' !! a = Some i' ∧ asset_evolves i i'.
Proof.
  intros Hs Hr. revert a i. change (registry_evolves s s').
  apply (reach_rel_const registry_evolves n); [| |done..].
  - split_and!; intros; by apply registry_same.
  - intros stx pre s1 s2 ev [Hok _] Hs1 [_ Hf (s3 & acc & Hacc & _ & ->)].
    apply accepts_registry in Hacc; [|done|by apply inv_charged].
    etrans; [apply (registry_same s1 (charged (stx_sender stx) s1))|].
    { unfold charged. by case_match. }
    etrans; [exact Hacc|]. apply registry_same. unfold burned. by case_match.
Qed.
End issuer.

(** * Witnesses *)

#[local] Existing Instances toy_shake toy_sha2 toy_codecs.

(** Alice's mint of an unregistered asset is refused after the fee was taken. *)
Lemma refused_tx_changes_nothing_witness :
  ∃ s' e, apply_tx_at (alice_sends 0 (Tx.AssetMint usd bob 5)) (Some true) demo_fee = (s', Err e) ∧
    s' = demo_fee.
Proof.
  assert ((apply_tx_at (alice_sends 0 (Tx.AssetMint usd bob 5)) (Some true) demo_fee).2 =
          Err StateError.UnknownAsset) as H by (vm_compute; reflexivity).
  destruct (apply_tx_at _ _ demo_fee) as [s' r] eqn:E. simpl in H. subst r.
  exists s', StateError.UnknownAsset. split; [done|].
  apply (refused_tx_changes_nothing _ _ _ _ _ (inv_balances _ inv_demo_fee) E).
Defined.

Lemma refused_block_changes_nothing_witness :
  ∃ s' e, apply_block_verified 5 0 [] None demo = (s', Err e) ∧ s' = demo.
Proof.
  eexists _, _. split; [reflexivity|].
  refine (proj1 (refused_block_changes_nothing 5 0 [] None demo _ StateError.BadHeight _)). reflexivity.
Defined.

Lemma replay_refused_witness :
  ∃ s1 ev cur, apply_tx_at (alice_sends 0 (Tx.Transfer bob usd 10)) (Some true) demo = (s1, Ok ev) ∧
    0 < cur ≤ 1 ∧
    apply_tx_at (alice_sends 0 (Tx.Transfer bob usd 20)) None s1 = (s1, Err (StateError.BadNonce cur 0)).
Proof.
  pose proof (demo_transfer_accepted 0 demo 10 account_demo eq_refl eq_refl eq_refl) as H.
  rewrite balance_demo in H. specialize (H ltac:(lia)).
  destruct (replay_refused _ _ _ _ _ 0 _ (alice_sends 0 (Tx.Transfer bob usd 20)) None inv_demo
    (stx_ok_sends 0 (Tx.Transfer bob usd 10) ltac:(ulia) ltac:(simpl; ulia)) H (reach_here _)
    ltac:(simpl; ulia) eq_refl eq_refl) as (cur & Hcur & Hr).
  eexists _, _, cur. split; [exact H|]. split; [simpl in Hcur; lia|exact Hr].
Defined.

Lemma chain_never_halts_witness :
  ∃ s' receipts,
    apply_block_verified 1 7 [alice_sends 0 (Tx.Transfer bob usd 10)] None
      (match from_genesis (mkGenesis 3 [] [] None []) with Ok s => s | _ => demo end) = (s', Ok receipts) ∧
    length receipts = 1%nat ∧ inv s'.
Proof.
  assert (∃ s0, from_genesis (mkGenesis 3 [] [] None []) = Ok s0 ∧ st_height s0 = 0 ∧ st_time s0 = 3) as
    (s0 & H & Hh & Ht) by (eexists; split; [reflexivity|split; reflexivity]).
  rewrite H.
  apply (chain_never_halts (mkGenesis 3 [] [] None []) s0 0 s0 1 7 [alice_sends 0 (Tx.Transfer bob usd 10)] None).
  - split_and!; simpl; [ulia|constructor|done].
  - exact H.
  - constructor.
  - by rewrite Hh.
  - ulia.
  - rewrite Ht. lia.
  - constructor; [|constructor]. apply stx_ok_sends; [ulia|simpl; ulia].
  - done.
Defined.

Lemma no_double_spend_witness :
  ∃ s1 ev, apply_tx_at (alice_sends 0 demo_spend) (Some true) demo_pool = (s1, Ok ev) ∧
    ∀ s3 ev2, apply_tx_at (alice_sends 1 demo_spend) None s1 ≠ (s3, Ok ev2).
Proof.
  destruct demo_spend_accepted as (s1 & ev & H & Ha). exists s1, ev. split; [exact H|]. intros s3 ev2.
  apply (no_double_spend (alice_sends 0 demo_spend) (Some true) demo_pool s1 ev (id_of 9) (id_of 10)
    (id_of 11) (id_of 12) 0 None None [x00] [] [] 0 s1 (alice_sends 1 demo_spend) None s3 ev2 (id_of 9)
    (id_of 11) (id_of 12) 0 None None [x00] [] [] Legacy inv_demo_pool); try reflexivity.
  - apply stx_ok_sends; [ulia|simpl; ulia].
  - exact H.
  - constructor.
  - unfold pool_key_of_anchor, is_recent_anchor. rewrite Ha. reflexivity.
Defined.

Lemma debits_are_authorised_witness :
  let s1 := (apply_tx_at (alice_sends 0 (Tx.Transfer bob usd 10)) (Some true) demo).1 in
  balance s1 alice usd < balance demo alice usd ∧
  (alice = alice ∨ ∃ leaf amount t', draws (Tx.Transfer bob usd 10) = Some (leaf, amount) ∧
     authorised_draw (charged alice demo) alice leaf amount usd alice t').
Proof.
  pose proof (demo_transfer_accepted 0 demo 10 account_demo eq_refl eq_refl eq_refl) as H.
  rewrite balance_demo in H. specialize (H ltac:(lia)). rewrite H. cbv zeta.
  assert (balance (apply_tx_at (alice_sends 0 (Tx.Transfer bob usd 10)) (Some true) demo).1 alice usd <
          balance demo alice usd) as Hlt.
  { rewrite H, balance_demo. cbn [fst].
    change (balance (credited bob usd 10 (debited alice usd 10 demo)) alice usd < 100).
    rewrite balance_credited_ne by (intros [= E]; by apply alice_ne_bob).
    rewrite balance_debited, bool_decide_eq_true_2, balance_demo by done. lia. }
  rewrite H in Hlt. split; [exact Hlt|].
  apply (debits_are_authorised (alice_sends 0 (Tx.Transfer bob usd 10)) (Some true) demo _ _ alice usd
    inv_demo (stx_ok_sends 0 (Tx.Transfer bob usd 10) ltac:(ulia) ltac:(simpl; ulia)) H Hlt).
Defined.

(** A paused asset: the transfer is refused and the balance stays. *)
Definition paused_usd : State := demo_asset (ai_set_paused true usd_info).
Lemma stopped_balance_fixed_witness :
  balance (apply_tx_at (alice_sends 0 (Tx.Transfer bob usd 10)) (Some true) paused_usd).1 alice usd = 100.
Proof.
  transitivity (balance paused_usd alice usd); [|exact balance_demo].
  destruct (apply_tx_at _ _ paused_usd) as [s' r] eqn:E.
  apply (stopped_balance_fixed _ _ paused_usd s' r alice usd (ai_set_paused true usd_info)
    (inv_demo_asset (ai_set_paused true usd_info) usd_counters usd_no_burn)
    (stx_ok_sends 0 (Tx.Transfer bob usd 10) ltac:(ulia) ltac:(simpl; ulia)) E).
  - exact usd_ne_fee.
  - apply usd_demo_asset.
  - by left.
Defined.

Lemma asset_policy_is_permanent_witness :
  ∃ i', st_assets (demo_asset usd_info) !! usd = Some i' ∧ asset_evolves usd_info i'.
Proof.
  apply (asset_policy_is_permanent 0 (demo_asset usd_info) (demo_asset usd_info) usd usd_info
    (inv_demo_asset usd_info usd_counters usd_no_burn) (reach_here _) (usd_demo_asset _)).
Defined.
