(* ===== verification/Channels.v ===== *)
(** Payment channels on the chain: terms and escrow over a channel's life, what a
    settlement pays, and the mirror the node's admission reads. *)

From S2P Require Export Invariant.
From S2P Require Import Toy Demo.
#[local] Open Scope Z_scope.

Section channels.
Context {SHAKE : Shake} {SHA2 : Sha2} {CODECS : Codecs}.

(** The terms of a channel: everything but the settled step. *)
Definition terms (c : Channel) : ChannelState := cs_set_highest 0 (chan_state c).
Definition channel_evolves (c c' : Channel) : Prop :=
  terms c' = terms c ∧
  cs_highest_step_settled (chan_state c) ≤ cs_highest_step_settled (chan_state c') ∧
  (chan_refunded c = true → c' = c).
#[export] Instance channel_evolves_preorder : PreOrder channel_evolves.
Proof.
  split; [intros c; by repeat split|].
  intros a b c (T1 & H1 & R1) (T2 & H2 & R2). split_and!; [congruence|lia|].
  intros Hr. specialize (R1 Hr). subst b. auto.
Qed.
Definition channels_evolve (s s' : State) : Prop :=
  ∀ id c, st_channels s !! id = Some c → ∃ c', st_channels s' !! id = Some c' ∧ channel_evolves c c'.
#[export] Instance channels_evolve_preorder : PreOrder channels_evolve.
Proof.
  split; [intros s id c Hc; exists c; by split|]. intros s1 s2 s3 H1 H2 id c Hc.
  destruct (H1 _ _ Hc) as (d & Hd & ?). destruct (H2 _ _ Hd) as (e & He & ?).
  exists e. split; [done|by etrans].
Qed.
Lemma channels_same s s' : st_channels s' = st_channels s → channels_evolve s s'.
Proof. intros H id c Hc. exists c. rewrite H. by split. Qed.
Lemma channels_insert s s' id c' :
  st_channels s' = <[id := c']> (st_channels s) →
  (∀ c, st_channels s !! id = Some c → channel_evolves c c') → channels_evolve s s'.
Proof.
  intros H Hc x c Hx. rewrite H. destruct (decide (x = id)) as [->|].
  - rewrite lookup_insert_eq. eauto.
  - rewrite lookup_insert_ne by done. exists c. by split.
Qed.
Lemma accepts_channels s sender tx ev s' : accepts s sender tx ev s' → channels_evolve s s'.
Proof.
  destruct 1; try (apply channels_same; simpl; repeat case_match; by try destruct key).
  - eapply channels_insert; [reflexivity|]. congruence.
  - eapply channels_insert; [reflexivity|]. intros c0 Hc0. rewrite H in Hc0. injection Hc0 as <-.
    split_and!; [done|simpl; lia|congruence].
  - eapply channels_insert; [reflexivity|]. intros c0 Hc0. rewrite H in Hc0. injection Hc0 as <-.
    split_and!; [done|simpl; lia|congruence].
Qed.
Lemma applied_channels stx pre s s' ev : applied stx pre s s' ev → channels_evolve s s'.
Proof.
  intros [_ _ (s3 & acc & Hacc & _ & ->)].
  etrans; [apply (channels_same s (charged (stx_sender stx) s)); unfold charged; by case_match|].
  etrans; [by eapply accepts_channels|]. apply channels_same. unfold burned. by case_match.
Qed.
Lemma reach_channels n s s' : reach n s s' → inv s → channels_evolve s s'.
Proof.
  intros Hr Hs. apply (reach_rel_const channels_evolve n); [| |done..].
  - split_and!; intros; by apply channels_same.
  - intros stx pre s1 s2 ev _ _. apply applied_channels.
Qed.
(** Whatever the outcome of a transaction. *)
Lemma apply_tx_channels stx pre s : inv s → stx_ok stx → channels_evolve s (apply_tx_at stx pre s).1.
Proof.
  intros Hs Hok. destruct (apply_tx_at stx pre s) as [s' r] eqn:H.
  destruct (apply_tx_cases _ _ _ _ _ Hs H) as [->|[ev Ha]]; [|done|by eapply applied_channels].
  intros ->. by eapply apply_tx_nopanic.
Qed.

(** C14: the life of a channel.  Across any number of blocks an open channel keeps
    its terms, its settled step only grows and never passes the maximum, and
    its escrow is exactly the price of the steps not yet settled, until the
    refund empties it for good. *)
Theorem channel_lifecycle n s s' id c :
  inv s → reach n s s' → st_channels s !! id = Some c →
  ∃ c', st_channels s' !! id = Some c' ∧ channel_evolves c c' ∧
    0 ≤ cs_highest_step_settled (chan_state c') ≤ cs_max_steps (chan_state c') ∧
    chan_escrow_remaining c' =
      if chan_refunded c' then 0
      else cs_unit_price (chan_state c) * (cs_max_steps (chan_state c) - cs_highest_step_settled (chan_state c')).
Proof.
  intros Hs Hr Hc. destruct (reach_channels n s s' Hr Hs id c Hc) as (c' & Hc' & He).
  exists c'. split; [done|]. split; [done|].
  pose proof (reach_inv n s s' Hr Hs) as Hs'.
  destruct (inv_channels s' Hs' _ _ Hc') as (_ & Hh & _ & Hesc). split; [done|].
  destruct He as [Ht _]. assert (cs_unit_price (terms c') = cs_unit_price (terms c) ∧
    cs_max_steps (terms c') = cs_max_steps (terms c)) as [Hp Hm] by by rewrite Ht.
  simpl in Hp, Hm. rewrite Hesc, Hp, Hm. done.
Qed.

(** A settlement pays the price of the new steps, no more.  An accepted
    settlement's word hashes to the tip in exactly [step] links, it pays
    unit price × (step − last settled step) out of the escrow, which always
    covers it (no underflow, whatever the amounts), and leaves the rest. *)
Theorem settlement_pays_exactly sender id word step s s' ev :
  inv s → dispatch sender (Tx.ChannelSettle id word step) s = (s', Ok ev) →
  ∃ c paid, st_channels s !! id = Some c ∧
    hash_forward step word = cs_tip (chan_state c) ∧
    paid = cs_unit_price (chan_state c) * (step - cs_highest_step_settled (chan_state c)) ∧
    0 ≤ paid ≤ chan_escrow_remaining c ∧ ev = [Event.ChannelSettled id step paid] ∧
    st_channels s' !! id =
      Some (mkChannel (cs_set_highest step (chan_state c)) (chan_escrow_remaining c - paid) false) ∧
    balance s' (cs_payee (chan_state c)) (cs_asset (chan_state c)) =
      sat_add u128_max (balance s (cs_payee (chan_state c)) (cs_asset (chan_state c))) paid.
Proof.
  intros Hs H. apply dispatch_sound in H.
  inversion H as [| | | | | |? ? ? c paid Hc Hr Hstep Hcap Hword Hpaid Hmax Hg| | | | | | | |]; subst.
  pose proof (inv_channels s Hs _ _ Hc) as Hok.
  destruct (settled_channel_ok c step Hok Hr Hstep) as [Hb Hc'].
  assert (chan_escrow_remaining c ≤ u128_max) as Hle.
  { destruct Hok as (Hp & Hh & Hm & He). rewrite Hr in He. nia. }
  eexists c, _. split; [done|]. split; [done|]. split; [reflexivity|]. split; [done|].
  split; [done|]. split.
  - simpl. rewrite lookup_insert_eq. by rewrite wrapping_small by lia.
  - rewrite balance_credited. by rewrite bool_decide_eq_true_2.
Qed.

(** The mirror agrees.  [settle_delta] is [None] exactly when the handler
    refuses before it hashes anything, for an unknown or refunded channel or a
    step that is stale or too large; otherwise it is the number the cap is
    tested on: the handler refuses it as too large exactly above the cap, from
    the activation height on, and [settle_links] is the number of links the
    verifier then hashes. *)
Theorem settle_delta_mirrors_handler s id word step :
  match settle_delta s id step with
  | None =>
      settle_links s id step = None ∧
      (settle_claim s id word step = Err StateError.UnknownChannel ∨
       settle_claim s id word step = Err StateError.ChannelRefunded ∨
       settle_claim s id word step = Err StateError.BadStep)
  | Some delta =>
      settle_links s id step = Some step ∧
      if payword_capped s && (MAX_SETTLE_DELTA <? delta)
      then settle_claim s id word step = Err (StateError.SettleDeltaTooLarge delta MAX_SETTLE_DELTA)
      else ∃ c, st_channels s !! id = Some c ∧
        if bool_decide (hash_forward step word = cs_tip (chan_state c))
        then settle_claim s id word step =
               if cs_unit_price (chan_state c) * delta <=? u128_max
               then Ok (cs_unit_price (chan_state c) * delta, cs_payee (chan_state c), cs_asset (chan_state c))
               else Err StateError.Overflow
        else settle_claim s id word step = Err StateError.BadSettlement
  end.
Proof.
  unfold settle_links, settle_delta, settle_claim.
  destruct (st_channels s !! id) as [c|] eqn:Hc; cbn [mbind option_bind fmap option_fmap option_map ok_orR bindR]; [|auto].
  destruct (chan_refunded c); cbn [refuseR bindR]; [auto|].
  destruct ((step <=? _) || _); cbn [refuseR bindR fmap option_fmap option_map]; [auto|].
  split; [done|]. destruct (payword_capped s && _); cbn [refuseR bindR]; [done|].
  exists c. split; [done|]. case_bool_decide as Hw.
  - rewrite (proj2 (verify_settlement_spec _ _ _) Hw). unfold checked. cbn [negb refuseR bindR].
    by destruct (_ <=? u128_max).
  - destruct (verify_settlement _ _ _) eqn:E; [by apply verify_settlement_spec in E|done].
Qed.
End channels.

(** * Witnesses *)

#[local] Existing Instances toy_shake toy_sha2 toy_codecs.

(** Alice's three-step channel to Bob at 2 per step; the word [id_of 7] settles
    step 2. *)
Definition demo_chan_state : ChannelState :=
  mkChannelState (id_of 20) alice bob usd (id_of 21) (hash_forward 2 (id_of 7)) 2 3 0 50.
Definition demo_channel : Channel := mkChannel demo_chan_state 6 false.
Definition demo_open : State := set_channels {[id_of 20 := demo_channel]} demo.
Lemma inv_demo_open : inv demo_open.
Proof. apply (inv_set_channels demo (id_of 20) demo_channel inv_demo). split_and!; simpl; ulia. Qed.
Lemma demo_open_channel : st_channels demo_open !! id_of 20 = Some demo_channel.
Proof. apply lookup_singleton_eq. Qed.

(** A block in which it does. *)
Definition settle_block : State * res StateError (list Receipt) :=
  apply_block_verified 1 7 [alice_sends 0 (Tx.ChannelSettle (id_of 20) (id_of 7) 2)] (Some [true]) demo_open.
Lemma settle_block_applies : ∃ rs, settle_block.2 = Ok rs ∧
  (λ c, (cs_highest_step_settled (chan_state c), chan_refunded c)) <$> st_channels settle_block.1 !! id_of 20 = Some (2, false).
Proof. eexists. vm_compute. split; reflexivity. Qed.
Lemma settle_block_reached : reach 1 demo_open settle_block.1.
Proof.
  destruct settle_block_applies as (rs & Hb & _).
  eapply (reach_block 0 _ demo_open settle_block.1 1 7 [alice_sends 0 (Tx.ChannelSettle (id_of 20) (id_of 7) 2)] (Some [true]) rs).
  - constructor.
  - ulia.
  - ulia.
  - constructor; [|constructor]. apply stx_ok_sends; [ulia|simpl; ulia].
  - rewrite <-Hb. apply surjective_pairing.
Qed.
Lemma channel_lifecycle_witness :
  ∃ c', st_channels settle_block.1 !! id_of 20 = Some c' ∧ channel_evolves demo_channel c' ∧
    cs_highest_step_settled (chan_state c') = 2 ∧ chan_escrow_remaining c' = 2 * (3 - 2).
Proof.
  destruct (channel_lifecycle 1 demo_open settle_block.1 (id_of 20) demo_channel inv_demo_open settle_block_reached
              demo_open_channel) as (c' & Hc & He & _ & Hesc).
  destruct settle_block_applies as (rs & _ & Hs). rewrite Hc in Hs. injection Hs as Hstep Hr. rewrite Hr, Hstep in Hesc.
  exists c'. split; [exact Hc|]. split; [exact He|]. split; [exact Hstep|exact Hesc].
Defined.

Lemma settlement_pays_exactly_witness :
  ∃ s' ev, dispatch alice (Tx.ChannelSettle (id_of 20) (id_of 7) 2) demo_open = (s', Ok ev) ∧
  ∃ c paid, st_channels demo_open !! id_of 20 = Some c ∧ paid = cs_unit_price (chan_state c) * (2 - 0) ∧
    0 ≤ paid ≤ chan_escrow_remaining c ∧ ev = [Event.ChannelSettled (id_of 20) 2 paid].
Proof.
  assert (∃ s' ev, dispatch alice (Tx.ChannelSettle (id_of 20) (id_of 7) 2) demo_open = (s', Ok ev))
    as (s' & ev & H).
  { eexists _, _. apply dispatch_complete.
    apply (acc_channel_settle demo_open alice (id_of 20) (id_of 7) 2 demo_channel 4 demo_open_channel).
    all: first [reflexivity | simpl; ulia | done]. }
  destruct (settlement_pays_exactly alice (id_of 20) (id_of 7) 2 demo_open s' ev inv_demo_open H)
    as (c & paid & Hc & Hword & Hpaid & Hb & Hev & Hrest).
  rewrite demo_open_channel in Hc. injection Hc as <-.
  exists s', ev. split; [exact H|]. exists demo_channel, paid. split; [exact demo_open_channel|].
  split; [exact Hpaid|]. split; [exact Hb|exact Hev].
Defined.
