(* ===== verification/Conservation.v ===== *)
(** Conservation of value: what the ledger holds of an asset against what was
    issued, over every transaction and over chains of blocks. *)

From S2P Require Export Invariant.
From S2P Require Import Toy Demo.
#[local] Open Scope Z_scope.

(** ** Sums over maps *)
Section msum.
Context {K V : Type} `{Countable K}.
Implicit Types (m : gmap K V) (f : K → V → Z).
Definition msum f m : Z := map_fold (λ k v acc, f k v + acc) 0 m.

Lemma msum_empty f : msum f ∅ = 0.
Proof. apply map_fold_empty. Qed.
Lemma msum_insert_new f m k v : m !! k = None → msum f (<[k:=v]> m) = f k v + msum f m.
Proof. intros Hk. unfold msum. rewrite map_fold_insert_L; [done| |done]. intros; lia. Qed.
Lemma msum_insert f m k v :
  msum f (<[k:=v]> m) = msum f m - from_option (f k) 0 (m !! k) + f k v.
Proof.
  destruct (m !! k) as [w|] eqn:E; simpl.
  - rewrite <-(insert_delete_id m k w) at 2 by done. rewrite <-insert_delete_eq.
    rewrite !msum_insert_new by apply lookup_delete_eq. lia.
  - rewrite msum_insert_new by done. lia.
Qed.
Lemma msum_nonneg f m : (∀ k v, m !! k = Some v → 0 ≤ f k v) → 0 ≤ msum f m.
Proof.
  induction m as [|k v m Hk IH] using map_ind; intros Hf; [by rewrite msum_empty|].
  rewrite msum_insert_new by done. pose proof (Hf k v (lookup_insert_eq _ _ _)).
  enough (0 ≤ msum f m) by lia. apply IH. intros j w Hj. apply Hf.
  rewrite lookup_insert_ne; [done|congruence].
Qed.
Lemma msum_lookup_le f m k v :
  (∀ k v, m !! k = Some v → 0 ≤ f k v) → m !! k = Some v → f k v ≤ msum f m.
Proof.
  intros Hf Hk. rewrite <-(insert_delete_id m k v) by done.
  rewrite msum_insert_new by apply lookup_delete_eq.
  enough (0 ≤ msum f (delete k m)) by lia. apply msum_nonneg. intros j w Hj.
  apply lookup_delete_Some in Hj as [_ Hj]. by apply Hf.
Qed.
Lemma msum_list f m : msum f m = foldr (λ e acc, f e.1 e.2 + acc) 0 (map_to_list m).
Proof.
  unfold msum. rewrite map_fold_foldr.
  induction (map_to_list m) as [|[k v] l IH]; simpl; [done|by rewrite IH].
Qed.
End msum.

(** ** Held and issued *)
Section held.
Context {SHAKE : Shake} {SHA2 : Sha2} {CODECS : Codecs}.

Definition in_balances (a : AssetId) (s : State) : Z :=
  msum (λ k v, if bool_decide (k.2 = a) then v else 0) (st_balances s).
Definition in_escrow (a : AssetId) (s : State) : Z :=
  msum (λ _ c, if bool_decide (cs_asset (chan_state c) = a) then chan_escrow_remaining c else 0)
    (st_channels s).
Definition in_pools (a : AssetId) (s : State) : Z :=
  (if bool_decide (pool_asset (st_pool s) = Some a) then pool_total_shielded (st_pool s) else 0) +
  from_option pool_total_shielded 0 (st_pools s !! a).
Definition held (a : AssetId) (s : State) : Z := in_balances a s + in_escrow a s + in_pools a s.
(** An unregistered asset has no counters; the fee asset's burned fees left
    circulation too. *)
Definition issued (a : AssetId) (s : State) : Z :=
  from_option (λ i, ai_supply i - ai_burned i) 0 (st_assets s !! a) -
  (if bool_decide (a = st_fee_asset s) then st_fees_burned s else 0).
Definition gap (a : AssetId) (s : State) : Z := held a s - issued a s.

Lemma in_balances_nonneg a s : inv s → 0 ≤ in_balances a s.
Proof.
  intros Hs. apply msum_nonneg. intros k v Hk. pose proof (inv_balances s Hs _ _ Hk) as [? _].
  by case_bool_decide.
Qed.
Lemma escrow_nonneg c : channel_ok c → 0 ≤ chan_escrow_remaining c ≤ u128_max.
Proof. intros (Hp & Hh & Hm & ->). assert (0 ≤ u128_max) by ulia. destruct (chan_refunded c); nia. Qed.
Lemma in_escrow_nonneg a s : inv s → 0 ≤ in_escrow a s.
Proof.
  intros Hs. apply msum_nonneg. intros k c Hk.
  pose proof (escrow_nonneg c (inv_channels s Hs _ _ Hk)). case_bool_decide; lia.
Qed.
Lemma pools_total_nonneg a s : inv s → 0 ≤ from_option pool_total_shielded 0 (st_pools s !! a).
Proof.
  intros Hs. destruct (st_pools s !! a) as [p|] eqn:E; simpl; [|done].
  pose proof (inv_pools s Hs _ _ E) as [[_ [? _]] _]. done.
Qed.
Lemma in_pools_nonneg a s : inv s → 0 ≤ in_pools a s.
Proof.
  intros Hs. pose proof (pools_total_nonneg a s Hs). pose proof (inv_pool s Hs) as [_ [? _]].
  unfold in_pools. case_bool_decide; lia.
Qed.
Lemma balance_in a x s : balances_ok s → balance s x a ≤ in_balances a s.
Proof.
  intros Hs. assert (∀ k v, st_balances s !! k = Some v → 0 ≤ if bool_decide (k.2 = a) then v else 0) as Hf.
  { intros k w Hk. pose proof (Hs _ _ Hk) as [? _]. by case_bool_decide. }
  unfold balance. destruct (st_balances s !! (x, a)) as [v|] eqn:E; simpl; [|by apply msum_nonneg].
  pose proof (msum_lookup_le (λ k v, if bool_decide (k.2 = a) then v else 0) (st_balances s) (x, a) v Hf E) as Hm.
  simpl in Hm. by rewrite bool_decide_eq_true_2 in Hm.
Qed.
Lemma balance_le a x s : inv s → balance s x a ≤ in_balances a s.
Proof. intros Hs. by apply balance_in, Hs. Qed.

(** ** The elementary moves *)
Definition if_eq (x a : AssetId) (v : Z) : Z := if bool_decide (x = a) then v else 0.
Definition escrow_of (a : AssetId) (c : Channel) : Z :=
  if_eq (cs_asset (chan_state c)) a (chan_escrow_remaining c).
Definition pool_part (a : AssetId) (key : PoolKey) (p : PoolState) : Z :=
  match key with
  | Legacy => if bool_decide (pool_asset p = Some a) then pool_total_shielded p else 0
  | Asset b => if_eq b a (pool_total_shielded p)
  end.
Definition net (i : AssetInfo) : Z := ai_supply i - ai_burned i.

Lemma in_balances_debited a id asset v s :
  in_balances a (debited id asset v s) = in_balances a s - if_eq asset a v.
Proof.
  unfold in_balances, debited. simpl. rewrite msum_insert. unfold balance, if_eq.
  destruct (st_balances s !! (id, asset)); simpl; case_bool_decide; lia.
Qed.
Lemma gap_debited a id asset v s : gap a (debited id asset v s) = gap a s - if_eq asset a v.
Proof.
  unfold gap, held. rewrite in_balances_debited.
  change (in_escrow a (debited id asset v s)) with (in_escrow a s).
  change (in_pools a (debited id asset v s)) with (in_pools a s).
  change (issued a (debited id asset v s)) with (issued a s). lia.
Qed.
Lemma in_balances_credited a id asset v s :
  (asset = a → balance s id asset + v ≤ u128_max) →
  in_balances a (credited id asset v s) = in_balances a s + if_eq asset a v.
Proof.
  intros Hle. unfold in_balances, credited. simpl. rewrite msum_insert. unfold if_eq. simpl.
  case_bool_decide as He.
  - rewrite sat_add_small by auto. unfold balance.
    destruct (st_balances s !! (id, asset)); simpl; rewrite ?(bool_decide_eq_true_2 _ He); lia.
  - destruct (st_balances s !! (id, asset)); simpl; rewrite ?(bool_decide_eq_false_2 _ He); lia.
Qed.
Lemma gap_credited a id asset v s :
  (asset = a → balance s id asset + v ≤ u128_max) →
  gap a (credited id asset v s) = gap a s + if_eq asset a v.
Proof.
  intros Hle. unfold gap, held. rewrite in_balances_credited by done.
  change (in_escrow a (credited id asset v s)) with (in_escrow a s).
  change (in_pools a (credited id asset v s)) with (in_pools a s).
  change (issued a (credited id asset v s)) with (issued a s). lia.
Qed.
Lemma gap_channel a id c s :
  gap a (set_channels (<[id := c]> (st_channels s)) s) =
  gap a s - from_option (escrow_of a) 0 (st_channels s !! id) + escrow_of a c.
Proof.
  set (s' := set_channels _ _).
  assert (in_escrow a s' = in_escrow a s - from_option (escrow_of a) 0 (st_channels s !! id) + escrow_of a c)
    as He.
  { unfold in_escrow at 1. subst s'. cbn [st_channels set_channels]. rewrite msum_insert. done. }
  unfold gap, held. rewrite He.
  change (in_balances a s') with (in_balances a s). change (in_pools a s') with (in_pools a s).
  change (issued a s') with (issued a s). lia.
Qed.
Lemma gap_pool a key p s :
  gap a (put_pool key p s) =
  gap a s - from_option (pool_part a key) 0 (pool_ref s key) + pool_part a key p.
Proof.
  assert (in_pools a (put_pool key p s) =
    in_pools a s - from_option (pool_part a key) 0 (pool_ref s key) + pool_part a key p) as Hp.
  { unfold in_pools, pool_part, if_eq. destruct key as [|b]; simpl; [lia|].
    destruct (decide (b = a)) as [->|Hne].
    - rewrite lookup_insert_eq, (bool_decide_eq_true_2 (a = a)) by done.
      destruct (st_pools s !! a); simpl; lia.
    - rewrite lookup_insert_ne, (bool_decide_eq_false_2 (b = a)) by done.
      destruct (st_pools s !! b); simpl; lia. }
  unfold gap, held. rewrite Hp. destruct key; simpl in *;
    match goal with |- context [issued a ?s'] =>
      change (in_balances a s') with (in_balances a s);
      change (in_escrow a s') with (in_escrow a s); change (issued a s') with (issued a s) end; lia.
Qed.
Lemma gap_assets a id i s :
  gap a (set_assets (<[id := i]> (st_assets s)) s) =
  gap a s + if_eq id a (from_option net 0 (st_assets s !! id) - net i).
Proof.
  set (s' := set_assets _ _).
  assert (issued a s' = issued a s - if_eq id a (from_option net 0 (st_assets s !! id) - net i)) as Hi.
  { unfold issued, if_eq, net. subst s'. simpl. destruct (decide (id = a)) as [->|Hne].
    - rewrite lookup_insert_eq, (bool_decide_eq_true_2 (a = a)) by done.
      destruct (st_assets s !! a); simpl; lia.
    - rewrite lookup_insert_ne, (bool_decide_eq_false_2 (id = a)) by done. lia. }
  unfold gap, held. rewrite Hi.
  change (in_balances a s') with (in_balances a s). change (in_pools a s') with (in_pools a s).
  change (in_escrow a s') with (in_escrow a s). lia.
Qed.
Lemma gap_same a s s' :
  st_balances s' = st_balances s → st_channels s' = st_channels s → st_pool s' = st_pool s →
  st_pools s' = st_pools s → st_assets s' = st_assets s → st_fee_asset s' = st_fee_asset s →
  st_fees_burned s' = st_fees_burned s → gap a s' = gap a s.
Proof.
  intros E1 E2 E3 E4 E5 E6 E7. unfold gap, held, issued, in_balances, in_escrow, in_pools.
  by rewrite E1, E2, E3, E4, E5, E6, E7.
Qed.

(** A registered asset that is backed ([gap ≤ 0]) never overflows: what is held
    is at most the 128-bit supply. *)
Lemma backed_room a s i :
  inv s → st_assets s !! a = Some i → gap a s ≤ 0 →
  in_balances a s + in_escrow a s + in_pools a s + ai_burned i +
    (if bool_decide (a = st_fee_asset s) then st_fees_burned s else 0) ≤ ai_supply i ≤ u128_max.
Proof.
  intros Hs Hi Hg. pose proof (inv_assets s Hs _ _ Hi) as [[? ?] _].
  unfold gap, held, issued in Hg. rewrite Hi in Hg. simpl in Hg. lia.
Qed.
Lemma if_eq_bounds x a v : 0 ≤ v → 0 ≤ if_eq x a v ≤ v.
Proof. unfold if_eq. case_bool_decide; lia. Qed.
Lemma if_eq_same a v : if_eq a a v = v.
Proof. unfold if_eq. by rewrite bool_decide_eq_true_2. Qed.

Section backed.
Context (a : AssetId) (s : State) (i : AssetInfo).
Context (Hs : inv s) (Hi : st_assets s !! a = Some i) (Hg : gap a s ≤ 0).

Lemma parts_bound :
  0 ≤ in_balances a s ∧ 0 ≤ in_escrow a s ∧ 0 ≤ in_pools a s ∧
  in_balances a s + in_escrow a s + in_pools a s ≤ u128_max.
Proof.
  pose proof (backed_room a s i Hs Hi Hg). pose proof (inv_assets s Hs _ _ Hi) as [_ [? _]].
  pose proof (inv_fees s Hs) as [[? _] _].
  split_and!; [by apply in_balances_nonneg|by apply in_escrow_nonneg|by apply in_pools_nonneg|].
  case_bool_decide; lia.
Qed.
(** What leaves a balance, an escrow or a pool fits where it goes. *)
Lemma room_moved id to asset v :
  0 ≤ v ≤ balance s id asset → asset = a →
  balance (debited id asset v s) to asset + v ≤ u128_max.
Proof.
  intros [H0 Hv] ->. pose proof parts_bound.
  pose proof (balance_le a to _ (inv_debited s id a v Hs H0 Hv)) as Hb.
  rewrite in_balances_debited, if_eq_same in Hb. lia.
Qed.
Lemma room_escrow id c to v :
  st_channels s !! id = Some c → v ≤ chan_escrow_remaining c → cs_asset (chan_state c) = a →
  balance s to a + v ≤ u128_max.
Proof.
  intros Hc Hv Ha. pose proof parts_bound. pose proof (balance_le a to s Hs).
  assert (escrow_of a c ≤ in_escrow a s) as He.
  { apply (msum_lookup_le (λ _, escrow_of a) _ id c); [|done]. intros k d Hk.
    pose proof (escrow_nonneg d (inv_channels s Hs _ _ Hk)).
    pose proof (if_eq_bounds (cs_asset (chan_state d)) a (chan_escrow_remaining d)).
    unfold escrow_of. lia. }
  unfold escrow_of in He. rewrite Ha, if_eq_same in He. lia.
Qed.
Lemma room_pool key p to v :
  pool_ref s key = Some p → pool_asset_of s key = Some a → v ≤ pool_total_shielded p →
  balance s to a + v ≤ u128_max.
Proof.
  intros Hp Ha Hv. pose proof parts_bound. pose proof (balance_le a to s Hs).
  assert (pool_total_shielded p ≤ in_pools a s) as Hle; [|lia].
  pose proof (pools_total_nonneg a s Hs). pose proof (inv_pool s Hs) as [_ [? _]].
  unfold in_pools. destruct key as [|b]; simpl in *.
  - injection Hp as <-. rewrite bool_decide_eq_true_2 by done. lia.
  - injection Ha as ->. rewrite Hp in *. simpl. case_bool_decide; lia.
Qed.
End backed.

(** ** Accepted transactions *)

(** The pool an unshield of [a] takes from holds at least what leaves it. *)
Definition pool_covers (a : AssetId) (s : State) (tx : Tx) : Prop :=
  match tx with
  | Tx.ShieldedSpend anchor _ _ _ fee _ _ _ _ _ =>
      ∀ key p, pool_key_of_anchor s anchor = Some key → pool_ref s key = Some p →
        pool_asset_of s key = Some a → fee ≤ pool_total_shielded p
  | _ => True
  end.

Lemma pool_part_target a s asset key :
  inv s → pool_key_of_asset s asset = Ok key →
  from_option (pool_part a key) 0 (pool_ref s key) =
    if_eq asset a (pool_total_shielded (target_pool s key)) ∧
  ∀ v t, pool_part a key (minted_pool asset v t (target_pool s key)) =
    if_eq asset a (sat_add u128_max (pool_total_shielded (target_pool s key)) v).
Proof.
  intros Hs. unfold pool_key_of_asset. destruct (pool_asset (st_pool s)) as [b|] eqn:Hb.
  - case_bool_decide as Hba; [subst b|].
    + intros [= <-]. cbn [pool_ref target_pool from_option pool_part minted_pool pool_asset
        pool_total_shielded]. rewrite Hb. cbn [from_option id]. unfold if_eq.
      split; [|intros v t]; (destruct (decide (asset = a)) as [->|];
        [by rewrite !bool_decide_eq_true_2|by rewrite !bool_decide_eq_false_2 by congruence]).
    + case_match; [|done]. intros [= <-]. simpl. split; [|done].
      destruct (st_pools s !! asset); simpl; [done|]. unfold if_eq. by destruct (bool_decide (asset = a)).
  - intros [= <-]. cbn [pool_ref target_pool from_option pool_part minted_pool pool_asset
      pool_total_shielded]. rewrite Hb, (inv_pin s Hs Hb). cbn [from_option id]. unfold if_eq. split.
    + by repeat case_bool_decide.
    + intros v t. destruct (decide (asset = a)) as [->|];
        [by rewrite !bool_decide_eq_true_2|by rewrite !bool_decide_eq_false_2 by congruence].
Qed.
Lemma target_total_le s asset key :
  inv s → pool_key_of_asset s asset = Ok key → pool_total_shielded (target_pool s key) ≤ in_pools asset s.
Proof.
  intros Hs. pose proof (pools_total_nonneg asset s Hs). pose proof (inv_pool s Hs) as [_ [? _]].
  unfold pool_key_of_asset, in_pools. destruct (pool_asset (st_pool s)) as [b|] eqn:Hb.
  - case_bool_decide as Hba; [subst b|].
    + intros [= <-]. simpl. rewrite bool_decide_eq_true_2 by done. lia.
    + case_match; [|done]. intros [= <-]. simpl. rewrite bool_decide_eq_false_2 by congruence.
      destruct (st_pools s !! asset); simpl; lia.
  - intros [= <-]. simpl. rewrite (inv_pin s Hs Hb). lia.
Qed.
Lemma pool_part_asset a s key p b :
  pool_ref s key = Some p → pool_asset_of s key = Some b →
  ∀ q, pool_asset q = pool_asset p → pool_part a key q = if_eq b a (pool_total_shielded q).
Proof.
  destruct key as [|x]; simpl; intros Hp Hb q Hq; [|by injection Hb as ->].
  injection Hp as <-. rewrite Hq, Hb. unfold if_eq. by repeat case_bool_decide; simplify_eq.
Qed.
Lemma spend_gap a s i anchor nullifier out out2 fee credit_to mandate proof ct ct2 key p m' t2 :
  inv s → st_assets s !! a = Some i → gap a s ≤ 0 → 0 ≤ fee →
  pool_covers a s (Tx.ShieldedSpend anchor nullifier out out2 fee credit_to mandate proof ct ct2) →
  (0 < fee → is_Some credit_to ∧ is_Some (pool_asset_of s key)) →
  pool_key_of_anchor s anchor = Some key → pool_ref s key = Some p →
  gap a (let s1 := put_pool key (spent_pool nullifier fee t2 p) (set_mandates m' s) in
         match credit_to, pool_asset_of s key with
         | Some to, Some b => if 0 <? fee then credited to b fee s1 else s1
         | _, _ => s1
         end) = gap a s.
Proof.
  intros Hs Hi Hg Hf Hcov Hcr Hk Hp. cbv zeta. pose proof (Hcov key p Hk Hp) as Hle.
  set (s1 := put_pool _ _ _).
  assert (pool_ref (set_mandates m' s) key = Some p) as Hp' by by destruct key.
  assert (gap a s1 = gap a s - pool_part a key p + pool_part a key (spent_pool nullifier fee t2 p)) as H1.
  { subst s1. rewrite gap_pool, Hp'. done. }
  destruct (Z.ltb_spec 0 fee) as [Hpos|Hz].
  - destruct (Hcr Hpos) as [[to ->] [b Hb]]. rewrite Hb.
    assert (∀ x y, balance s1 x y = balance s x y) as Hbal by (intros; by destruct key).
    rewrite gap_credited by (intros ->; rewrite Hbal; eapply (room_pool a s i); eauto).
    rewrite H1, !(pool_part_asset a s key p b Hp Hb) by done. simpl.
    rewrite (proj2 (Z.ltb_lt 0 fee) Hpos). unfold if_eq.
    case_bool_decide as Hba; [subst b; rewrite sat_sub_small by auto|]; lia.
  - assert (pool_part a key (spent_pool nullifier fee t2 p) = pool_part a key p) as Hsame.
    { unfold pool_part. simpl. by rewrite (proj2 (Z.ltb_ge 0 fee) Hz). }
    rewrite Hsame in H1. destruct credit_to, (pool_asset_of s key); lia.
Qed.
Lemma accepts_gap a s sender tx ev s' i :
  accepts s sender tx ev s' → tx_ok tx → inv s → st_assets s !! a = Some i → gap a s ≤ 0 →
  pool_covers a s tx → gap a s' = gap a s.
Proof.
  intros H Hok Hs Hi Hg Hcov.
  destruct H; simpl in Hok; unfold in_u128, in_u32 in Hok.
  - rewrite gap_credited by (apply (room_moved a s i); auto with lia). rewrite gap_debited. lia.
  - destruct (Z.ltb_spec 0 amount) as [Hp|]; [|done]. destruct (H1 Hp) as [_ Hb].
    rewrite gap_credited by (apply (room_moved a s i); auto with lia).
    etrans; [apply Z.add_cancel_r, (gap_same a (debited sender asset amount s)); done|].
    rewrite gap_debited. lia.
  - by case_bool_decide.
  - destruct H0 as [_ _ _ _ Hb].
    rewrite gap_credited by (apply (room_moved a s i); auto with lia). rewrite gap_debited.
    change (gap a (set_mandates t' s)) with (gap a s). lia.
  - done.
  - destruct H7 as [_ _ _ _ Hb].
    rewrite (gap_channel a id _ (debited funder asset deposit (set_mandates t' s))), gap_debited.
    change (gap a (set_mandates t' s)) with (gap a s).
    change (st_channels (debited _ _ _ _)) with (st_channels s). rewrite H. simpl.
    change (escrow_of a _) with (if_eq asset a deposit). lia.
  - pose proof (inv_channels s Hs _ _ H) as Hc.
    destruct (settled_channel_ok c step Hc H0 H1) as [Hp _]. rewrite <-H4 in Hp.
    pose proof (escrow_nonneg c Hc).
    rewrite gap_credited by (intros Ha; rewrite Ha; apply (room_escrow a s i Hs Hi Hg id c); [done|lia|done]).
    rewrite gap_channel, H. simpl. unfold escrow_of. simpl. rewrite wrapping_small by lia.
    unfold if_eq. case_bool_decide; lia.
  - pose proof (escrow_nonneg c (inv_channels s Hs _ _ H)).
    rewrite gap_credited by (intros Ha; rewrite Ha; apply (room_escrow a s i Hs Hi Hg id c); [done|lia|done]).
    rewrite gap_channel, H. simpl. unfold escrow_of, if_eq. simpl. case_bool_decide; lia.
  - destruct (pool_part_target a s asset key Hs H2) as [P1 P2].
    rewrite gap_pool, gap_debited, P2.
    change (pool_ref (debited sender asset value s) key) with (pool_ref s key). rewrite P1.
    pose proof (target_total_le s asset key Hs H2) as Hle. unfold if_eq in *.
    case_bool_decide as Ha; [subst asset|lia].
    pose proof (parts_bound a s i Hs Hi Hg). pose proof (balance_le a sender s Hs).
    rewrite sat_add_small by lia. lia.
  - eapply spend_gap; try eassumption. lia.
  - rewrite gap_assets, H2. unfold net. simpl. unfold if_eq. case_bool_decide; lia.
  - pose proof (inv_assets s Hs _ _ H0) as [Hsup _]. unfold in_u128 in Hsup.
    rewrite gap_credited.
    2: { intros ->. pose proof (backed_room a s i Hs Hi Hg) as Hr. pose proof (balance_le a to s Hs).
         pose proof (parts_bound a s i Hs Hi Hg). rewrite Hi in H0. injection H0 as ->.
         pose proof (inv_assets s Hs _ _ Hi) as [_ [? _]]. pose proof (inv_fees s Hs) as [[? _] _].
         change (balance (set_assets _ s) to a) with (balance s to a). case_bool_decide; lia. }
    rewrite gap_assets, H0. unfold net. simpl. rewrite wrapping_small by lia.
    unfold if_eq. case_bool_decide; lia.
  - rewrite (gap_assets a asset _ (debited sender asset amount s)), gap_debited.
    change (st_assets (debited sender asset amount s)) with (st_assets s). rewrite H1.
    unfold net, if_eq. simpl. case_bool_decide as Ha; [subst asset|lia].
    rewrite Hi in H1. injection H1 as ->. pose proof (backed_room a s info Hs Hi Hg) as Hr.
    pose proof (balance_le a sender s Hs). pose proof (parts_bound a s info Hs Hi Hg).
    pose proof (inv_fees s Hs) as [[? _] _].
    rewrite sat_add_small by (case_bool_decide; lia). lia.
  - rewrite gap_assets, H. unfold net, if_eq. simpl. case_bool_decide; lia.
  - rewrite gap_assets, H. unfold net, if_eq. simpl. case_bool_decide; lia.
Qed.

(** ** The envelope *)
Lemma gap_charged a s id :
  gap a (charged id s) = gap a s - (if 0 <? fee_due s then if_eq (st_fee_asset s) a (fee_due s) else 0).
Proof. unfold charged. case_match; [apply gap_debited|lia]. Qed.
Lemma gap_burned a s fee :
  st_fees_burned s + fee ≤ u128_max ∨ st_fee_asset s ≠ a →
  gap a (burned fee s) = gap a s + (if 0 <? fee then if_eq (st_fee_asset s) a fee else 0).
Proof.
  intros H. unfold burned. destruct (0 <? fee); [|lia].
  unfold gap, issued, held, in_balances, in_escrow, in_pools, if_eq. simpl.
  repeat case_bool_decide; subst; try congruence; try lia.
  all: rewrite sat_add_small by (destruct H; [lia|done]); lia.
Qed.
Lemma accepts_fee_config s sender tx ev s' :
  accepts s sender tx ev s' → st_fee_asset s' = st_fee_asset s ∧ st_fees_burned s' = st_fees_burned s.
Proof. destruct 1; simpl; repeat case_match; by try destruct key. Qed.

Lemma pool_covers_charged a id s tx : pool_covers a s tx → pool_covers a (charged id s) tx.
Proof. unfold charged. by destruct (0 <? fee_due s). Qed.
Lemma applied_gap stx s s2 acc ev a i :
  inv s → tx_ok (stx_payload stx) → st_assets s !! a = Some i → gap a s ≤ 0 →
  pool_covers a s (stx_payload stx) →
  (0 < fee_due s → fee_due s ≤ balance s (stx_sender stx) (st_fee_asset s)) →
  accepts (charged (stx_sender stx) s) (stx_sender stx) (stx_payload stx) ev s2 →
  gap a (ratcheted stx acc (burned (fee_due s) s2)) = gap a s.
Proof.
  intros Hs Hok Hi Hg Hcov Hf Hacc. pose proof (fee_due_nonneg s Hs) as Hfee.
  pose proof (if_eq_bounds (st_fee_asset s) a (fee_due s) Hfee).
  pose proof (gap_charged a s (stx_sender stx)) as Hch.
  assert (st_fees_burned (charged (stx_sender stx) s) = st_fees_burned s ∧
    st_fee_asset (charged (stx_sender stx) s) = st_fee_asset s ∧
    st_assets (charged (stx_sender stx) s) = st_assets s) as (C1 & C2 & C3)
    by (unfold charged; by case_match).
  destruct (accepts_fee_config _ _ _ _ _ Hacc) as [F1 F2]. rewrite C2 in F1. rewrite C1 in F2.
  change (gap a (burned (fee_due s) s2) = gap a s). rewrite gap_burned; rewrite ?F1, ?F2.
  - eapply (accepts_gap a) in Hacc as ->; [lia|done|by apply inv_charged|by rewrite C3| |
      by apply pool_covers_charged]. case_match; lia.
  - destruct (decide (st_fee_asset s = a)) as [Ha|]; [left|by right]. subst a.
    destruct (Z.lt_total 0 (fee_due s)) as [Hp|Hz].
    + pose proof (backed_room _ s i Hs Hi Hg) as Hr. rewrite bool_decide_eq_true_2 in Hr by done.
      pose proof (balance_le (st_fee_asset s) (stx_sender stx) s Hs). specialize (Hf Hp).
      pose proof (parts_bound _ s i Hs Hi Hg). pose proof (inv_assets s Hs _ _ Hi) as [_ [? _]]. lia.
    + pose proof (inv_fees s Hs) as [[_ ?] _]. lia.
Qed.

(** C7: value is conserved.  Take a registered asset of which the ledger holds (in
    balances, open escrow and pools) no more than was issued (supply minus
    burned, minus burned fees for the fee asset).  Every accepted transaction
    keeps the difference exactly: transfers, draws, channels, shields, issuer
    mints and burns and the fee create nothing and lose nothing, and no
    saturation ever bites.  The one condition is on an unshield, whose pool
    must hold what leaves it: the chain takes that from the proof. *)
Theorem value_conserved stx pre s s' ev a i :
  inv s → stx_ok stx → st_assets s !! a = Some i → gap a s ≤ 0 →
  pool_covers a s (stx_payload stx) → apply_tx_at stx pre s = (s', Ok ev) →
  gap a s' = gap a s.
Proof.
  intros Hs [Hok _] Hi Hg Hcov H. apply apply_tx_ok in H as [_ Hf (s2 & acc & Hacc & _ & ->)].
  by eapply applied_gap.
Qed.

(** ** Chains *)

(** An asset no pool holds or may hold. *)
Definition unpooled (a : AssetId) (s : State) : Prop :=
  (∃ i, st_assets s !! a = Some i ∧ pool_eligible (ai_policy i) = false) ∧
  pool_asset (st_pool s) ≠ Some a ∧ st_pools s !! a = None.
Lemma unpooled_covers a s tx : unpooled a s → pool_covers a s tx.
Proof.
  intros (_ & H1 & H2). destruct tx; simpl; try done. intros [|b] p _ Hp Ha; simpl in *; congruence.
Qed.
Lemma accepts_unpooled a s sender tx ev s' :
  accepts s sender tx ev s' → unpooled a s → unpooled a s'.
Proof.
  intros H ((i & Hi & He) & H1 & H2).
  destruct H; try (split_and!; simpl; repeat case_match; eauto; done).
  - (* shield *)
    assert (asset ≠ a) as Hne.
    { intros ->. match goal with H : _ ∨ _ → pool_eligible_asset _ _ = true |- _ => rename H into Hel end.
      unfold pool_eligible_asset in Hel. rewrite Hi in Hel.
      rewrite Hel in He; [done|]. left. by eexists. }
    match goal with H : pool_key_of_asset _ _ = _ |- _ => rename H into Hk end.
    unfold pool_key_of_asset in Hk. destruct key as [|b].
    + split_and!; [simpl; eauto| |done]. simpl. destruct (pool_asset (st_pool s)) eqn:Hp; simpl; congruence.
    + assert (b = asset) as -> by (destruct (pool_asset (st_pool s)); repeat case_match; congruence).
      split_and!; simpl; [eauto|done|]. by rewrite lookup_insert_ne.
  - cbv zeta. assert (unpooled a (put_pool key (spent_pool nullifier fee t2 p) (set_mandates m' s))) as Hu.
    { destruct key as [|b]; simpl in *; simplify_eq.
      - split_and!; simpl; eauto.
      - split_and!; simpl; eauto. rewrite lookup_insert_ne; [done|congruence]. }
    repeat case_match; exact Hu.
  - split_and!; [|done..]. exists i. simpl. rewrite lookup_insert_ne; [done|congruence].
  - split_and!; [|done..]. simpl. destruct (decide (asset = a)) as [->|].
    + rewrite lookup_insert_eq. eexists. split; [done|]. simpl. congruence.
    + rewrite lookup_insert_ne by done. eauto.
  - split_and!; [|done..]. simpl. destruct (decide (asset = a)) as [->|].
    + rewrite lookup_insert_eq. eexists. split; [done|]. simpl. congruence.
    + rewrite lookup_insert_ne by done. eauto.
  - split_and!; [|done..]. simpl. destruct (decide (asset = a)) as [->|].
    + rewrite lookup_insert_eq. eexists. split; [done|]. simpl. congruence.
    + rewrite lookup_insert_ne by done. eauto.
  - split_and!; [|done..]. simpl. destruct (decide (asset = a)) as [->|].
    + rewrite lookup_insert_eq. eexists. split; [done|]. simpl. congruence.
    + rewrite lookup_insert_ne by done. eauto.
Qed.

Lemma gap_seal_pool a s p :
  pool_asset p = pool_asset (st_pool s) → pool_total_shielded p = pool_total_shielded (st_pool s) →
  gap a (set_pool p s) = gap a s.
Proof.
  intros E1 E2. change (set_pool p s) with (put_pool Legacy p s). rewrite gap_pool. simpl.
  rewrite E1, E2. lia.
Qed.
Lemma gap_seal_pools a b s p q :
  st_pools s !! b = Some q → pool_total_shielded p = pool_total_shielded q →
  gap a (set_pools (<[b := p]> (st_pools s)) s) = gap a s.
Proof.
  intros E1 E2. change (set_pools _ s) with (put_pool (Asset b) p s). rewrite gap_pool.
  simpl. rewrite E1. simpl. rewrite E2. lia.
Qed.
Definition stays_backed (a : AssetId) (s s' : State) : Prop :=
  unpooled a s → gap a s ≤ 0 → unpooled a s' ∧ gap a s' = gap a s.
#[local] Instance stays_backed_preorder a : PreOrder (stays_backed a).
Proof.
  split; [intros s H1 H2; done|]. intros s1 s2 s3 H1 H2 Hu Hg.
  destruct (H1 Hu Hg) as [Hu2 Hg2]. destruct (H2 Hu2) as [Hu3 Hg3]; [lia|]. split; [done|lia].
Qed.
Lemma stays_backed_frame a : frame_closed (stays_backed a).
Proof.
  split_and!.
  - intros s h t _ _ _ Hu Hg. split; [exact Hu|done].
  - intros s p _ _ Ha Ht _ (Hi & H1 & H2) Hg. split; [|by apply gap_seal_pool].
    split_and!; simpl; [done|congruence|done].
  - intros s b q p Hq _ _ Ha Ht _ (Hi & H1 & H2) Hg. split; [|by eapply gap_seal_pools].
    split_and!; simpl; [done|done|]. rewrite lookup_insert_ne; [done|congruence].
  - intros s c Hu Hg. split; [exact Hu|done].
Qed.

(** A pool-free asset is conserved for ever.  An asset whose policy keeps it
    out of the shielded pools, and that is in none, keeps exactly the same
    difference between what is held and what was issued over every chain of
    blocks, whatever proofs the blocks carry. *)
Theorem unpooled_asset_conserved n s s' a :
  inv s → unpooled a s → gap a s ≤ 0 → reach n s s' → gap a s' = gap a s.
Proof.
  intros Hs Hu Hg Hr. cut (stays_backed a s s'); [intros H; by apply H|].
  apply (reach_rel_const (stays_backed a) n); [apply stays_backed_frame| |done..].
  intros stx pre s1 s2 ev [Hok _] Hs1 [_ Hf (s3 & acc & Hacc & _ & ->)] Hu1 Hg1.
  pose proof Hu1 as ((i & Hi & _) & _).
  split; [|eapply applied_gap; eauto using unpooled_covers].
  assert (unpooled a s3) as Hu3.
  { eapply accepts_unpooled; [done|]. unfold charged. by case_match. }
  unfold burned. by case_match.
Qed.
End held.

(** ** The view the node reports *)
Section view.
Context {A : Type}.
Definition lsum (g : A → Z) (l : list A) : Z := foldr (λ e acc, g e + acc) 0 l.
Lemma lsum_perm g l l' : l ≡ₚ l' → lsum g l = lsum g l'.
Proof. induction 1; simpl; lia. Qed.
Lemma lsum_nonneg g l : (∀ x, x ∈ l → 0 ≤ g x) → 0 ≤ lsum g l.
Proof.
  induction l as [|x l IH]; intros H; simpl; [lia|].
  pose proof (H x ltac:(by left)). enough (0 ≤ lsum g l) by lia. apply IH. intros y Hy. apply H. by right.
Qed.
(** A saturating accumulation that fits is the sum. *)
Lemma foldl_sat (f : A → bool) (w : A → Z) l acc :
  (∀ x, x ∈ l → 0 ≤ w x) → acc + lsum (λ x, if f x then w x else 0) l ≤ u128_max →
  foldl (λ h e, if f e then sat_add u128_max h (w e) else h) acc l =
  acc + lsum (λ x, if f x then w x else 0) l.
Proof.
  revert acc. induction l as [|x l IH]; intros acc Hw Hle; simpl in *; [lia|].
  assert (0 ≤ lsum (λ x, if f x then w x else 0) l).
  { apply lsum_nonneg. intros y Hy. pose proof (Hw y ltac:(by right)). by destruct (f y). }
  pose proof (Hw x ltac:(by left)). rewrite IH; [|intros y Hy; apply Hw; by right|].
  - destruct (f x); [rewrite sat_add_small by lia|]; lia.
  - destruct (f x); [rewrite sat_add_small by lia|]; lia.
Qed.
End view.
Lemma msum_btree {K V} `{Countable K, Ordered K} (f : K → V → Z) (m : gmap K V) :
  msum f m = lsum (λ e, f e.1 e.2) (btree_iter m).
Proof.
  rewrite msum_list. unfold lsum. symmetry. apply (lsum_perm (λ e, f e.1 e.2)), btree_iter_perm.
Qed.

Section report.
Context {SHAKE : Shake} {SHA2 : Sha2} {CODECS : Codecs}.

(** The conservation report is exact.  For a registered, backed asset
    the pair the node reports is the true amount held and the true amount
    issued: none of the saturating operations of the view loses anything. *)
Theorem asset_conservation_exact s a i :
  inv s → st_assets s !! a = Some i → gap a s ≤ 0 →
  asset_conservation s a = Some (held a s, issued a s).
Proof.
  intros Hs Hi Hg. pose proof (parts_bound a s i Hs Hi Hg) as (B1 & B2 & B3 & B4).
  pose proof (backed_room a s i Hs Hi Hg) as Hr. pose proof (inv_assets s Hs _ _ Hi) as [[? ?] [? ?]].
  pose proof (inv_pool s Hs) as [_ [? _]]. pose proof (pools_total_nonneg a s Hs).
  pose proof (inv_fees s Hs) as [[? _] _].
  unfold asset_conservation. rewrite Hi. cbn [mbind option_bind]. cbv zeta.
  assert (in_balances a s = lsum (λ e, if bool_decide (e.1.2 = a) then e.2 else 0) (btree_iter (st_balances s)))
    as Hb by exact (msum_btree (λ k v, if bool_decide (k.2 = a) then v else 0) _).
  assert (in_escrow a s = lsum (λ e, if bool_decide (cs_asset (chan_state e.2) = a)
    then chan_escrow_remaining e.2 else 0) (btree_iter (st_channels s))) as He
    by exact (msum_btree (λ _ c, if bool_decide (cs_asset (chan_state c) = a)
                                 then chan_escrow_remaining c else 0) _).
  rewrite (foldl_sat (λ e, bool_decide (e.1.2 = a)) snd).
  2: { intros [k v] Hv%elem_of_btree_iter. by apply (inv_balances s Hs _ _ Hv). }
  2: { rewrite <-Hb. lia. }
  rewrite (foldl_sat (λ e, bool_decide (cs_asset (chan_state e.2) = a)) (λ e, chan_escrow_remaining e.2)).
  2: { intros [k c] Hc%elem_of_btree_iter. by apply escrow_nonneg, (inv_channels s Hs _ _ Hc). }
  2: { rewrite <-Hb, <-He. lia. }
  simpl snd. rewrite <-Hb, <-He. unfold held, in_pools in *. unfold issued. rewrite Hi. simpl.
  f_equal. f_equal.
  - unfold sat_add. destruct (bool_decide (pool_asset (st_pool s) = Some a)), (st_pools s !! a); simpl in *; lia.
  - unfold sat_sub. destruct (bool_decide (a = st_fee_asset s)); lia.
Qed.
End report.

(** ** Genesis *)
Section genesis.
Context {SHAKE : Shake} {SHA2 : Sha2} {CODECS : Codecs}.

Definition alloc_total (a : AssetId) (l : list (AccountId * AssetId * Amount)) : Z :=
  lsum (λ e, if_eq e.1.2 a e.2) l.

(** A loop whose steps carry an assertion about the items left. *)
Lemma for_each_rest {A} (f : A → St unit) (P : list A → State → Prop) l s s' u :
  (∀ x l s s' u, P (x :: l) s → f x s = (s', Ok u) → P l s') →
  P l s → for_eachM f l s = (s', Ok u) → P [] s'.
Proof.
  intros Hf. revert s. induction l as [|x l IH]; intros s HP H; cbn [for_eachM] in H; mrun; [done|].
  eapply IH; [|done]. by eapply Hf.
Qed.
(** Before the allocations nothing is held and nothing issued. *)
Definition blank (a : AssetId) (s : State) : Prop :=
  st_balances s = ∅ ∧ st_channels s = ∅ ∧ pool_asset (st_pool s) = None ∧ st_pools s = ∅ ∧
  st_fees_burned s = 0 ∧
  ∀ i, st_assets s !! a = Some i → ai_supply i = 0 ∧ ai_burned i = 0.
(** During them the supply counter follows the balances. *)
Definition allocating (a : AssetId) (l : list (AccountId * AssetId * Amount)) (s : State) : Prop :=
  Forall (λ e, in_u128 e.2) l ∧ balances_ok s ∧
  st_channels s = ∅ ∧ pool_asset (st_pool s) = None ∧ st_pools s = ∅ ∧ st_fees_burned s = 0 ∧
  in_balances a s + alloc_total a l ≤ u128_max ∧ 0 ≤ in_balances a s ∧
  ∀ i, st_assets s !! a = Some i → ai_supply i = in_balances a s ∧ ai_burned i = 0.
Lemma allocating_step a e l s s' u :
  allocating a (e :: l) s → genesis_alloc e s = (s', Ok u) → allocating a l s'.
Proof.
  destruct e as [[id asset] amount]. intros (Hl & Hb & E1 & E2 & E3 & E4 & Hsum & H0 & Hi) H.
  apply Forall_cons in Hl as [[Ha _] Hl]. simpl in Ha.
  change (alloc_total a ((id, asset, amount) :: l)) with (if_eq asset a amount + alloc_total a l) in Hsum.
  assert (0 ≤ alloc_total a l) as Hrest.
  { apply lsum_nonneg. intros [[x y] v] Hx. rewrite Forall_forall in Hl. destruct (Hl _ Hx) as [? _].
    by apply if_eq_bounds. }
  assert (asset = a → balance s id asset + amount ≤ u128_max) as Hroom.
  { intros ->. rewrite if_eq_same in Hsum. pose proof (balance_in a id s Hb). lia. }
  unfold genesis_alloc in H. srun. set (s1 := credited id asset amount s) in *.
  assert (in_balances a s1 = in_balances a s + if_eq asset a amount) as Hs1 by by apply in_balances_credited.
  pose proof (if_eq_bounds asset a amount Ha).
  assert (balances_ok s1) as Hb1 by by apply balances_ok_credited.
  destruct (st_assets s1 !! asset) as [info|] eqn:Hinfo; srun.
  - split_and!; try done; [unfold in_balances in *; simpl in *; lia|unfold in_balances in *; simpl in *; lia|].
    intros i. simpl. destruct (decide (asset = a)) as [->|Hne].
    + rewrite lookup_insert_eq. intros [= <-]. simpl. destruct (Hi _ Hinfo) as [-> ->].
      rewrite if_eq_same in *. split; [|done]. rewrite sat_add_small by lia.
      change (in_balances a s + amount = in_balances a s1). lia.
    + rewrite lookup_insert_ne by done. intros Hai. destruct (Hi _ Hai) as [-> ->].
      unfold if_eq in Hs1. rewrite bool_decide_eq_false_2 in Hs1 by done.
      change (in_balances a s = in_balances a s1 ∧ 0 = 0). lia.
  - split_and!; try done; [lia|lia|]. intros i Hai. destruct (decide (asset = a)) as [->|Hne]; [congruence|].
    destruct (Hi _ Hai) as [-> ->]. unfold if_eq in Hs1. rewrite bool_decide_eq_false_2 in Hs1 by done. lia.
Qed.

(** Genesis is backed.  When the allocations of a registered asset fit the
    128-bit supply, the state built from genesis holds exactly what it says was
    issued. *)
Theorem genesis_is_backed g s a i :
  genesis_ok g → from_genesis g = Ok s → st_assets s !! a = Some i →
  alloc_total a (g_alloc g) ≤ u128_max → gap a s = 0.
Proof.
  intros (_ & Halloc & _) H Hi Hsum. unfold from_genesis in H.
  destruct (genesis_steps g _) as [s' [u|e|]] eqn:E; simplify_eq. unfold genesis_steps in E. srun.
  match goal with H : for_eachM genesis_account _ ?x = (?y, _) |- _ =>
    assert (blank a y) as B1 end.
  { eapply (for_each_rest genesis_account (λ _, blank a)); last eassumption; [|by split_and!].
    intros ga l y y' v Hy Hga. unfold genesis_account in Hga. by srun. }
  match goal with H : for_eachM genesis_asset _ _ = (?y, _) |- _ => assert (blank a y) as B2 end.
  { eapply (for_each_rest genesis_asset (λ _, blank a)); last eassumption; [|exact B1].
    intros ga l y y' v (? & ? & ? & ? & ? & Hb) Hga. unfold genesis_asset in Hga. srun.
    split_and!; [done..|]. intros j. simpl. destruct (decide (gas_id ga = a)) as [->|].
    - rewrite lookup_insert_eq. by intros [= <-].
    - rewrite lookup_insert_ne by done. apply Hb. }
  match goal with H : for_eachM genesis_alloc _ _ = (?y, _) |- _ => assert (allocating a [] y) as B3 end.
  { eapply (for_each_rest genesis_alloc (allocating a)); last eassumption; [intros; by eapply allocating_step|].
    destruct B2 as (E1 & ? & ? & ? & ? & Hb). split_and!; try done.
    - unfold balances_ok. rewrite E1. apply map_Forall_empty.
    - unfold in_balances. rewrite E1, msum_empty. lia.
    - unfold in_balances. by rewrite E1, msum_empty.
    - unfold in_balances. rewrite E1, msum_empty. done. }
  destruct B3 as (_ & _ & E1 & E2 & E3 & E4 & _ & _ & Hb).
  match goal with H : on_pool Legacy _ _ ?x = _ |- _ => rename H into Hseal, x into s4 end.
  apply zoom_inv in Hseal as (p & r & Hseal & -> & _).
  apply seal_anchor_frame in Hseal as (_ & _ & F1 & F2 & _).
  change (put_pool Legacy p s4) with (set_pool p s4) in *. rewrite gap_seal_pool by done.
  match goal with H : (match g_fee g with _ => _ end) ?x = (s4, _) |- _ => rename H into Hfee, x into s3 end.
  assert (st_balances s4 = st_balances s3 ∧ st_channels s4 = st_channels s3 ∧ st_pool s4 = st_pool s3 ∧
    st_pools s4 = st_pools s3 ∧ st_fees_burned s4 = st_fees_burned s3 ∧ st_assets s4 = st_assets s3)
    as (G1 & G2 & G3 & G4 & G5 & G6).
  { destruct (g_fee g) as [f|]; [|by srun]. unfold genesis_fee in Hfee. srun. by destruct (gf_asset f); srun. }
  simpl in Hi. rewrite G6 in Hi. destruct (Hb _ Hi) as [Hsup Hbur].
  unfold gap, held, issued, in_escrow, in_pools. rewrite G2, G3, G4, G5, G6, E1, E2, E3, E4, Hi, msum_empty.
  simpl. rewrite Hsup, Hbur. unfold in_balances. rewrite G1.
  rewrite lookup_empty. simpl. repeat case_bool_decide; simplify_eq; lia.
Qed.
End genesis.

(** * Witnesses *)

#[local] Existing Instances toy_shake toy_sha2 toy_codecs.

Lemma gap_demo_asset : gap usd (demo_asset usd_info) = 0.
Proof. vm_compute. reflexivity. Qed.
Lemma inv_demo_usd : inv (demo_asset usd_info).
Proof. exact (inv_demo_asset usd_info usd_counters usd_no_burn). Qed.
Lemma demo_usd_backed : gap usd (demo_asset usd_info) ≤ 0.
Proof. rewrite gap_demo_asset. done. Qed.
Lemma unpooled_demo : unpooled usd (demo_asset usd_info).
Proof. split; [|split; done]. exists usd_info. split; [apply usd_demo_asset|reflexivity]. Qed.

Lemma value_conserved_witness :
  ∃ s' ev, apply_tx_at (alice_sends 0 (Tx.Transfer bob usd 10)) (Some true) (demo_asset usd_info) = (s', Ok ev) ∧
    gap usd s' = gap usd (demo_asset usd_info).
Proof.
  pose proof (demo_applied 0 (demo_asset usd_info) _ (Tx.Transfer bob usd 10) _ account_demo eq_refl
    (acc_transfer (demo_asset usd_info) alice bob usd 10 ltac:(lia) ltac:(vm_compute; reflexivity)
       ltac:(change (10 ≤ balance demo alice usd); rewrite balance_demo; lia)) account_demo) as H.
  eexists _, _. split; [exact H|].
  apply (value_conserved (alice_sends 0 (Tx.Transfer bob usd 10)) (Some true) _ _ _ usd usd_info inv_demo_usd
    (stx_ok_sends 0 (Tx.Transfer bob usd 10) ltac:(ulia) ltac:(simpl; ulia)) (usd_demo_asset _) demo_usd_backed
    I H).
Defined.

Lemma unpooled_asset_conserved_witness : gap usd (demo_asset usd_info) = gap usd (demo_asset usd_info).
Proof.
  exact (unpooled_asset_conserved 0 _ _ usd inv_demo_usd unpooled_demo demo_usd_backed (reach_here _)).
Defined.

Lemma asset_conservation_exact_witness :
  asset_conservation (demo_asset usd_info) usd =
  Some (held usd (demo_asset usd_info), issued usd (demo_asset usd_info)).
Proof. exact (asset_conservation_exact _ usd usd_info inv_demo_usd (usd_demo_asset _) demo_usd_backed). Defined.

Definition usd_genesis : Genesis :=
  mkGenesis 0 [] [(alice, usd, 60); (bob, usd, 40)] None
    [mkGenesisAsset usd "USD" 2 alice (mkPolicy true false false false)].
Lemma usd_genesis_ok :
  match from_genesis usd_genesis with
  | Ok s => bool_decide (is_Some (st_assets s !! usd)) | _ => false end = true.
Proof. vm_compute. reflexivity. Qed.
Lemma genesis_is_backed_witness :
  ∃ s i, from_genesis usd_genesis = Ok s ∧ st_assets s !! usd = Some i ∧ gap usd s = 0.
Proof.
  pose proof usd_genesis_ok as Hok. destruct (from_genesis usd_genesis) as [s|e|] eqn:H; [|done..].
  apply bool_decide_eq_true in Hok as [i Hi]. exists s, i. split; [done|]. split; [exact Hi|].
  apply (genesis_is_backed usd_genesis s usd i).
  - split_and!; simpl; [ulia|repeat constructor; simpl; ulia|done].
  - exact H.
  - exact Hi.
  - vm_compute. discriminate.
Defined.
