(* ===== verification/Budget.v ===== *)
(** Mandates as budgets: what a spend does to the chain of mandates above a leaf,
    how much can ever be drawn, revocation and attenuation over the life of the
    ledger. *)

From S2P Require Export Invariant.
From S2P Require Import Toy Demo.
#[local] Open Scope Z_scope.

Section tree_claims.
(** A spend is all or nothing along the chain.  It succeeds exactly when
    every mandate from the leaf to its root (at most 64 of them) is live, within
    its per-transaction cap and has accrued enough, and then each of them is
    accrued to now and debited by the amount, with no wrap-around, and no
    other is touched; otherwise nothing changes.  It never panics. *)
Theorem spend_all_or_nothing t leaf a now :
  tree_ok t → 0 ≤ a →
  (∃ chain, chain_of t leaf = Ok chain ∧
     Forall (λ id, ∃ n, t !! id = Some n ∧ node_allows n a now) chain ∧
     spend leaf a now t = (charge_all chain a now t, Ok tt)) ∨
  (∃ e, spend leaf a now t = (t, Err e) ∧
     ∀ chain, chain_of t leaf = Ok chain →
       ¬ Forall (λ id, ∃ n, t !! id = Some n ∧ node_allows n a now) chain).
Proof.
  intros Ht Ha. destruct (check t leaf a now) as [[]|e|] eqn:Hk.
  - left. pose proof Hk as Hk'. apply check_ok in Hk' as (chain & Hc & Hall).
    exists chain. split_and!; [done..|by apply spend_accepted].
  - right. exists e. split; [by apply spend_refused|]. intros chain Hc Hall.
    assert (check t leaf a now = Ok tt) by (apply check_ok; eauto). congruence.
  - by apply check_nopanic in Hk.
Qed.

(** The wallet's number is the chain's.  [available] is the largest amount
    the chain would accept right now: any amount up to it passes the check and
    any larger one fails; when it is an error, no amount at all passes. *)
Theorem available_is_exact t leaf now :
  match available t leaf now with
  | Ok v => ∀ a, a ≤ u128_max → (check t leaf a now = Ok tt ↔ a ≤ v)
  | Err _ => ∀ a, check t leaf a now ≠ Ok tt
  | Panic => False
  end.
Proof.
  unfold available. destruct (chain_of_total t leaf) as [[c Hc]|[Hc|Hc]]; rewrite Hc; simpl.
  2,3: intros a Hk; apply check_ok in Hk as (c & Hc' & _); congruence.
  assert (Forall (λ id, is_Some (t !! id)) c) as Hall.
  { apply Forall_forall. intros id Hid. apply chain_of_ancestry in Hc as [Hc _].
    by eapply ancestry_lookup. }
  pose proof (available_from_spec t 0 c now u128_max _ Hall eq_refl) as H.
  assert (∀ a, check t leaf a now = Ok tt ↔
    Forall (λ id, ∃ n, t !! id = Some n ∧ node_allows n a now) c) as Heq.
  { intros a. rewrite check_ok. split; [|eauto]. intros (c' & Hc' & ?).
    rewrite Hc in Hc'. by injection Hc' as <-. }
  destruct (available_from _ _ _ _ _) as [v|e|]; [|by intros a; rewrite Heq|done].
  intros a Ha. rewrite Heq. by apply H.
Qed.

(** A history of the tree: spends at times that never go back, interleaved with
    new mandates and revocations; [drawn] is what the spends drew on [id]. *)
Inductive history (id : MandateId) : Timestamp → MandateTree → Z → Timestamp → MandateTree → Prop :=
  | history_nil now t : history id now t 0 now t
  | history_spend now t drawn now1 t1 leaf a now2 t2 :
      history id now t drawn now1 t1 → now1 ≤ now2 → in_u64 now2 → in_u128 a →
      spend leaf a now2 t1 = (t2, Ok tt) →
      history id now t (drawn + drawn_on t1 leaf id a) now2 t2
  | history_insert now t drawn now1 t1 node t2 :
      history id now t drawn now1 t1 → t1 !! mn_id node = None → node_ok node →
      insert_node node t1 = (t2, Ok tt) → history id now t drawn now1 t2
  | history_revoke now t drawn now1 t1 target t2 :
      history id now t drawn now1 t1 → revoke target t1 = (t2, Ok tt) →
      history id now t drawn now1 t2.
Lemma projected_revoked n now b : projected (mn_set_revoked b n) now = projected n now.
Proof. done. Qed.
Lemma history_budget id now t drawn now' t' n :
  history id now t drawn now' t' → tree_ok t → t !! id = Some n → in_u64 now →
  tree_ok t' ∧ now ≤ now' ∧ in_u64 now' ∧ ∃ n', t' !! id = Some n' ∧
    mn_rate_per_sec n' = mn_rate_per_sec n ∧ mn_buffer_max n' = mn_buffer_max n ∧
    drawn + projected n' now' ≤ projected n now + mn_rate_per_sec n * (now' - now).
Proof.
  intros H Ht Hn Hnow. induction H as
    [now t|now t drawn now1 t1 leaf a now2 t2 _ IH Hle H2 [Ha _] Hs
    |now t drawn now1 t1 node t2 _ IH Hf Hok Hi|now t drawn now1 t1 target t2 _ IH Hr].
  - split_and!; [done|lia|done|]. exists n. split_and!; [done..|lia].
  - destruct (IH Ht Hn Hnow) as (Ht1 & ? & ? & n1 & Hn1 & Er & Em & Hb).
    split_and!; [by apply (spend_tree_ok _ _ _ _ _ _ Ht1 Ha H2 Hs)|lia|done|].
    destruct (spend_headroom _ _ _ _ _ _ _ _ Ht1 Ha Hs Hn1) as (n2 & Hn2 & Hst & Hp).
    apply static_fields in Hst as (_ & _ & _ & _ & Er2 & Em2 & _). exists n2.
    split_and!; [done|congruence|congruence|].
    pose proof (projected_later n1 now1 now2 (node_ok_lookup _ _ _ Ht1 Hn1) Hle) as Hl.
    rewrite Hp. rewrite Er in Hl. nia.
  - destruct (IH Ht Hn Hnow) as (Ht1 & ? & ? & n1 & Hn1 & Er & Em & Hb).
    apply insert_node_ok in Hi as [-> _]. split_and!; [|done|done|].
    + apply map_Forall_insert_2; [split; [done|exact Hok]|exact Ht1].
    + exists n1. rewrite lookup_insert_ne by congruence. done.
  - destruct (IH Ht Hn Hnow) as (Ht1 & ? & ? & n1 & Hn1 & Er & Em & Hb).
    rewrite revoke_spec in Hr. destruct (t1 !! target) as [m|] eqn:Hm; [|done]. injection Hr as <-.
    split_and!; [|done|done|].
    + apply map_Forall_insert_2; [|done]. by apply (Ht1 _ _ Hm).
    + destruct (decide (target = id)) as [->|Hne].
      * rewrite lookup_insert_eq. rewrite Hn1 in Hm. injection Hm as <-. by eexists.
      * rewrite lookup_insert_ne by done. by exists n1.
Qed.

(** C13: a mandate is a hard budget.  Whatever sequence of spends, by any
    descendants, with new mandates and revocations in between, the total drawn
    on a mandate between two times is at most what it had accrued at the first
    plus its drip rate times the elapsed time, hence at most its cap plus that. *)
Theorem mandate_budget_bound id now t drawn now' t' n :
  history id now t drawn now' t' → tree_ok t → in_u64 now → t !! id = Some n →
  drawn ≤ projected n now + mn_rate_per_sec n * (now' - now) ∧
  drawn ≤ mn_buffer_max n + mn_rate_per_sec n * (now' - now).
Proof.
  intros H Ht Hnow Hn.
  destruct (history_budget _ _ _ _ _ _ _ H Ht Hn Hnow) as (Ht' & _ & _ & n' & Hn' & _ & _ & Hb).
  pose proof (projected_bounds n' now' (node_ok_lookup _ _ _ Ht' Hn')).
  pose proof (projected_bounds n now (node_ok_lookup _ _ _ Ht Hn)). lia.
Qed.
End tree_claims.

Section ledger_claims.
Context {SHAKE : Shake} {SHA2 : Sha2} {CODECS : Codecs}.

Lemma accepts_mandates s sender tx ev s' :
  accepts s sender tx ev s' → tx_ok tx → inv s → evolves (st_mandates s) (st_mandates s').
Proof.
  intros H Hok Hs. destruct H; simpl in Hok; unfold in_u128, in_u32 in Hok; try done.
  - simpl. by destruct (0 <? amount).
  - subst t'. assert (evolves (st_mandates s) (<[id:=node]> (st_mandates s))) as He.
    { subst node. by apply (evolves_insert (new_node _ _ _ _ _ _ _ _ _ _ _)). }
    by case_bool_decide.
  - destruct H0 as [_ _ _ Hsp _]. simpl.
    eapply spend_evolves in Hsp as [? _]; [done|apply Hs|lia].
  - simpl. apply (evolves_revoke target _ _ (Ok tt)). by rewrite revoke_spec, H.
  - destruct H7 as [_ _ _ Hsp _]. simpl.
    eapply spend_evolves in Hsp as [? _]; [done|apply Hs|nia].
  - simpl. by destruct key.
  - assert (evolves (st_mandates s) m') as He.
    { destruct mandate as [m|]; [|by subst m'].
      destruct H6 as (_ & _ & Hsp & _). eapply spend_evolves in Hsp as [? _]; [done|apply Hs|lia]. }
    cbv zeta. repeat case_match; by destruct key.
Qed.
Definition mandates_evolve (s s' : State) : Prop := evolves (st_mandates s) (st_mandates s').
#[local] Instance mandates_evolve_preorder : PreOrder mandates_evolve.
Proof. split; [intros s; red; done|]. intros s1 s2 s3 H1 H2. red. by etrans. Qed.
Lemma applied_mandates stx pre s s' ev :
  stx_ok stx → inv s → applied stx pre s s' ev → mandates_evolve s s'.
Proof.
  intros [Hok _] Hs [_ Hf (s2 & acc & Hacc & _ & ->)].
  apply accepts_mandates in Hacc; [|done|by apply inv_charged].
  assert (st_mandates (charged (stx_sender stx) s) = st_mandates s) as E by (unfold charged; by case_match).
  rewrite E in Hacc. unfold mandates_evolve, burned. by case_match.
Qed.
Lemma reach_mandates n s s' : reach n s s' → inv s → evolves (st_mandates s) (st_mandates s').
Proof.
  intros Hr Hs. apply (reach_rel_const mandates_evolve n); [|apply applied_mandates|done..].
  split_and!; intros; red; done.
Qed.

(** The mandate a payload draws on, shielded spends included. *)
Definition mandate_used (tx : Tx) : option MandateId :=
  match tx with
  | Tx.MandateSpend leaf _ _ => Some leaf
  | Tx.ChannelOpen _ mandate _ _ _ _ _ _ => Some mandate
  | Tx.ShieldedSpend _ _ _ _ _ _ mandate _ _ _ => mandate
  | _ => None
  end.
Lemma accepts_draw_checked s sender tx ev s' leaf :
  accepts s sender tx ev s' → mandate_used tx = Some leaf →
  ∃ a, check (st_mandates s) leaf a (st_time s) = Ok tt.
Proof.
  intros H Hu. destruct H; simplify_eq/=.
  - destruct H0 as [_ _ _ Hsp _]. eexists. by eapply spend_check.
  - destruct H7 as [_ _ _ Hsp _]. eexists. by eapply spend_check.
  - destruct H6 as (_ & _ & Hsp & _). eexists. by eapply spend_check.
Qed.

(** Revocation is for ever and cascades.  Once a mandate is revoked, no
    transaction that draws on it or on any mandate below it (a spend, a channel
    opening, an unshield) is ever accepted again, whatever happens in between. *)
Theorem revocation_is_final n s s' leaf c anc node stx pre s2 ev :
  inv s → reach n s s' → ancestry (st_mandates s) leaf c → anc ∈ c →
  st_mandates s !! anc = Some node → mn_revoked node = true →
  mandate_used (stx_payload stx) = Some leaf →
  apply_tx_at stx pre s' ≠ (s2, Ok ev).
Proof.
  intros Hs Hr Hc Hin Hn Hrev Hu H. apply apply_tx_ok in H as [_ _ (s3 & acc & Hacc & _ & _)].
  destruct (accepts_draw_checked _ _ _ _ _ _ Hacc Hu) as [a Hk].
  assert (st_mandates (charged (stx_sender stx) s') = st_mandates s') as E by (unfold charged; by case_match).
  rewrite E in Hk. by eapply revoked_refuses in Hk; [|by eapply reach_mandates|..].
Qed.

(** The mandates of a ledger started with the single-asset rule active. *)
Record delegation_ok (s : State) : Prop := mkDelegation {
  dl_links : links_ok (st_mandate_asset_from s =? 0) (st_mandates s);
  dl_grounded : grounded (st_mandates s);
  dl_funded : map_Forall (λ id n, mn_parent n = None → is_Some (st_root_funding s !! id)) (st_mandates s);
  dl_height : 0 ≤ st_height s;
}.
Definition keeps_delegation (s s' : State) : Prop := delegation_ok s → delegation_ok s'.
#[local] Instance keeps_delegation_preorder : PreOrder keeps_delegation.
Proof. split; [intros s H; exact H|]. intros s1 s2 s3 H1 H2 H. auto. Qed.
Lemma delegation_same s s' :
  st_mandates s' = st_mandates s → st_root_funding s' = st_root_funding s →
  st_mandate_asset_from s' = st_mandate_asset_from s → 0 ≤ st_height s' → keeps_delegation s s'.
Proof. intros E1 E2 E3 Hh [? ? ? ?]. by constructor; rewrite ?E1, ?E2, ?E3. Qed.
(** A change of buffers and revocation flags only. *)
Lemma delegation_static s s' :
  (∀ id, static <$> st_mandates s !! id = static <$> st_mandates s' !! id) →
  evolves (st_mandates s) (st_mandates s') → st_root_funding s' = st_root_funding s →
  st_mandate_asset_from s' = st_mandate_asset_from s → 0 ≤ st_height s' → keeps_delegation s s'.
Proof.
  intros Hst He E2 E3 Hh [L G F _]. constructor; [|..|done].
  - rewrite E3. by eapply links_ok_static.
  - eapply grounded_evolves; [done| |done]. intros id [n Hn]. specialize (Hst id). rewrite Hn in Hst.
    destruct (st_mandates s !! id); [by eexists|done].
  - intros id n Hn Hp. rewrite E2. specialize (Hst id). rewrite Hn in Hst.
    destruct (st_mandates s !! id) as [m|] eqn:Hm; [|done]. apply (inj Some) in Hst.
    apply (F _ _ Hm). apply static_fields in Hst as (_ & Hpar & _). congruence.
Qed.
Lemma delegation_spend s s' leaf a t' :
  inv s → 0 ≤ a → Mandate.spend leaf a (st_time s) (st_mandates s) = (t', Ok tt) →
  st_mandates s' = t' → st_root_funding s' = st_root_funding s →
  st_mandate_asset_from s' = st_mandate_asset_from s → st_height s' = st_height s →
  keeps_delegation s s'.
Proof.
  intros Hs Ha Hsp E1 E2 E3 E4 Hd. eapply spend_evolves in Hsp as [He Hst]; [|apply Hs|done].
  apply (delegation_static s); try done; rewrite ?E1, ?E4; [done|done|apply Hd].
Qed.
Lemma delegation_create s sender node :
  st_mandates s !! mn_id node = None →
  (∀ p, mn_parent node = Some p → ∃ q, st_mandates s !! p = Some q ∧ attenuated node q ∧
     ((st_mandate_asset_from s =? 0) = true → mn_asset node = mn_asset q)) →
  keeps_delegation s
    (if bool_decide (mn_parent node = None)
     then set_root_funding (<[mn_id node := sender]> (st_root_funding s))
            (set_mandates (<[mn_id node := node]> (st_mandates s)) s)
     else set_mandates (<[mn_id node := node]> (st_mandates s)) s).
Proof.
  intros Hf Hpar [L G F Hh].
  assert (links_ok (st_mandate_asset_from s =? 0) (<[mn_id node := node]> (st_mandates s)))
    by by apply links_ok_insert.
  assert (grounded (<[mn_id node := node]> (st_mandates s))).
  { apply grounded_insert; [done| |done]. intros p Hp. destruct (Hpar p Hp) as (q & Hq & _). by eexists. }
  case_bool_decide as Hp; constructor; simpl; try done.
  - intros id n. destruct (decide (id = mn_id node)) as [->|Hne].
    + intros _ _. rewrite lookup_insert_eq. by eexists.
    + rewrite !lookup_insert_ne by done. apply F.
  - intros id n. destruct (decide (id = mn_id node)) as [->|Hne].
    + rewrite lookup_insert_eq. by intros [= <-].
    + rewrite lookup_insert_ne by done. apply F.
Qed.
Lemma accepts_delegation s sender tx ev s' :
  accepts s sender tx ev s' → tx_ok tx → inv s → keeps_delegation s s'.
Proof.
  intros H Hok Hs Hd. pose proof (dl_height s Hd) as Hh. revert Hd. change (keeps_delegation s s').
  destruct H; simpl in Hok; unfold in_u128, in_u32 in Hok;
    try (apply delegation_same; simpl; repeat case_match; by try destruct key).
  - subst t'. assert (mn_id node = id ∧ mn_parent node = parent) as [Hid Hpn] by by subst node.
    rewrite <-Hid, <-Hpn. apply delegation_create; [by rewrite Hid|].
    rewrite Hpn. intros p Hp. destruct (H1 p Hp) as (_ & q & Hq & Ha & Hb).
    exists q. split_and!; [done..|]. intros Hz%Z.eqb_eq. symmetry. subst node. apply Hb.
    unfold asset_bound. rewrite Hz. by apply Z.leb_le.
  - destruct H0 as [_ _ _ Hsp _]. eapply delegation_spend; [done| |exact Hsp|done..]. lia.
  - apply (delegation_static s); simpl; try done.
    + intros x. destruct (decide (x = target)) as [->|]; [|by rewrite lookup_insert_ne].
      by rewrite lookup_insert_eq, H.
    + apply (evolves_revoke target _ _ (Ok tt)). by rewrite revoke_spec, H.
  - destruct H7 as [_ _ _ Hsp _]. eapply delegation_spend; [done| |exact Hsp|done..]. nia.
  - cbv zeta. destruct mandate as [m|].
    + destruct H6 as (_ & _ & Hsp & _).
      eapply delegation_spend; [done| |exact Hsp|..]; [lia|repeat case_match; by destruct key..].
    + subst m'. apply delegation_same; repeat case_match; by destruct key.
Qed.
Lemma reach_delegation n s s' : reach n s s' → inv s → keeps_delegation s s'.
Proof.
  intros Hr Hs. apply (reach_rel_const keeps_delegation n); [| |done..].
  - split_and!; intros; intros Hd; pose proof (dl_height _ Hd); destruct Hd; constructor; try done.
    simpl. by match goal with H : in_u64 _ |- _ => apply H end.
  - intros stx pre s1 s2 ev [Hok _] Hs1 [_ Hf (s3 & acc & Hacc & _ & ->)] Hd.
    assert (delegation_ok (charged (stx_sender stx) s1)) as Hd1
      by (unfold charged; case_match; [|done]; destruct Hd; by constructor).
    apply accepts_delegation in Hacc; [|done|by apply inv_charged].
    apply Hacc in Hd1. unfold burned. case_match; destruct Hd1; by constructor.
Qed.

(** Delegation only narrows.  In every state reached from a ledger without
    mandates, each mandate has a path to a root, the root has a funding account,
    and against every mandate on that path its expiry and its per-transaction
    cap are no larger; when the single-asset rule is active from height 0, it
    has the root's asset. *)
Theorem delegation_only_narrows n s s' id node :
  inv s → 0 ≤ st_height s → st_mandates s = ∅ → reach n s s' →
  st_mandates s' !! id = Some node →
  ∃ c root rn, ancestry (st_mandates s') id c ∧ last c = Some root ∧
    st_mandates s' !! root = Some rn ∧ is_Some (st_root_funding s' !! root) ∧
    (∀ x m, x ∈ c → st_mandates s' !! x = Some m →
       mn_expiry node ≤ mn_expiry m ∧ mn_per_tx_max node ≤ mn_per_tx_max m ∧
       (st_mandate_asset_from s' = 0 → mn_asset node = mn_asset m)).
Proof.
  intros Hs Hh He Hr Hn. assert (delegation_ok s') as [L G F _].
  { apply (reach_delegation n s s' Hr Hs). constructor; rewrite ?He; [..|done].
    - apply map_Forall_empty.
    - intros x [y Hy]. by rewrite lookup_empty in Hy.
    - apply map_Forall_empty. }
  destruct (G id) as [c Hc]; [by eexists|].
  destruct (ancestry_last _ _ _ Hc) as (root & rn & Hl & Hrn & Hpn).
  exists c, root, rn. split_and!; [done..|by eapply F|]. intros x m Hx Hm.
  destruct (links_ok_ancestry _ _ _ _ _ _ _ L Hc Hx Hn Hm) as [[? ?] Hb].
  split_and!; [done..|]. intros Hz. apply Hb. by apply Z.eqb_eq.
Qed.
End ledger_claims.

(** * Witnesses *)

#[local] Existing Instances toy_shake toy_sha2 toy_codecs.

(** A root mandate of rate 1, cap 50, full at time 10, with a child held by Bob. *)
Definition demo_root : MandateNode :=
  mkMandateNode (id_of 30) None (h256_bytes alice) LamportRatchetV0 usd 1 50 20 1000 false 50 10 0.
Definition demo_child : MandateNode :=
  mkMandateNode (id_of 31) (Some (id_of 30)) (h256_bytes bob) LamportRatchetV0 usd 1 30 20 900 false 30 10 0.
Definition demo_tree : MandateTree := <[id_of 31 := demo_child]> {[id_of 30 := demo_root]}.
Lemma root_ne_child : id_of 31 ≠ id_of 30.
Proof. apply (bool_decide_unpack _). vm_compute. exact I. Qed.
Lemma demo_tree_root : demo_tree !! id_of 30 = Some demo_root.
Proof. unfold demo_tree. rewrite lookup_insert_ne by apply root_ne_child. apply lookup_singleton_eq. Qed.
Lemma demo_tree_child : demo_tree !! id_of 31 = Some demo_child.
Proof. apply lookup_insert_eq. Qed.
Lemma demo_tree_ok : tree_ok demo_tree.
Proof.
  apply map_Forall_insert_2; [|apply map_Forall_singleton]; (split; [done|]); repeat split; simpl; ulia.
Qed.
Lemma demo_ancestry : ancestry demo_tree (id_of 31) [id_of 31; id_of 30].
Proof.
  apply (ancestry_step _ _ demo_child (id_of 30)); [apply demo_tree_child|done|].
  apply (ancestry_root _ _ demo_root); [apply demo_tree_root|done].
Qed.

Lemma spend_all_or_nothing_witness :
  (∃ chain, chain_of demo_tree (id_of 31) = Ok chain ∧
     Forall (λ id, ∃ n, demo_tree !! id = Some n ∧ node_allows n 5 12) chain ∧
     spend (id_of 31) 5 12 demo_tree = (charge_all chain 5 12 demo_tree, Ok tt)) ∨
  (∃ e, spend (id_of 31) 5 12 demo_tree = (demo_tree, Err e) ∧
     ∀ chain, chain_of demo_tree (id_of 31) = Ok chain →
       ¬ Forall (λ id, ∃ n, demo_tree !! id = Some n ∧ node_allows n 5 12) chain).
Proof. apply (spend_all_or_nothing demo_tree (id_of 31) 5 12 demo_tree_ok). lia. Defined.

Lemma demo_spend_runs : ∃ t2, spend (id_of 31) 5 12 demo_tree = (t2, Ok tt).
Proof.
  assert (chain_of demo_tree (id_of 31) = Ok [id_of 31; id_of 30]) as Hc.
  { apply chain_of_ancestry. split; [apply demo_ancestry|simpl; unfold MAX_DEPTH; lia]. }
  eexists. apply (spend_accepted demo_tree (id_of 31) [id_of 31; id_of 30] 5 12 demo_tree_ok ltac:(lia) Hc). apply check_ok. eexists. split; [exact Hc|].
  repeat constructor; eexists; (split; [apply demo_tree_child || apply demo_tree_root|]);
    split_and!; vm_compute; congruence.
Qed.
Lemma mandate_budget_bound_witness :
  ∃ t2, spend (id_of 31) 5 12 demo_tree = (t2, Ok tt) ∧
    0 + drawn_on demo_tree (id_of 31) (id_of 30) 5 ≤ projected demo_root 10 + 1 * (12 - 10).
Proof.
  destruct demo_spend_runs as [t2 H]. exists t2. split; [exact H|].
  refine (proj1 (mandate_budget_bound (id_of 30) 10 demo_tree _ 12 t2 demo_root _ demo_tree_ok _ demo_tree_root)).
  - apply (history_spend (id_of 30) 10 demo_tree 0 10 demo_tree (id_of 31) 5 12 t2);
      [constructor|lia|ulia|ulia|exact H].
  - ulia.
Defined.

(** A ledger whose root mandate is revoked refuses Bob's draw on the child. *)
Definition revoked_tree : MandateTree := <[id_of 30 := mn_set_revoked true demo_root]> demo_tree.
Definition demo_revoked : State := set_mandates revoked_tree demo.
Lemma inv_demo_revoked : inv demo_revoked.
Proof.
  apply (inv_set_mandates demo revoked_tree inv_demo). apply map_Forall_insert_2; [|apply demo_tree_ok].
  apply (demo_tree_ok _ _ demo_tree_root).
Qed.
Definition demo_revoked_spend : SignedTx :=
  mkSignedTx bob 0 (Tx.MandateSpend (id_of 31) alice 5) zero_h256 [] [].
Lemma revocation_is_final_witness :
  match apply_tx_at demo_revoked_spend None demo_revoked with (_, Ok _) => False | _ => True end.
Proof.
  destruct (apply_tx_at demo_revoked_spend None demo_revoked) as [s2 [ev|e|]] eqn:E; [|exact I..].
  revert E. apply (revocation_is_final 0 demo_revoked demo_revoked (id_of 31) [id_of 31; id_of 30] (id_of 30)
    (mn_set_revoked true demo_root) demo_revoked_spend None s2 ev inv_demo_revoked (reach_here _)).
  - apply (ancestry_evolves demo_tree); [|exact demo_ancestry].
    apply (evolves_revoke (id_of 30) _ _ (Ok tt)). by rewrite revoke_spec, demo_tree_root.
  - set_solver.
  - apply lookup_insert_eq.
  - reflexivity.
  - reflexivity.
Defined.

(** Alice creates a root mandate in the first block of a fresh ledger. *)
Definition demo_create : SignedTx :=
  alice_sends 0 (Tx.MandateCreate (id_of 30) None alice usd 1 50 20 50 1000 0).
Lemma demo_create_block :
  ∃ s' rs, apply_block_verified 1 0 [demo_create] (Some [true]) demo = (s', Ok rs) ∧
    is_Some (st_mandates s' !! id_of 30).
Proof.
  assert (match apply_block_verified 1 0 [demo_create] (Some [true]) demo with
          | (s', Ok _) => bool_decide (is_Some (st_mandates s' !! id_of 30)) | _ => false end = true) as H
    by (vm_compute; reflexivity).
  destruct (apply_block_verified _ _ _ _ _) as [s' [rs|e|]]; [|done..].
  exists s', rs. split; [done|]. by apply bool_decide_eq_true in H.
Qed.
Lemma delegation_only_narrows_witness :
  ∃ s' node c root, st_mandates s' !! id_of 30 = Some node ∧ ancestry (st_mandates s') (id_of 30) c ∧
    last c = Some root ∧ is_Some (st_root_funding s' !! root).
Proof.
  destruct demo_create_block as (s' & rs & Hb & node & Hn).
  destruct (delegation_only_narrows 1 demo s' (id_of 30) node inv_demo ltac:(done) eq_refl
    (reach_block 0 demo demo s' 1 0 [demo_create] _ rs (reach_here _) ltac:(ulia) ltac:(ulia)
       ltac:(repeat constructor; simpl; ulia) Hb) Hn) as (c & root & rn & Hc & Hl & _ & Hf & _).
  exists s', node, c, root. split; [exact Hn|]. split; [exact Hc|]. split; [exact Hl|exact Hf].
Defined.
