(* ===== verification/Mempool.v ===== *)
(** The mempool (hk-node/src/mempool.rs), the proposer's choice of transactions
    and its settle-link budget ([settle_cost] and [select_batch_txs] of
    hk-node/src/state.rs), and the transaction id (batch.rs).

    The pool is a FIFO queue with three indexes.  [HK_MEMPOOL_CAP] and
    [HK_NONCE_WINDOW] are arguments; both locks are held over one operation, so
    an operation is a step. *)

From S2P Require Export Channels.

From stdpp Require Import pretty.
#[local] Open Scope Z_scope.

Definition DOM_TXID : string := "hk/v1/txid".
Definition MAX_TXS_PER_BLOCK : Z := 1024.
Definition DEFAULT_CAP : Z := 8192.
Definition NONCE_WINDOW : Z := 64.
Definition MAX_SETTLE_LINKS_PER_BLOCK : Z := Z.shiftl 1 17.

(** [parse().ok().filter(|n| *n > 0).unwrap_or(d)] of an environment variable,
    [env] being its parsed value. *)
Definition env_or (env : option Z) (d : Z) : Z :=
  match env with Some n => if 0 <? n then n else d | None => d end.
Definition nonce_window (env : option Z) : Z := env_or env NONCE_WINDOW.

Module AdmitError.
Inductive t :=
  | Full | DuplicateTx
  | DuplicateSlot (pending_nonce : Z)
  | UnknownSender
  | StaleNonce (expected got : Z)
  | FutureNonce (current got : Z)
  | NonceGap (got missing : Z)
  | NullifierSpent | NullifierPending | UnknownAnchor
  | BadEnvelope | AuthMismatch | BadSignature
  | ChannelTooLong (max_steps : Z)
  | SettleDeltaTooLarge (delta : Z)
  | SettleTooCostly (links : Z).
End AdmitError.
Notation AdmitError := AdmitError.t.

(** [AdmitError::as_str] *)
Definition admit_error_string (e : AdmitError) : string :=
  match e with
  | AdmitError.Full => "mempool full"
  | AdmitError.DuplicateTx => "duplicate: tx already in mempool"
  | AdmitError.DuplicateSlot n =>
      "duplicate: a tx for this sender at nonce " +:+ pretty n +:+
      " is already pending (replacement not supported)"
  | AdmitError.UnknownSender => "unknown sender account"
  | AdmitError.StaleNonce expected got =>
      "stale nonce: account is at " +:+ pretty expected +:+ ", tx has " +:+ pretty got
  | AdmitError.FutureNonce current got =>
      "nonce too far ahead: account is at " +:+ pretty current +:+ ", tx has " +:+ pretty got +:+
      " (window " +:+ pretty NONCE_WINDOW +:+ ")"
  | AdmitError.NonceGap got missing =>
      "nonce gap: tx has " +:+ pretty got +:+ " but no tx at nonce " +:+ pretty missing +:+
      " is pending for this sender (submit in nonce order)"
  | AdmitError.NullifierSpent => "nullifier already spent on-chain"
  | AdmitError.NullifierPending => "nullifier already pending in the mempool"
  | AdmitError.UnknownAnchor => "unknown or expired pool anchor"
  | AdmitError.BadEnvelope =>
      "malformed envelope: lamport_pk must be " +:+ pretty PK_LEN +:+ " bytes and sig " +:+
      pretty SIG_LEN +:+ " bytes"
  | AdmitError.AuthMismatch => "lamport pk does not open the account auth commitment"
  | AdmitError.BadSignature => "bad signature"
  | AdmitError.ChannelTooLong n => state_error_string (StateError.ChannelTooLong n MAX_CHANNEL_STEPS)
  | AdmitError.SettleDeltaTooLarge d =>
      state_error_string (StateError.SettleDeltaTooLarge d MAX_SETTLE_DELTA)
  | AdmitError.SettleTooCostly links =>
      "settle too costly to propose (" +:+ pretty links +:+ " links from the tip, max " +:+
      pretty MAX_SETTLE_LINKS_PER_BLOCK +:+
      " per block until verification is incremental — settle in pieces)"
  end.

(** [serde_json::to_vec] of a signed transaction. *)
Class StxCodec := { json_stx : SignedTx → option bytes }.

(** [signature] is the code's [Result<(), AdmitError>]. *)
Record EnvelopeVerdict := mkVerdict {
  ev_pk_commit : option H256;
  ev_signature : AdmitError + unit;
}.

Record Mempool := mkMempool {
  mp_q : list SignedTx;
  mp_ids : gset H256;
  mp_keys : gmap (AccountId * Z) H256;
  mp_nullifiers : gset H256;
  mp_cap : Z;
}.
Definition mp_set_q (q : list SignedTx) (p : Mempool) : Mempool :=
  mkMempool q p.(mp_ids) p.(mp_keys) p.(mp_nullifiers) p.(mp_cap).
Definition mempool_new (cap : Z) : Mempool := mkMempool [] ∅ ∅ ∅ cap.
Definition mempool_default (env_cap : option Z) : Mempool := mempool_new (env_or env_cap DEFAULT_CAP).
Definition mp_len (p : Mempool) : Z := Z.of_nat (length p.(mp_q)).

Definition slot_of (tx : SignedTx) : AccountId * Z := (stx_sender tx, stx_nonce tx).
(** The nullifier of a pending shielded spend. *)
Definition spend_nullifier (tx : SignedTx) : option H256 :=
  match stx_payload tx with Tx.ShieldedSpend _ nullifier _ _ _ _ _ _ _ _ => Some nullifier | _ => None end.

(** ** The cost of a settlement *)

Definition settle_cost (chain : State) (id : ChannelId) (step : Z) : Z :=
  match settle_links chain id step with
  | Some links => links
  | None =>
      if bool_decide (is_Some (st_channels chain !! id)) then 0
      else if st_payword_cap_from chain <=? sat_add u64_max (st_height chain) 1
           then Z.min step MAX_SETTLE_DELTA
           else step
  end.

(** [select_batch_txs]: the loop over the pool's view, with its counters. *)
Fixpoint select_loop (chain : State) (pending : list SignedTx) (room : Z)
    (held links : Z) (held_senders : gset AccountId) : list SignedTx * Z :=
  match pending with
  | [] => ([], held)
  | tx :: rest =>
      if room <=? 0 then ([], held)
      else if bool_decide (stx_sender tx ∈ held_senders)
      then select_loop chain rest room (held + 1) links held_senders
      else
        let pick links :=
          let '(picked, held) := select_loop chain rest (room - 1) held links held_senders in
          (tx :: picked, held) in
        match stx_payload tx with
        | Tx.ChannelSettle id _ step =>
            let cost := settle_cost chain id step in
            if MAX_SETTLE_LINKS_PER_BLOCK <? sat_add u64_max links cost
            then select_loop chain rest room (held + 1) links ({[stx_sender tx]} ∪ held_senders)
            else pick (sat_add u64_max links cost)
        | _ => pick links
        end
  end.
Definition select_batch_txs (chain : State) (pending : list SignedTx) (room links_so_far : Z)
    : list SignedTx * Z :=
  select_loop chain pending room 0 links_so_far ∅.

(** ** Admission *)

Definition channel_open_cap (tx : SignedTx) : res AdmitError unit :=
  match stx_payload tx with
  | Tx.ChannelOpen _ _ _ _ _ _ max_steps _ =>
      refuseR (MAX_CHANNEL_STEPS <? max_steps) (AdmitError.ChannelTooLong max_steps)
  | _ => Ok tt
  end.
Definition channel_settle_cap (tx : SignedTx) (chain : State) : res AdmitError unit :=
  match stx_payload tx with
  | Tx.ChannelSettle id _ step =>
      let? _ := match settle_delta chain id step with
                | Some delta => refuseR (MAX_SETTLE_DELTA <? delta) (AdmitError.SettleDeltaTooLarge delta)
                | None => refuseR (bool_decide (st_channels chain !! id = None) && (MAX_SETTLE_DELTA <? step))
                            (AdmitError.SettleDeltaTooLarge step)
                end in
      let links := settle_cost chain id step in
      refuseR (MAX_SETTLE_LINKS_PER_BLOCK <? links) (AdmitError.SettleTooCostly links)
  | _ => Ok tt
  end.

Section mempool.
Context {SHAKE : Shake} {CODECS : Codecs} {STX : StxCodec}.
(** The parsed value of [HK_NONCE_WINDOW]. *)
Context (env_window : option Z).

(** [txid]; [Panic] is the [expect] on the encoding. *)
Definition txid {E} (tx : SignedTx) : res E H256 :=
  match json_stx tx with Some b => Ok (shake256_32 DOM_TXID [b]) | None => Panic end.

Definition gate (p : Mempool) (tx : SignedTx) : res AdmitError H256 :=
  let? _ := refuseR (mp_cap p <=? mp_len p) AdmitError.Full in
  let? id := txid tx in
  let? _ := refuseR (bool_decide (id ∈ mp_ids p)) AdmitError.DuplicateTx in
  let? _ := refuseR (bool_decide (is_Some (mp_keys p !! slot_of tx)))
              (AdmitError.DuplicateSlot (stx_nonce tx)) in
  Ok id.

Definition envelope_verdict (tx : SignedTx) : EnvelopeVerdict :=
  if negb (Z.of_nat (length (stx_lamport_pk tx)) =? PK_LEN) || negb (Z.of_nat (length (stx_sig tx)) =? SIG_LEN)
  then mkVerdict None (inl AdmitError.BadEnvelope)
  else match channel_open_cap tx with
       | Err e => mkVerdict None (inl e)
       | _ =>
           let signature :=
             if verify_envelope tx then inr tt
             else if bool_decide (stx_digest tx = None) then inl AdmitError.BadEnvelope
             else inl AdmitError.BadSignature in
           mkVerdict (Some (pk_commit (stx_lamport_pk tx))) signature
       end.

Definition index (tx : SignedTx) (id : H256) : M Mempool AdmitError unit :=
  modifyM (λ p, mkMempool p.(mp_q) ({[id]} ∪ p.(mp_ids)) (<[slot_of tx := stx_next_auth tx]> p.(mp_keys))
                  (match spend_nullifier tx with
                   | Some nf => {[nf]} ∪ p.(mp_nullifiers)
                   | None => p.(mp_nullifiers)
                   end) p.(mp_cap)).
Definition unindex (tx : SignedTx) : M Mempool AdmitError unit :=
  let* id := readM (λ _, txid tx) in
  modifyM (λ p, mkMempool p.(mp_q) (p.(mp_ids) ∖ {[id]}) (delete (slot_of tx) p.(mp_keys))
                  (match spend_nullifier tx with
                   | Some nf => p.(mp_nullifiers) ∖ {[nf]}
                   | None => p.(mp_nullifiers)
                   end) p.(mp_cap)).
Definition push_back (tx : SignedTx) : M Mempool AdmitError unit :=
  modifyM (λ p, mp_set_q (p.(mp_q) ++ [tx]) p).

(** The pool lookups of a shielded spend. *)
Definition nullifier_check (p : Mempool) (tx : SignedTx) (chain : State) : res AdmitError unit :=
  match stx_payload tx with
  | Tx.ShieldedSpend anchor nullifier _ _ _ _ _ _ _ _ =>
      let? pool := ok_orR ((pool_key_of_anchor chain anchor) ≫= (pool_ref chain)) AdmitError.UnknownAnchor in
      let? _ := refuseR (bool_decide (nullifier ∈ pool_nullifiers pool)) AdmitError.NullifierSpent in
      refuseR (bool_decide (nullifier ∈ mp_nullifiers p)) AdmitError.NullifierPending
  | _ => Ok tt
  end.
(** The commitment the key must open: the account's, or that of the pending
    transaction one nonce below. *)
Definition expected_auth (p : Mempool) (tx : SignedTx) (acc : Account) : res AdmitError H256 :=
  if stx_nonce tx =? acc_nonce acc then Ok (acc_auth_commit acc)
  else ok_orR (mp_keys p !! (stx_sender tx, stx_nonce tx - 1))
         (AdmitError.NonceGap (stx_nonce tx) (stx_nonce tx - 1)).
(** Everything [admit_gated] checks before it writes. *)
Definition gated_checks (p : Mempool) (tx : SignedTx) (chain : State) (verdict : EnvelopeVerdict)
    : res AdmitError unit :=
  match ev_pk_commit verdict with
  | None => Err (match ev_signature verdict with inl e => e | inr _ => AdmitError.BadEnvelope end)
  | Some commit =>
      let? acc := ok_orR (st_accounts chain !! stx_sender tx) AdmitError.UnknownSender in
      let current := acc_nonce acc in
      let? _ := refuseR (stx_nonce tx <? current) (AdmitError.StaleNonce current (stx_nonce tx)) in
      let? _ := refuseR (wrapping u64_max (current + nonce_window env_window) <=? stx_nonce tx)
                  (AdmitError.FutureNonce current (stx_nonce tx)) in
      let? _ := nullifier_check p tx chain in
      let? expected := expected_auth p tx acc in
      let? _ := refuseR (negb (bool_decide (commit = expected))) AdmitError.AuthMismatch in
      match ev_signature verdict with inl e => Err e | inr _ => Ok tt end
  end.
Definition admit_gated (tx : SignedTx) (id : H256) (chain : State) (verdict : EnvelopeVerdict)
    : M Mempool AdmitError H256 :=
  readM (λ p, gated_checks p tx chain verdict) ;;;
  index tx id ;;;
  push_back tx ;;;
  retM id.
Definition try_admit (tx : SignedTx) (chain : State) : M Mempool AdmitError H256 :=
  let* id := readM (λ p, gate p tx) in
  readM (λ _, channel_settle_cap tx chain) ;;;
  admit_gated tx id chain (envelope_verdict tx).
Definition try_admit_verified (tx : SignedTx) (chain : State) (verdict : EnvelopeVerdict)
    : M Mempool AdmitError H256 :=
  let* id := readM (λ p, gate p tx) in
  readM (λ _, channel_settle_cap tx chain) ;;;
  admit_gated tx id chain verdict.
Definition insert_unchecked (tx : SignedTx) : M Mempool AdmitError bool :=
  let* id := readM (λ _, txid tx) in
  let* p := getM in
  if bool_decide (id ∈ mp_ids p) || (mp_cap p <=? mp_len p) then retM false
  else index tx id ;;; push_back tx ;;; retM true.

(** [remove_included]: the queue is taken, every transaction whose slot was
    included is unindexed, the others are kept in order. *)
Fixpoint prune (gone : list (AccountId * Z)) (l : list SignedTx) : M Mempool AdmitError (list SignedTx) :=
  match l with
  | [] => retM []
  | tx :: l =>
      if bool_decide (slot_of tx ∈ gone) then unindex tx ;;; prune gone l
      else let* kept := prune gone l in retM (tx :: kept)
  end.
Definition remove_included (included : list (AccountId * Z)) : M Mempool AdmitError Z :=
  if bool_decide (included = []) then retM 0
  else
    let* p := getM in
    modifyM (mp_set_q []) ;;;
    let* kept := prune included (mp_q p) in
    modifyM (mp_set_q kept) ;;;
    retM (mp_len p - Z.of_nat (length kept)).
End mempool.

(** * The pool is its queue, indexed *)

Section door.
Context {SHAKE : Shake} {CODECS : Codecs} {STX : StxCodec}.
Context (env_window : option Z).

Definition id_opt (tx : SignedTx) : option H256 := (λ b, shake256_32 DOM_TXID [b]) <$> json_stx tx.
Definition key_entry (tx : SignedTx) : (AccountId * Z) * H256 := (slot_of tx, stx_next_auth tx).

(** The pool whose queue is [q], its indexes computed from it. *)
Definition reindex (cap : Z) (q : list SignedTx) : Mempool :=
  mkMempool q (list_to_set (omap id_opt q)) (list_to_map (key_entry <$> q))
    (list_to_set (omap spend_nullifier q)) cap.
(** A pool filled through the door: the indexes are those of the queue, no id,
    slot or nullifier is pending twice, and every pending transaction is signed. *)
Record door_ok (p : Mempool) : Prop := mkDoorOk {
  do_index : p = reindex (mp_cap p) (mp_q p);
  do_coded : Forall (λ tx, is_Some (json_stx tx)) (mp_q p);
  do_nd_ids : NoDup (omap id_opt (mp_q p));
  do_nd_slots : NoDup (slot_of <$> mp_q p);
  do_nd_nulls : NoDup (omap spend_nullifier (mp_q p));
  do_signed : Forall (λ tx, verify_envelope tx = true) (mp_q p);
  do_cap : mp_len p ≤ mp_cap p;
}.
Lemma do_ids p : door_ok p → mp_ids p = list_to_set (omap id_opt (mp_q p)).
Proof. intros Hp. by rewrite (do_index p Hp) at 1. Qed.
Lemma do_keys p : door_ok p → mp_keys p = list_to_map (key_entry <$> mp_q p).
Proof. intros Hp. by rewrite (do_index p Hp) at 1. Qed.
Lemma do_nulls p : door_ok p → mp_nullifiers p = list_to_set (omap spend_nullifier (mp_q p)).
Proof. intros Hp. by rewrite (do_index p Hp) at 1. Qed.
Lemma door_ok_new cap : 0 ≤ cap → door_ok (mempool_new cap).
Proof. intros H. by constructor; try constructor. Qed.

Lemma txid_ok {E} tx id : txid (E := E) tx = Ok id ↔ id_opt tx = Some id.
Proof. unfold txid, id_opt. destruct (json_stx tx); simpl; naive_solver. Qed.
Lemma gate_ok p tx id :
  gate p tx = Ok id →
  mp_len p < mp_cap p ∧ id_opt tx = Some id ∧ id ∉ mp_ids p ∧ (mp_keys p !! slot_of tx) = None.
Proof.
  unfold gate. intros H. apply bindR_ok in H as (? & Hc & H). apply refuseR_ok in Hc.
  apply bindR_ok in H as (i & Hi & H). apply bindR_ok in H as (? & Hd & H). apply refuseR_ok in Hd.
  apply bindR_ok in H as (? & Hs & H). apply refuseR_ok in Hs. injection H as ->.
  apply Z.leb_gt in Hc. apply bool_decide_eq_false in Hd, Hs. split_and!; [done|by eapply txid_ok|done|].
  by apply eq_None_not_Some.
Qed.

(** What a successful admission checked. *)
Record admitted_by (p : Mempool) (tx : SignedTx) (chain : State) (commit : H256) (acc : Account) : Prop :=
  mkAdmittedBy {
    ab_account : st_accounts chain !! stx_sender tx = Some acc;
    ab_nonce : acc_nonce acc ≤ stx_nonce tx;
    ab_nullifier : nullifier_check p tx chain = Ok tt;
    ab_auth : expected_auth p tx acc = Ok commit;
  }.
Lemma gated_checks_ok p tx chain v :
  gated_checks env_window p tx chain v = Ok tt →
  ∃ commit acc, ev_pk_commit v = Some commit ∧ ev_signature v = inr tt ∧ admitted_by p tx chain commit acc.
Proof.
  unfold gated_checks. destruct (ev_pk_commit v) as [commit|]; [|done]. intros H.
  apply bindR_ok in H as (acc & Ha & H). apply ok_orR_ok in Ha.
  apply bindR_ok in H as (? & Hs & H). apply refuseR_ok in Hs. apply Z.ltb_ge in Hs.
  apply bindR_ok in H as (? & _ & H). apply bindR_ok in H as ([] & Hn & H).
  apply bindR_ok in H as (a & He & H). apply bindR_ok in H as (? & Hc & H). apply refuseR_ok in Hc.
  apply negb_false_iff, bool_decide_eq_true in Hc. subst a.
  destruct (ev_signature v) as [|[]]; [done|]. exists commit, acc. by repeat split.
Qed.
Lemma envelope_verdict_ok tx commit :
  ev_pk_commit (envelope_verdict tx) = Some commit → ev_signature (envelope_verdict tx) = inr tt →
  commit = pk_commit (stx_lamport_pk tx) ∧ verify_envelope tx = true ∧ channel_open_cap tx = Ok tt.
Proof.
  unfold envelope_verdict. destruct (_ || _); [done|].
  destruct (channel_open_cap tx) as [[]| |] eqn:E; [|done|].
  - simpl. intros [= <-]. destruct (verify_envelope tx); [done|by case_bool_decide].
  - unfold channel_open_cap, refuseR in E. repeat case_match; done.
Qed.

Definition admitted (tx : SignedTx) (id : H256) (p : Mempool) : Mempool :=
  mkMempool (mp_q p ++ [tx]) ({[id]} ∪ mp_ids p) (<[slot_of tx := stx_next_auth tx]> (mp_keys p))
    (match spend_nullifier tx with Some nf => {[nf]} ∪ mp_nullifiers p | None => mp_nullifiers p end)
    (mp_cap p).
Lemma try_admit_ok tx chain p p' id :
  try_admit env_window tx chain p = (p', Ok id) →
  gate p tx = Ok id ∧ channel_settle_cap tx chain = Ok tt ∧ verify_envelope tx = true ∧
  channel_open_cap tx = Ok tt ∧ p' = admitted tx id p ∧
  ∃ acc, admitted_by p tx chain (pk_commit (stx_lamport_pk tx)) acc.
Proof.
  unfold try_admit, admit_gated, index, push_back. intros H. mrun.
  match goal with H : Ok ?u = channel_settle_cap _ _ |- _ => destruct u; symmetry in H end.
  match goal with H : Ok ?u = gated_checks _ _ _ _ _ |- _ => destruct u; symmetry in H;
    apply gated_checks_ok in H as (commit & acc & Hc & Hs & Hab) end.
  destruct (envelope_verdict_ok _ _ Hc Hs) as (-> & ? & ?). split_and!; eauto.
Qed.

Lemma omap_fresh {A B} (f : A → option B) l x :
  NoDup (omap f l) → (∀ y, f x = Some y → y ∉ (omap f l)) → NoDup (omap f (l ++ [x])).
Proof.
  intros Hn Hx. rewrite omap_app. apply NoDup_app. split; [done|]. cbn. destruct (f x) as [y|] eqn:E.
  - split; [|apply NoDup_singleton]. intros z Hz. rewrite list_elem_of_singleton. intros ->. by eapply Hx.
  - split; [|constructor]. intros z _. apply not_elem_of_nil.
Qed.
Lemma nullifier_fresh p tx chain nf :
  nullifier_check p tx chain = Ok tt → spend_nullifier tx = Some nf → nf ∉ mp_nullifiers p.
Proof.
  unfold nullifier_check, spend_nullifier. destruct (stx_payload tx); try done. intros H [= <-].
  apply bindR_ok in H as (? & _ & H). apply bindR_ok in H as (? & _ & H). apply refuseR_ok in H.
  by apply bool_decide_eq_false in H.
Qed.
Lemma admitted_reindex tx id cap q :
  id_opt tx = Some id → slot_of tx ∉ slot_of <$> q →
  admitted tx id (reindex cap q) = reindex cap (q ++ [tx]).
Proof.
  intros Hi Hslot. unfold admitted, reindex. cbn [mp_q mp_ids mp_keys mp_nullifiers mp_cap]. f_equal.
  - rewrite omap_app, list_to_set_app_L. cbn. rewrite Hi. cbn. set_solver.
  - rewrite fmap_app. cbn. rewrite list_to_map_app. cbn.
    rewrite <-insert_union_r; [by rewrite map_union_empty|].
    apply not_elem_of_list_to_map. by rewrite <-list_fmap_compose.
  - rewrite omap_app, list_to_set_app_L. cbn. destruct (spend_nullifier tx); cbn; set_solver.
Qed.
Lemma admitted_door_ok tx id p :
  door_ok p → gate p tx = Ok id → verify_envelope tx = true →
  (∀ nf, spend_nullifier tx = Some nf → nf ∉ mp_nullifiers p) → door_ok (admitted tx id p).
Proof.
  intros Hp (Hc & Hi & Hd & Hs)%gate_ok Hv Hnf.
  assert (is_Some (json_stx tx)) as Hj by (unfold id_opt in Hi; destruct (json_stx tx); eauto; done).
  assert (slot_of tx ∉ slot_of <$> mp_q p) as Hslot.
  { rewrite (do_keys p Hp) in Hs. apply not_elem_of_list_to_map in Hs.
    by rewrite <-list_fmap_compose in Hs. }
  constructor; cbn [admitted mp_q mp_cap].
  - rewrite (do_index p Hp) at 1. by rewrite (admitted_reindex tx id).
  - apply Forall_app; split; [apply Hp|by constructor].
  - apply omap_fresh; [apply Hp|]. intros y Hy. rewrite Hi in Hy. injection Hy as <-.
    rewrite (do_ids p Hp) in Hd. by rewrite elem_of_list_to_set in Hd.
  - rewrite fmap_app. apply NoDup_app. split; [apply Hp|]. split; [|apply NoDup_singleton].
    intros s Hin. cbn. rewrite list_elem_of_singleton. by intros ->.
  - apply omap_fresh; [apply Hp|]. intros y Hy. specialize (Hnf y Hy). rewrite (do_nulls p Hp) in Hnf.
    by rewrite elem_of_list_to_set in Hnf.
  - apply Forall_app; split; [apply Hp|by constructor].
  - pose proof (do_cap p Hp). unfold mp_len in *. cbn. rewrite length_app. cbn. lia.
Qed.

(** ** Pruning *)

Implicit Types (gone : list (AccountId * Z)) (q : list SignedTx).
#[local] Notation kept gone := (λ tx, slot_of tx ∉ gone).
#[local] Notation dropped gone := (λ tx, slot_of tx ∈ gone).

Lemma prune_spec gone q p :
  Forall (λ tx, is_Some (json_stx tx)) q →
  ∃ p', prune gone q p = (p', Ok (filter (kept gone) q)) ∧
    mp_cap p' = mp_cap p ∧
    mp_ids p' = mp_ids p ∖ list_to_set (omap id_opt (filter (dropped gone) q)) ∧
    mp_nullifiers p' = mp_nullifiers p ∖ list_to_set (omap spend_nullifier (filter (dropped gone) q)) ∧
    ∀ s, mp_keys p' !! s =
      if bool_decide (s ∈ slot_of <$> filter (dropped gone) q) then None else mp_keys p !! s.
Proof.
  intros Hq. revert p. induction Hq as [|tx q [b Hb] Hq IH]; intros p; cbn [prune].
  - exists p. cbn. split_and!; [done|done|set_solver|set_solver|done].
  - rewrite !filter_cons. destruct (decide (slot_of tx ∈ gone)) as [Hg|Hg].
    + rewrite bool_decide_eq_true_2, decide_False by tauto.
      unfold bindM at 1, unindex at 1, bindM at 1, readM, modifyM.
      assert (id_opt tx = Some (shake256_32 DOM_TXID [b])) as Hid by (unfold id_opt; by rewrite Hb).
      rewrite (proj2 (txid_ok tx _) Hid).
      match goal with |- context [prune gone q ?p1] => destruct (IH p1) as (p' & -> & H1 & H2 & H3 & H4) end.
      exists p'. cbn in *. rewrite Hid in *. split_and!; [done|done|rewrite H2; set_solver| |].
      * rewrite H3. destruct (spend_nullifier tx); set_solver.
      * intros s. rewrite H4. do 2 case_bool_decide; [done|set_solver| |].
        -- rewrite lookup_delete_None. set_solver.
        -- rewrite lookup_delete_ne; [done|set_solver].
    + rewrite bool_decide_eq_false_2, decide_True by tauto.
      destruct (IH p) as (p' & Hr & ?). exists p'. unfold bindM. rewrite Hr. by split.
Qed.

(** What is left of an index when the dropped part is taken out of it. *)
Lemma filter_split (P : SignedTx → Prop) `{!∀ x, Decision (P x)} q :
  q ≡ₚ filter P q ++ filter (λ x, ¬ P x) q.
Proof.
  induction q as [|x q IH]; [done|]. rewrite !filter_cons. do 2 case_decide; try tauto.
  - simpl. by constructor.
  - rewrite <-Permutation_middle. by constructor.
Qed.
Lemma omap_rest (f : SignedTx → option H256) gone q :
  NoDup (omap f q) →
  list_to_set (C := gset H256) (omap f q) ∖ list_to_set (omap f (filter (dropped gone) q)) =
  list_to_set (omap f (filter (kept gone) q)).
Proof.
  intros Hn.
  assert (omap f q ≡ₚ omap f (filter (dropped gone) q) ++ omap f (filter (kept gone) q)) as Hp.
  { rewrite <-omap_app. apply omap_Permutation, filter_split. }
  rewrite Hp in Hn. apply NoDup_app in Hn as (_ & Hd & _).
  rewrite (list_to_set_perm_L _ _ Hp), list_to_set_app_L.
  apply set_eq. intros x. specialize (Hd x). set_solver.
Qed.
Lemma slots_rest gone q (m : gmap (AccountId * Z) H256) :
  NoDup (slot_of <$> q) →
  (∀ s, m !! s = if bool_decide (s ∈ slot_of <$> filter (dropped gone) q) then None
                 else list_to_map (M := gmap _ _) (key_entry <$> q) !! s) →
  m = list_to_map (key_entry <$> filter (kept gone) q).
Proof.
  intros Hn Hm. apply map_eq. intros s. rewrite Hm.
  assert (∀ l, (key_entry <$> l).*1 = slot_of <$> l) as Hk by (intros l; by rewrite <-list_fmap_compose).
  assert (NoDup (slot_of <$> filter (kept gone) q)) as Hn2.
  { eapply sublist_NoDup; [exact Hn|apply fmap_sublist, sublist_filter]. }
  apply option_eq. intros v. rewrite <-elem_of_list_to_map by by rewrite Hk.
  case_bool_decide as Hin.
  - split; [done|]. intros (tx & Ht & Hf)%list_elem_of_fmap. apply list_elem_of_filter in Hf as [Hf _].
    apply list_elem_of_fmap in Hin as (tx' & -> & Hf'). apply list_elem_of_filter in Hf' as [Hf' _].
    unfold key_entry in Ht. congruence.
  - rewrite <-elem_of_list_to_map by by rewrite Hk. rewrite !list_elem_of_fmap. split.
    + intros (tx & Ht & Htx). exists tx. split; [done|]. apply list_elem_of_filter. split; [|done].
      intros Hg. apply Hin. injection Ht as -> _. by apply list_elem_of_fmap_2, list_elem_of_filter.
    + intros (tx & Ht & [_ Hf]%list_elem_of_filter). eauto.
Qed.
Lemma remove_included_nil p : remove_included [] p = (p, Ok 0).
Proof. done. Qed.
Lemma remove_included_ok gone p :
  door_ok p → gone ≠ [] →
  ∃ p', remove_included gone p = (p', Ok (mp_len p - mp_len p')) ∧
    door_ok p' ∧ mp_q p' = filter (kept gone) (mp_q p) ∧ mp_cap p' = mp_cap p.
Proof.
  intros Hp Hg. unfold remove_included. rewrite bool_decide_eq_false_2 by done.
  destruct (prune_spec gone (mp_q p) (mp_set_q [] p)) as (p1 & Hr & H1 & H2 & H3 & H4); [apply Hp|].
  exists (mp_set_q (filter (kept gone) (mp_q p)) p1). unfold bindM, getM, modifyM at 1.
  rewrite Hr. split; [done|]. cbn in *. split; [|by rewrite H1].
  assert (∀ {B} (f : SignedTx → option B), omap f (filter (kept gone) (mp_q p)) `sublist_of` omap f (mp_q p)) as Hsub.
  { intros B f. generalize (mp_q p). intros q. induction q as [|x q IH]; [done|].
    rewrite filter_cons. case_decide; cbn; destruct (f x); by auto using sublist_skip, sublist_cons. }
  assert (∀ P : SignedTx → Prop, Forall P (mp_q p) → Forall P (filter (kept gone) (mp_q p))) as Hall.
  { intros P HP. rewrite Forall_forall in HP |- *. intros x [_ Hx]%list_elem_of_filter. by apply HP. }
  constructor; cbn.
  - unfold reindex, mp_set_q. f_equal.
    + rewrite H2, (do_ids p Hp). apply omap_rest, Hp.
    + apply slots_rest; [apply Hp|]. intros s. by rewrite H4, (do_keys p Hp).
    + rewrite H3, (do_nulls p Hp). apply omap_rest, Hp.
  - apply Hall, Hp.
  - eapply sublist_NoDup; [apply (do_nd_ids p Hp)|apply Hsub].
  - eapply sublist_NoDup; [apply (do_nd_slots p Hp)|apply fmap_sublist, sublist_filter].
  - eapply sublist_NoDup; [apply (do_nd_nulls p Hp)|apply Hsub].
  - apply Hall, Hp.
  - pose proof (do_cap p Hp). unfold mp_len in *. cbn. rewrite H1.
    pose proof (sublist_length _ _ (sublist_filter (kept gone) (mp_q p))). lia.
Qed.

(** ** Restoring a saved pool *)

Lemma insert_unchecked_fresh tx id cap q :
  id_opt tx = Some id → id ∉ omap id_opt q → slot_of tx ∉ slot_of <$> q → Z.of_nat (length q) < cap →
  insert_unchecked tx (reindex cap q) = (reindex cap (q ++ [tx]), Ok true).
Proof.
  intros Hi Hn Hs Hc. unfold insert_unchecked, bindM at 1, readM. rewrite (proj2 (txid_ok tx id) Hi).
  unfold bindM at 1, getM. rewrite bool_decide_eq_false_2 by (cbn; by rewrite elem_of_list_to_set).
  rewrite (proj2 (Z.leb_gt _ _)) by (unfold mp_len; cbn; lia). cbn [orb].
  unfold index, push_back, bindM, modifyM, retM. f_equal. by apply admitted_reindex.
Qed.
Definition restore (q : list SignedTx) : M Mempool AdmitError unit :=
  for_eachM (λ tx, insert_unchecked tx ;;; retM tt) q.
Lemma restore_app cap q1 q2 :
  let q := q1 ++ q2 in
  Forall (λ tx, is_Some (json_stx tx)) q2 → NoDup (omap id_opt q) → NoDup (slot_of <$> q) →
  Z.of_nat (length q) ≤ cap → restore q2 (reindex cap q1) = (reindex cap q, Ok tt).
Proof.
  cbn zeta. intros Hj. revert q1. induction Hj as [|tx q2 [b Hb] _ IH]; intros q1 Hi Hs Hc.
  { by rewrite app_nil_r. }
  assert (id_opt tx = Some (shake256_32 DOM_TXID [b])) as Hid by (unfold id_opt; by rewrite Hb).
  unfold restore. cbn [for_eachM]. unfold bindM at 1 2.
  rewrite (insert_unchecked_fresh tx _ cap q1 Hid).
  - cbn. replace (q1 ++ tx :: q2) with ((q1 ++ [tx]) ++ q2) in * by (by rewrite <-app_assoc). by apply IH.
  - rewrite omap_app in Hi. apply NoDup_app in Hi as (_ & Hi & _). intros Hin. apply (Hi _ Hin).
    cbn. rewrite Hid. by left.
  - rewrite fmap_app in Hs. apply NoDup_app in Hs as (_ & Hs & _). intros Hin. apply (Hs _ Hin). by left.
  - rewrite length_app in Hc. cbn in Hc. lia.
Qed.

(** The steps of a pool: admissions through either entry point, accepted or
    refused, and the pruning at a commit. *)
Inductive door_step (p p' : Mempool) : Prop :=
  | ds_admit tx chain id : try_admit env_window tx chain p = (p', Ok id) → door_step p p'
  | ds_verified tx chain id :
      try_admit_verified env_window tx chain (envelope_verdict tx) p = (p', Ok id) → door_step p p'
  | ds_refused tx chain e : try_admit env_window tx chain p = (p', Err e) → door_step p p'
  | ds_prune included n : remove_included included p = (p', Ok n) → door_step p p'.

Lemma try_admit_door_ok tx chain p p' id :
  try_admit env_window tx chain p = (p', Ok id) → door_ok p → door_ok p' ∧ mp_cap p' = mp_cap p.
Proof.
  intros (Hg & _ & Hv & _ & -> & acc & Hab)%try_admit_ok Hp. split; [|done].
  apply admitted_door_ok; [done..|]. intros nf Hnf. eapply nullifier_fresh; [apply Hab|done].
Qed.
Lemma try_admit_err tx chain p p' e : try_admit env_window tx chain p = (p', Err e) → p' = p.
Proof.
  unfold try_admit, admit_gated. intros H.
  apply bindM_inv in H as [(s1 & i & H1 & H)|[(? & H1 & _)|[_ [=]]]]; apply readM_inv in H1 as [-> _]; [|done].
  apply bindM_inv in H as [(s1 & ? & H1 & H)|[(? & H1 & _)|[_ [=]]]]; apply readM_inv in H1 as [-> _]; [|done].
  by apply bindM_inv in H as [(s1 & ? & H1 & H)|[(? & H1 & _)|[_ [=]]]]; apply readM_inv in H1 as [-> _].
Qed.
Lemma door_step_ok p p' : door_step p p' → door_ok p → door_ok p' ∧ mp_cap p' = mp_cap p.
Proof.
  intros [tx chain id H|tx chain id H|tx chain e H|inc n H] Hp.
  - by eapply try_admit_door_ok.
  - by eapply try_admit_door_ok.
  - by apply try_admit_err in H as ->.
  - destruct (decide (inc = [])) as [->|Hinc].
    + rewrite remove_included_nil in H. by injection H as <- _.
    + destruct (remove_included_ok inc p Hp Hinc) as (p1 & H1 & ? & _ & ?).
      rewrite H in H1. by injection H1 as -> _.
Qed.

Lemma door_steps_ok p p' : rtc door_step p p' → door_ok p → door_ok p' ∧ mp_cap p' = mp_cap p.
Proof.
  induction 1 as [|p p1 p' Hs _ IH]; intros Hp; [done|].
  destruct (door_step_ok _ _ Hs Hp) as [H1 <-]. by apply IH.
Qed.

(** C32: the pool is its queue.  Whatever is admitted, refused and pruned, the
    indexes of the pool are exactly those of its queue, no id, slot or
    nullifier is pending twice, every pending transaction carries its own
    valid signature and the cap holds; pruning never panics and keeps the
    order of the rest; and a pool saved in a snapshot and restored with
    [insert_unchecked] is the pool that was saved. *)
Theorem pool_is_indexed_queue cap p :
  0 ≤ cap → rtc door_step (mempool_new cap) p →
  door_ok p ∧ mp_cap p = cap ∧ restore (mp_q p) (mempool_new cap) = (p, Ok tt) ∧
  ∀ included, included ≠ [] → ∃ p', remove_included included p = (p', Ok (mp_len p - mp_len p')) ∧
    mp_q p' = filter (λ tx, slot_of tx ∉ included) (mp_q p).
Proof.
  intros Hcap Hr.
  assert (door_ok p ∧ mp_cap p = cap) as [Hp Hc].
  { destruct (door_steps_ok _ _ Hr (door_ok_new cap Hcap)) as [? ->]. by split. }
  split_and!; [done|done| |].
  - rewrite (do_index p Hp) at 2. rewrite Hc. apply (restore_app cap [] (mp_q p)); [apply Hp..|].
    rewrite <-Hc. apply Hp.
  - intros inc Hinc. destruct (remove_included_ok inc p Hp Hinc) as (p' & ? & _ & ? & _). eauto.
Qed.
End door.
