(* ===== verification/Proposer.v ===== *)
(** What the mempool's door promises the proposer and the chain: admitted
    settlements fit the block budget, nothing admitted is parked, and an admitted
    envelope is the one apply will accept. *)

From S2P Require Export Mempool.
From S2P Require Import Toy Demo.
#[local] Open Scope Z_scope.


Section node.
Context {SHAKE : Shake} {SHA2 : Sha2} {CODECS : Codecs} {STX : StxCodec}.
Context (env_window : option Z).

(** The links [verify_settlement] hashes when the transaction runs on [s]: the
    step, when the handler gets that far (see [settle_delta_mirrors_handler]). *)
Definition links_hashed (s : State) (tx : SignedTx) : Z :=
  match stx_payload tx with
  | Tx.ChannelSettle id _ step =>
      match settle_delta s id step with
      | Some delta => if payword_capped s && (MAX_SETTLE_DELTA <? delta) then 0 else step
      | None => 0
      end
  | _ => 0
  end.
(** The links of a block, each transaction running on the state left by the
    ones before it. *)
Fixpoint block_links (txs : list SignedTx) (s : State) : Z :=
  match txs with
  | [] => 0
  | tx :: txs => links_hashed s tx + block_links txs (apply_tx_at tx None s).1
  end.
Definition tx_cost (chain : State) (tx : SignedTx) : Z :=
  match stx_payload tx with Tx.ChannelSettle id _ step => settle_cost chain id step | _ => 0 end.

Lemma settle_delta_Some s id step d :
  settle_delta s id step = Some d → ∃ c, st_channels s !! id = Some c ∧ chan_refunded c = false ∧
    cs_highest_step_settled (chan_state c) < step ≤ cs_max_steps (chan_state c) ∧
    d = step - cs_highest_step_settled (chan_state c).
Proof.
  unfold settle_delta. destruct (st_channels s !! id) as [c|]; [|done]. cbn.
  destruct (chan_refunded c) eqn:Hr; [done|].
  destruct (_ <=? _) eqn:H1; [done|]. cbn [orb]. destruct (_ <? _) eqn:H2; [done|].
  intros [= <-]. apply Z.leb_gt in H1. apply Z.ltb_ge in H2. exists c. by split_and!.
Qed.
(** A settlement refused before hashing on a known channel stays so. *)
Lemma settle_delta_back s s' id step d c :
  channels_evolve s s' → st_channels s !! id = Some c → settle_delta s' id step = Some d →
  is_Some (settle_delta s id step).
Proof.
  intros He Hc (c' & Hc' & Hr & Hs & _)%settle_delta_Some.
  destruct (He _ _ Hc) as (c2 & Hc2 & Ht & Hh & Href). rewrite Hc' in Hc2. injection Hc2 as <-.
  apply (f_equal cs_max_steps) in Ht. cbn in Ht.
  unfold settle_delta. rewrite Hc. cbn. destruct (chan_refunded c) eqn:Hrc.
  - rewrite (Href eq_refl) in Hr. congruence.
  - rewrite (proj2 (Z.leb_gt _ _)), (proj2 (Z.ltb_ge _ _)) by lia. eauto.
Qed.

Lemma max_delta_val : MAX_SETTLE_DELTA = 65536. Proof. done. Qed.
Lemma max_links_val : MAX_SETTLE_LINKS_PER_BLOCK = 131072. Proof. done. Qed.
Lemma settle_cost_bounds s id step : 0 ≤ step → 0 ≤ settle_cost s id step ≤ step.
Proof.
  intros H. unfold settle_cost, settle_links. destruct (settle_delta s id step); cbn; [lia|].
  case_bool_decide; [lia|]. rewrite max_delta_val. case_match; lia.
Qed.
Lemma settle_cost_known s id step c :
  st_channels s !! id = Some c →
  settle_cost s id step = if bool_decide (is_Some (settle_delta s id step)) then step else 0.
Proof.
  intros Hc. unfold settle_cost, settle_links. destruct (settle_delta s id step); cbn; [done|].
  by rewrite Hc.
Qed.

(** What the settle check of the door says of every later chain. *)
Definition settle_checked (s : State) (tx : SignedTx) : Prop :=
  stx_ok tx ∧ ∃ s0, channels_evolve s0 s ∧ channel_settle_cap tx s0 = Ok tt.
Lemma settle_checked_later s s' tx : channels_evolve s s' → settle_checked s tx → settle_checked s' tx.
Proof. intros He (Hok & s0 & H0 & Hc). split; [done|]. exists s0. split; [by etrans|done]. Qed.
Lemma channel_settle_cap_ok tx s0 id word step :
  channel_settle_cap tx s0 = Ok tt → stx_payload tx = Tx.ChannelSettle id word step →
  settle_cost s0 id step ≤ MAX_SETTLE_LINKS_PER_BLOCK ∧
  (st_channels s0 !! id = None → step ≤ MAX_SETTLE_DELTA).
Proof.
  unfold channel_settle_cap. intros H E. rewrite E in H. apply bindR_ok in H as (u & H1 & H2).
  apply refuseR_ok, Z.ltb_ge in H2. split; [done|]. intros Hn. unfold settle_delta in H1.
  rewrite Hn in H1. cbn in H1. apply refuseR_ok in H1. by apply Z.ltb_ge in H1.
Qed.
Lemma settle_checked_cost s tx :
  settle_checked s tx → 0 ≤ tx_cost s tx ≤ MAX_SETTLE_LINKS_PER_BLOCK.
Proof.
  intros ([Hok _] & s0 & He & Hcap). unfold tx_cost. rewrite max_links_val.
  destruct (stx_payload tx) as [| | | | |id word step| | | | | | | | |] eqn:E; try lia.
  cbn in Hok. destruct (channel_settle_cap_ok _ _ _ _ _ Hcap E) as [Hc Hn]. rewrite max_links_val in Hc.
  pose proof (settle_cost_bounds s id step ltac:(ulia)) as Hb.
  destruct (st_channels s0 !! id) as [c|] eqn:Hch.
  - rewrite (settle_cost_known _ _ _ c Hch) in Hc. destruct (He _ _ Hch) as (c' & Hch' & _).
    rewrite (settle_cost_known _ _ _ c' Hch') in *.
    destruct (settle_delta s id step) as [d|] eqn:Hd; [|by rewrite bool_decide_eq_false_2 in * by by intros []].
    pose proof (settle_delta_back _ _ _ _ _ _ He Hch Hd) as Hs. rewrite bool_decide_eq_true_2 in Hc by done. lia.
  - specialize (Hn eq_refl). rewrite max_delta_val in Hn. lia.
Qed.
(** The cost is what running it, later in the block, hashes at most. *)
Lemma links_hashed_cost s si tx :
  settle_checked s tx → channels_evolve s si → links_hashed si tx ≤ tx_cost s tx.
Proof.
  intros Hck He. pose proof (settle_checked_cost s tx Hck) as [H0 _].
  destruct Hck as ([Hok _] & s0 & He0 & Hcap). unfold links_hashed, tx_cost in *.
  destruct (stx_payload tx) as [| | | | |id word step| | | | | | | | |] eqn:E; try done.
  destruct (settle_delta si id step) as [d|] eqn:Hd; [|done]. case_match; [done|].
  destruct (st_channels s !! id) as [c|] eqn:Hch.
  - rewrite (settle_cost_known _ _ _ c Hch), bool_decide_eq_true_2; [done|by eapply settle_delta_back].
  - destruct (channel_settle_cap_ok _ _ _ _ _ Hcap E) as [_ Hn]. unfold settle_cost, settle_links, settle_delta.
    rewrite Hch. cbn. assert (st_channels s0 !! id = None) as Hs0.
    { destruct (st_channels s0 !! id) eqn:F; [|done]. destruct (He0 _ _ F) as (? & ? & _). congruence. }
    specialize (Hn Hs0). case_match; lia.
Qed.

(** ** The proposer *)

Definition cost_sum (chain : State) (l : list SignedTx) : Z :=
  foldr (λ tx acc, tx_cost chain tx + acc) 0 l.

Lemma budget_add links cost :
  (MAX_SETTLE_LINKS_PER_BLOCK <? sat_add u64_max links cost) = false →
  sat_add u64_max links cost = links + cost ∧ links + cost ≤ MAX_SETTLE_LINKS_PER_BLOCK.
Proof. rewrite max_links_val. unfold sat_add. intros H%Z.ltb_ge. ulia. Qed.

(** One turn of the loop: the block is full, the transaction is held, or it is
    picked and its cost counted. *)
Lemma select_loop_step chain tx rest room held links hs :
  0 ≤ links →
  select_loop chain (tx :: rest) room held links hs =
  if room <=? 0 then ([], held)
  else if bool_decide (stx_sender tx ∈ hs) then select_loop chain rest room (held + 1) links hs
  else if MAX_SETTLE_LINKS_PER_BLOCK <? sat_add u64_max links (tx_cost chain tx) then
    match stx_payload tx with
    | Tx.ChannelSettle _ _ _ => select_loop chain rest room (held + 1) links ({[stx_sender tx]} ∪ hs)
    | _ => let '(picked, h) := select_loop chain rest (room - 1) held links hs in (tx :: picked, h)
    end
  else let '(picked, h) := select_loop chain rest (room - 1) held (links + tx_cost chain tx) hs in
       (tx :: picked, h).
Proof.
  intros Hl. cbn [select_loop]. unfold tx_cost. destruct (room <=? 0); [done|]. case_bool_decide; [done|].
  destruct (stx_payload tx) as [| | | | |id word step| | | | | | | | |];
    try (rewrite Z.add_0_r; by destruct (_ <? _)).
  destruct (_ <? _) eqn:E; [done|]. apply budget_add in E as [-> _]. done.
Qed.

Lemma select_loop_ok chain pending room held links hs picked held' :
  Forall (settle_checked chain) pending → 0 ≤ links ≤ MAX_SETTLE_LINKS_PER_BLOCK → 0 ≤ room →
  select_loop chain pending room held links hs = (picked, held') →
  picked `sublist_of` pending ∧ Z.of_nat (length picked) ≤ room ∧
  links + cost_sum chain picked ≤ MAX_SETTLE_LINKS_PER_BLOCK.
Proof.
  intros Hp. revert room held links hs picked held'.
  induction Hp as [|tx rest Htx _ IH]; intros room held links hs picked held' Hl Hr H.
  { injection H as <- _. cbn. split_and!; [done|done|lia]. }
  rewrite select_loop_step in H by lia. pose proof (settle_checked_cost _ _ Htx) as Hc.
  assert (∀ held links hs' picked h, select_loop chain rest room held links hs' = (picked, h) →
    0 ≤ links ≤ MAX_SETTLE_LINKS_PER_BLOCK → picked `sublist_of` tx :: rest ∧
    Z.of_nat (length picked) ≤ room ∧ links + cost_sum chain picked ≤ MAX_SETTLE_LINKS_PER_BLOCK) as Hskip.
  { intros ????? Hs Hb. destruct (IH _ _ _ _ _ _ Hb Hr Hs) as (? & ? & ?). auto using sublist_cons. }
  destruct (Z.leb_spec room 0).
  { injection H as <- _. cbn. split_and!; [apply sublist_nil_l|lia|lia]. }
  case_bool_decide; [by eapply Hskip|].
  assert (∀ cost held hs' picked h,
    (let '(picked, h) := select_loop chain rest (room - 1) held (links + cost) hs' in (tx :: picked, h)) = (picked, h) →
    cost = tx_cost chain tx → links + cost ≤ MAX_SETTLE_LINKS_PER_BLOCK → picked `sublist_of` tx :: rest ∧
    Z.of_nat (length picked) ≤ room ∧ links + cost_sum chain picked ≤ MAX_SETTLE_LINKS_PER_BLOCK) as Hpick.
  { intros cost held1 hs1 pk1 h1 Hs -> Hb.
    destruct (select_loop chain rest (room - 1) held1 (links + tx_cost chain tx) hs1) as [pk h'] eqn:Hs'. injection Hs as <- <-.
    apply IH in Hs' as (? & ? & ?); [|lia|lia].
    change (cost_sum chain (tx :: pk)) with (tx_cost chain tx + cost_sum chain pk). rewrite length_cons.
    split_and!; [by apply sublist_skip|lia|lia]. }
  destruct (_ <? _) eqn:E; [|apply budget_add in E as [_ E]; by eapply Hpick].
  unfold tx_cost in Hpick, E. destruct (stx_payload tx); try (by eapply Hskip);
    apply Z.ltb_lt in E; rewrite max_links_val in *; unfold sat_add in E; lia.
Qed.

(** Running the chosen transactions hashes no more than was budgeted. *)
Lemma block_links_cost s si txs :
  Forall (settle_checked s) txs → channels_evolve s si → inv si → block_links txs si ≤ cost_sum s txs.
Proof.
  intros H. revert si. induction H as [|tx txs Htx _ IH]; intros si He Hi; [done|].
  cbn [block_links]. change (cost_sum s (tx :: txs)) with (tx_cost s tx + cost_sum s txs).
  pose proof (links_hashed_cost s si tx Htx He). destruct Htx as [Hok _].
  assert (block_links txs (apply_tx_at tx None si).1 ≤ cost_sum s txs); [|lia].
  apply IH.
  - etrans; [done|]. by apply apply_tx_channels.
  - destruct (apply_tx_at tx None si) as [s' r] eqn:Hr. apply (apply_tx_inv tx None si s' r); [done|done| |done].
    intros ->. by eapply apply_tx_nopanic.
Qed.

(** ** A node: its chain and its pool *)

(** A transaction comes through the door, or blocks are applied and what they
    carried is pruned. *)
Inductive node_step : relation (State * Mempool) :=
  | ns_admit s p p' tx id :
      stx_ok tx → try_admit env_window tx s p = (p', Ok id) → node_step (s, p) (s, p')
  | ns_commit s s' p p' n included k :
      reach n s s' → remove_included included p = (p', Ok k) → node_step (s, p) (s', p').
Definition node_ok (w : State * Mempool) : Prop :=
  inv w.1 ∧ door_ok w.2 ∧ Forall (settle_checked w.1) (mp_q w.2).

Lemma node_step_ok w w' : node_step w w' → node_ok w → node_ok w'.
Proof.
  intros [s p p' tx id Hok Ha|s s' p p' n inc k Hr Hk] (Hi & Hp & Hq); cbn [fst snd] in *.
  - destruct (try_admit_door_ok _ _ _ _ _ _ Ha Hp) as [Hp' _].
    apply try_admit_ok in Ha as (_ & Hc & _ & _ & -> & _). split_and!; [done|done|].
    cbn. apply Forall_app. split; [done|]. constructor; [|constructor]. split; [done|]. by exists s.
  - assert (channels_evolve s s') as He by by eapply reach_channels.
    assert (Forall (settle_checked s') (mp_q p)) as Hq'.
    { eapply Forall_impl; [exact Hq|]. intros tx. by apply settle_checked_later. }
    split; [by eapply reach_inv|]. destruct (decide (inc = [])) as [->|Hinc].
    + rewrite remove_included_nil in Hk. by injection Hk as <- _.
    + destruct (remove_included_ok inc p Hp Hinc) as (p1 & H1 & Hp1 & Hf & _).
      rewrite Hk in H1. injection H1 as -> _. split; [done|]. cbn. rewrite Hf.
      rewrite Forall_forall in Hq' |- *. intros x [_ Hx]%list_elem_of_filter. by apply Hq'.
Qed.
Lemma node_steps_ok s0 cap w :
  inv s0 → 0 ≤ cap → rtc node_step (s0, mempool_new cap) w → node_ok w.
Proof.
  intros Hi Hc Hr. assert (node_ok (s0, mempool_new cap)) as H0.
  { split_and!; [done|by apply door_ok_new|constructor]. }
  revert H0. induction Hr as [|w w1 w2 Hs _ IH]; [done|]. intros H. by eapply IH, node_step_ok.
Qed.

(** C33: a node's own blocks are cheap.  Whatever came through the door while the
    chain moved, the block a node builds from its pool carries transactions of
    the pool in pool order, at most as many as there is room for, and running
    them in that order makes the fleet hash at most [MAX_SETTLE_LINKS_PER_BLOCK]
    settlement links, settlements that are refused included. *)
Theorem proposed_block_settles_bounded s0 cap s p room picked held h t :
  inv s0 → 0 ≤ cap → rtc node_step (s0, mempool_new cap) (s, p) →
  0 ≤ room → select_batch_txs s (mp_q p) room 0 = (picked, held) →
  in_u64 h → in_u64 t → st_time s ≤ t →
  picked `sublist_of` mp_q p ∧ Z.of_nat (length picked) ≤ room ∧
  block_links picked (set_time t (set_height h s)) ≤ MAX_SETTLE_LINKS_PER_BLOCK.
Proof.
  intros Hi Hc Hr Hroom Hsel Hh Ht Hle.
  destruct (node_steps_ok _ _ _ Hi Hc Hr) as (His & _ & Hq). cbn [fst snd] in *.
  apply select_loop_ok in Hsel as (Hsub & Hlen & Hsum); [|done|rewrite max_links_val; lia|done].
  split_and!; [done|done|]. etrans; [apply (block_links_cost s)|lia].
  - rewrite Forall_forall in Hq |- *. intros x Hx. apply Hq. by eapply elem_of_sublist.
  - by apply channels_same.
  - by apply keeps_inv_frame.
Qed.

(** Nothing admitted is parked.  Whatever came through the door while the
    chain moved, the oldest pending transaction is the first one of every block
    the node builds: what the door admits, the proposer carries. *)
Theorem oldest_pending_is_proposed s0 cap s p tx rest room :
  inv s0 → 0 ≤ cap → rtc node_step (s0, mempool_new cap) (s, p) →
  mp_q p = tx :: rest → 0 < room →
  ∃ picked held, select_batch_txs s (mp_q p) room 0 = (tx :: picked, held).
Proof.
  intros Hi Hc Hr Hq Hroom. destruct (node_steps_ok _ _ _ Hi Hc Hr) as (_ & _ & Hck). cbn [fst snd] in *.
  rewrite Hq in Hck |- *. apply Forall_cons in Hck as [Htx _]. apply settle_checked_cost in Htx as [H0 Hb].
  unfold select_batch_txs. rewrite select_loop_step by lia.
  rewrite (proj2 (Z.leb_gt _ _)) by lia. rewrite bool_decide_eq_false_2 by set_solver.
  rewrite (proj2 (Z.ltb_ge _ _)).
  - destruct (select_loop _ _ _ _ _ _). eauto.
  - rewrite max_links_val in *. unfold sat_add. lia.
Qed.

(** An admitted transaction passes the envelope checks of its block.  At the
    account's nonce it passes them now; ahead of it, the transaction one nonce
    below is pending, and in every state that transaction leaves when it is
    accepted the envelope of this one is right. *)
Theorem admitted_envelope_applies cap tx chain p p' id :
  0 ≤ cap → rtc (door_step env_window) (mempool_new cap) p → stx_ok tx → try_admit env_window tx chain p = (p', Ok id) →
  (∃ acc, st_accounts chain !! stx_sender tx = Some acc ∧ stx_nonce tx = acc_nonce acc ∧
     check_envelope tx None chain = Ok tt) ∨
  ∃ prev, prev ∈ mp_q p ∧ slot_of prev = (stx_sender tx, stx_nonce tx - 1) ∧
    ∀ pre s s' ev, apply_tx_at prev pre s = (s', Ok ev) → check_envelope tx None s' = Ok tt.
Proof.
  intros Hc Hr [_ Hn] Ha. destruct (door_steps_ok _ _ _ Hr (door_ok_new cap Hc)) as [Hp _].
  apply try_admit_ok in Ha as (_ & _ & Hv & _ & _ & acc & [Hacc Hle _ He]).
  assert (∀ s a, st_accounts s !! stx_sender tx = Some a → stx_nonce tx = acc_nonce a →
    pk_commit (stx_lamport_pk tx) = acc_auth_commit a → check_envelope tx None s = Ok tt) as Hpass.
  { intros s a Hs Hna Hpk. unfold check_envelope. rewrite Hs. cbn [ok_orR bindR].
    rewrite Hna, Z.eqb_refl, bool_decide_eq_true_2 by done. cbn. by rewrite Hv. }
  unfold expected_auth in He. destruct (Z.eqb_spec (stx_nonce tx) (acc_nonce acc)) as [Heq|Hne].
  - left. exists acc. injection He as He. split_and!; [done|done|by eapply Hpass].
  - right. apply ok_orR_ok in He. rewrite (do_keys p Hp) in He.
    apply elem_of_list_to_map_2, list_elem_of_fmap in He as (prev & Hk & Hin). injection Hk as H1 H2 H3.
    exists prev. split_and!; [done|unfold slot_of; congruence|]. intros pre s s' ev Hap.
    apply apply_tx_ok in Hap as [Henv _ (s2 & acc2 & Hacc2 & Hl & ->)].
    apply check_envelope_ok in Henv as (acc1 & Hl1 & Hn1 & _).
    apply (accepts_accounts _ _ _ _ _ (stx_sender prev) acc1) in Hacc2; [|by rewrite charged_accounts].
    rewrite Hl in Hacc2. injection Hacc2 as ->.
    apply (Hpass _ (mkAccount (stx_next_auth prev) (wrapping u64_max (acc_nonce acc1 + 1)))).
    + cbn. by rewrite H1, lookup_insert_eq.
    + cbn. rewrite wrapping_small; ulia.
    + done.
Qed.

(** The cost is not a bound without the door: on a chain past the cap height, a
    channel opened and settled ahead in the same block lets a settlement hash
    twice what [settle_cost] says.  (The door never admits such a step for a
    channel it does not know.) *)
Lemma cost_undercounts_new_channels (s : State) id word c sender next pk sg :
  st_channels s !! id = None → st_payword_cap_from s ≤ st_height s → in_u64 (st_height s) →
  chan_refunded c = false → cs_max_steps (chan_state c) = MAX_CHANNEL_STEPS →
  cs_highest_step_settled (chan_state c) = MAX_SETTLE_DELTA →
  let tx := mkSignedTx sender 0 (Tx.ChannelSettle id word MAX_CHANNEL_STEPS) next pk sg in
  let si := set_channels (<[id := c]> (st_channels s)) s in
  channels_evolve s si ∧ tx_cost s tx = MAX_SETTLE_DELTA ∧ links_hashed si tx = 2 * MAX_SETTLE_DELTA.
Proof.
  intros Hn Hcap Hh Hr Hm Hp. cbn zeta. split_and!.
  - eapply channels_insert; [done|]. congruence.
  - unfold tx_cost, settle_cost, settle_links, settle_delta. cbn [stx_payload]. rewrite Hn.
    cbn [mbind option_bind fmap option_fmap option_map]. rewrite bool_decide_eq_false_2 by by intros [? [=]].
    rewrite (proj2 (Z.leb_le _ _)); [done|]. unfold sat_add. ulia.
  - unfold links_hashed, settle_delta. cbn [stx_payload st_channels set_channels].
    rewrite lookup_insert_eq. cbn [mbind option_bind]. rewrite Hr, Hp, Hm.
    replace (_ || _) with false by done. replace (MAX_SETTLE_DELTA <? _) with false by done.
    by rewrite andb_false_r.
Qed.

(** Admission is exactly its checks. *)
Lemma try_admit_intro tx chain p id acc :
  gate p tx = Ok id → channel_settle_cap tx chain = Ok tt → channel_open_cap tx = Ok tt →
  Z.of_nat (length (stx_lamport_pk tx)) = PK_LEN → Z.of_nat (length (stx_sig tx)) = SIG_LEN →
  verify_envelope tx = true → admitted_by p tx chain (pk_commit (stx_lamport_pk tx)) acc →
  stx_nonce tx < wrapping u64_max (acc_nonce acc + nonce_window env_window) →
  try_admit env_window tx chain p = (admitted tx id p, Ok id).
Proof.
  intros Hg Hs Ho Hpk Hsg Hv [Hacc Hle Hn He] Hw. unfold try_admit, bindM at 1, readM. rewrite Hg.
  unfold bindM at 1. rewrite Hs. unfold admit_gated, gated_checks, envelope_verdict.
  rewrite Hpk, Hsg, Ho, Hv. cbn [Z.eqb negb orb ev_pk_commit ev_signature]. rewrite !Z.eqb_refl. cbn [negb orb].
  unfold bindM at 1, readM. cbn [ev_pk_commit ev_signature]. rewrite Hacc. cbn [ok_orR bindR].
  rewrite (proj2 (Z.ltb_ge _ _)), (proj2 (Z.leb_gt _ _)) by lia. cbn [refuseR bindR].
  rewrite Hn. cbn [bindR]. rewrite He. cbn [bindR]. by rewrite bool_decide_eq_true_2.
Qed.
End node.

(** * Witnesses *)

#[local] Existing Instances toy_shake toy_sha2 toy_codecs.
Definition toy_stx : StxCodec := {| json_stx := λ tx, Some (u64_le (stx_nonce tx)) |}.
#[local] Existing Instance toy_stx.

(** Anyone may settle: Alice, with a generated one-time key, signs the
    settlement of two steps of the demo channel. *)
Module Sample.
Definition keys : bytes * bytes := keygen [x01] 0.
Definition payload : Tx := Tx.ChannelSettle (id_of 20) (id_of 7) 2.
Definition digest : H256 := default (id_of 0) (signing_digest payload alice 0 (id_of 9)).
Definition tx : SignedTx := mkSignedTx alice 0 payload (id_of 9) keys.2 (sign keys.1 digest).
Definition chain : State := set_accounts {[alice := mkAccount (pk_commit keys.2) 0]} demo_open.
Definition id : H256 := shake256_32 DOM_TXID [u64_le 0].
Definition pool : Mempool := admitted tx id (mempool_new 4).
End Sample.

Lemma sample_tx_ok : stx_ok Sample.tx.
Proof. split; cbn; ulia. Qed.
Lemma sample_inv : inv Sample.chain.
Proof. apply inv_set_accounts, inv_demo_open. Qed.
Lemma sample_verified : verify_envelope Sample.tx = true.
Proof.
  unfold verify_envelope. change (stx_digest Sample.tx) with (Some Sample.digest). cbv iota beta.
  unfold Sample.tx. cbn [stx_lamport_pk stx_sig]. unfold Sample.keys. by rewrite verify_sign.
Qed.
Lemma channels_set_accounts a s : st_channels (set_accounts a s) = st_channels s.
Proof. done. Qed.
Lemma sample_settle_delta : settle_delta Sample.chain (id_of 20) 2 = Some 2.
Proof.
  unfold settle_delta, Sample.chain. rewrite channels_set_accounts.
  rewrite demo_open_channel. cbn [mbind option_bind demo_channel chan_refunded chan_state]. reflexivity.
Qed.
Lemma sample_cost : settle_cost Sample.chain (id_of 20) 2 = 2.
Proof. unfold settle_cost, settle_links. by rewrite sample_settle_delta. Qed.
Lemma sample_admitted :
  try_admit None Sample.tx Sample.chain (mempool_new 4) = (Sample.pool, Ok Sample.id).
Proof.
  apply (try_admit_intro None Sample.tx Sample.chain (mempool_new 4) Sample.id
           (mkAccount (pk_commit Sample.keys.2) 0)).
  - unfold gate. cbn [mempool_new mp_cap mp_len mp_q mp_ids mp_keys length Z.of_nat Z.leb Z.compare refuseR bindR].
    change (txid Sample.tx) with (Ok (E := AdmitError) Sample.id). cbn [bindR].
    by rewrite bool_decide_eq_false_2, bool_decide_eq_false_2 by (rewrite ?lookup_empty; set_solver).
  - unfold channel_settle_cap, Sample.tx. cbn [stx_payload Sample.payload]. unfold Sample.payload.
    by rewrite sample_settle_delta, sample_cost.
  - done.
  - apply length_keygen_pk.
  - apply length_sign.
  - exact sample_verified.
  - constructor; [apply lookup_singleton_eq|done|done|done].
  - done.
Qed.
Lemma sample_step : door_step None (mempool_new 4) Sample.pool.
Proof. eapply ds_admit, sample_admitted. Qed.
Lemma sample_node : rtc (node_step None) (Sample.chain, mempool_new 4) (Sample.chain, Sample.pool).
Proof. apply rtc_once. eapply ns_admit; [exact sample_tx_ok|exact sample_admitted]. Qed.

Lemma pool_is_indexed_queue_witness :
  door_ok Sample.pool ∧ mp_cap Sample.pool = 4 ∧
  restore (mp_q Sample.pool) (mempool_new 4) = (Sample.pool, Ok tt) ∧
  ∀ included, included ≠ [] →
    ∃ p', remove_included included Sample.pool = (p', Ok (mp_len Sample.pool - mp_len p')) ∧
    mp_q p' = filter (λ tx, slot_of tx ∉ included) (mp_q Sample.pool).
Proof. apply (pool_is_indexed_queue None 4); [lia|apply rtc_once, sample_step]. Defined.

Lemma proposed_block_settles_bounded_witness :
  [Sample.tx] `sublist_of` mp_q Sample.pool ∧ Z.of_nat 1 ≤ 10 ∧
  block_links [Sample.tx] (set_time 0 (set_height 1 Sample.chain)) ≤ MAX_SETTLE_LINKS_PER_BLOCK.
Proof.
  apply (proposed_block_settles_bounded None Sample.chain 4 Sample.chain Sample.pool 10 [Sample.tx] 0 1 0).
  - exact sample_inv.
  - lia.
  - exact sample_node.
  - lia.
  - change (mp_q Sample.pool) with [Sample.tx]. unfold select_batch_txs. rewrite select_loop_step by lia.
    unfold tx_cost. change (stx_payload Sample.tx) with Sample.payload. unfold Sample.payload.
    by rewrite sample_cost.
  - ulia.
  - ulia.
  - done.
Defined.

Lemma oldest_pending_is_proposed_witness :
  ∃ picked held, select_batch_txs Sample.chain (mp_q Sample.pool) 10 0 = (Sample.tx :: picked, held).
Proof.
  apply (oldest_pending_is_proposed None Sample.chain 4 Sample.chain Sample.pool Sample.tx [] 10).
  - exact sample_inv.
  - lia.
  - exact sample_node.
  - done.
  - lia.
Defined.

Lemma admitted_envelope_applies_witness :
  (∃ acc, st_accounts Sample.chain !! alice = Some acc ∧ 0 = acc_nonce acc ∧
     check_envelope Sample.tx None Sample.chain = Ok tt) ∨
  ∃ prev, prev ∈ mp_q (mempool_new 4) ∧ slot_of prev = (alice, 0 - 1) ∧
    ∀ pre s s' ev, apply_tx_at prev pre s = (s', Ok ev) → check_envelope Sample.tx None s' = Ok tt.
Proof.
  apply (admitted_envelope_applies None 4 Sample.tx Sample.chain (mempool_new 4) Sample.pool Sample.id).
  - lia.
  - constructor.
  - exact sample_tx_ok.
  - exact sample_admitted.
Defined.
