(* ===== verification/Streaming.v ===== *)
(** Proposal streams (hk-node/src/streaming.rs, the stream messages of
    vendor/external/malachite engine/src/util/streaming.rs, and the proposal
    half of hk-node/src/state.rs: [stream_proposal], [received_proposal_part],
    the undecided values).

    A proposal travels as numbered messages that gossip may reorder, repeat and
    interleave with other streams.  [BinaryHeap] pops the least sequence first;
    one stream never holds two messages of one sequence, so its drain is the
    sorted buffer. *)

From S2P Require Export Messages.
From S2P Require Import Toy.
#[local] Open Scope Z_scope.

(** * Data *)

Inductive StreamContent := SData (part : HkProposalPart) | SFin.
Record StreamMessage := mkStreamMessage {
  sm_stream_id : bytes;
  sm_sequence : Z;
  sm_content : StreamContent;
}.
#[export] Instance HkProposalInit_eq_dec : EqDecision HkProposalInit.
Proof. solve_decision. Defined.
#[export] Instance HkProposalPart_eq_dec : EqDecision HkProposalPart.
Proof. solve_decision. Defined.
#[export] Instance StreamContent_eq_dec : EqDecision StreamContent.
Proof. solve_decision. Defined.
#[export] Instance StreamMessage_eq_dec : EqDecision StreamMessage.
Proof. solve_decision. Defined.
Definition msg_is_first (m : StreamMessage) : bool := m.(sm_sequence) =? 0.
Definition as_data (c : StreamContent) : option HkProposalPart :=
  match c with SData p => Some p | SFin => None end.
Definition content_is_fin (c : StreamContent) : bool := match c with SFin => true | SData _ => false end.
Definition msg_is_fin (m : StreamMessage) : bool := content_is_fin m.(sm_content).

Record StreamState := mkStreamState {
  ss_buffer : list StreamMessage;
  ss_init : option HkProposalInit;
  ss_seen : gset Z;
  ss_total : Z;
  ss_fin : bool;
}.
Definition stream_default : StreamState := mkStreamState [] None ∅ 0 false.

Record ProposalParts := mkProposalParts {
  pp_height : HkHeight;
  pp_round : Round;
  pp_pol_round : Round;
  pp_proposer : HkAddress;
  pp_parts : list HkProposalPart;
}.

Inductive Validity := Valid | Invalid.
Record ProposedValue := mkProposedValue {
  pv_height : HkHeight;
  pv_round : Round;
  pv_valid_round : Round;
  pv_proposer : HkAddress;
  pv_value : HkValue;
  pv_validity : Validity;
}.
Record LocallyProposedValue := mkLocallyProposed {
  lp_height : HkHeight;
  lp_round : Round;
  lp_value : HkValue;
}.

(** * One stream *)

Definition is_done (s : StreamState) : bool :=
  bool_decide (is_Some s.(ss_init)) && s.(ss_fin) && (Z.of_nat (length s.(ss_buffer)) =? s.(ss_total)).
Definition seq_leb (a b : StreamMessage) : bool := a.(sm_sequence) <=? b.(sm_sequence).
Definition drain (buffer : list StreamMessage) : list HkProposalPart :=
  omap (λ m, as_data m.(sm_content)) (sort_by seq_leb buffer).

(** [StreamState::insert] *)
Definition state_insert (m : StreamMessage) (s : StreamState) : StreamState * option ProposalParts :=
  let init := if msg_is_first m then as_data m.(sm_content) ≫= as_init else s.(ss_init) in
  let fin := msg_is_fin m || s.(ss_fin) in
  let total := if msg_is_fin m then wrapping u64_max (m.(sm_sequence) + 1) else s.(ss_total) in
  let s := mkStreamState (s.(ss_buffer) ++ [m]) init s.(ss_seen) total fin in
  if is_done s then
    match s.(ss_init) with
    | Some i =>
        (mkStreamState [] None s.(ss_seen) s.(ss_total) s.(ss_fin),
         Some (mkProposalParts i.(init_height) i.(init_round) i.(init_pol_round) i.(init_proposer)
                 (drain s.(ss_buffer))))
    | None => (s, None)
    end
  else (s, None).

Definition parts_fin (p : ProposalParts) : option H256 := head (omap as_fin p.(pp_parts)).

(** * All streams, by sender and stream id *)

Section streams.
Context {PeerId : Type} `{Countable PeerId}.

#[local] Notation PartStreamsMap := (gmap (PeerId * bytes) StreamState).

Definition streams_insert (peer : PeerId) (m : StreamMessage) (streams : PartStreamsMap)
    : PartStreamsMap * option ProposalParts :=
  let key := (peer, m.(sm_stream_id)) in
  let state := default stream_default (streams !! key) in
  if bool_decide (m.(sm_sequence) ∈ state.(ss_seen)) then (<[key := state]> streams, None)
  else
    let state := mkStreamState state.(ss_buffer) state.(ss_init) ({[m.(sm_sequence)]} ∪ state.(ss_seen))
                   state.(ss_total) state.(ss_fin) in
    let '(state, result) := state_insert m state in
    let streams := <[key := state]> streams in
    (if is_done state then delete key streams else streams, result).

(** * The node's proposals *)

(** The streams being received and the undecided values, by height and round. *)
Record Proposals := mkProposals {
  pr_streams : PartStreamsMap;
  pr_undecided : gmap (Z * Z) (list ProposedValue);
}.

Definition same_proposal (v e : ProposedValue) : bool :=
  bool_decide (val_id e.(pv_value) = val_id v.(pv_value)) && bool_decide (e.(pv_proposer) = v.(pv_proposer)).
Definition round_key (height : HkHeight) (round : Round) : Z * Z := (height, round_as_i64 round).
Definition store_undecided (v : ProposedValue) (p : Proposals) : Proposals :=
  let key := round_key v.(pv_height) v.(pv_round) in
  let entry := default [] (p.(pr_undecided) !! key) in
  mkProposals p.(pr_streams)
    (<[key := if existsb (same_proposal v) entry then entry else entry ++ [v]]> p.(pr_undecided)).
Definition undecided_at (height : HkHeight) (round : Round) (p : Proposals) : list ProposedValue :=
  default [] (p.(pr_undecided) !! round_key height round).
Definition find_undecided (height : HkHeight) (round : Round) (id : H256) (p : Proposals) : option ProposedValue :=
  vs ← p.(pr_undecided) !! round_key height round;
  find (λ v, bool_decide (val_id v.(pv_value) = id)) vs.
Definition previously_built (address : HkAddress) (height : HkHeight) (round : Round) (p : Proposals)
    : option LocallyProposedValue :=
  vs ← p.(pr_undecided) !! round_key height round;
  v ← find (λ v, bool_decide (v.(pv_proposer) = address)) vs;
  Some (mkLocallyProposed v.(pv_height) v.(pv_round) v.(pv_value)).

Section hashed.
Context {SHAKE : Shake}.

(** [propose_value], the payload built by [build_batch] being an argument. *)
Definition propose_value (address : HkAddress) (height : HkHeight) (round : Round) (payload : bytes)
    (p : Proposals) : Proposals * LocallyProposedValue :=
  let value := value_new payload in
  (store_undecided (mkProposedValue height round RNil address value Valid) p,
   mkLocallyProposed height round value).

Definition proposal_stream_id (height : HkHeight) (round : Round) : bytes :=
  u64_le height ++ i64_le (round_as_i64 round).
Definition stream_proposal (address : HkAddress) (v : LocallyProposedValue) (pol_round : Round)
    : list StreamMessage :=
  let sid := proposal_stream_id v.(lp_height) v.(lp_round) in
  [ mkStreamMessage sid 0 (SData (PartInit (mkHkProposalInit v.(lp_height) v.(lp_round) pol_round address)));
    mkStreamMessage sid 1 (SData (PartTxBatch (val_txs v.(lp_value))));
    mkStreamMessage sid 2 (SData (PartFin (val_id v.(lp_value))));
    mkStreamMessage sid 3 SFin ].

Definition proposed_of (parts : ProposalParts) : ProposedValue :=
  let value := value_new (concat (omap as_tx_batch parts.(pp_parts))) in
  let validity := match parts_fin parts with
                  | Some id => if bool_decide (id = val_id value) then Valid else Invalid
                  | None => Invalid
                  end in
  mkProposedValue parts.(pp_height) parts.(pp_round) parts.(pp_pol_round) parts.(pp_proposer) value validity.
Definition received_proposal_part (from : PeerId) (m : StreamMessage) (p : Proposals)
    : Proposals * option ProposedValue :=
  let '(streams, result) := streams_insert from m p.(pr_streams) in
  let p := mkProposals streams p.(pr_undecided) in
  match result with
  | None => (p, None)
  | Some parts => let v := proposed_of parts in (store_undecided v p, Some v)
  end.
End hashed.

(** * Reassembly *)

Lemma StronglySorted_weaken {A} (R R' : relation A) l :
  (∀ a b, R a b → R' a b) → StronglySorted R l → StronglySorted R' l.
Proof.
  intros HR. induction 1 as [|x l _ IH Hf]; constructor; [done|].
  eapply Forall_impl; [exact Hf|]. apply HR.
Qed.

Lemma StronglySorted_NoDup {A} (R : relation A) l : (∀ a, ¬ R a a) → StronglySorted R l → NoDup l.
Proof.
  intros HR. induction 1 as [|x l _ IH Hf]; [apply NoDup_nil_2|apply NoDup_cons_2; [|done]].
  intros Hin. rewrite Forall_forall in Hf. by eapply HR, Hf.
Qed.

(** A stream as an honest sender emits it: numbered from 0, an [Init] first, the
    end marker last and nowhere else. *)
Record honest_stream (sid : bytes) (i : HkProposalInit) (msgs : list StreamMessage) : Prop := mkHonest {
  hs_seq k m : msgs !! k = Some m → m.(sm_sequence) = Z.of_nat k;
  hs_id : Forall (λ m, m.(sm_stream_id) = sid) msgs;
  hs_init m : m ∈ msgs → m.(sm_sequence) = 0 → m.(sm_content) = SData (PartInit i);
  hs_fin m : m ∈ msgs → msg_is_fin m = (m.(sm_sequence) =? Z.of_nat (length msgs) - 1);
  hs_len : 2 ≤ Z.of_nat (length msgs) ≤ u64_max;
}.

Section honest.
Context (sid : bytes) (i : HkProposalInit) (msgs : list StreamMessage) (Hon : honest_stream sid i msgs).
Implicit Types (S : gset Z) (m : StreamMessage).

#[local] Notation received S := (filter (λ m, m.(sm_sequence) ∈ S) msgs).
Definition complete S : Prop := ∀ m, m ∈ msgs → m.(sm_sequence) ∈ S.
#[export] Instance complete_dec S : Decision (complete S).
Proof.
  refine (cast_if (decide (Forall (λ m, m.(sm_sequence) ∈ S) msgs))); unfold complete; by rewrite Forall_forall in *.
Defined.

Definition last_seq : Z := Z.of_nat (length msgs) - 1.

(** The state of the stream after the sequences [S] were received. *)
Record tracks S (s : StreamState) : Prop := mkTracks {
  tr_seen : s.(ss_seen) = S;
  tr_fin : s.(ss_fin) = bool_decide (last_seq ∈ S);
  tr_total : s.(ss_total) = if bool_decide (last_seq ∈ S) then Z.of_nat (length msgs) else 0;
  tr_buffer : if decide (complete S) then s.(ss_buffer) = [] else s.(ss_buffer) ≡ₚ received S;
  tr_init : s.(ss_init) = if decide (complete S) then None else if bool_decide (0 ∈ S) then Some i else None;
}.

Lemma seq_inj m m' : m ∈ msgs → m' ∈ msgs → m.(sm_sequence) = m'.(sm_sequence) → m = m'.
Proof.
  intros [k Hk]%list_elem_of_lookup [k' Hk']%list_elem_of_lookup Heq.
  pose proof (hs_seq _ _ _ Hon _ _ Hk). pose proof (hs_seq _ _ _ Hon _ _ Hk').
  assert (k = k') as -> by lia. congruence.
Qed.
Lemma msgs_sorted : StronglySorted (λ a b, a.(sm_sequence) < b.(sm_sequence)) msgs.
Proof.
  assert (∀ n k l, (∀ j m, l !! j = Some m → m.(sm_sequence) = Z.of_nat (k + j)) → length l = n →
    StronglySorted (λ a b, a.(sm_sequence) < b.(sm_sequence)) l) as Hgen.
  { induction n as [|n IH]; intros k [|m l] Hl Hn; try done; constructor.
    - apply (IH (Datatypes.S k)); [|by injection Hn]. intros j m' Hj.
      rewrite (Hl (Datatypes.S j) m' Hj). lia.
    - apply Forall_forall. intros m' [j Hj]%list_elem_of_lookup.
      rewrite (Hl 0%nat m eq_refl), (Hl (Datatypes.S j) m' Hj). lia. }
  eapply (Hgen _ 0%nat); [|done]. intros j m Hj. by apply (hs_seq _ _ _ Hon).
Qed.
Lemma msgs_nodup : NoDup msgs.
Proof.
  apply (StronglySorted_NoDup (λ a b, a.(sm_sequence) < b.(sm_sequence))); [lia|exact msgs_sorted].
Qed.

(** Draining any arrangement of the whole stream gives it back in order. *)
Lemma sort_msgs l : l ≡ₚ msgs → sort_by seq_leb l = msgs.
Proof.
  intros Hp. assert (sort_by seq_leb l ≡ₚ msgs) as Hp2 by by rewrite sort_by_perm.
  assert (StronglySorted (λ a b, seq_leb a b = true) (sort_by seq_leb l)) as Hs.
  { apply sort_by_sorted; unfold seq_leb; intros; lia. }
  apply (StronglySorted_unique_strong (λ a b, seq_leb a b = true)); [|exact Hs| |exact Hp2].
  - intros a b Ha Hb. rewrite Hp2 in Ha. unfold seq_leb. intros. apply seq_inj; [done..|lia].
  - eapply StronglySorted_weaken; [|exact msgs_sorted]. unfold seq_leb. intros. lia.
Qed.

Lemma received_all S : complete S → received S = msgs.
Proof.
  intros HS. unfold complete in HS. assert (∀ l : list StreamMessage, (∀ m, m ∈ l → m.(sm_sequence) ∈ S) →
    filter (λ m, m.(sm_sequence) ∈ S) l = l) as Hl; [|by apply Hl].
  induction l as [|m l IH]; intros Hin; [done|]. rewrite filter_cons, decide_True by (apply Hin; by left).
  f_equal. apply IH. intros x Hx. apply Hin. by right.
Qed.
Lemma received_some S : ¬ complete S → (length (received S) < length msgs)%nat.
Proof.
  intros HS. assert (∃ m, m ∈ msgs ∧ m.(sm_sequence) ∉ S) as (m & Hm & HmS).
  { destruct (decide (Exists (λ m, m.(sm_sequence) ∉ S) msgs)) as [He|He].
    - by apply Exists_exists.
    - exfalso. apply HS. intros m Hm. destruct (decide (m.(sm_sequence) ∈ S)); [done|].
      exfalso. apply He, Exists_exists. eauto. }
  by eapply length_filter_lt.
Qed.
Lemma received_insert S m :
  m ∈ msgs → m.(sm_sequence) ∉ S → received S ++ [m] ≡ₚ received ({[m.(sm_sequence)]} ∪ S).
Proof.
  intros Hm HS. apply NoDup_Permutation.
  - apply NoDup_app. split_and!; [apply NoDup_filter, msgs_nodup| |apply NoDup_singleton].
    intros x [Hx _]%list_elem_of_filter. rewrite list_elem_of_singleton. by intros ->.
  - apply NoDup_filter, msgs_nodup.
  - intros x. rewrite elem_of_app, list_elem_of_singleton, !list_elem_of_filter. split.
    + intros [[??]| ->]; set_solver.
    + intros [[Hx|Hx]%elem_of_union Hin]; [right|by left].
      apply elem_of_singleton in Hx. by apply seq_inj.
Qed.

Lemma msg_at n : 0 ≤ n ≤ last_seq → ∃ m, m ∈ msgs ∧ m.(sm_sequence) = n.
Proof.
  intros Hn. unfold last_seq in Hn. destruct (lookup_lt_is_Some_2 msgs (Z.to_nat n)) as [m Hm]; [lia|].
  exists m. split; [by eapply list_elem_of_lookup_2|]. rewrite (hs_seq _ _ _ Hon _ _ Hm). lia.
Qed.
Lemma msg_range m : m ∈ msgs → 0 ≤ m.(sm_sequence) ≤ last_seq.
Proof.
  intros [k Hk]%list_elem_of_lookup. rewrite (hs_seq _ _ _ Hon _ _ Hk). apply lookup_lt_Some in Hk.
  unfold last_seq. lia.
Qed.
Lemma last_pos : 1 ≤ last_seq.
Proof. pose proof (hs_len _ _ _ Hon). unfold last_seq. lia. Qed.

Lemma if_bool_ext {A} (P Q : Prop) `{Decision P, Decision Q} (x y : A) :
  (P ↔ Q) → (if bool_decide P then x else y) = if bool_decide Q then x else y.
Proof. intros HPQ. by rewrite (bool_decide_ext P Q HPQ). Qed.
Lemma received_none S : S = ∅ → received S = [].
Proof.
  intros HS. destruct (received S) as [|m l] eqn:E; [done|].
  assert (m ∈ received S) as Hm by (rewrite E; by left). apply list_elem_of_filter in Hm as [Hm _]. set_solver.
Qed.
Lemma tracks_start : tracks ∅ stream_default.
Proof.
  assert (¬ complete ∅) as Hc.
  { intros Hc. destruct (msg_at 0) as (m & Hm & _); [pose proof last_pos; lia|]. specialize (Hc _ Hm). set_solver. }
  constructor; unfold stream_default; cbn [ss_buffer ss_init ss_seen ss_total ss_fin].
  - done.
  - by rewrite bool_decide_eq_false_2 by set_solver.
  - by rewrite bool_decide_eq_false_2 by set_solver.
  - rewrite decide_False by done. by rewrite received_none.
  - rewrite decide_False by done. by rewrite bool_decide_eq_false_2 by set_solver.
Qed.

(** One more message of the stream: the parts come out exactly when it was the
    last one missing. *)
Definition note_seen (m : StreamMessage) (s : StreamState) : StreamState :=
  mkStreamState s.(ss_buffer) s.(ss_init) ({[m.(sm_sequence)]} ∪ s.(ss_seen)) s.(ss_total) s.(ss_fin).
Definition stream_parts : ProposalParts :=
  mkProposalParts i.(init_height) i.(init_round) i.(init_pol_round) i.(init_proposer)
    (omap (λ m, as_data m.(sm_content)) msgs).
Lemma state_insert_tracks S s m :
  tracks S s → m ∈ msgs → m.(sm_sequence) ∉ S →
  let S' := {[m.(sm_sequence)]} ∪ S in
  ∃ s', state_insert m (note_seen m s) = (s', if decide (complete S') then Some stream_parts else None) ∧
    tracks S' s' ∧ is_done s' = false.
Proof.
  intros [Hseen Hfin Htot Hbuf Hinit] Hm HS S'.
  assert (¬ complete S) as Hc by (intros Hc; by apply HS, Hc).
  rewrite decide_False in Hbuf by done. rewrite decide_False in Hinit by done.
  pose proof (hs_fin _ _ _ Hon m Hm) as Hmf. fold last_seq in Hmf. pose proof (msg_range m Hm) as Hr.
  set (init := if bool_decide (0 ∈ S') then Some i else None).
  set (fin := bool_decide (last_seq ∈ S')).
  set (total := if bool_decide (last_seq ∈ S') then Z.of_nat (length msgs) else 0).
  assert ((if msg_is_first m then as_data m.(sm_content) ≫= as_init else s.(ss_init)) = init) as Ei.
  { unfold msg_is_first, init, S'. rewrite Hinit. destruct (Z.eqb_spec m.(sm_sequence) 0) as [H0|H0].
    - rewrite (hs_init _ _ _ Hon m Hm H0). by rewrite bool_decide_eq_true_2 by set_solver.
    - apply if_bool_ext. set_solver. }
  assert (msg_is_fin m || s.(ss_fin) = fin) as Ef.
  { unfold fin, S'. rewrite Hmf, Hfin. destruct (Z.eqb_spec m.(sm_sequence) last_seq) as [Hl|Hl]; cbn.
    - symmetry. apply bool_decide_eq_true_2. set_solver.
    - apply bool_decide_ext. set_solver. }
  assert ((if msg_is_fin m then wrapping u64_max (m.(sm_sequence) + 1) else s.(ss_total)) = total) as Et.
  { unfold total, S'. rewrite Hmf, Htot. destruct (Z.eqb_spec m.(sm_sequence) last_seq) as [Hl|Hl].
    - rewrite bool_decide_eq_true_2 by set_solver. pose proof (hs_len _ _ _ Hon).
      unfold last_seq in Hl. rewrite wrapping_small; ulia.
    - apply if_bool_ext. set_solver. }
  assert (s.(ss_buffer) ++ [m] ≡ₚ received S') as Hb by by rewrite Hbuf; apply received_insert.
  unfold state_insert, note_seen. cbn [ss_buffer ss_init ss_seen ss_total ss_fin].
  rewrite Ei, Ef, Et, Hseen. fold S'.
  set (st := mkStreamState _ init S' total fin).
  assert (is_done st = bool_decide (complete S')) as Ed.
  { unfold is_done, st. cbn [ss_buffer ss_init ss_fin ss_total]. rewrite Hb. unfold init, fin, total.
    destruct (bool_decide_reflect (complete S')) as [HS'|HS'].
    - rewrite (received_all _ HS'). destruct (msg_at 0) as (m0 & H0 & Hq0); [pose proof last_pos; lia|].
      destruct (msg_at last_seq) as (ml & Hl & Hql); [pose proof last_pos; lia|].
      rewrite (bool_decide_eq_true_2 (0 ∈ S')) by (rewrite <-Hq0; by apply HS').
      rewrite (bool_decide_eq_true_2 (last_seq ∈ S')) by (rewrite <-Hql; by apply HS').
      rewrite bool_decide_eq_true_2 by done. by rewrite Z.eqb_refl.
    - pose proof (received_some _ HS'). destruct (bool_decide (last_seq ∈ S')); [|by rewrite andb_false_r].
      rewrite (proj2 (Z.eqb_neq _ _)) by lia. by rewrite andb_false_r. }
  assert (is_done (mkStreamState [] None S' total fin) = false) as En by done.
  rewrite Ed. destruct (bool_decide_reflect (complete S')) as [HS'|HS'].
  - rewrite decide_True by done. unfold st. cbn [ss_init]. unfold init at 1.
    destruct (msg_at 0) as (m0 & H0 & Hq0); [pose proof last_pos; lia|].
    rewrite (bool_decide_eq_true_2 (0 ∈ S')) by (rewrite <-Hq0; by apply HS').
    eexists. split; [f_equal; cbn [ss_buffer]|split; [|exact En]].
    + unfold stream_parts, drain. by rewrite sort_msgs by by rewrite Hb, received_all.
    + constructor; cbn [ss_buffer ss_init ss_seen ss_total ss_fin]; try done; by rewrite decide_True.
  - rewrite decide_False by done. exists st. split; [done|]. split; [|done].
    constructor; unfold st; cbn [ss_buffer ss_init ss_seen ss_total ss_fin]; try done; by rewrite decide_False.
Qed.
End honest.

(** ** The map of streams *)

Lemma state_insert_not_done m s : is_done (state_insert m s).1 = false.
Proof.
  unfold state_insert. set (st := mkStreamState _ _ _ _ _). destruct (is_done st) eqn:Ed; [|exact Ed].
  unfold is_done in Ed. destruct (ss_init st); [done|discriminate].
Qed.
(** No entry is ever deleted: the test comes after the parts were taken. *)
Lemma streams_insert_step peer m streams :
  let key := (peer, m.(sm_stream_id)) in
  let st := default stream_default (streams !! key) in
  streams_insert peer m streams =
  if bool_decide (m.(sm_sequence) ∈ st.(ss_seen)) then (<[key := st]> streams, None)
  else (<[key := (state_insert m (note_seen m st)).1]> streams, (state_insert m (note_seen m st)).2).
Proof.
  cbn zeta. unfold streams_insert. case_bool_decide; [done|]. fold (note_seen m (default stream_default
    (streams !! (peer, m.(sm_stream_id))))).
  pose proof (state_insert_not_done m (note_seen m (default stream_default (streams !! (peer, m.(sm_stream_id)))))) as Hn.
  destruct (state_insert m _) as [st' r]. cbn in Hn |- *. by rewrite Hn.
Qed.
Lemma streams_insert_dom peer m streams :
  dom (streams_insert peer m streams).1 = {[(peer, m.(sm_stream_id))]} ∪ dom streams.
Proof. rewrite streams_insert_step. case_bool_decide; cbn [fst]; apply dom_insert_L. Qed.
Lemma streams_insert_ne peer m streams key :
  key ≠ (peer, m.(sm_stream_id)) → (streams_insert peer m streams).1 !! key = streams !! key.
Proof. intros Hk. rewrite streams_insert_step. case_bool_decide; cbn [fst]; by rewrite lookup_insert_ne. Qed.

Section deliveries.
Context {SHAKE : Shake}.

Definition deliver (ds : list (PeerId * StreamMessage)) (p : Proposals) : Proposals :=
  foldl (λ p d, (received_proposal_part d.1 d.2 p).1) p ds.
Lemma received_streams peer m p :
  pr_streams (received_proposal_part peer m p).1 = (streams_insert peer m (pr_streams p)).1.
Proof. unfold received_proposal_part. by destruct (streams_insert _ _ _) as [? []]. Qed.

(** No stream is ever freed.  The code means to drop a stream once its
    parts came out, but tests for completion after the parts and the [Init]
    were taken; whatever messages arrive from whatever peers, the streams held
    are those held before and one for every sender and stream id seen. *)
Theorem streams_never_freed ds p :
  dom (pr_streams (deliver ds p)) =
  list_to_set ((λ d, (d.1, d.2.(sm_stream_id))) <$> ds) ∪ dom (pr_streams p).
Proof.
  revert p. induction ds as [|d ds IH]; intros p; [set_solver|].
  change (deliver (d :: ds) p) with (deliver ds (received_proposal_part d.1 d.2 p).1).
  rewrite IH, received_streams, streams_insert_dom. set_solver.
Qed.

(** *** An honest stream among any others *)

Definition seqs_of (peer : PeerId) (sid : bytes) (ds : list (PeerId * StreamMessage)) : gset Z :=
  list_to_set (omap (λ d, if bool_decide (d.1 = peer ∧ d.2.(sm_stream_id) = sid)
                          then Some d.2.(sm_sequence) else None) ds).

Section from_honest.
Context (peer : PeerId) (sid : bytes) (i : HkProposalInit) (msgs : list StreamMessage).
Context (Hon : honest_stream sid i msgs).

Definition track_at (S : gset Z) (streams : PartStreamsMap) : Prop :=
  tracks i msgs S (default stream_default (streams !! (peer, sid))).

Lemma streams_insert_tracks S m streams :
  track_at S streams → m ∈ msgs →
  let S' := {[m.(sm_sequence)]} ∪ S in
  track_at S' (streams_insert peer m streams).1 ∧
  (streams_insert peer m streams).2 =
    if bool_decide (m.(sm_sequence) ∈ S) then None
    else if decide (complete msgs S') then Some (stream_parts i msgs) else None.
Proof.
  intros Ht Hm S'.
  assert (m.(sm_stream_id) = sid) as Hid by (pose proof (hs_id _ _ _ Hon) as Hf; rewrite Forall_forall in Hf; by apply Hf).
  rewrite streams_insert_step, Hid. pose proof (tr_seen _ _ _ _ Ht) as Hs. rewrite Hs. unfold track_at.
  case_bool_decide as HS; cbn [fst snd].
  - rewrite lookup_insert_eq. split; [|done]. cbn. replace S' with S by (unfold S'; set_solver). exact Ht.
  - destruct (state_insert_tracks sid i msgs Hon S _ m Ht Hm HS) as (s' & -> & Ht' & _).
    cbn [fst snd]. by rewrite lookup_insert_eq.
Qed.

Lemma deliver_tracks ds p :
  pr_streams p !! (peer, sid) = None →
  (∀ m, (peer, m) ∈ ds → m.(sm_stream_id) = sid → m ∈ msgs) →
  track_at (seqs_of peer sid ds) (pr_streams (deliver ds p)).
Proof.
  intros Hn. induction ds as [|d ds IH] using rev_ind; intros Hds.
  - unfold track_at. cbn. rewrite Hn. by eapply tracks_start.
  - assert (track_at (seqs_of peer sid ds) (pr_streams (deliver ds p))) as Ht.
    { apply IH. intros m Hm. apply Hds. set_solver. }
    unfold deliver in *. rewrite foldl_snoc, received_streams. unfold seqs_of. rewrite omap_app, list_to_set_app_L.
    fold (seqs_of peer sid ds). destruct d as [q m]. cbn [omap list_omap fst snd].
    destruct (bool_decide_reflect (q = peer ∧ m.(sm_stream_id) = sid)) as [[-> Hid]|Hne].
    + assert (m ∈ msgs) as Hm by (apply Hds; [set_solver|done]).
      destruct (streams_insert_tracks _ m _ Ht Hm) as [Ht' _].
      replace (seqs_of peer sid ds ∪ _) with ({[m.(sm_sequence)]} ∪ seqs_of peer sid ds) by (cbn; set_solver).
      exact Ht'.
    + unfold track_at. rewrite streams_insert_ne by naive_solver. cbn. by rewrite union_empty_r_L.
Qed.

Lemma elem_of_seqs ds n :
  n ∈ seqs_of peer sid ds ↔ ∃ m, (peer, m) ∈ ds ∧ m.(sm_stream_id) = sid ∧ m.(sm_sequence) = n.
Proof.
  unfold seqs_of. rewrite elem_of_list_to_set, list_elem_of_omap. split.
  - intros ([q m] & Hin & He). cbn in He. case_bool_decide as Hq; [|done]. destruct Hq as [-> Hid].
    injection He as <-. eauto.
  - intros (m & Hin & Hid & <-). exists (peer, m). split; [done|]. cbn. by rewrite bool_decide_eq_true_2.
Qed.
End from_honest.

Lemma stream_proposal_honest address v pol :
  honest_stream (proposal_stream_id v.(lp_height) v.(lp_round))
    (mkHkProposalInit v.(lp_height) v.(lp_round) pol address) (stream_proposal address v pol).
Proof.
  constructor.
  - intros k m. by destruct k as [|[|[|[|k]]]]; intros [= <-].
  - by repeat constructor.
  - intros m Hm. unfold stream_proposal in Hm. rewrite !elem_of_cons in Hm.
    by destruct Hm as [->|[->|[->|[->|Hm]]]]; [..|by apply not_elem_of_nil in Hm].
  - intros m Hm. unfold stream_proposal in Hm. rewrite !elem_of_cons in Hm.
    by destruct Hm as [->|[->|[->|[->|Hm]]]]; [..|by apply not_elem_of_nil in Hm].
  - cbn [length stream_proposal]. ulia.
Qed.

Lemma existsb_find {A} (f : A → bool) l : existsb f l = true → is_Some (find f l).
Proof. induction l as [|x l IH]; [done|]. cbn. destruct (f x); eauto. Qed.
Lemma find_undecided_stored v p :
  ∃ e, find_undecided v.(pv_height) v.(pv_round) (val_id v.(pv_value)) (store_undecided v p) = Some e ∧
    val_id e.(pv_value) = val_id v.(pv_value).
Proof.
  unfold find_undecided, store_undecided. cbn [pr_undecided]. rewrite lookup_insert_eq. cbn [mbind option_bind].
  set (entry := default [] _). set (l := if existsb _ entry then entry else entry ++ [v]).
  assert (existsb (λ e, bool_decide (val_id e.(pv_value) = val_id v.(pv_value))) l = true) as He.
  { unfold l. destruct (existsb (same_proposal v) entry) eqn:E.
    - apply existsb_exists in E as (e & Hin & Hs). apply existsb_exists. exists e. split; [done|].
      unfold same_proposal in Hs. by apply andb_true_iff in Hs as [Hs _].
    - rewrite existsb_app. cbn. rewrite bool_decide_eq_true_2 by done. by rewrite orb_true_r. }
  destruct (existsb_find _ _ He) as [e Hf]. exists e. split; [exact Hf|].
  apply List.find_some in Hf as [_ Hf]. by apply bool_decide_eq_true in Hf.
Qed.

End deliveries.
End streams.

(** * Witnesses *)

(** Peer 1's proposal arrives end first, with a repetition and a message of
    peer 2 in between; its batch comes last. *)
Module Shuffled.
#[local] Existing Instance toy_shake.
Definition address : HkAddress := address_prefix (id_of 5).
Definition value : LocallyProposedValue := mkLocallyProposed 7 (RSome 2) (value_new [x01; x02]).
Definition msg (k : nat) : StreamMessage :=
  default (mkStreamMessage [] 0 SFin) (stream_proposal address value RNil !! k).
Definition arrivals : list (Z * StreamMessage) := [(1, msg 3); (1, msg 0); (2, msg 1); (1, msg 3); (1, msg 2)].
Definition fresh : Proposals (PeerId := Z) := mkProposals ∅ ∅.
End Shuffled.
#[local] Existing Instance toy_shake.

