(* ===== verification/NodeParts.v ===== *)
(** The bookkeeping a node keeps beside the chain (hk-node/src/state.rs and
    hk-node/src/genesis.rs): the bounded receipt log, the search index, the
    servable suffix of the block log, the key-rotation trigger, and the tables
    that turn a chain id into rules. *)

From S2P Require Export Validators Mempool.
From S2P Require Import Toy Demo Signer.
#[local] Open Scope Z_scope.

(** * The receipt log *)

Record ReceiptLog := mkReceiptLog {
  rl_map : gmap H256 string;
  rl_order : list H256;
  rl_cap : Z;
}.
Definition rlog_new (cap : Z) : ReceiptLog := mkReceiptLog ∅ [] cap.
Definition rlog_insert (id : H256) (detail : string) (l : ReceiptLog) : ReceiptLog :=
  let map := <[id := detail]> l.(rl_map) in
  if bool_decide (is_Some (l.(rl_map) !! id)) then mkReceiptLog map l.(rl_order) l.(rl_cap)
  else
    let order := l.(rl_order) ++ [id] in
    if l.(rl_cap) <? Z.of_nat (length order) then
      match order with
      | old :: order => mkReceiptLog (delete old map) order l.(rl_cap)
      | [] => mkReceiptLog map order l.(rl_cap)
      end
    else mkReceiptLog map order l.(rl_cap).
Definition rlog_get (id : H256) (l : ReceiptLog) : option string := l.(rl_map) !! id.
Definition rlog_entries (l : ReceiptLog) : list (H256 * string) :=
  omap (λ id, (λ d, (id, d)) <$> l.(rl_map) !! id) l.(rl_order).
Definition rlog_restore (entries : list (H256 * string)) (l : ReceiptLog) : ReceiptLog :=
  foldl (λ l e, rlog_insert e.1 e.2 l) l entries.

(** The log is a FIFO of distinct ids, each with its detail, within the cap. *)
Record rlog_ok (l : ReceiptLog) : Prop := mkRlogOk {
  ro_nodup : NoDup l.(rl_order);
  ro_dom : ∀ id, id ∈ l.(rl_order) ↔ is_Some (l.(rl_map) !! id);
  ro_cap : Z.of_nat (length l.(rl_order)) ≤ l.(rl_cap);
}.
Lemma rlog_new_ok cap : 0 ≤ cap → rlog_ok (rlog_new cap).
Proof.
  intros H. constructor; cbn; [constructor| |lia]. intros id. rewrite lookup_empty.
  split; [by intros ?%elem_of_nil|by intros []].
Qed.
Lemma rlog_insert_ok id d l : 1 ≤ l.(rl_cap) → rlog_ok l → rlog_ok (rlog_insert id d l).
Proof.
  intros Hc [Hn Hd Hl]. unfold rlog_insert. case_bool_decide as Hin.
  - constructor; cbn; [done| |done]. intros x. rewrite Hd. destruct (decide (x = id)) as [->|].
    + rewrite lookup_insert_eq. split; eauto.
    + by rewrite lookup_insert_ne.
  - assert (id ∉ l.(rl_order)) as Hno by by rewrite Hd.
    assert (NoDup (l.(rl_order) ++ [id])) as Hn2.
    { apply NoDup_app. split_and!; [done| |apply NoDup_singleton]. intros x Hx.
      rewrite list_elem_of_singleton. by intros ->. }
    assert (∀ x, x ∈ l.(rl_order) ++ [id] ↔ is_Some (<[id := d]> l.(rl_map) !! x)) as Hd2.
    { intros x. rewrite elem_of_app, list_elem_of_singleton, Hd. destruct (decide (x = id)) as [->|].
      - rewrite lookup_insert_eq. split; eauto.
      - rewrite lookup_insert_ne by done. naive_solver. }
    destruct (Z.ltb_spec l.(rl_cap) (Z.of_nat (length (l.(rl_order) ++ [id])))) as [Hlt|Hge].
    2: { by constructor. }
    rewrite length_app in Hlt. cbn [length] in Hlt.
    destruct (l.(rl_order) ++ [id]) as [|old order] eqn:E.
    { apply (f_equal length) in E. rewrite length_app in E. cbn in E. lia. }
    apply (f_equal length) in E. rewrite length_app in E. cbn [length] in E.
    apply NoDup_cons in Hn2 as [Ho Hn2]. constructor; cbn; [done| |lia].
    intros x. specialize (Hd2 x). rewrite elem_of_cons in Hd2. destruct (decide (x = old)) as [->|].
    + rewrite lookup_delete_eq. split; [done|by intros []].
    + rewrite lookup_delete_ne by done. rewrite <-Hd2. naive_solver.
Qed.
Lemma rlog_entries_fst l : rlog_ok l → (rlog_entries l).*1 = l.(rl_order).
Proof.
  intros [_ Hd _]. unfold rlog_entries. assert (∀ x, x ∈ l.(rl_order) → is_Some (l.(rl_map) !! x)) as H by (intros; by apply Hd).
  revert H. generalize (rl_order l). intros o. induction o as [|x o IH]; intros H; [done|].
  destruct (H x) as [d Hx]; [by left|]. cbn. rewrite Hx. cbn. f_equal. apply IH. intros y Hy. apply H. by right.
Qed.

(** A log exported to a snapshot and refilled is the log that was exported. *)
Lemma rlog_insert_fresh id d l :
  id ∉ l.(rl_order) → rlog_ok l → Z.of_nat (length l.(rl_order)) < l.(rl_cap) →
  rlog_insert id d l = mkReceiptLog (<[id := d]> l.(rl_map)) (l.(rl_order) ++ [id]) l.(rl_cap).
Proof.
  intros Hid [_ Hd _] Hc. unfold rlog_insert. rewrite bool_decide_eq_false_2 by by rewrite <-Hd.
  rewrite (proj2 (Z.ltb_ge _ _)); [done|]. rewrite length_app. cbn. lia.
Qed.
Lemma rlog_restore_app cap entries l :
  NoDup (l.(rl_order) ++ entries.*1) → rlog_ok l → l.(rl_cap) = cap →
  Z.of_nat (length (l.(rl_order) ++ entries.*1)) ≤ cap →
  rl_order (rlog_restore entries l) = l.(rl_order) ++ entries.*1 ∧
  rl_cap (rlog_restore entries l) = cap ∧
  ∀ id, rl_map (rlog_restore entries l) !! id =
    match list_to_map (M := gmap _ _) entries !! id with Some d => Some d | None => l.(rl_map) !! id end.
Proof.
  revert l. induction entries as [|[id d] entries IH]; intros l Hn Hl Hc Hlen.
  { cbn. rewrite app_nil_r. done. }
  cbn [fmap list_fmap fst] in Hn, Hlen.
  assert (id ∉ l.(rl_order)) as Hid.
  { apply NoDup_app in Hn as (_ & Hn & _). intros Hin. apply (Hn _ Hin). by left. }
  assert (Z.of_nat (length l.(rl_order)) < l.(rl_cap)) as Hlt by (rewrite length_app in Hlen; cbn in Hlen; lia).
  pose proof (rlog_insert_ok id d l ltac:(lia) Hl) as Hl'.
  change (rlog_restore ((id, d) :: entries) l) with (rlog_restore entries (rlog_insert id d l)).
  rewrite (rlog_insert_fresh id d l Hid Hl Hlt) in Hl' |- *.
  replace (l.(rl_order) ++ id :: entries.*1) with ((l.(rl_order) ++ [id]) ++ entries.*1) in Hn, Hlen
    by by rewrite <-app_assoc.
  destruct (IH (mkReceiptLog (<[id := d]> l.(rl_map)) (l.(rl_order) ++ [id]) l.(rl_cap)) Hn Hl' Hc Hlen) as (H1 & H2 & H3).
  split_and!; [|done|].
  - rewrite H1. cbn. by rewrite <-app_assoc.
  - intros x. rewrite H3. cbn [rl_map list_to_map foldr fst snd]. destruct (decide (x = id)) as [->|].
    + rewrite lookup_insert_eq, lookup_insert_eq.
      rewrite not_elem_of_list_to_map_1; [done|].
      apply NoDup_app in Hn as (_ & Hn & _). apply Hn. set_solver.
    + by rewrite !lookup_insert_ne.
Qed.
Lemma rlog_export_restore l : rlog_ok l → rlog_restore (rlog_entries l) (rlog_new l.(rl_cap)) = l.
Proof.
  intros Hl. pose proof (rlog_entries_fst l Hl) as He. pose proof Hl as [Hn Hd Hc].
  destruct (rlog_restore_app l.(rl_cap) (rlog_entries l) (rlog_new l.(rl_cap))) as (H1 & H2 & H3).
  - cbn. by rewrite He.
  - apply rlog_new_ok. lia.
  - done.
  - cbn. by rewrite He.
  - destruct (rlog_restore _ _) as [m o c]. cbn in *. subst. rewrite He. destruct l as [m' o' c']. cbn in *. f_equal.
    apply map_eq. intros id. rewrite H3, lookup_empty.
    destruct (list_to_map _ !! id) as [d|] eqn:E.
    + apply elem_of_list_to_map_2, list_elem_of_omap in E as (x & _ & Hx).
      destruct (m' !! x) as [d'|] eqn:Ex; [|done]. cbn in Hx. by injection Hx as -> ->.
    + apply not_elem_of_list_to_map_2 in E. rewrite He in E. symmetry. apply eq_None_not_Some. by rewrite <-Hd.
Qed.

(** * The servable suffix *)

(** [contiguous_suffix_min]: the start of the gap-free run that ends the list. *)
Fixpoint run_back (min : Z) (l : list Z) : Z :=
  match l with
  | h :: l => if wrapping u64_max (h + 1) =? min then run_back h l else min
  | [] => min
  end.
Definition contiguous_suffix_min (heights : list Z) : option Z :=
  match rev heights with [] => None | last :: rest => Some (run_back last rest) end.

(** * Key rotation *)

Definition rotation_threshold_of (h : H256) (capacity : Z) : Z :=
  let jitter := le_val (take 2 (h256_bytes h)) mod 1001 in
  sat_mul u64_max capacity (1500 + jitter) / 10000.
Section rotation.
Context {SHAKE : Shake}.
Definition rotation_threshold (capacity : Z) (root_pk : bytes) : Z :=
  rotation_threshold_of (shake256_32 "hk/v1/rotation-jitter" [root_pk]) capacity.
End rotation.
Definition rotation_due (remaining threshold height : Z) (rotate_every : option Z) (mine_pending : bool)
    (next_epoch highest_issued : Z) (issue_stale : bool) : bool * bool :=
  let threshold_hit := remaining <? threshold in
  let interval_hit := match rotate_every with Some n => (0 <? height) && (height mod n =? 0) | None => false end in
  let guards_pass := (negb mine_pending && (highest_issued <? next_epoch)) || issue_stale in
  ((threshold_hit || interval_hit) && guards_pass, threshold_hit).

(** * The search index *)

Definition tx_kind (tx : Tx) : string :=
  match tx with
  | Tx.Transfer _ _ _ => "transfer"
  | Tx.MandateCreate _ _ _ _ _ _ _ _ _ _ => "mandate_create"
  | Tx.MandateSpend _ _ _ => "mandate_spend"
  | Tx.MandateRevoke _ => "mandate_revoke"
  | Tx.ChannelOpen _ _ _ _ _ _ _ _ => "channel_open"
  | Tx.ChannelSettle _ _ _ => "channel_settle"
  | Tx.ChannelRefund _ => "channel_refund"
  | Tx.MintToPool _ _ _ _ _ => "shield"
  | Tx.ShieldedSpend _ _ _ _ _ _ _ _ _ _ => "shielded_spend"
  | Tx.AccountCreate _ _ _ _ => "account_create"
  | Tx.AssetRegister _ _ _ _ => "asset_register"
  | Tx.AssetMint _ _ _ => "asset_mint"
  | Tx.AssetBurn _ _ _ => "asset_burn"
  | Tx.AssetFreeze _ _ _ => "asset_freeze"
  | Tx.AssetPause _ _ => "asset_pause"
  end.
Definition tx_counterparty (tx : Tx) : option AccountId :=
  match tx with
  | Tx.Transfer to _ _ => Some to
  | Tx.MandateSpend _ to _ => Some to
  | Tx.ChannelOpen _ _ payee _ _ _ _ _ => Some payee
  | Tx.AccountCreate id _ _ _ => Some id
  | Tx.ShieldedSpend _ _ _ _ _ credit _ _ _ _ => credit
  | Tx.AssetMint _ to _ => Some to
  | Tx.AssetFreeze _ account _ => Some account
  | _ => None
  end.

Record SearchIndex := mkSearchIndex {
  ix_tx : gmap H256 (Z * Z);
  ix_acct : gmap H256 (list (H256 * Z * string));
}.
Definition acct_push (a : AccountId) (e : H256 * Z * string) (m : gmap H256 (list (H256 * Z * string)))
    : gmap H256 (list (H256 * Z * string)) :=
  <[a := default [] (m !! a) ++ [e]]> m.

Section index.
Context {SHAKE : Shake} {STX : StxCodec}.

(** One turn of the loop of [index_txs_into]. *)
Definition index_tx {E} (height : Z) (i : nat) (tx : SignedTx) : M SearchIndex E unit :=
  let* id := readM (λ _, txid tx) in
  let* ix := getM in
  let ti := <[id := (height, Z.of_nat i)]> ix.(ix_tx) in
  if bool_decide (is_Some (ix.(ix_tx) !! id)) then modifyM (λ ix, mkSearchIndex ti ix.(ix_acct))
  else
    let entry := (id, height, tx_kind (stx_payload tx)) in
    modifyM (λ ix, mkSearchIndex ti
      (let ai := acct_push (stx_sender tx) entry ix.(ix_acct) in
       match tx_counterparty (stx_payload tx) with
       | Some cp => if bool_decide (cp = stx_sender tx) then ai else acct_push cp entry ai
       | None => ai
       end)).
Fixpoint index_from {E} (height : Z) (i : nat) (txs : list SignedTx) : M SearchIndex E unit :=
  match txs with
  | [] => retM tt
  | tx :: txs => index_tx height i tx ;;; index_from height (S i) txs
  end.
Definition index_txs_into {E} (height : Z) (txs : list SignedTx) : M SearchIndex E unit :=
  index_from height 0 txs.
End index.

(** * Rules by chain id *)

Record Bootstrap := mkBootstrap { bs_height : Z; bs_founding_power : Z }.
Definition TESTNET1 : string := "hashkinetics-1-4e4ea68d".
Definition G1_TESTNET1_HEIGHT : Z := 110000.
Definition G1_FOUNDING_POWER : Z := 4.
Definition P6_TESTNET1_HEIGHT : Z := 190000.
Definition R17_TESTNET1_HEIGHT : Z := 1872500.
Definition R18_TESTNET1_HEIGHT : Z := 2038500.
Definition ROTATION_V2_TESTNET1_HEIGHT : Z := u64_max.

(** The environment variables are given by their parsed values. *)
Definition bootstrap_from (chain_id : string) (env_height env_power : option Z) : option Bootstrap :=
  if bool_decide (chain_id = TESTNET1) then Some (mkBootstrap G1_TESTNET1_HEIGHT G1_FOUNDING_POWER)
  else
    height ← env_height;
    if 0 <? height
    then Some (mkBootstrap height (match env_power with
                                   | Some p => if 0 <? p then p else G1_FOUNDING_POWER
                                   | None => G1_FOUNDING_POWER
                                   end))
    else None.
Definition height_from (testnet1 : Z) (chain_id : string) (env : option Z) : Z :=
  if bool_decide (chain_id = TESTNET1) then testnet1 else default 0 env.
Definition multi_pool_from_from : string → option Z → Z := height_from P6_TESTNET1_HEIGHT.
Definition mandate_asset_from_from : string → option Z → Z := height_from R17_TESTNET1_HEIGHT.
Definition payword_cap_from_from : string → option Z → Z := height_from R18_TESTNET1_HEIGHT.
Definition rotation_v2_from_from : string → option Z → Z := height_from ROTATION_V2_TESTNET1_HEIGHT.

Record GenesisValidator := mkGenesisValidator { gv_root_pk : bytes; gv_public_key : HkPub; gv_power : Z }.
Inductive GenesisError := GenesisPower (i : nat) (power : Z) | NoValidators.

Section genesis.
Context {SHAKE : Shake}.
Fixpoint check_powers (i : nat) (l : list GenesisValidator) : res GenesisError unit :=
  match l with
  | [] => Ok tt
  | v :: l =>
      let? _ := refuseR ((v.(gv_power) =? 0) || (MAX_VOTING_POWER <? v.(gv_power))) (GenesisPower i v.(gv_power)) in
      check_powers (S i) l
  end.
Definition genesis_validator_set (vs : list GenesisValidator) : res GenesisError HkValidatorSet :=
  let? _ := check_powers 0 vs in
  let? _ := refuseR (bool_decide (vs = [])) NoValidators in
  set_new ((λ v, validator_new v.(gv_root_pk) v.(gv_public_key) v.(gv_power)) <$> vs).
End genesis.

(** * What the bookkeeping guarantees *)

Lemma run_back_spec min l :
  StronglySorted (λ a b, b < a) (min :: l) → Forall (λ h, 0 ≤ h ≤ u64_max) (min :: l) →
  run_back min l ≤ min ∧ run_back min l ∈ min :: l ∧ run_back min l - 1 ∉ min :: l ∧
  ∀ h, run_back min l ≤ h ≤ min → h ∈ min :: l.
Proof.
  revert min. induction l as [|h l IH]; intros min Hs Hr; cbn [run_back].
  { split_and!; [lia|by left| |intros x Hx; assert (x = min) as -> by lia; by left].
    intros Hx%list_elem_of_singleton. lia. }
  apply StronglySorted_inv in Hs as [Hs Hf]. apply Forall_cons in Hr as [Hm Hr].
  pose proof Hf as Hf'. apply Forall_cons in Hf' as [Hlt Hf']. pose proof (Forall_inv Hr) as Hh.
  cbn beta in Hh. rewrite wrapping_small by lia. destruct (Z.eqb_spec (h + 1) min) as [Heq|Hne].
  - destruct (IH h Hs Hr) as (Hle & Hin & Hno & Hall). split_and!; [lia|by right| |].
    + intros [?|?]%elem_of_cons; [lia|done].
    + intros x Hx. destruct (Z.eq_dec x min) as [->|]; [by left|]. right. apply Hall. lia.
  - split_and!; [lia|by left| |intros x Hx; assert (x = min) as -> by lia; by left].
    intros [?|Hin]%elem_of_cons; [lia|]. apply StronglySorted_inv in Hs as [_ Hs].
    apply elem_of_cons in Hin as [?|Hin]; [lia|]. rewrite Forall_forall in Hs. specialize (Hs _ Hin). lia.
Qed.
Lemma sorted_rev (l : list Z) : StronglySorted Z.lt l → StronglySorted (λ a b, b < a) (rev l).
Proof.
  induction 1 as [|x l _ IH Hf]; cbn; [constructor|]. apply StronglySorted_app_2; [|done|].
  - intros a b Ha Hb. apply list_elem_of_singleton in Hb as ->. rewrite Forall_forall in Hf. apply Hf.
    by apply list_elem_of_In, in_rev, list_elem_of_In.
  - repeat constructor.
Qed.

(** The height a node advertises as its history floor is on disk, everything
    from it to the last height is on disk, and the height below it is not, so no
    lower floor is gap-free; an empty log advertises nothing. *)
Theorem suffix_min_spec l :
  StronglySorted Z.lt l → Forall (λ h, 0 ≤ h ≤ u64_max) l →
  match contiguous_suffix_min l with
  | None => l = []
  | Some m => ∃ top, last l = Some top ∧ m ≤ top ∧ (∀ h, m ≤ h ≤ top → h ∈ l) ∧ m - 1 ∉ l
  end.
Proof.
  intros Hs%sorted_rev Hr. unfold contiguous_suffix_min.
  destruct (rev l) as [|top rest] eqn:E; apply (f_equal (@rev Z)) in E; rewrite rev_involutive in E; [done|].
  assert (∀ h, h ∈ l ↔ h ∈ top :: rest) as Hrev.
  { intros h. rewrite E, !list_elem_of_In. symmetry. apply in_rev. }
  destruct (run_back_spec top rest Hs) as (Hle & _ & Hno & Hall).
  { rewrite Forall_forall in Hr |- *. intros x Hx. by apply Hr, Hrev. }
  exists top. split_and!; [|done|intros h Hh; by apply Hrev, Hall|by rewrite Hrev].
  rewrite E. cbn [rev]. by rewrite last_snoc.
Qed.
Lemma suffix_min_spec_witness :
  contiguous_suffix_min [1; 49929; 49930; 49931] = Some 49929 ∧ 49928 ∉ [1; 49929; 49930; 49931].
Proof.
  split; [done|].
  assert (StronglySorted Z.lt [1; 49929; 49930; 49931]) as Hs by (repeat constructor).
  assert (Forall (λ h, 0 ≤ h ≤ u64_max) [1; 49929; 49930; 49931]) as Hr.
  { repeat constructor; by vm_compute. }
  by destruct (suffix_min_spec _ Hs Hr) as (top & _ & _ & _ & Hno).
Defined.

(** Whatever the seat's root key, the threshold of the production tree lies
    between 15% and 25% of its leaves. *)
Lemma threshold_bounds h : 4915 ≤ rotation_threshold_of h CONSENSUS_CAPACITY ≤ 8192.
Proof.
  unfold rotation_threshold_of. change CONSENSUS_CAPACITY with 32768.
  pose proof (Z.mod_pos_bound (le_val (take 2 (h256_bytes h))) 1001 ltac:(lia)) as Hj.
  revert Hj. generalize (le_val (take 2 (h256_bytes h)) mod 1001). intros j Hj.
  unfold sat_mul, u64_max. rewrite Z.min_l by lia. split.
  - apply Z.div_le_lower_bound; lia.
  - apply Z.div_le_upper_bound; lia.
Qed.

(** Without the interval override a seat never rotates while a quarter of its
    tree is left, and below 15% it issues a certificate unless one is in flight
    and fresh, whatever its root key. *)
Theorem rotation_fires_in_window {SHAKE : Shake} root remaining height mine next issued stale :
  let due := (rotation_due remaining (rotation_threshold CONSENSUS_CAPACITY root) height None mine next issued stale).1 in
  (8192 ≤ remaining → due = false) ∧
  (remaining < 4915 → stale = true ∨ mine = false ∧ issued < next → due = true).
Proof.
  cbn zeta. unfold rotation_due, rotation_threshold. cbn [fst].
  pose proof (threshold_bounds (shake256_32 "hk/v1/rotation-jitter" [root])) as Hb.
  split; intros Hr.
  - rewrite (proj2 (Z.ltb_ge _ _)) by lia. done.
  - intros Hg. rewrite (proj2 (Z.ltb_lt _ _)) by lia. cbn [orb andb].
    destruct Hg as [->|[-> Hi]]; [apply orb_true_r|]. cbn [negb andb]. by rewrite (proj2 (Z.ltb_lt _ _) Hi).
Qed.
