(* ===== verification/Wal.v ===== *)
(** The mempool's write-ahead log ([wal_append], [wal_load] and [wal_reset] of
    hk-node/src/store.rs): length-prefixed frames appended at every admission,
    read back until the first frame that is not whole or does not decode.

    bincode is a parameter; a write that fails or is cut by a crash leaves a
    prefix of its bytes. *)

From S2P Require Export Mempool.
From S2P Require Import Signer.
#[local] Open Scope Z_scope.

(** [bincode::serialize] and [bincode::deserialize] of a signed transaction. *)
Class StxWire := { enc_stx : SignedTx → option bytes; dec_stx : bytes → option SignedTx }.
(** What is written reads back, and a frame's length fits its 32-bit prefix. *)
Class StxWireLaws {W : StxWire} : Prop := {
  stx_roundtrip tx b : enc_stx tx = Some b → dec_stx b = Some tx;
  stx_short tx b : enc_stx tx = Some b → Z.of_nat (length b) ≤ u32_max;
}.

Section wal.
Context {W : StxWire}.

(** The two writes of an append: the length, then the frame. *)
Definition wal_writes (tx : SignedTx) : option (list bytes) :=
  frame ← enc_stx tx; Some [u32_le (Z.of_nat (length frame)); frame].
Definition wal_frame (tx : SignedTx) : option bytes := @concat byte <$> wal_writes tx.

(** [written] is how many bytes reached the file when the write failed or the
    machine stopped; [None] when the append ran to its end. *)
Definition wal_append (tx : SignedTx) (written : option nat) (wal : option bytes) : option bytes * bool :=
  match wal_frame tx with
  | None => (wal, false)
  | Some frame =>
      match written with
      | None => (Some (default [] wal ++ frame), true)
      | Some n => (Some (default [] wal ++ take n frame), false)
      end
  end.

(** The loop of [wal_load] on the bytes from [off] on. *)
Fixpoint wal_scan (fuel : nat) (rest : bytes) : list SignedTx :=
  match fuel with
  | O => []
  | S fuel =>
      if (length rest <? 4)%nat then []
      else
        let len := Z.to_nat (le_val (take 4 rest)) in
        let rest := drop 4 rest in
        if (length rest <? len)%nat then []
        else match dec_stx (take len rest) with
             | Some tx => tx :: wal_scan fuel (drop len rest)
             | None => []
             end
  end.
Definition wal_load (wal : option bytes) : list SignedTx :=
  match wal with Some b => wal_scan (length b) b | None => [] end.

Definition wal_bytes (txs : list SignedTx) : option bytes := @concat byte <$> mapM wal_frame txs.
(** [wal_reset]: an atomic write, with its outcome. *)
Definition wal_reset (txs : list SignedTx) (w : WriteOutcome) (f : File) : File * bool :=
  match wal_bytes txs with Some b => write_atomic b w f | None => (f, false) end.

(** * Reading back *)

(** The scan does not depend on its fuel: every turn consumes four bytes. *)
Lemma wal_scan_fuel n m rest : (length rest ≤ n)%nat → (length rest ≤ m)%nat → wal_scan n rest = wal_scan m rest.
Proof.
  revert m rest. induction n as [|n IH]; intros m rest Hn Hm.
  { destruct m; [done|]. destruct rest; [done|cbn in Hn; lia]. }
  destruct m as [|m]; [destruct rest; [done|cbn in Hm; lia]|].
  cbn [wal_scan]. destruct (Nat.ltb_spec (length rest) 4) as [|H4]; [done|].
  case_match; [done|]. destruct (dec_stx _); [|done]. f_equal. apply IH; rewrite !length_drop; lia.
Qed.
Lemma wal_load_eq b :
  wal_load (Some b) =
    if (length b <? 4)%nat then []
    else
      let len := Z.to_nat (le_val (take 4 b)) in
      if (length (drop 4 b) <? len)%nat then []
      else match dec_stx (take len (drop 4 b)) with
           | Some tx => tx :: wal_load (Some (drop len (drop 4 b)))
           | None => []
           end.
Proof.
  cbn [wal_load]. destruct b as [|x b]; [done|]. remember (x :: b) as l. assert (0 < length l)%nat by (subst; cbn; lia).
  destruct (length l) as [|n] eqn:E; [lia|]. cbn [wal_scan]. rewrite E. do 2 (case_match; [done|]).
  destruct (dec_stx _); [|done]. f_equal. apply wal_scan_fuel; rewrite !length_drop; lia.
Qed.
#[local] Arguments wal_load : simpl never.
Lemma wal_load_short b : (length b < 4)%nat → wal_load (Some b) = [].
Proof. intros H. rewrite wal_load_eq. by rewrite (proj2 (Nat.ltb_lt _ _) H). Qed.

Lemma u32_prefix_take z rest : take 4 (u32_le z ++ rest) = u32_le z.
Proof. apply take_app_length'. by rewrite length_u32_le. Qed.
Lemma u32_prefix_drop z rest : drop 4 (u32_le z ++ rest) = rest.
Proof. apply drop_app_length'. by rewrite length_u32_le. Qed.

(** One prefixed item at the head, whole or cut. *)
Lemma wal_load_item (f rest : bytes) :
  Z.of_nat (length f) ≤ u32_max →
  wal_load (Some (u32_le (Z.of_nat (length f)) ++ f ++ rest)) =
    match dec_stx f with Some tx => tx :: wal_load (Some rest) | None => [] end.
Proof.
  intros Hf. rewrite wal_load_eq. rewrite length_app, length_u32_le.
  rewrite (proj2 (Nat.ltb_ge _ _)) by lia. cbn zeta.
  rewrite u32_prefix_take, u32_prefix_drop.
  unfold u32_le. rewrite le_val_bytes, Z.mod_small by (unfold u32_max in Hf; lia).
  rewrite Nat2Z.id, length_app, (proj2 (Nat.ltb_ge _ _)) by lia.
  by rewrite take_app_length, drop_app_length.
Qed.
Lemma wal_load_cut (f rest : bytes) :
  Z.of_nat (length f) ≤ u32_max → (length rest < length f)%nat →
  wal_load (Some (u32_le (Z.of_nat (length f)) ++ rest)) = [].
Proof.
  intros Hf Hr. rewrite wal_load_eq. rewrite length_app, length_u32_le.
  rewrite (proj2 (Nat.ltb_ge _ _)) by lia. cbn zeta.
  rewrite u32_prefix_take, u32_prefix_drop.
  unfold u32_le. rewrite le_val_bytes, Z.mod_small by (unfold u32_max in Hf; lia).
  by rewrite Nat2Z.id, (proj2 (Nat.ltb_lt _ _) Hr).
Qed.

Context {WL : StxWireLaws}.
Lemma wal_frame_eq tx f : enc_stx tx = Some f → wal_frame tx = Some (u32_le (Z.of_nat (length f)) ++ f).
Proof. intros H. unfold wal_frame, wal_writes. rewrite H. cbn [mbind option_bind fmap option_fmap option_map concat]. by rewrite app_nil_r. Qed.
Lemma wal_frame_inv tx fr :
  wal_frame tx = Some fr →
  ∃ f, enc_stx tx = Some f ∧ fr = u32_le (Z.of_nat (length f)) ++ f ∧ Z.of_nat (length f) ≤ u32_max.
Proof.
  destruct (enc_stx tx) as [f|] eqn:E; [|by unfold wal_frame, wal_writes; rewrite E].
  rewrite (wal_frame_eq _ _ E). intros [= <-]. exists f. split_and!; [done|done|by eapply stx_short].
Qed.
(** Whole frames are read in order, whatever follows them. *)
Lemma wal_load_frames txs b rest :
  wal_bytes txs = Some b → wal_load (Some (b ++ rest)) = txs ++ wal_load (Some rest).
Proof.
  unfold wal_bytes. destruct (mapM wal_frame txs) as [frs|] eqn:E; [|done]. cbn. intros [= <-].
  revert frs E. induction txs as [|tx txs IH]; intros frs E; cbn in E; [by injection E as <-|].
  destruct (wal_frame tx) as [fr|] eqn:Ef; [|done]. cbn in E.
  destruct (mapM wal_frame txs) as [frs'|] eqn:Em; [|done]. injection E as <-. cbn [concat].
  apply wal_frame_inv in Ef as (f & Hf & -> & Hs). rewrite <-!app_assoc, wal_load_item by done.
  rewrite (stx_roundtrip _ _ Hf). cbn. by rewrite (IH frs').
Qed.

(** Admissions survive a stop in the middle of an append: the whole frames come
    back, in order, and the cut one does not; and a log that was reset reads back
    as what it was reset to, whatever survives of it. *)
Theorem wal_survives_torn_tail txs b tx n w :
  wal_bytes txs = Some b → wal_append tx (Some n) (Some b) = (w, false) →
  match wal_frame tx with Some fr => (n < length fr)%nat | None => True end →
  wal_load w = txs ∧ ∀ f c, c ∈ f_survivors (wal_reset txs WDone f).1 → wal_load c = txs.
Proof.
  intros Hb Hw Hn. assert (wal_load (Some b) = txs) as Hall.
  { rewrite <-(app_nil_r b), (wal_load_frames _ _ _ Hb). apply app_nil_r. }
  split; [|intros f c; unfold wal_reset; rewrite Hb; cbn; by intros ->%list_elem_of_singleton].
  unfold wal_append in Hw. destruct (wal_frame tx) as [fr|] eqn:Ef; [|by injection Hw as <-].
  injection Hw as <-. cbn. rewrite (wal_load_frames _ _ _ Hb).
  apply wal_frame_inv in Ef as (f & Hf & -> & Hs). rewrite length_app, length_u32_le in Hn.
  destruct (le_lt_dec 4 n) as [H4|H4].
  - rewrite take_app_ge by (rewrite length_u32_le; lia). rewrite wal_load_cut; [apply app_nil_r|done|].
    rewrite length_take, length_u32_le. lia.
  - rewrite wal_load_short; [apply app_nil_r|]. rewrite length_take. lia.
Qed.

(** Not every append that succeeded is read back.  The tail a cut append left is
    never removed, and the log is opened for appending, so a frame appended after
    it is read as its missing bytes: an admission shorter than those bytes is not
    loaded.  And the length and the frame are two writes under no lock: of two
    appends whose lengths are written first, neither is loaded. *)
Theorem appended_admissions_lost txs b tx1 n w tx2 w2 f1 f2 :
  wal_bytes txs = Some b → enc_stx tx1 = Some f1 → enc_stx tx2 = Some f2 →
  (wal_append tx1 (Some n) (Some b) = (w, false) → wal_append tx2 None w = (w2, true) →
   (4 ≤ n)%nat → (n + length f2 < length f1)%nat → wal_load w2 = txs) ∧
  (dec_stx (take (length f1) (u32_le (Z.of_nat (length f2)) ++ f1 ++ f2)) = None →
   wal_load (Some (b ++ u32_le (Z.of_nat (length f1)) ++ u32_le (Z.of_nat (length f2)) ++ f1 ++ f2)) = txs).
Proof.
  intros Hb H1 H2. pose proof (stx_short _ _ H1) as Hs. split.
  - unfold wal_append. rewrite (wal_frame_eq _ _ H1), (wal_frame_eq _ _ H2).
    intros [<- _]%pair_equal_spec [<- _]%pair_equal_spec H4 Hlen.
    cbn [default from_option id]. rewrite <-app_assoc, (wal_load_frames _ _ _ Hb).
    rewrite take_app_ge by (rewrite length_u32_le; lia). rewrite <-app_assoc, wal_load_cut; [apply app_nil_r|done|].
    rewrite !length_app, length_take, !length_u32_le. lia.
  - intros Hd. rewrite (wal_load_frames _ _ _ Hb).
    rewrite <-(take_drop (length f1) (u32_le (Z.of_nat (length f2)) ++ f1 ++ f2)).
    assert (length (take (length f1) (u32_le (Z.of_nat (length f2)) ++ f1 ++ f2)) = length f1) as Hlen.
    { rewrite length_take, !length_app. lia. }
    rewrite <-Hlen at 1. rewrite wal_load_item by (rewrite Hlen; done). rewrite Hd. apply app_nil_r.
Qed.
End wal.

(** * A codec and two transactions *)

Module Sample.
Definition tx_of (n : Z) : SignedTx := mkSignedTx zero_h256 n (Tx.MandateRevoke zero_h256) zero_h256 [] [].
(** Two transactions, of eight bytes and of one. *)
Definition long : bytes := replicate 8 x01.
Definition wire : StxWire := {|
  enc_stx := λ tx, if bool_decide (tx = tx_of 1) then Some long
                   else if bool_decide (tx = tx_of 2) then Some [x02] else None;
  dec_stx := λ b, if bool_decide (b = long) then Some (tx_of 1)
                  else if bool_decide (b = [x02]) then Some (tx_of 2) else None;
|}.
Lemma stx_wire_laws : StxWireLaws (W := wire).
Proof. constructor; intros tx b; cbn; repeat case_bool_decide; intros; simplify_eq; done. Qed.
Definition log : bytes := u32_le 8 ++ long.
Lemma log_bytes : wal_bytes (W := wire) [tx_of 1] = Some log.
Proof. done. Qed.
Definition append (n : Z) (written : option nat) (w : option bytes) : option bytes :=
  (wal_append (W := wire) (tx_of n) written w).1.
End Sample.

Lemma wal_survives_torn_tail_witness :
  wal_load (W := Sample.wire) (Sample.append 2 (Some 3%nat) (Some Sample.log)) = [Sample.tx_of 1].
Proof.
  apply (wal_survives_torn_tail (WL := Sample.stx_wire_laws) [Sample.tx_of 1] Sample.log (Sample.tx_of 2) 3
    (Sample.append 2 (Some 3%nat) (Some Sample.log)) Sample.log_bytes).
  - reflexivity.
  - vm_compute. repeat constructor.
Defined.
Lemma appended_admissions_lost_witness :
  wal_load (W := Sample.wire) (Sample.append 2 None (Sample.append 1 (Some 4%nat) (Some Sample.log))) =
    [Sample.tx_of 1] ∧
  wal_load (W := Sample.wire) (Some (Sample.log ++ u32_le 8 ++ u32_le 1 ++ Sample.long ++ [x02])) = [Sample.tx_of 1].
Proof.
  destruct (appended_admissions_lost (WL := Sample.stx_wire_laws) [Sample.tx_of 1] Sample.log (Sample.tx_of 1) 4
    (Sample.append 1 (Some 4%nat) (Some Sample.log)) (Sample.tx_of 2)
    (Sample.append 2 None (Sample.append 1 (Some 4%nat) (Some Sample.log))) Sample.long [x02]) as [H1 H2];
    [done|done|done|].
  split; [|by apply H2].
  apply H1; [done|done|lia|]. cbn. lia.
Defined.
