(* ===== verification/BlockLog.v ===== *)
(** The block log of a node (hk-node/src/store.rs): one file per height, packed
    span by span into segment files, listed, read, compacted and pruned.

    A directory maps heights to the files [b{height:012}.bin] and segment ids to
    the files [seg{id:09}.hkb].  A file is what the signer's file model makes of
    it ([Signer.File]: what a reader sees, and what may survive a power loss).
    Every file operation of a routine that writes takes its outcome from a
    script; a script that runs out is a crash.  bincode is a parameter. *)

From S2P Require Export Messages.
From S2P Require Import Signer.
#[local] Open Scope Z_scope.

Definition SNAPSHOT_EVERY : Z := 16.
Definition SEGMENT_SPAN : Z := 1024.
Definition SEGMENT_MAGIC : bytes := str_bytes "HKS1".
Definition SEGMENT_TRAILER : Z := 8 + 4.
Definition SEGMENT_INDEX_BYTES : Z := SEGMENT_SPAN * 8.

Record RawCommitCertificate := mkRawCert {
  rc_height : HkHeight;
  rc_round : Round;
  rc_value_id : H256;
  rc_signatures : list (HkAddress * bytes);
}.
Record StoredBlock := mkStoredBlock {
  sb_height : Z;
  sb_value_bytes : bytes;
  sb_certificate : RawCommitCertificate;
  sb_agg_valid : bool;
}.
Class BlockWire := { enc_block : StoredBlock → option bytes; dec_block : bytes → option StoredBlock }.
Class BlockWireLaws {W : BlockWire} : Prop := {
  block_roundtrip b x : enc_block b = Some x → dec_block x = Some b;
}.

Inductive StoreError :=
  | Crashed | IoError | Truncated | BadMagic | BadIndexOffset | UnexpectedEof
  | CorruptBlock | CorruptFrame (height : Z) | WrongHeight (height got : Z) | VerifyFailed (id : Z)
  | CorruptSnapshot (format : Z).

(** * The directory *)

Record Disk := mkDisk { d_blocks : gmap Z File; d_segs : gmap Z File }.
Definition file_at (m : gmap Z File) (k : Z) : File := default no_file (m !! k).
Definition block_file (d : Disk) (h : Z) : File := file_at d.(d_blocks) h.
Definition seg_file (d : Disk) (id : Z) : File := file_at d.(d_segs) id.
Definition put_block_file (h : Z) (f : File) (d : Disk) : Disk := mkDisk (<[h := f]> d.(d_blocks)) d.(d_segs).
Definition put_seg_file (id : Z) (f : File) (d : Disk) : Disk := mkDisk d.(d_blocks) (<[id := f]> d.(d_segs)).

Record Fs := mkFs { fs_disk : Disk; fs_script : list WriteOutcome }.
Notation Io A := (M Fs StoreError A).
Definition next_outcome : Io WriteOutcome :=
  let* fs := getM in
  match fs.(fs_script) with
  | [] => failM Crashed
  | w :: script => modifyM (λ fs, mkFs fs.(fs_disk) script) ;;; retM w
  end.
Definition on_disk (f : Disk → Disk) : Io unit := modifyM (λ fs, mkFs (f fs.(fs_disk)) fs.(fs_script)).
(** [std::fs::read] *)
Definition read_file (file : Disk → File) : Io (option bytes) :=
  let* w := next_outcome in
  match w with
  | WNotRenamed => failM IoError
  | _ => readM (λ fs, Ok (file fs.(fs_disk)).(f_visible))
  end.
(** [fsutil::write_atomic] *)
Definition write_file (file : Disk → File) (put : File → Disk → Disk) (content : bytes) : Io unit :=
  let* w := next_outcome in
  let* fs := getM in
  let '(f, ok) := write_atomic content w (file fs.(fs_disk)) in
  on_disk (put f) ;;;
  refuse_if (negb ok) IoError.
(** [std::fs::remove_file]: whether a file was there; the removal is not synced. *)
Definition remove_file (file : Disk → File) (put : File → Disk → Disk) : Io bool :=
  let* w := next_outcome in
  let* fs := getM in
  let f := file fs.(fs_disk) in
  match w with
  | WNotRenamed => failM IoError
  | _ =>
      match f.(f_visible) with
      | None => retM false
      | Some _ => on_disk (put (mkFile None (f.(f_survivors) ++ [None]))) ;;; retM true
      end
  end.

(** * Reading *)

(** [seek] and [read_exact] *)
Definition read_at (f : bytes) (off n : Z) : res StoreError bytes :=
  if off + n <=? Z.of_nat (length f) then Ok (take (Z.to_nat n) (drop (Z.to_nat off) f)) else Err UnexpectedEof.

(** [open_segment]: the index offset of a segment file. *)
Definition open_segment (f : bytes) : res StoreError Z :=
  let len := Z.of_nat (length f) in
  let? _ := (if len <? 4 + SEGMENT_INDEX_BYTES + SEGMENT_TRAILER then Err Truncated else Ok tt) in
  let? head := read_at f 0 4 in
  let? trailer := read_at f (len - SEGMENT_TRAILER) SEGMENT_TRAILER in
  let? _ := (if negb (bool_decide (head = SEGMENT_MAGIC)) || negb (bool_decide (drop 8 trailer = SEGMENT_MAGIC))
             then Err BadMagic else Ok tt) in
  let index_offset := le_val (take 8 trailer) in
  if wrapping u64_max (index_offset + SEGMENT_INDEX_BYTES + SEGMENT_TRAILER) =? len
  then Ok index_offset else Err BadIndexOffset.

Section log.
Context {W : BlockWire}.

Definition segment_block (f : bytes) (height : Z) : res StoreError (option StoredBlock) :=
  let? index_offset := open_segment f in
  let? off := read_at f (index_offset + (height mod SEGMENT_SPAN) * 8) 8 in
  let off := le_val off in
  if off =? 0 then Ok None
  else
    let? len := read_at f off 4 in
    let? frame := read_at f (off + 4) (le_val len) in
    match dec_block frame with
    | None => Err (CorruptFrame height)
    | Some block =>
        if sb_height block =? height then Ok (Some block) else Err (WrongHeight height (sb_height block))
    end.
(** What [load_from_segment] makes of the content of the segment's file. *)
Definition load_from_segment (f : option bytes) (height : Z) : res StoreError (option StoredBlock) :=
  match f with None => Ok None | Some f => segment_block f height end.
(** [load_block] of the two contents. *)
Definition load_from (block seg : option bytes) (height : Z) : res StoreError (option StoredBlock) :=
  match block with
  | Some x => match dec_block x with Some b => Ok (Some b) | None => Err CorruptBlock end
  | None => load_from_segment seg height
  end.
Definition load_block (d : Disk) (height : Z) : res StoreError (option StoredBlock) :=
  load_from (block_file d height).(f_visible) (seg_file d (height / SEGMENT_SPAN)).(f_visible) height.

(** [segment_heights]: the heights whose index slot is not zero. *)
Fixpoint index_heights (base : Z) (index : list bytes) : list Z :=
  match index with
  | [] => []
  | c :: index => if le_val c =? 0 then index_heights (base + 1) index else base :: index_heights (base + 1) index
  end.
Fixpoint chunks8 (n : nat) (l : bytes) : list bytes :=
  match n with O => [] | S n => take 8 l :: chunks8 n (drop 8 l) end.
Definition segment_heights (f : option bytes) (id : Z) : res StoreError (list Z) :=
  match f with
  | None => Ok []
  | Some f =>
      let? index_offset := open_segment f in
      let? index := read_at f index_offset SEGMENT_INDEX_BYTES in
      Ok (index_heights (id * SEGMENT_SPAN) (chunks8 (Z.to_nat SEGMENT_SPAN) index))
  end.
Fixpoint dedup (l : list Z) : list Z :=
  match l with
  | x :: ((y :: _) as l) => if x =? y then dedup l else x :: dedup l
  | l => l
  end.
Definition visible_keys (m : gmap Z File) : list Z :=
  omap (λ e, if bool_decide (is_Some e.2.(f_visible)) then Some e.1 else None) (map_to_list m).
Definition block_heights (d : Disk) : list Z :=
  dedup (sort_by Z.leb (visible_keys d.(d_blocks) ++
    concat ((λ id, match segment_heights (seg_file d id).(f_visible) id with Ok l => l | _ => [] end)
              <$> visible_keys d.(d_segs)))).

(** * Writing *)

Definition save_block (b : StoredBlock) : Io unit :=
  match enc_block b with
  | None => failM CorruptBlock
  | Some x => write_file (λ d, block_file d (sb_height b)) (put_block_file (sb_height b)) x
  end.

(** The loop of [compact_segment] over the heights of the span: the body, the
    offsets, the number of files packed. *)
Fixpoint pack_files (n : nat) (h : Z) (body : bytes) (index : list Z) (present : Z) : Io (bytes * list Z * Z) :=
  match n with
  | O => retM (body, index, present)
  | S n =>
      let* f := read_file (λ d, block_file d h) in
      match f with
      | None => pack_files n (h + 1) body (index ++ [0]) present
      | Some x =>
          refuse_if (bool_decide (dec_block x = None)) CorruptBlock ;;;
          pack_files n (h + 1) (body ++ u32_le (Z.of_nat (length x)) ++ x)
            (index ++ [Z.of_nat (length body)]) (present + 1)
      end
  end.
Definition segment_bytes (body : bytes) (index : list Z) : bytes :=
  body ++ concat (u64_le <$> index) ++ u64_le (Z.of_nat (length body)) ++ SEGMENT_MAGIC.
Definition first_slot (index : list Z) : Z :=
  match list_find (λ o, o ≠ 0) index with Some (i, _) => Z.of_nat i | None => 0 end.
(** Writing the segment and reading it back; [false] when there was nothing to pack. *)
Definition pack_segment (id : Z) : Io bool :=
  let base := id * SEGMENT_SPAN in
  let* packed := pack_files (Z.to_nat SEGMENT_SPAN) base SEGMENT_MAGIC [] 0 in
  let '(body, index, present) := packed in
  if present =? 0 then retM false
  else
    write_file (λ d, seg_file d id) (put_seg_file id) (segment_bytes body index) ;;;
    let check := base + first_slot index in
    let* f := read_file (λ d, seg_file d id) in
    let* found := readM (λ _, load_from_segment f check) in
    refuse_if (bool_decide (found = None)) (VerifyFailed id) ;;;
    retM true.
(** Removing the per-height files of the span; the number removed. *)
Fixpoint remove_files (n : nat) (h : Z) (retired : Z) : Io Z :=
  match n with
  | O => retM retired
  | S n =>
      let* gone := remove_file (λ d, block_file d h) (put_block_file h) in
      remove_files n (h + 1) (if gone then retired + 1 else retired)
  end.
Definition compact_segment (id : Z) : Io Z :=
  let* fs := getM in
  let* packed := (if bool_decide (is_Some (seg_file fs.(fs_disk) id).(f_visible))
                  then retM true else pack_segment id) in
  if packed then remove_files (Z.to_nat SEGMENT_SPAN) (id * SEGMENT_SPAN) 0 else retM 0.
Definition compactable_segments (d : Disk) (through : Z) : list Z :=
  dedup (sort_by Z.leb
    (omap (λ h, let id := h / SEGMENT_SPAN in
                if (id + 1) * SEGMENT_SPAN - 1 <=? through then Some id else None)
       (visible_keys d.(d_blocks)))).

(** The loop of [prune_below] over the directory. *)
Fixpoint prune_segments (keep_seg : Z) (ids : list Z) (pruned : bool) : Io bool :=
  match ids with
  | [] => retM pruned
  | id :: ids =>
      if id <? keep_seg
      then remove_file (λ d, seg_file d id) (put_seg_file id) ;;; prune_segments keep_seg ids true
      else prune_segments keep_seg ids pruned
  end.
Definition prune_below (tip retain : Z) : Io (option Z) :=
  if (retain =? 0) || (tip <=? retain) then retM None
  else
    let keep_from := tip - retain in
    let keep_seg := keep_from / SEGMENT_SPAN in
    let* fs := getM in
    let* pruned := prune_segments keep_seg (visible_keys fs.(fs_disk).(d_segs)) false in
    retM (if pruned then Some (keep_seg * SEGMENT_SPAN) else None).

(** * The layout of a segment *)

Lemma read_at_mid pre x post off n :
  off = Z.of_nat (length pre) → n = Z.of_nat (length x) → read_at (pre ++ x ++ post) off n = Ok x.
Proof.
  intros -> ->. unfold read_at. rewrite !length_app, (proj2 (Z.leb_le _ _)) by lia.
  by rewrite !Nat2Z.id, drop_app_length, take_app_length.
Qed.
Lemma le_val_u64 z : in_u64 z → le_val (u64_le z) = z.
Proof. intros H. unfold u64_le. rewrite le_val_bytes. apply Z.mod_small. unfold in_u64, u64_max in H. lia. Qed.
Lemma le_val_u32 z : in_u32 z → le_val (u32_le z) = z.
Proof. intros H. unfold u32_le. rewrite le_val_bytes. apply Z.mod_small. unfold in_u32, u32_max in H. lia. Qed.

Lemma Ok_inj {E A} (a b : A) : @Ok E A a = Ok b → a = b.
Proof. by intros [=]. Qed.
(** The contents packed so far, against the body and the offsets written. *)
Record packed (fs : list (option bytes)) (body : bytes) (index : list Z) (present : Z) : Prop := mkPacked {
  pk_len : length index = length fs;
  pk_magic : ∃ rest, body = SEGMENT_MAGIC ++ rest;
  pk_size : Z.of_nat (length body) ≤ 4 + Z.of_nat (length fs) * (u32_max + 4);
  pk_none i : fs !! i = Some None → index !! i = Some 0;
  pk_some i x : fs !! i = Some (Some x) →
    ∃ pre post, body = pre ++ u32_le (Z.of_nat (length x)) ++ x ++ post ∧
      index !! i = Some (Z.of_nat (length pre)) ∧ (4 ≤ length pre)%nat;
  pk_short i x : fs !! i = Some (Some x) → in_u32 (Z.of_nat (length x));
  pk_present : present = 0 → ∀ i x, fs !! i ≠ Some (Some x);
  pk_count : 0 ≤ present;
}.
Lemma packed_start : packed [] SEGMENT_MAGIC [] 0.
Proof. constructor; [done|by exists []|cbn; lia|done..]. Qed.
Lemma lookup_snoc {A} (l : list A) x i y :
  (l ++ [x]) !! i = Some y → l !! i = Some y ∨ (i = length l ∧ y = x).
Proof.
  rewrite lookup_app_Some. intros [H|[Hl H]]; [by left|]. right.
  apply list_lookup_singleton_Some in H as [Hi ->]. split; [lia|done].
Qed.
Lemma packed_none fs body index present :
  packed fs body index present → packed (fs ++ [None]) body (index ++ [0]) present.
Proof.
  intros [Hl Hm Hs Hn Hx Hsh Hp Hc]. constructor; [|done| |..|done].
  - by rewrite !length_app, Hl.
  - rewrite length_app. cbn. unfold u32_max in *. lia.
  - intros i [H|[-> _]]%lookup_snoc; [by apply lookup_app_l_Some, Hn|].
    by rewrite <-Hl, lookup_app_r, Nat.sub_diag.
  - intros i x [H|[_ H]]%lookup_snoc; [|done]. destruct (Hx _ _ H) as (pre & post & E & Hi & H4).
    exists pre, post. split_and!; [done|by apply lookup_app_l_Some|done].
  - intros i x [H|[_ H]]%lookup_snoc; [by eapply Hsh|done].
  - intros E i x [H|[_ H]]%lookup_snoc; [by eapply Hp|done].
Qed.
Lemma packed_some fs body index present x :
  in_u32 (Z.of_nat (length x)) → packed fs body index present →
  packed (fs ++ [Some x]) (body ++ u32_le (Z.of_nat (length x)) ++ x)
    (index ++ [Z.of_nat (length body)]) (present + 1).
Proof.
  intros Hu [Hl [rest Hm] Hs Hn Hx Hsh Hp Hc]. constructor; [| | |..|lia].
  - by rewrite !length_app, Hl.
  - exists (rest ++ u32_le (Z.of_nat (length x)) ++ x). by rewrite Hm, <-app_assoc.
  - rewrite !length_app, length_u32_le. cbn. unfold in_u32, u32_max in *. lia.
  - intros i [H|[_ H]]%lookup_snoc; [by apply lookup_app_l_Some, Hn|done].
  - intros i y [H|[-> [= ->]]]%lookup_snoc.
    + destruct (Hx _ _ H) as (pre & post & -> & Hi & H4). exists pre. eexists.
      rewrite <-!app_assoc. split_and!; [done|by apply lookup_app_l_Some|done].
    + exists body, []. rewrite app_nil_r, <-Hl, lookup_app_r, Nat.sub_diag by done. split_and!; [done|done|].
      rewrite Hm, length_app. cbn. lia.
  - intros i y [H|[-> [= ->]]]%lookup_snoc; [by eapply Hsh|done].
  - lia.
Qed.

Lemma length_index index : length (concat (u64_le <$> index)) = (8 * length index)%nat.
Proof. induction index as [|o index IH]; [done|]. cbn [fmap list_fmap concat]. rewrite length_app, IH. cbn. lia. Qed.
Lemma index_slot index i o :
  index !! i = Some o →
  ∃ pre post, concat (u64_le <$> index) = pre ++ u64_le o ++ post ∧ length pre = (8 * i)%nat.
Proof.
  intros H. exists (concat (u64_le <$> take i index)), (concat (u64_le <$> drop (S i) index)). split.
  - rewrite <-(take_drop_middle index i o H) at 1. rewrite fmap_app, concat_app. done.
  - rewrite length_index, length_take. apply lookup_lt_Some in H. lia.
Qed.

Lemma packed_body_small fs body index present :
  packed fs body index present → length fs = Z.to_nat SEGMENT_SPAN → Z.of_nat (length body) < 2 ^ 52.
Proof. intros [_ _ Hs _ _ _ _ _] Hl. rewrite Hl, Z2Nat.id in Hs by done. change (4 + SEGMENT_SPAN * (u32_max + 4)) with 4398046514180 in Hs. lia. Qed.
Lemma length_magic : length SEGMENT_MAGIC = 4%nat.
Proof. done. Qed.
Lemma length_segment body index :
  length index = Z.to_nat SEGMENT_SPAN →
  Z.of_nat (length (segment_bytes body index)) = Z.of_nat (length body) + SEGMENT_INDEX_BYTES + SEGMENT_TRAILER.
Proof.
  intros H. unfold segment_bytes. rewrite !length_app, length_index, length_u64_le, length_magic, H.
  unfold SEGMENT_INDEX_BYTES, SEGMENT_TRAILER, SEGMENT_SPAN. lia.
Qed.
Lemma open_segment_ok fs body index present :
  packed fs body index present → length fs = Z.to_nat SEGMENT_SPAN →
  open_segment (segment_bytes body index) = Ok (Z.of_nat (length body)).
Proof.
  intros Hp Hf. pose proof (packed_body_small _ _ _ _ Hp Hf) as Hb. destruct Hp as [Hl [rest Hm] _ _ _ _ _ _].
  rewrite Hf in Hl. pose proof (length_segment body index Hl) as Hlen. unfold open_segment. cbn zeta.
  rewrite (proj2 (Z.ltb_ge _ _)).
  2: { rewrite Hlen, Hm, length_app, length_magic. lia. }
  cbn [bindR].
  assert (read_at (segment_bytes body index) 0 4 = Ok SEGMENT_MAGIC) as ->.
  { unfold segment_bytes. rewrite Hm, <-app_assoc. by apply (read_at_mid [] SEGMENT_MAGIC). }
  cbn [bindR].
  assert (read_at (segment_bytes body index) (Z.of_nat (length (segment_bytes body index)) - SEGMENT_TRAILER)
            SEGMENT_TRAILER = Ok (u64_le (Z.of_nat (length body)) ++ SEGMENT_MAGIC)) as ->.
  { rewrite Hlen. unfold segment_bytes.
    rewrite <-(app_nil_r (u64_le (Z.of_nat (length body)) ++ SEGMENT_MAGIC)).
    rewrite (app_assoc body). apply read_at_mid.
    - rewrite length_app, length_index, Hl. unfold SEGMENT_INDEX_BYTES, SEGMENT_SPAN. lia.
    - done. }
  cbn [bindR]. rewrite drop_app_length' by by rewrite length_u64_le.
  rewrite take_app_length' by by rewrite length_u64_le.
  rewrite bool_decide_eq_true_2 by done. cbn [negb orb bindR].
  rewrite le_val_u64 by (unfold in_u64, u64_max; lia).
  rewrite wrapping_small by (unfold u64_max, SEGMENT_INDEX_BYTES, SEGMENT_TRAILER, SEGMENT_SPAN; lia).
  by rewrite Hlen, Z.eqb_refl.
Qed.

(** What a height's slot and frame hold. *)
Definition decoded (h : Z) (f : option bytes) : res StoreError (option StoredBlock) :=
  match f with
  | None => Ok None
  | Some x =>
      match dec_block x with
      | None => Err (CorruptFrame h)
      | Some b => if sb_height b =? h then Ok (Some b) else Err (WrongHeight h (sb_height b))
      end
  end.
Lemma segment_block_packed fs body index present h f :
  packed fs body index present → length fs = Z.to_nat SEGMENT_SPAN →
  fs !! Z.to_nat (h mod SEGMENT_SPAN) = Some f →
  segment_block (segment_bytes body index) h = decoded h f.
Proof.
  intros Hp Hf Hh. unfold segment_block. rewrite (open_segment_ok _ _ _ _ Hp Hf). cbn [bindR].
  pose proof (packed_body_small _ _ _ _ Hp Hf) as Hb. destruct Hp as [Hl _ _ Hn Hx Hsh _ _].
  pose proof (Z.mod_pos_bound h SEGMENT_SPAN ltac:(done)) as Hmod.
  assert (∀ o, index !! Z.to_nat (h mod SEGMENT_SPAN) = Some o →
    read_at (segment_bytes body index) (Z.of_nat (length body) + h mod SEGMENT_SPAN * 8) 8 = Ok (u64_le o)) as Hslot.
  { intros o Ho. destruct (index_slot _ _ _ Ho) as (pre & post & E & Hpre). unfold segment_bytes.
    rewrite E, <-!app_assoc, (app_assoc body). apply read_at_mid; [|done].
    rewrite length_app, Hpre. lia. }
  destruct f as [x|].
  - destruct (Hx _ _ Hh) as (pre & post & E & Hi & H4). rewrite (Hslot _ Hi). cbn [bindR].
    assert (Z.of_nat (length pre) < 2 ^ 52) as Hpre by (rewrite E, length_app in Hb; lia).
    rewrite le_val_u64 by (unfold in_u64, u64_max; lia).
    rewrite (proj2 (Z.eqb_neq _ _)) by lia. unfold segment_bytes. rewrite E, <-!app_assoc.
    rewrite (read_at_mid pre (u32_le (Z.of_nat (length x)))) by by rewrite ?length_u32_le. cbn [bindR].
    rewrite le_val_u32 by by eapply Hsh. rewrite (app_assoc pre).
    by rewrite (read_at_mid (pre ++ u32_le (Z.of_nat (length x))) x) by (rewrite ?length_app, ?length_u32_le; lia).
  - rewrite (Hslot _ (Hn _ Hh)). done.
Qed.

(** * The log a disk holds *)

(** A specification of a log says what reading a height may return; [exactly]
    is that of a map. *)
Definition LogSpec : Type := Z → option StoredBlock → Prop.
Definition exactly (log : gmap Z StoredBlock) : LogSpec := λ h o, o = log !! h.
Definition reads (r : res StoreError (option StoredBlock)) (P : option StoredBlock → Prop) : Prop :=
  ∃ o, r = Ok o ∧ P o.

(** The disk holds a log when every height reads as the specification allows,
    whatever survives of its file and of its segment's. *)
Record disk_ok (d : Disk) (spec : LogSpec) : Prop := mkDiskOk {
  do_block_visible h : file_ok (block_file d h);
  do_seg_visible id : file_ok (seg_file d id);
  do_block h x : Some x ∈ f_survivors (block_file d h) →
    in_u32 (Z.of_nat (length x)) ∧ ∃ b, dec_block x = Some b ∧ sb_height b = h;
  do_reads h bf sf :
    bf ∈ f_survivors (block_file d h) → sf ∈ f_survivors (seg_file d (h / SEGMENT_SPAN)) →
    reads (load_from bf sf h) (spec h);
}.
(** What a segment file may hold: its span, alone. *)
Definition fits (spec : LogSpec) (id : Z) (sf : option bytes) : Prop :=
  ∀ h, h / SEGMENT_SPAN = id → reads (load_from_segment sf h) (spec h).
(** A segment that is complete and durable. *)
Definition settled (id : Z) (d : Disk) (spec : LogSpec) : Prop :=
  ∀ sf, sf ∈ f_survivors (seg_file d id) → fits spec id sf.
(** Power loss: every file keeps one of its survivors. *)
Definition disk_power_loss (d d' : Disk) : Prop :=
  (∀ h, power_loss (block_file d h) (block_file d' h)) ∧ ∀ id, power_loss (seg_file d id) (seg_file d' id).

Lemma reads_exactly r log h : reads r (exactly log h) ↔ r = Ok (log !! h).
Proof. unfold reads, exactly. naive_solver. Qed.
Lemma disk_ok_load d spec h : disk_ok d spec → reads (load_block d h) (spec h).
Proof. intros [Hb Hs _ Hr]. apply Hr; [apply Hb|apply Hs]. Qed.
Lemma power_loss_survivor f f' c : power_loss f f' → c ∈ f_survivors f' → c ∈ f_survivors f.
Proof. intros [Hv E] Hc. rewrite E in Hc. by apply list_elem_of_singleton in Hc as ->. Qed.
Lemma power_loss_visible f f' : power_loss f f' → file_ok f'.
Proof. intros [_ E]. unfold file_ok. rewrite E. by left. Qed.
Lemma disk_ok_power_loss d d' spec : disk_ok d spec → disk_power_loss d d' → disk_ok d' spec.
Proof.
  intros [Hb Hs Hd Hr] [Pb Ps]. constructor; eauto using power_loss_survivor, power_loss_visible.
Qed.
Lemma settled_power_loss id d d' spec : settled id d spec → disk_power_loss d d' → settled id d' spec.
Proof. intros Hs [_ Ps] sf Hsf. eapply Hs, power_loss_survivor; [apply Ps|done]. Qed.

Lemma block_file_put h f d h' : block_file (put_block_file h f d) h' = if decide (h' = h) then f else block_file d h'.
Proof.
  unfold block_file, file_at, put_block_file. cbn [d_blocks]. destruct (decide (h' = h)) as [->|].
  - by rewrite lookup_insert_eq.
  - by rewrite lookup_insert_ne.
Qed.
Lemma seg_file_put id f d id' : seg_file (put_seg_file id f d) id' = if decide (id' = id) then f else seg_file d id'.
Proof.
  unfold seg_file, file_at, put_seg_file. cbn [d_segs]. destruct (decide (id' = id)) as [->|].
  - by rewrite lookup_insert_eq.
  - by rewrite lookup_insert_ne.
Qed.

(** A per-height file is read without a look at the segment. *)
Lemma load_from_block d spec h x sf :
  disk_ok d spec → Some x ∈ f_survivors (block_file d h) → reads (load_from (Some x) sf h) (spec h).
Proof. intros [Hb Hs Hd Hr] Hx. exact (Hr h (Some x) _ Hx (Hs _)). Qed.
Lemma disk_ok_removed h d spec :
  disk_ok d spec → settled (h / SEGMENT_SPAN) d spec →
  disk_ok (put_block_file h (mkFile None (f_survivors (block_file d h) ++ [None])) d) spec.
Proof.
  intros [Hb Hs Hd Hr] Hset. constructor; [|done|..].
  - intros h'. rewrite block_file_put. destruct (decide _); [|done]. unfold file_ok. cbn. set_solver.
  - intros h' x. rewrite block_file_put. destruct (decide _) as [->|]; [|by apply Hd].
    cbn. rewrite elem_of_app, list_elem_of_singleton. intros [?|?]; [by apply Hd|done].
  - intros h' bf sf. rewrite block_file_put. destruct (decide _) as [->|]; [|by apply Hr].
    cbn. rewrite elem_of_app, list_elem_of_singleton. intros [?| ->] Hsf; [by apply Hr|]. by apply Hset.
Qed.
Lemma disk_ok_new_seg id d spec f content :
  disk_ok d spec → file_ok f →
  (∀ sf, sf ∈ f_survivors f → sf ∈ f_survivors (seg_file d id) ∨ sf = content) → fits spec id content →
  disk_ok (put_seg_file id f d) spec.
Proof.
  intros Hdisk Hf Hsurv Hc. pose proof Hdisk as [Hb Hs Hd Hr]. constructor; [done| |done|].
  - intros id'. rewrite seg_file_put. by destruct (decide _).
  - intros h bf sf Hbf. rewrite seg_file_put. destruct (decide _) as [E|]; [|by apply Hr].
    intros [Hin| ->]%Hsurv; [apply Hr; [done|by rewrite E]|].
    destruct bf as [x|]; [by eapply load_from_block|by apply Hc].
Qed.

(** The contents of [n] per-height files. *)
Fixpoint files_from (d : Disk) (h : Z) (n : nat) : list (option bytes) :=
  match n with O => [] | S n => f_visible (block_file d h) :: files_from d (h + 1) n end.
Lemma files_from_lookup d h n i : (i < n)%nat → files_from d h n !! i = Some (f_visible (block_file d (h + Z.of_nat i))).
Proof.
  revert h i. induction n as [|n IH]; intros h i Hi; [lia|]. destruct i as [|i]; cbn [files_from lookup list_lookup].
  - by rewrite Z.add_0_r.
  - rewrite IH by lia. do 3 f_equal. lia.
Qed.
Lemma length_files_from d h n : length (files_from d h n) = n.
Proof. revert h. induction n as [|n IH]; intros h; cbn; [done|]. by rewrite IH. Qed.

(** A span packed as the disk shows it, with no segment yet, reads as the log. *)
Lemma packed_span id d spec body index present :
  disk_ok d spec → f_visible (seg_file d id) = None →
  packed (files_from d (id * SEGMENT_SPAN) (Z.to_nat SEGMENT_SPAN)) body index present →
  fits spec id (Some (segment_bytes body index)).
Proof.
  intros Hd Hv Hp h Hh. pose proof (Z.mod_pos_bound h SEGMENT_SPAN ltac:(done)) as Hm.
  pose proof (Z.div_mod h SEGMENT_SPAN ltac:(done)) as Hdm. cbn [load_from_segment].
  rewrite (segment_block_packed _ _ _ _ h (f_visible (block_file d h)) Hp);
    [|apply length_files_from|].
  2: { rewrite files_from_lookup by lia. do 3 f_equal. rewrite <-Hh. lia. }
  destruct Hd as [Hb Hs Hdec Hr].
  pose proof (Hr h (f_visible (block_file d h)) (f_visible (seg_file d (h / SEGMENT_SPAN))) (Hb h) (Hs _)) as H.
  destruct (f_visible (block_file d h)) as [x|] eqn:E; cbn [decoded].
  - destruct (Hdec h x) as (_ & b & Eb & Eh). { rewrite <-E. apply Hb. }
    cbn in H. rewrite Eb in H. by rewrite Eb, Eh, Z.eqb_refl.
  - rewrite Hh, Hv in H. exact H.
Qed.

(** * Reasoning about every script *)

(** From a disk satisfying [P] the run ends in [Ok a] on a disk satisfying [Q a],
    or stops early (an error, a crash, a panic) on a disk satisfying [R]. *)
Definition triple {A} (P : Disk → Prop) (m : Io A) (Q : A → Disk → Prop) (R : Disk → Prop) : Prop :=
  ∀ fs, P fs.(fs_disk) →
  match m fs with (fs', Ok a) => Q a fs'.(fs_disk) | (fs', _) => R fs'.(fs_disk) end.

Lemma triple_bind {A B} P (m : Io A) (k : A → Io B) Q Q' R :
  triple P m Q' R → (∀ a, triple (Q' a) (k a) Q R) → triple P (bindM m k) Q R.
Proof.
  intros Hm Hk fs HP. specialize (Hm fs HP). unfold bindM.
  destruct (m fs) as [fs1 [a|e|]]; [|done..]. by apply Hk.
Qed.
Lemma triple_ret {A} (P : Disk → Prop) (a : A) (Q : A → Disk → Prop) R : (∀ d, P d → Q a d) → triple P (retM a) Q R.
Proof. intros H fs HP. by apply H. Qed.
Lemma triple_get (P : Disk → Prop) R : triple P getM (λ fs d, P d ∧ fs.(fs_disk) = d) R.
Proof. intros fs HP. done. Qed.
Lemma triple_refuse (P : Disk → Prop) c e (Q : unit → Disk → Prop) (R : Disk → Prop) :
  (∀ d, P d → R d ∧ (c = false → Q tt d)) → triple P (refuse_if c e) Q R.
Proof. intros H fs HP. apply H in HP as [H1 H2]. destruct c; cbn; auto. Qed.
Lemma triple_read {A} (P : Disk → Prop) (x : res StoreError A) Q (R : Disk → Prop) :
  (∀ d, P d → R d ∧ ∀ a, x = Ok a → Q a d) → triple P (readM (λ _, x)) Q R.
Proof. intros H fs HP. apply H in HP as [H1 H2]. cbn. destruct x; auto. Qed.
Lemma triple_conseq {A} (P P' : Disk → Prop) (m : Io A) (Q Q' : A → Disk → Prop) (R R' : Disk → Prop) :
  triple P' m Q' R' → (∀ d, P d → P' d) → (∀ a d, Q' a d → Q a d) → (∀ d, R' d → R d) → triple P m Q R.
Proof.
  intros H HP HQ HR fs HPf. specialize (H fs (HP _ HPf)). destruct (m fs) as [fs1 [a|e|]]; auto.
Qed.
(** Facts of the start state become hypotheses. *)
Lemma triple_pure {A} (P P' : Disk → Prop) (φ : Prop) (m : Io A) Q R :
  (∀ d, P d → φ ∧ P' d) → (φ → triple P' m Q R) → triple P m Q R.
Proof. intros HP Hm fs H. apply HP in H as [Hφ H]. by apply Hm. Qed.
Lemma triple_outcome (P R : Disk → Prop) : (∀ d, P d → R d) → triple P next_outcome (λ _, P) R.
Proof. intros H [d [|w script]] HP; cbn; auto. Qed.
Lemma triple_read_file (P R : Disk → Prop) Q file :
  (∀ d, P d → R d ∧ Q (f_visible (file d)) d) → triple P (read_file file) Q R.
Proof.
  intros H. unfold read_file. eapply triple_bind; [apply triple_outcome; intros d Hd; by apply H|].
  intros w fs HP. destruct (H _ HP) as (H1 & H2). by destruct w.
Qed.
Lemma triple_write_file (P : Disk → Prop) (Q : unit → Disk → Prop) (R : Disk → Prop) file put content :
  (∀ d, P d → R d ∧ R (put (file d) d) ∧
              R (put (mkFile (Some content) (f_survivors (file d) ++ [Some content])) d) ∧
              Q tt (put (mkFile (Some content) [Some content]) d)) →
  triple P (write_file file put content) Q R.
Proof.
  intros H. unfold write_file. eapply triple_bind; [apply triple_outcome; intros d Hd; by apply H|].
  intros w fs HP. destruct (H _ HP) as (H1 & H2 & H3 & H4). by destruct w.
Qed.
Lemma triple_remove_file (P : Disk → Prop) (Q : bool → Disk → Prop) (R : Disk → Prop) file put :
  (∀ d, P d → R d ∧ match f_visible (file d) with
                    | None => Q false d
                    | Some _ => Q true (put (mkFile None (f_survivors (file d) ++ [None])) d)
                    end) →
  triple P (remove_file file put) Q R.
Proof.
  intros H. unfold remove_file. eapply triple_bind; [apply triple_outcome; intros d Hd; by apply H|].
  intros w fs HP. destruct (H _ HP) as (H1 & H2). cbn. destruct w; cbn; [done|..];
    destruct (f_visible (file (fs_disk fs))); exact H2.
Qed.

(** * Compaction, saving, pruning *)

Lemma pack_files_triple d0 n h body index present prev :
  (∀ i x, f_visible (block_file d0 i) = Some x → in_u32 (Z.of_nat (length x))) →
  packed prev body index present →
  triple (λ d, d = d0) (pack_files n h body index present)
    (λ r d, d = d0 ∧ packed (prev ++ files_from d0 h n) r.1.1 r.1.2 r.2) (λ d, d = d0).
Proof.
  intros Hu. revert h body index present prev. induction n as [|n IH]; intros h body index present prev Hp.
  - apply triple_ret. intros d ->. by rewrite app_nil_r.
  - cbn [pack_files files_from]. eapply (triple_bind _ _ _ _ (λ f d, d = d0 ∧ f = f_visible (block_file d0 h))).
    { apply triple_read_file. by intros d ->. }
    intros f. apply (triple_pure _ (λ d, d = d0) (f = f_visible (block_file d0 h))); [by intros d [-> ->]|].
    intros Ef. rewrite (cons_middle (f_visible (block_file d0 h)) prev), (app_assoc prev), <-Ef. destruct f as [x|].
    + eapply (triple_bind _ _ _ _ (λ _ d, d = d0)); [apply triple_refuse; by intros d ->|]. intros _.
      apply IH, packed_some; [|done]. by eapply Hu.
    + by apply IH, packed_none.
Qed.

(** What compaction keeps: the log, and segments that were there or fit. *)
Definition kept (spec : LogSpec) (d0 d : Disk) : Prop :=
  disk_ok d spec ∧ ∀ id sf, sf ∈ f_survivors (seg_file d id) → sf ∈ f_survivors (seg_file d0 id) ∨ fits spec id sf.
Lemma kept_new_seg spec d0 id f content :
  disk_ok d0 spec → file_ok f → fits spec id content →
  (∀ sf, sf ∈ f_survivors f → sf ∈ f_survivors (seg_file d0 id) ∨ sf = content) →
  kept spec d0 (put_seg_file id f d0).
Proof.
  intros Hd Hf Hc Hs. split; [by eapply disk_ok_new_seg|]. intros id' sf. rewrite seg_file_put.
  destruct (decide _) as [->|]; [|by left]. intros [?| ->]%Hs; [by left|by right].
Qed.
Lemma pack_segment_triple id spec d0 :
  disk_ok d0 spec → f_visible (seg_file d0 id) = None →
  triple (λ d, d = d0) (pack_segment id)
    (λ ok d, kept spec d0 d ∧ (ok = true → settled id d spec)) (kept spec d0).
Proof.
  intros Hd Hv. assert (kept spec d0 d0) as Hk0 by (split; [done|by left]).
  assert (∀ i x, f_visible (block_file d0 i) = Some x → in_u32 (Z.of_nat (length x))) as Hu.
  { intros i x E. apply (do_block _ _ Hd i x). rewrite <-E. apply (do_block_visible _ _ Hd). }
  pose proof (pack_files_triple d0 (Z.to_nat SEGMENT_SPAN) (id * SEGMENT_SPAN) _ _ _ _ Hu packed_start) as Hpk.
  unfold pack_segment. eapply triple_bind.
  { eapply triple_conseq; [exact Hpk|intros d E; exact E|intros a d Ha; exact Ha|intros d ->; exact Hk0]. }
  intros [[body index] present]. cbn [fst snd app].
  apply (triple_pure _ (λ d, d = d0)
    (packed (files_from d0 (id * SEGMENT_SPAN) (Z.to_nat SEGMENT_SPAN)) body index present)); [by intros d []|].
  intros Hp. destruct (present =? 0); [by apply triple_ret; intros d ->|].
  assert (fits spec id (Some (segment_bytes body index))) as Hseg by by eapply packed_span.
  generalize dependent (segment_bytes body index). intros content Hseg.
  set (done_ := λ d, kept spec d0 d ∧ settled id d spec).
  eapply (triple_bind _ _ _ _ (λ _, done_)).
  { apply triple_write_file. intros d ->. split_and!; [done|..].
    - apply (kept_new_seg spec d0 id _ (Some content)); [exact Hd|apply (do_seg_visible _ _ Hd)|exact Hseg|by left].
    - apply (kept_new_seg spec d0 id _ (Some content)); [exact Hd|apply elem_of_app; right; by left|exact Hseg|].
      intros sf. cbn. rewrite elem_of_app, list_elem_of_singleton. tauto.
    - split.
      + apply (kept_new_seg spec d0 id _ (Some content)); [exact Hd|by left|exact Hseg|].
        intros sf. cbn. rewrite list_elem_of_singleton. tauto.
      + intros sf. rewrite seg_file_put, decide_True by done. cbn. by intros ->%list_elem_of_singleton. }
  intros _. eapply (triple_bind _ _ _ _ (λ _, done_)); [apply triple_read_file; by intros d []|]. intros f.
  eapply (triple_bind _ _ _ _ (λ _, done_)); [apply triple_read; by intros d []|]. intros found.
  eapply (triple_bind _ _ _ _ (λ _, done_)); [apply triple_refuse; by intros d []|].
  intros _. apply triple_ret. by intros d [].
Qed.
Lemma remove_files_triple id spec d0 n h retired :
  id * SEGMENT_SPAN ≤ h → h + Z.of_nat n ≤ (id + 1) * SEGMENT_SPAN →
  triple (λ d, kept spec d0 d ∧ settled id d spec) (remove_files n h retired)
    (λ _, kept spec d0) (kept spec d0).
Proof.
  revert h retired. induction n as [|n IH]; intros h retired Hl Hu; [by apply triple_ret; intros d []|].
  cbn [remove_files]. assert (h / SEGMENT_SPAN = id) as Hid.
  { symmetry. apply (Z.div_unique_pos _ _ _ (h - id * SEGMENT_SPAN)); lia. }
  eapply (triple_bind _ _ _ _ (λ _ d, kept spec d0 d ∧ settled id d spec)).
  - apply triple_remove_file. intros d [Hk Hs]. split; [done|].
    destruct (f_visible _); [|done]. split; [|done]. destruct Hk as [Hd Hseg]. split; [|exact Hseg].
    apply disk_ok_removed; [done|by rewrite Hid].
  - intros gone. apply IH; lia.
Qed.
Lemma compact_segment_kept id spec fs fs' r :
  disk_ok fs.(fs_disk) spec →
  (is_Some (seg_file fs.(fs_disk) id).(f_visible) → settled id fs.(fs_disk) spec) →
  compact_segment id fs = (fs', r) → kept spec fs.(fs_disk) fs'.(fs_disk).
Proof.
  intros Hd Hs Hrun. set (d0 := fs_disk fs) in *.
  assert (kept spec d0 d0) as Hk0 by (split; [done|by left]).
  assert (triple (λ d, d = d0) (compact_segment id) (λ _, kept spec d0) (kept spec d0)) as H.
  2: { specialize (H fs eq_refl). rewrite Hrun in H. by destruct r. }
  unfold compact_segment. eapply triple_bind; [apply (triple_get (λ d, d = d0))|]. intros fs0.
  apply (triple_pure _ (λ d, d = d0) (fs_disk fs0 = d0)); [by intros d [-> E]|]. intros ->.
  eapply (triple_bind _ _ _ _ (λ ok d, kept spec d0 d ∧ (ok = true → settled id d spec))).
  - case_bool_decide as Hseg.
    + apply triple_ret. intros d ->. split; [done|]. intros _. by apply Hs.
    + apply (pack_segment_triple id spec d0 Hd). by apply eq_None_not_Some.
  - intros [].
    + eapply triple_conseq; [apply (remove_files_triple id spec d0)| |by intros a d ?|by intros d ?]; [lia| |].
      * rewrite Z2Nat.id by done. lia.
      * intros d [H1 H2]. by split; [|apply H2].
    + apply triple_ret. by intros d [].
Qed.

(** C35: whatever goes wrong in a compaction (an I/O error anywhere, a crash between
    any two file operations, a power loss afterwards that undoes every rename
    and removal that was not synced), every height still reads as it did, as
    long as a segment already there was complete and durable. *)
Theorem compaction_keeps_every_block id fs log fs' r :
  disk_ok fs.(fs_disk) (exactly log) →
  (is_Some (seg_file fs.(fs_disk) id).(f_visible) → settled id fs.(fs_disk) (exactly log)) →
  compact_segment id fs = (fs', r) →
  ∀ d, d = fs'.(fs_disk) ∨ disk_power_loss fs'.(fs_disk) d → ∀ h, load_block d h = Ok (log !! h).
Proof.
  intros Hd Hs Hrun. destruct (compact_segment_kept _ _ _ _ _ Hd Hs Hrun) as [Hd' _].
  intros d Hl h. apply reads_exactly. destruct Hl as [->|Hloss]; [by apply disk_ok_load|].
  by eapply disk_ok_load, disk_ok_power_loss.
Qed.

(** Around a per-height file that may also have become [x]. *)
Definition or_saved (b : StoredBlock) (spec : LogSpec) : LogSpec :=
  λ h o, spec h o ∨ (h = sb_height b ∧ o = Some b).
Lemma disk_ok_put_block d spec b x f :
  disk_ok d spec → dec_block x = Some b → in_u32 (Z.of_nat (length x)) → file_ok f →
  (∀ s, s ∈ f_survivors f → s ∈ f_survivors (block_file d (sb_height b)) ∨ s = Some x) →
  disk_ok (put_block_file (sb_height b) f d) (or_saved b spec).
Proof.
  intros [Hb Hs Hdec Hr] Hx Hu Hf Hsurv. constructor; [|done|..].
  - intros h. rewrite block_file_put. by destruct (decide _).
  - intros h y. rewrite block_file_put. destruct (decide _) as [->|]; [|by apply Hdec].
    intros [?|[= ->]]%Hsurv; [by apply Hdec|]. split; [done|]. by exists b.
  - intros h bf sf. rewrite block_file_put. destruct (decide _) as [->|].
    + intros [Hin| ->]%Hsurv Hsf.
      * destruct (Hr _ _ _ Hin Hsf) as (o & ? & ?). exists o. split; [done|by left].
      * exists (Some b). split; [cbn; by rewrite Hx|by right].
    + intros Hin Hsf. destruct (Hr _ _ _ Hin Hsf) as (o & ? & ?). exists o. split; [done|by left].
Qed.
Lemma save_block_ok d spec b x script fs' r :
  disk_ok d spec → enc_block b = Some x → dec_block x = Some b → in_u32 (Z.of_nat (length x)) →
  save_block b (mkFs d script) = (fs', r) →
  disk_ok fs'.(fs_disk) (or_saved b spec) ∧ fs'.(fs_disk).(d_segs) = d.(d_segs).
Proof.
  intros Hd He Hx Hu. unfold save_block. rewrite He. destruct script as [|w script].
  { intros [= <- <-]. split; [|done]. destruct Hd as [Hb Hs Hdec Hr]. constructor; [done..|].
    intros h bf sf Hin Hsf. destruct (Hr _ _ _ Hin Hsf) as (o & ? & ?). exists o. split; [done|by left]. }
  unfold write_file. cbn. intros Hrun. pose proof (do_block_visible _ _ Hd (sb_height b)) as Hvis.
  destruct w; cbn in Hrun; apply pair_equal_spec in Hrun as [<- <-]; cbn [fs_disk]; (split; [|done]).
  - apply (disk_ok_put_block d spec b x); auto.
  - apply (disk_ok_put_block d spec b x); auto.
    + apply elem_of_app. right. by left.
    + intros s. cbn. rewrite elem_of_app, list_elem_of_singleton. tauto.
  - apply (disk_ok_put_block d spec b x); auto; [by left|].
    intros s. cbn. rewrite list_elem_of_singleton. tauto.
Qed.
(** A save that returned: every survivor reads as saved. *)
Definition with_saved (b : StoredBlock) (spec : LogSpec) : LogSpec :=
  λ h o, if decide (h = sb_height b) then o = Some b else spec h o.
Lemma save_block_done d spec b x script fs' :
  disk_ok d spec → enc_block b = Some x → dec_block x = Some b → in_u32 (Z.of_nat (length x)) →
  save_block b (mkFs d script) = (fs', Ok tt) → disk_ok fs'.(fs_disk) (with_saved b spec).
Proof.
  intros Hd He Hx Hu Hrun. unfold save_block in Hrun. rewrite He in Hrun. destruct script as [|w script]; [done|].
  unfold write_file in Hrun. cbn in Hrun. destruct w; cbn in Hrun; apply pair_equal_spec in Hrun as [<- Hr]; [done..|].
  cbn [fs_disk]. destruct Hd as [Hb Hs Hdec Hrd]. constructor; [|done|..].
  - intros h. rewrite block_file_put. destruct (decide _); [by left|apply Hb].
  - intros h y. rewrite block_file_put. destruct (decide _) as [->|]; [|by apply Hdec].
    cbn. rewrite list_elem_of_singleton. intros [= ->]. split; [done|]. by exists b.
  - intros h bf sf. rewrite block_file_put. unfold with_saved. destruct (decide _) as [->|]; [|by apply Hrd].
    cbn. rewrite list_elem_of_singleton. intros -> _. exists (Some b). cbn. by rewrite Hx.
Qed.
Lemma disk_ok_weaken d spec spec' : (∀ h o, spec h o → spec' h o) → disk_ok d spec → disk_ok d spec'.
Proof.
  intros Hw [Hb Hs Hdec Hr]. constructor; [done..|]. intros h bf sf H1 H2.
  destruct (Hr h bf sf H1 H2) as (o & ? & ?). exists o. auto.
Qed.
(** Saving a block is all or nothing: whatever the outcome and whatever survives
    a power loss, every other height reads as before and the saved one as before
    or as saved; and a save that returned stays. *)
Theorem saved_block_survives b x fs log fs' r :
  disk_ok fs.(fs_disk) (exactly log) → enc_block b = Some x → dec_block x = Some b → in_u32 (Z.of_nat (length x)) →
  save_block b fs = (fs', r) →
  (∀ d, d = fs'.(fs_disk) ∨ disk_power_loss fs'.(fs_disk) d → ∀ h,
     load_block d h = Ok (log !! h) ∨ (h = sb_height b ∧ load_block d h = Ok (Some b))) ∧
  (r = Ok tt → disk_ok fs'.(fs_disk) (exactly (<[sb_height b := b]> log))).
Proof.
  intros Hd He Hx Hu Hrun. destruct fs as [d0 script]. cbn in Hd. split.
  - destruct (save_block_ok _ _ _ _ _ _ _ Hd He Hx Hu Hrun) as [Hd' _]. intros d Hl h.
    assert (reads (load_block d h) (or_saved b (exactly log) h)) as (o & E & [Ho|[? Ho]]).
    { destruct Hl as [->|Hp]; [by apply disk_ok_load|]. by eapply disk_ok_load, disk_ok_power_loss. }
    + left. by rewrite E, Ho.
    + right. by rewrite E, Ho.
  - intros ->. eapply disk_ok_weaken; [|by eapply save_block_done]. intros h o. unfold with_saved, exactly.
    destruct (decide _) as [->|]; [by rewrite lookup_insert_eq|by rewrite lookup_insert_ne].
Qed.

(** * Listing *)

Lemma index_heights_spec base l h :
  h ∈ index_heights base l ↔ ∃ i c, l !! i = Some c ∧ le_val c ≠ 0 ∧ h = base + Z.of_nat i.
Proof.
  revert base. induction l as [|c l IH]; intros base; cbn [index_heights].
  { split; [by intros ?%elem_of_nil|by intros (i & c & H & _)]. }
  assert (h ∈ index_heights (base + 1) l ↔
    ∃ i c', (c :: l) !! S i = Some c' ∧ le_val c' ≠ 0 ∧ h = base + Z.of_nat (S i)) as Htl.
  { rewrite IH. split; intros (i & c' & H1 & H2 & H3); exists i, c'; (split_and!; [done|done|lia]). }
  destruct (Z.eqb_spec (le_val c) 0) as [E|E]; rewrite ?elem_of_cons, Htl; split.
  - intros (i & c' & H). by exists (S i), c'.
  - intros ([|i] & c' & H1 & H2 & H3); [by injection H1 as ->|]. by exists i, c'.
  - intros [->|(i & c' & H)]; [exists 0%nat, c; split_and!; [done|done|lia]|by exists (S i), c'].
  - intros ([|i] & c' & H1 & H2 & H3); [left; lia|right; by exists i, c'].
Qed.
Lemma chunks8_lookup n l i : (i < n)%nat → chunks8 n l !! i = Some (take 8 (drop (8 * i) l)).
Proof.
  revert l i. induction n as [|n IH]; intros l i Hi; [lia|]. destruct i as [|i]; cbn [chunks8 lookup list_lookup].
  - done.
  - rewrite IH by lia. rewrite drop_drop. do 3 f_equal. lia.
Qed.
Lemma length_chunks8 n l : length (chunks8 n l) = n.
Proof. revert l. induction n as [|n IH]; intros l; cbn; [done|]. by rewrite IH. Qed.

Lemma dedup_elem l x : x ∈ dedup l ↔ x ∈ l.
Proof.
  induction l as [|a [|b l] IH]; [done|done|]. cbn [dedup] in *. destruct (Z.eqb_spec a b) as [->|].
  - rewrite IH, !elem_of_cons. tauto.
  - by rewrite !(elem_of_cons _ _ a), IH.
Qed.
Lemma dedup_sorted l : StronglySorted (λ a b, (a <=? b) = true) l → StronglySorted Z.lt (dedup l).
Proof.
  induction l as [|a [|b l] IH]; intros Hs; [constructor|by repeat constructor|].
  apply StronglySorted_inv in Hs as [Hs Hf]. specialize (IH Hs). cbn [dedup] in *.
  destruct (Z.eqb_spec a b) as [->|Hne]; [done|]. constructor; [done|].
  rewrite Forall_forall in Hf |- *. intros x Hx. assert (x ∈ b :: l) as Hin by by rewrite <-dedup_elem.
  apply StronglySorted_inv in Hs as [_ Hb]. rewrite Forall_forall in Hb.
  assert (a ≤ b) by (apply Z.leb_le, Hf; by left). apply elem_of_cons in Hin as [->|Hin]; [lia|].
  specialize (Hb _ Hin). apply Z.leb_le in Hb. lia.
Qed.
Lemma sort_dedup_sorted l : StronglySorted Z.lt (dedup (sort_by Z.leb l)).
Proof. apply dedup_sorted, sort_by_sorted; intros; rewrite ?Z.leb_le in *; lia. Qed.
Lemma sort_dedup_elem l x : x ∈ dedup (sort_by Z.leb l) ↔ x ∈ l.
Proof. by rewrite dedup_elem, (sort_by_perm Z.leb l). Qed.
Lemma visible_keys_elem m k : k ∈ visible_keys m ↔ is_Some (f_visible (file_at m k)).
Proof.
  unfold visible_keys, file_at. rewrite list_elem_of_omap. split.
  - intros ([k' f] & Hin & H). cbn in H. case_bool_decide as Hv; [|done]. injection H as ->.
    apply elem_of_map_to_list in Hin as ->. done.
  - destruct (m !! k) as [f|] eqn:E; [|by intros []]. cbn. intros Hv. exists (k, f). split.
    + by apply elem_of_map_to_list.
    + cbn. by rewrite bool_decide_eq_true_2.
Qed.

Lemma block_keys_elem d h : h ∈ visible_keys (d_blocks d) ↔ is_Some (f_visible (block_file d h)).
Proof. apply visible_keys_elem. Qed.
Lemma seg_keys_elem d id : id ∈ visible_keys (d_segs d) ↔ is_Some (f_visible (seg_file d id)).
Proof. apply visible_keys_elem. Qed.
Lemma open_segment_room f off :
  open_segment f = Ok off → 0 ≤ off ∧ Z.of_nat (length f) = off + SEGMENT_INDEX_BYTES + SEGMENT_TRAILER.
Proof.
  unfold open_segment. cbn zeta. destruct (Z.ltb_spec (Z.of_nat (length f)) (4 + SEGMENT_INDEX_BYTES + SEGMENT_TRAILER)) as [|Hlen]; [done|].
  cbn [bindR]. destruct (read_at f 0 4) as [hd| |]; cbn [bindR]; [|done..].
  destruct (read_at f _ SEGMENT_TRAILER) as [tr| |]; cbn [bindR]; [|done..].
  destruct (negb _ || negb _); cbn [bindR]; [done|].
  pose proof (le_val_bound (take 8 tr)) as Hb.
  assert (le_val (take 8 tr) ≤ u64_max) as Hu.
  { assert (256 ^ Z.of_nat (length (take 8 tr)) ≤ 2 ^ 64).
    { change (2 ^ 64) with (256 ^ 8). apply Z.pow_le_mono_r; [lia|]. rewrite length_take. lia. }
    unfold u64_max. lia. }
  revert Hb Hu. generalize (le_val (take 8 tr)). intros v [Hv _] Hu.
  destruct (Z.eqb_spec (wrapping u64_max (v + SEGMENT_INDEX_BYTES + SEGMENT_TRAILER)) (Z.of_nat (length f))) as [E|]; [|done].
  intros [= <-]. split; [done|]. rewrite <-E. unfold wrapping in E |- *.
  unfold u64_max, SEGMENT_INDEX_BYTES, SEGMENT_TRAILER, SEGMENT_SPAN in *.
  destruct (Z.ltb_spec (v + 1024 * 8 + (8 + 4)) (2 ^ 64)) as [Hlt|Hge].
  - rewrite Z.mod_small by lia. done.
  - exfalso. assert ((v + 1024 * 8 + (8 + 4)) mod (2 ^ 64 - 1 + 1) < 1024 * 8 + (8 + 4)) as Hs.
    { rewrite <-(Z.mod_unique (v + 1024 * 8 + (8 + 4)) (2 ^ 64 - 1 + 1) 1 (v + 1024 * 8 + (8 + 4) - 2 ^ 64)); lia. }
    lia.
Qed.
Lemma segment_heights_spec f id off h i :
  open_segment f = Ok off → h = id * SEGMENT_SPAN + Z.of_nat i → (i < Z.to_nat SEGMENT_SPAN)%nat →
  ∃ l c, segment_heights (Some f) id = Ok l ∧ read_at f (off + Z.of_nat i * 8) 8 = Ok c ∧
    (h ∈ l ↔ le_val c ≠ 0).
Proof.
  intros Ho Hh Hi. destruct (open_segment_room _ _ Ho) as [Hoff Hlen].
  assert (Z.of_nat i < SEGMENT_SPAN) as Hi' by lia.
  cbn [segment_heights]. rewrite Ho. cbn [bindR]. unfold read_at.
  rewrite (proj2 (Z.leb_le _ _)) by (unfold SEGMENT_TRAILER in Hlen; lia). cbn [bindR].
  rewrite (proj2 (Z.leb_le _ _)) by (unfold SEGMENT_INDEX_BYTES, SEGMENT_TRAILER in Hlen; lia).
  eexists _, _. split_and!; [done|done|]. rewrite index_heights_spec.
  assert (take 8 (drop (8 * i) (take (Z.to_nat SEGMENT_INDEX_BYTES) (drop (Z.to_nat off) f))) =
          take (Z.to_nat 8) (drop (Z.to_nat (off + Z.of_nat i * 8)) f)) as Hc.
  { rewrite skipn_firstn_comm, take_take, drop_drop. f_equal; [|f_equal; lia].
    assert (Z.of_nat (8 * i + 8) ≤ SEGMENT_INDEX_BYTES) by (unfold SEGMENT_INDEX_BYTES; lia). lia. }
  rewrite <-Hc. split.
  - intros (j & c & Hj & Hnz & Hhj). assert (j = i) as -> by lia.
    rewrite chunks8_lookup in Hj by done. by injection Hj as <-.
  - intros Hnz. exists i. eexists. rewrite chunks8_lookup by done. split_and!; [done|exact Hnz|done].
Qed.
Lemma segment_heights_span f id l h : segment_heights f id = Ok l → h ∈ l → h / SEGMENT_SPAN = id.
Proof.
  destruct f as [f|]; cbn [segment_heights]; [|intros [= <-]; by intros ?%elem_of_nil].
  destruct (open_segment f) as [off| |]; cbn [bindR]; [|done..].
  destruct (read_at _ _ _) as [ix| |]; cbn [bindR]; [|done..]. intros <-%Ok_inj.
  rewrite index_heights_spec. intros (i & c & Hi & _ & ->). apply lookup_lt_Some in Hi. rewrite length_chunks8 in Hi.
  symmetry. apply (Z.div_unique_pos _ _ _ (Z.of_nat i)); lia.
Qed.
Lemma segment_listed f h o :
  load_from_segment f h = Ok o →
  ∃ l, segment_heights f (h / SEGMENT_SPAN) = Ok l ∧ (h ∈ l ↔ is_Some o).
Proof.
  destruct f as [f|]; cbn [load_from_segment].
  2: { intros [= <-]. exists []. split; [done|]. split; [by intros ?%elem_of_nil|by intros []]. }
  unfold segment_block. destruct (open_segment f) as [off| |] eqn:Ho; cbn [bindR]; [|done..].
  pose proof (Z.mod_pos_bound h SEGMENT_SPAN ltac:(done)) as Hm.
  pose proof (Z.div_mod h SEGMENT_SPAN ltac:(done)) as Hdm.
  destruct (segment_heights_spec f (h / SEGMENT_SPAN) off h (Z.to_nat (h mod SEGMENT_SPAN)) Ho) as (l & c & Hl & Hc & Hin);
    [lia|lia|]. rewrite Z2Nat.id in Hc by lia. rewrite Hc. cbn [bindR]. intros H. exists l. split; [done|]. rewrite Hin.
  destruct (Z.eqb_spec (le_val c) 0) as [E|E].
  - injection H as <-. rewrite E. split; [done|by intros []].
  - destruct (read_at f (le_val c) 4) as [len| |]; cbn [bindR] in H; [|done..].
    destruct (read_at f (le_val c + 4) (le_val len)) as [fr| |]; cbn [bindR] in H; [|done..].
    destruct (dec_block fr) as [b|]; [|done]. destruct (sb_height b =? h); [|done]. injection H as <-. by split.
Qed.

Lemma listed_readable d h o :
  load_block d h = Ok o → (h ∈ block_heights d ↔ is_Some o).
Proof.
  intros Hl. unfold load_block in Hl. unfold block_heights.
  rewrite sort_dedup_elem, elem_of_app, block_keys_elem.
  destruct (f_visible (block_file d h)) as [x|] eqn:Ex.
  - cbn in Hl. destruct (dec_block x) as [b|]; [|done]. apply Ok_inj in Hl as <-. split; [done|]. by left.
  - cbn [load_from] in Hl. destruct (segment_listed _ _ _ Hl) as (l & Hsl & Hin). rewrite <-Hin. split.
    + intros [[? ?]|Hc]; [done|]. apply list_elem_of_In, in_concat in Hc as (l' & Hl' & Hx).
      apply list_elem_of_In in Hl', Hx. apply list_elem_of_fmap in Hl' as (id & -> & _).
      destruct (segment_heights (f_visible (seg_file d id)) id) as [l'| |] eqn:E; [|by apply elem_of_nil in Hx..].
      pose proof (segment_heights_span _ _ _ _ E Hx) as Hid. rewrite Hid in Hsl. rewrite E in Hsl. by injection Hsl as ->.
    + intros Hx. right. apply list_elem_of_In, in_concat. exists l. split; [|by apply list_elem_of_In].
      apply list_elem_of_In, list_elem_of_fmap. exists (h / SEGMENT_SPAN). rewrite Hsl. split; [done|].
      rewrite seg_keys_elem. destruct (f_visible (seg_file d (h / SEGMENT_SPAN))); [done|]. apply Ok_inj in Hsl as <-. by apply elem_of_nil in Hx.
Qed.
Lemma block_heights_sorted d : StronglySorted Z.lt (block_heights d).
Proof. apply sort_dedup_sorted. Qed.
(** The listing of the block log is exact: strictly ascending, and a height is
    listed when and only when it can be read. *)
Theorem listing_is_exact d log :
  disk_ok d (exactly log) →
  StronglySorted Z.lt (block_heights d) ∧ ∀ h, h ∈ block_heights d ↔ is_Some (log !! h).
Proof.
  intros Hd. split; [apply block_heights_sorted|]. intros h. apply listed_readable, reads_exactly.
  by apply disk_ok_load.
Qed.

(** * Pruning, and what compaction trusts *)

Definition same_tail (keep : Z) (d0 d : Disk) : Prop :=
  d_blocks d = d_blocks d0 ∧ ∀ id, keep ≤ id → seg_file d id = seg_file d0 id.
Lemma prune_segments_triple keep d0 ids pruned :
  triple (same_tail keep d0) (prune_segments keep ids pruned) (λ _, same_tail keep d0) (same_tail keep d0).
Proof.
  revert pruned. induction ids as [|id ids IH]; intros pruned; [by apply triple_ret|].
  cbn [prune_segments]. destruct (Z.ltb_spec id keep) as [Hlt|]; [|apply IH].
  eapply (triple_bind _ _ _ _ (λ _, same_tail keep d0)); [|intros _; apply IH].
  apply triple_remove_file. intros d Hd. split; [done|]. destruct (f_visible _); [|done].
  destruct Hd as [H1 H2]. split; [done|]. intros id' Hid. rewrite seg_file_put, decide_False by lia. by apply H2.
Qed.
(** Retention never touches the tail: whatever goes wrong, every height from the
    first of the segment that holds [tip - retain] reads as before, and that
    first height is the floor a successful pruning reports. *)
Theorem pruning_keeps_the_tail tip retain fs fs' r :
  prune_below tip retain fs = (fs', r) →
  (∀ h, (tip - retain) / SEGMENT_SPAN * SEGMENT_SPAN ≤ h → load_block fs'.(fs_disk) h = load_block fs.(fs_disk) h) ∧
  (∀ m, r = Ok (Some m) → m = (tip - retain) / SEGMENT_SPAN * SEGMENT_SPAN ∧ m ≤ tip - retain).
Proof.
  unfold prune_below. destruct ((retain =? 0) || (tip <=? retain)).
  { intros [= <- <-]. split; [done|]. by intros m [=]. }
  set (keep := (tip - retain) / SEGMENT_SPAN). intros Hrun. unfold bindM at 1 in Hrun. cbn in Hrun. split.
  - pose proof (prune_segments_triple keep (fs_disk fs) (visible_keys (d_segs (fs_disk fs))) false fs) as H.
    assert (same_tail keep (fs_disk fs) (fs_disk fs')) as [H1 H2].
    { unfold bindM in Hrun. destruct (prune_segments _ _ _ fs) as [fs1 [a|e|]]; injection Hrun as <- _; by apply H. }
    intros h Hh. unfold load_block, block_file. rewrite H1, H2; [done|].
    apply Z.div_le_lower_bound; [done|lia].
  - intros m ->. apply bindM_ok in Hrun as (fs1 & a & _ & Hr). destruct a; [|done]. injection Hr as _ <-.
    split; [done|]. pose proof (Z.mul_div_le (tip - retain) SEGMENT_SPAN ltac:(done)). subst keep. lia.
Qed.

(** * The disk of a node that also prunes

    When a height may also be missing, every segment fits and every operation
    keeps the disk as it should be, whatever it trusted and however it ended. *)
Definition tidy (spec : LogSpec) (d : Disk) : Prop := disk_ok d spec ∧ ∀ id, settled id d spec.
Lemma tidy_power_loss spec d d' : tidy spec d → disk_power_loss d d' → tidy spec d'.
Proof. intros [Hd Hs] Hl. split; [by eapply disk_ok_power_loss|]. intros id. by eapply settled_power_loss. Qed.
Lemma tidy_compact spec id fs fs' r :
  tidy spec fs.(fs_disk) → compact_segment id fs = (fs', r) → tidy spec fs'.(fs_disk).
Proof.
  intros [Hd Hs] Hrun. destruct (compact_segment_kept id spec fs fs' r Hd) as [Hd' Hseg]; [intros _; apply Hs|done|].
  split; [done|]. intros id' sf Hsf. destruct (Hseg _ _ Hsf) as [Hin|]; [by eapply Hs|done].
Qed.
Lemma tidy_save spec d b x script fs' r :
  tidy spec d → spec (sb_height b) (Some b) → enc_block b = Some x → dec_block x = Some b →
  in_u32 (Z.of_nat (length x)) → save_block b (mkFs d script) = (fs', r) → tidy spec fs'.(fs_disk).
Proof.
  intros [Hd Hs] Hb He Hx Hu Hrun. destruct (save_block_ok _ _ _ _ _ _ _ Hd He Hx Hu Hrun) as [Hd' Hseg]. split.
  - eapply disk_ok_weaken; [|exact Hd']. intros h o [?|[-> ->]]; done.
  - intros id sf. unfold seg_file. rewrite Hseg. apply Hs.
Qed.
Lemma prune_segments_tidy spec keep ids pruned :
  (∀ h, spec h None) → triple (tidy spec) (prune_segments keep ids pruned) (λ _, tidy spec) (tidy spec).
Proof.
  intros Hn. revert pruned. induction ids as [|id ids IH]; intros pruned; [by apply triple_ret|].
  cbn [prune_segments]. destruct (id <? keep); [|apply IH].
  eapply (triple_bind _ _ _ _ (λ _, tidy spec)); [|intros _; apply IH].
  apply triple_remove_file. intros d Hd. split; [done|]. destruct (f_visible _); [|done].
  destruct Hd as [Hd Hs]. assert (fits spec id None) as Hfit by (intros h _; by exists None). split.
  - apply (disk_ok_new_seg id d spec _ None); [done| |set_solver|done]. unfold file_ok. cbn. set_solver.
  - intros id' sf. rewrite seg_file_put. destruct (decide _) as [->|]; [|apply Hs]. cbn.
    rewrite elem_of_app, list_elem_of_singleton. intros [?| ->]; [by apply Hs|done].
Qed.
Lemma tidy_prune spec tip retain fs fs' r :
  (∀ h, spec h None) → tidy spec fs.(fs_disk) → prune_below tip retain fs = (fs', r) → tidy spec fs'.(fs_disk).
Proof.
  intros Hn Hd Hrun. unfold prune_below in Hrun. destruct (_ || _); [by injection Hrun as <- _|].
  unfold bindM at 1 in Hrun. cbn in Hrun. unfold bindM in Hrun.
  match type of Hrun with context [prune_segments ?k ?l ?b fs] =>
    pose proof (prune_segments_tidy spec k l b Hn fs Hd) as H; destruct (prune_segments k l b fs) as [fs1 [a|e|]] end;
    injection Hrun as <- _; done.
Qed.

Lemma remove_files_run n h retired d script :
  ∃ d' k, remove_files n h retired (mkFs d (replicate n WDone ++ script)) = (mkFs d' script, Ok k) ∧
    d_segs d' = d_segs d ∧
    ∀ h', f_visible (block_file d' h') =
      if bool_decide (h ≤ h' < h + Z.of_nat n) then None else f_visible (block_file d h').
Proof.
  revert h retired d. induction n as [|n IH]; intros h retired d.
  { exists d, retired. split_and!; [done|done|]. intros h'. by rewrite bool_decide_eq_false_2 by lia. }
  cbn [remove_files replicate app]. unfold remove_file, bindM at 1 2. cbn.
  destruct (f_visible (block_file d h)) as [x|] eqn:E; cbn.
  - destruct (IH (h + 1) (retired + 1) (put_block_file h (mkFile None (f_survivors (block_file d h) ++ [None])) d))
      as (d' & k & Hrun & Hseg & Hv). exists d', k. split_and!; [done|done|].
    intros h'. rewrite Hv, block_file_put. destruct (decide (h' = h)) as [->|].
    + rewrite bool_decide_eq_false_2, bool_decide_eq_true_2 by lia. done.
    + destruct (bool_decide_reflect (h ≤ h' < h + Z.of_nat (S n)));
        [rewrite bool_decide_eq_true_2 by lia|rewrite bool_decide_eq_false_2 by lia]; done.
  - destruct (IH (h + 1) retired d) as (d' & k & Hrun & Hseg & Hv). exists d', k. split_and!; [done|done|].
    intros h'. rewrite Hv. destruct (decide (h' = h)) as [->|].
    + rewrite bool_decide_eq_false_2, bool_decide_eq_true_2 by lia. done.
    + destruct (bool_decide_reflect (h ≤ h' < h + Z.of_nat (S n)));
        [rewrite bool_decide_eq_true_2 by lia|rewrite bool_decide_eq_false_2 by lia]; done.
Qed.
(** A segment that is there is trusted: a height saved after its segment was
    packed, and missing from it, is removed and can no longer be read. *)
Theorem trusted_segment_loses_block d h b s :
  load_block d h = Ok (Some b) → is_Some (f_visible (block_file d h)) →
  f_visible (seg_file d (h / SEGMENT_SPAN)) = Some s → segment_block s h = Ok None →
  ∃ d' k, compact_segment (h / SEGMENT_SPAN) (mkFs d (replicate (Z.to_nat SEGMENT_SPAN) WDone)) = (mkFs d' [], Ok k) ∧
    load_block d' h = Ok None.
Proof.
  intros _ _ Hs Hn. set (id := h / SEGMENT_SPAN) in *.
  destruct (remove_files_run (Z.to_nat SEGMENT_SPAN) (id * SEGMENT_SPAN) 0 d []) as (d' & k & Hrun & Hseg & Hv).
  rewrite app_nil_r in Hrun. exists d', k. split.
  - unfold compact_segment, bindM at 1. cbn [getM fs_disk]. rewrite bool_decide_eq_true_2 by by rewrite Hs. exact Hrun.
  - unfold load_block. fold id. unfold seg_file. rewrite Hseg. fold (seg_file d id). rewrite Hs, Hv, bool_decide_eq_true_2.
    + exact Hn.
    + pose proof (Z.mod_pos_bound h SEGMENT_SPAN ltac:(done)). pose proof (Z.div_mod h SEGMENT_SPAN ltac:(done)).
      rewrite Z2Nat.id by done. subst id. lia.
Qed.
End log.

(** * A small disk *)

Module Sample.
Definition block (h : Z) : StoredBlock :=
  mkStoredBlock h [] (mkRawCert h (RSome 0) zero_h256 []) false.
(** Blocks 5 and 6, of one byte each. *)
Definition wire : BlockWire := {|
  enc_block := λ b, if sb_height b =? 6 then Some [x06] else Some [x05];
  dec_block := λ x, if bool_decide (x = [x05]) then Some (block 5)
                    else if bool_decide (x = [x06]) then Some (block 6) else None;
|}.
Definition durable (x : bytes) : File := mkFile (Some x) [Some x].
Definition disk : Disk := mkDisk {[5 := durable [x05]]} ∅.
Definition log : gmap Z StoredBlock := {[5 := block 5]}.
Definition script (n : nat) : list WriteOutcome := replicate n WDone.
End Sample.
#[local] Existing Instance Sample.wire.

Lemma sample_file h : block_file Sample.disk h = if decide (h = 5) then Sample.durable [x05] else no_file.
Proof.
  unfold block_file, file_at, Sample.disk. cbn [d_blocks]. destruct (decide (h = 5)) as [->|].
  - by rewrite lookup_singleton_eq.
  - by rewrite lookup_singleton_ne.
Qed.
Lemma sample_disk_ok : disk_ok Sample.disk (exactly Sample.log).
Proof.
  assert (∀ id, seg_file Sample.disk id = no_file) as Hseg by done.
  constructor.
  - intros h. rewrite sample_file. destruct (decide _); by left.
  - intros id. rewrite Hseg. by left.
  - intros h x. rewrite sample_file. destruct (decide _) as [->|]; cbn; rewrite list_elem_of_singleton; [|done].
    intros [= ->]. split; [done|]. by exists (Sample.block 5).
  - intros h bf sf. rewrite sample_file, Hseg, reads_exactly. destruct (decide _) as [->|]; cbn; rewrite !list_elem_of_singleton; intros -> ->.
    + done.
    + unfold Sample.log. by rewrite lookup_singleton_ne.
Qed.
(** The packed span of a disk without files. *)
Lemma packed_nones n : packed (replicate n None) SEGMENT_MAGIC (replicate n 0) 0.
Proof.
  induction n as [|n IH]; [apply packed_start|]. rewrite !replicate_S_end. by apply packed_none.
Qed.
Definition sample_empty_segment : bytes := segment_bytes SEGMENT_MAGIC (replicate (Z.to_nat SEGMENT_SPAN) 0).
Lemma sample_empty_segment_block : segment_block sample_empty_segment 5 = Ok None.
Proof.
  apply (segment_block_packed _ _ _ _ 5 None (packed_nones (Z.to_nat SEGMENT_SPAN))).
  - apply length_replicate.
  - apply lookup_replicate_2, Z2Nat.inj_lt; done.
Qed.
Definition sample_trusted : Disk := put_seg_file 0 (Sample.durable sample_empty_segment) Sample.disk.
Lemma sample_seg_file : seg_file sample_trusted (5 / SEGMENT_SPAN) = Sample.durable sample_empty_segment.
Proof. unfold sample_trusted. rewrite seg_file_put. by rewrite decide_True. Qed.

Lemma compaction_keeps_every_block_witness :
  load_block (compact_segment 0 (mkFs Sample.disk (Sample.script 1030))).1.(fs_disk) 5 = Ok (Some (Sample.block 5)).
Proof.
  destruct (compact_segment 0 (mkFs Sample.disk (Sample.script 1030))) as [fs' r] eqn:E.
  assert (is_Some (f_visible (seg_file Sample.disk 0)) → settled 0 Sample.disk (exactly Sample.log)) as Hs by (by intros []).
  apply (compaction_keeps_every_block 0 (mkFs Sample.disk (Sample.script 1030)) Sample.log fs' r sample_disk_ok Hs E (fs_disk fs')). by left.
Defined.
Lemma saved_block_survives_witness :
  load_block (save_block (Sample.block 6) (mkFs Sample.disk [WNotSynced])).1.(fs_disk) 5 = Ok (Some (Sample.block 5)).
Proof.
  destruct (save_block (Sample.block 6) (mkFs Sample.disk [WNotSynced])) as [fs' r] eqn:E.
  assert (in_u32 (Z.of_nat (length [x06]))) as Hu by done.
  destruct (saved_block_survives (Sample.block 6) [x06] (mkFs Sample.disk [WNotSynced]) Sample.log fs' r sample_disk_ok eq_refl eq_refl Hu E) as [H _].
  by destruct (H (fs_disk fs') (or_introl eq_refl) 5) as [H5|[? _]].
Defined.
Lemma listing_is_exact_witness : 5 ∈ block_heights Sample.disk ∧ 6 ∉ block_heights Sample.disk.
Proof.
  pose proof (listing_is_exact _ _ sample_disk_ok) as [_ H]. split; rewrite H; [done|]. by intros [].
Defined.
Lemma pruning_keeps_the_tail_witness :
  load_block (prune_below 3000 100 (mkFs Sample.disk [])).1.(fs_disk) 2900 = load_block Sample.disk 2900.
Proof.
  destruct (prune_below 3000 100 (mkFs Sample.disk [])) as [fs' r] eqn:E.
  destruct (pruning_keeps_the_tail _ _ _ _ _ E) as [H _]. by apply H.
Defined.
Lemma trusted_segment_loses_block_witness :
  load_block sample_trusted 5 = Ok (Some (Sample.block 5)) ∧
  ∃ d' k, compact_segment 0 (mkFs sample_trusted (replicate (Z.to_nat SEGMENT_SPAN) WDone)) = (mkFs d' [], Ok k) ∧
    load_block d' 5 = Ok None.
Proof.
  assert (load_block sample_trusted 5 = Ok (Some (Sample.block 5))) as Hl by done. split; [done|].
  apply (trusted_segment_loses_block sample_trusted 5 (Sample.block 5) sample_empty_segment Hl).
  - by eexists.
  - by rewrite sample_seg_file.
  - exact sample_empty_segment_block.
Defined.
