(* ===== verification/Batch.v ===== *)
(** The bytes inside a block value (hk-node/src/batch.rs): the parent commitment,
    the transactions, the certificates and the aggregate proof, in two wire
    framings told apart by a magic prefix.  bincode is a parameter. *)

From S2P Require Export SetChange Mempool.
From S2P Require Import Governance.
#[local] Open Scope Z_scope.

Definition BATCH_V2_MAGIC : bytes := str_bytes "HK-BLK-2".

Record Batch := mkBatch {
  b_parent : H256;
  b_txs : list SignedTx;
  b_rotations : list RotationCert;
  b_agg_proof : bytes;
  b_set_changes : list SetChangeCert;
}.
#[export] Instance Batch_eq_dec : EqDecision Batch.
Proof. solve_decision. Defined.
(** The v1 layout: a batch without set changes. *)
Record BatchV1 := mkBatchV1 {
  v1_parent : H256;
  v1_txs : list SignedTx;
  v1_rotations : list RotationCert;
  v1_agg_proof : bytes;
}.

(** [bincode::serialize] and [bincode::deserialize] at the two types. *)
Class BatchWire := {
  enc_v1 : BatchV1 → option bytes;
  dec_v1 : bytes → option BatchV1;
  enc_v2 : Batch → option bytes;
  dec_v2 : bytes → option Batch;
}.
(** What is written reads back, and a v1 batch starts with its parent hash. *)
Class BatchWireLaws {W : BatchWire} : Prop := {
  v1_roundtrip b x : enc_v1 b = Some x → dec_v1 x = Some b;
  v2_roundtrip b x : enc_v2 b = Some x → dec_v2 x = Some b;
  v1_parent_first b x : enc_v1 b = Some x → ∃ rest, x = h256_bytes (v1_parent b) ++ rest;
}.

Section batch.
Context {W : BatchWire}.

(** [bytes.strip_prefix(prefix)] *)
Fixpoint strip_prefix (prefix l : bytes) : option bytes :=
  match prefix, l with
  | [], _ => Some l
  | a :: prefix, b :: l => if bool_decide (a = b) then strip_prefix prefix l else None
  | _, [] => None
  end.

(** [Batch::encode]; [Panic] is the [expect] on the encoding. *)
Definition batch_encode {E} (b : Batch) : res E bytes :=
  match b.(b_set_changes) with
  | [] =>
      match enc_v1 (mkBatchV1 b.(b_parent) b.(b_txs) b.(b_rotations) b.(b_agg_proof)) with
      | Some x => Ok x
      | None => Panic
      end
  | _ =>
      match enc_v2 b with
      | Some x => Ok (BATCH_V2_MAGIC ++ x)
      | None => Panic
      end
  end.
Definition batch_decode (x : bytes) : option Batch :=
  match x with
  | [] => None
  | _ =>
      match strip_prefix BATCH_V2_MAGIC x with
      | Some rest => dec_v2 rest
      | None =>
          v1 ← dec_v1 x;
          Some (mkBatch v1.(v1_parent) v1.(v1_txs) v1.(v1_rotations) v1.(v1_agg_proof) [])
      end
  end.

Lemma strip_prefix_spec p l r : strip_prefix p l = Some r ↔ l = p ++ r.
Proof.
  revert l. induction p as [|a p IH]; intros l; cbn; [naive_solver|].
  destruct l as [|b l]; [done|]. case_bool_decide as E.
  - rewrite IH. naive_solver.
  - split; [done|]. naive_solver.
Qed.

Context {WL : BatchWireLaws}.
(** A batch read back is the batch written, whichever framing it took, except a
    batch without set changes whose parent hash begins with the magic, which is
    read as a v2 batch. *)
Theorem batch_roundtrip {E} b x :
  batch_encode (E := E) b = Ok x →
  (b.(b_set_changes) = [] → take 8 (h256_bytes b.(b_parent)) ≠ BATCH_V2_MAGIC) →
  batch_decode x = Some b.
Proof.
  unfold batch_encode. destruct b as [parent txs rots proof changes].
  cbn [b_parent b_txs b_rotations b_agg_proof b_set_changes]. intros H Hne. destruct changes as [|c changes].
  - destruct (enc_v1 _) as [x'|] eqn:Ex; [|done]. injection H as ->.
    destruct (v1_parent_first _ _ Ex) as [rest Hx]. cbn in Hx.
    assert (strip_prefix BATCH_V2_MAGIC x = None) as Hs.
    { destruct (strip_prefix BATCH_V2_MAGIC x) as [r|] eqn:Hs; [|done]. apply strip_prefix_spec in Hs.
      exfalso. apply Hne; [done|]. apply (f_equal (take 8)) in Hx. rewrite Hs in Hx.
      rewrite take_app_length' in Hx by done. rewrite take_app_le in Hx by (rewrite length_h256; lia). done. }
    unfold batch_decode. rewrite Hs, (v1_roundtrip _ _ Ex). destruct x as [|y x]; [|done].
    apply (f_equal length) in Hx. rewrite length_app, length_h256 in Hx. done.
  - destruct (enc_v2 _) as [x'|] eqn:Ex; [|done]. assert (x = BATCH_V2_MAGIC ++ x') as -> by congruence. unfold batch_decode.
    destruct (BATCH_V2_MAGIC ++ x') as [|y l] eqn:El; [done|]. rewrite <-El.
    assert (strip_prefix BATCH_V2_MAGIC (BATCH_V2_MAGIC ++ x') = Some x') as -> by by apply strip_prefix_spec.
    by rewrite (v2_roundtrip _ _ Ex).
Qed.
End batch.

(** * A codec *)

Module Sample.
(** Batches without content are written as their parent hash, the batch with one
    admission certificate as one byte. *)
Definition empty (h : H256) : Batch := mkBatch h [] [] [] [].
Definition admission : Batch := mkBatch zero_h256 [] [] [] [Governance.Sample.admit_cert].
Definition wire : BatchWire := {|
  enc_v1 := λ b, match b with mkBatchV1 h [] [] [] => Some (h256_bytes h) | _ => None end;
  dec_v1 := λ x, match h256_try_from x with Ok h => Some (mkBatchV1 h [] [] []) | _ => None end;
  enc_v2 := λ b, if bool_decide (b = admission) then Some [x07] else None;
  dec_v2 := λ x, if bool_decide (x = [x07]) then Some admission else None;
|}.
Lemma batch_wire_laws : BatchWireLaws (W := wire).
Proof.
  constructor.
  - intros [h [] [] []] x; cbn; try done. intros [= <-]. by rewrite (proj2 (h256_try_from_ok _ h) eq_refl).
  - intros b x. cbn. repeat case_bool_decide; intros; by simplify_eq.
  - intros [h [] [] []] x; cbn; try done. intros [= <-]. exists []. by rewrite app_nil_r.
Qed.
End Sample.

Lemma batch_roundtrip_witness :
  batch_decode (W := Sample.wire) (h256_bytes zero_h256) = Some (Sample.empty zero_h256) ∧
  batch_decode (W := Sample.wire) (BATCH_V2_MAGIC ++ [x07]) = Some Sample.admission.
Proof.
  split; apply (batch_roundtrip (W := Sample.wire) (WL := Sample.batch_wire_laws) (E := unit)).
  - reflexivity.
  - intros _ [=].
  - unfold batch_encode. cbn. by rewrite bool_decide_eq_true_2.
  - intros [=].
Defined.
