(* ===== verification/Seats.v ===== *)
(** The validator seats of a running node (hk-node/src/state.rs: [apply_rotations],
    [apply_set_changes], [adopt_epoch_signer], the rotation trigger of [commit]
    and the rotation tick; the key handle of hk-consensus/src/hashsig_scheme.rs):
    how the certificates of a committed block change the set, its history and
    the node's own signer, live and on replay.  Heights and epochs are far from
    the end of [u64] and are added without wrap-around. *)

From S2P Require Export Batch NodeParts Signer.
From S2P Require Import Toy Governance.
#[local] Open Scope Z_scope.

(** [REISSUE_AFTER], in seconds. *)
Definition REISSUE_AFTER : Z := 600.

(** The configuration of a node: its seed, its genesis and the chain's rules. *)
Record NodeConfig := mkNodeConfig {
  cf_master_seed : bytes;
  cf_genesis_roots : list bytes;
  cf_chain_id : string;
  cf_rotation_v2_from : Z;
  cf_bootstrap_env : option Z * option Z;
  cf_rotate_every : option Z;
}.

Section seats.
Context {HSS : Hss}.

(** [HkPriv]: the cached public key is the one of the seed, whatever tree the
    handle signs with; the signer's state file is the one of epoch [hp_path]. *)
Record HkPriv := mkHkPriv { hp_seed : bytes; hp_pubkey : HkPub; hp_signer : HashSigner; hp_path : Z }.

Record Seats := mkSeats {
  se_validators : HkValidatorSet;
  se_history : SetHistory;
  se_current_epoch : Z;
  se_highest_issued : Z;
  se_op_handle : HkPriv;
  (** the state files by epoch: [consensus_state.bin], [consensus_state_e{n}.bin] *)
  se_files : gmap Z File;
  se_pending_rotations : list RotationCert;
  se_foreign_rotations : list RotationCert;
  se_pending_changes : list SetChangeCert;
  se_gauge : Z * Z;
  se_last_issue : option Z;
}.
Definition se_set_validators (x : HkValidatorSet) (s : Seats) : Seats :=
  mkSeats x s.(se_history) s.(se_current_epoch) s.(se_highest_issued) s.(se_op_handle) s.(se_files)
    s.(se_pending_rotations) s.(se_foreign_rotations) s.(se_pending_changes) s.(se_gauge) s.(se_last_issue).
Definition se_set_history (x : SetHistory) (s : Seats) : Seats :=
  mkSeats s.(se_validators) x s.(se_current_epoch) s.(se_highest_issued) s.(se_op_handle) s.(se_files)
    s.(se_pending_rotations) s.(se_foreign_rotations) s.(se_pending_changes) s.(se_gauge) s.(se_last_issue).
Definition se_set_current_epoch (x : Z) (s : Seats) : Seats :=
  mkSeats s.(se_validators) s.(se_history) x s.(se_highest_issued) s.(se_op_handle) s.(se_files)
    s.(se_pending_rotations) s.(se_foreign_rotations) s.(se_pending_changes) s.(se_gauge) s.(se_last_issue).
Definition se_set_highest_issued (x : Z) (s : Seats) : Seats :=
  mkSeats s.(se_validators) s.(se_history) s.(se_current_epoch) x s.(se_op_handle) s.(se_files)
    s.(se_pending_rotations) s.(se_foreign_rotations) s.(se_pending_changes) s.(se_gauge) s.(se_last_issue).
Definition se_set_op_handle (x : HkPriv) (s : Seats) : Seats :=
  mkSeats s.(se_validators) s.(se_history) s.(se_current_epoch) s.(se_highest_issued) x s.(se_files)
    s.(se_pending_rotations) s.(se_foreign_rotations) s.(se_pending_changes) s.(se_gauge) s.(se_last_issue).
Definition se_set_files (x : gmap Z File) (s : Seats) : Seats :=
  mkSeats s.(se_validators) s.(se_history) s.(se_current_epoch) s.(se_highest_issued) s.(se_op_handle) x
    s.(se_pending_rotations) s.(se_foreign_rotations) s.(se_pending_changes) s.(se_gauge) s.(se_last_issue).
Definition se_set_pending_rotations (x : list RotationCert) (s : Seats) : Seats :=
  mkSeats s.(se_validators) s.(se_history) s.(se_current_epoch) s.(se_highest_issued) s.(se_op_handle)
    s.(se_files) x s.(se_foreign_rotations) s.(se_pending_changes) s.(se_gauge) s.(se_last_issue).
Definition se_set_foreign_rotations (x : list RotationCert) (s : Seats) : Seats :=
  mkSeats s.(se_validators) s.(se_history) s.(se_current_epoch) s.(se_highest_issued) s.(se_op_handle)
    s.(se_files) s.(se_pending_rotations) x s.(se_pending_changes) s.(se_gauge) s.(se_last_issue).
Definition se_set_pending_changes (x : list SetChangeCert) (s : Seats) : Seats :=
  mkSeats s.(se_validators) s.(se_history) s.(se_current_epoch) s.(se_highest_issued) s.(se_op_handle)
    s.(se_files) s.(se_pending_rotations) s.(se_foreign_rotations) x s.(se_gauge) s.(se_last_issue).
Definition se_set_gauge (x : Z * Z) (s : Seats) : Seats :=
  mkSeats s.(se_validators) s.(se_history) s.(se_current_epoch) s.(se_highest_issued) s.(se_op_handle)
    s.(se_files) s.(se_pending_rotations) s.(se_foreign_rotations) s.(se_pending_changes) x s.(se_last_issue).
Definition se_set_last_issue (x : option Z) (s : Seats) : Seats :=
  mkSeats s.(se_validators) s.(se_history) s.(se_current_epoch) s.(se_highest_issued) s.(se_op_handle)
    s.(se_files) s.(se_pending_rotations) s.(se_foreign_rotations) s.(se_pending_changes) s.(se_gauge) x.

(** A certificate retires the queued certificates of its root up to its epoch. *)
Definition retire (c : RotationCert) (l : list RotationCert) : list RotationCert :=
  filter (λ x, ¬ (x.(rc_root_pk) = c.(rc_root_pk) ∧ x.(rc_epoch) ≤ c.(rc_epoch))) l.

Context {SHAKE : Shake} {ROOT : RootScheme}.

(** * The key handle *)

Definition from_seed (seed : bytes) : HkPriv :=
  let '(s, pk) := generate_consensus seed in mkHkPriv seed pk s 0.
(** [into_persistent], on [consensus_state.bin] *)
Definition into_persistent (f : File) (h : HkPriv) : HkPriv :=
  mkHkPriv h.(hp_seed) h.(hp_pubkey) (attach_persistence_with_floor 0 f h.(hp_signer)) 0.
(** [rotate_to], on the state file [f] of epoch [epoch]: the handle with its new
    tree, and the tree's public key. *)
Definition rotate_to (seed : bytes) (epoch : Z) (f : File) (h : HkPriv) : HkPriv * HkPub :=
  let '(s, pk) := generate_consensus seed in
  (mkHkPriv h.(hp_seed) h.(hp_pubkey) (attach_persistence_with_floor 0 f s) epoch, pk).
Definition state_file (epoch : Z) (s : Seats) : File := default no_file (s.(se_files) !! epoch).
(** [HkPriv::sign], with the outcome of the write of the state file. *)
Definition handle_sign (msg : bytes) (w : WriteOutcome) (s : Seats) : Seats * option bytes :=
  let h := s.(se_op_handle) in
  let '(sg, f, r) := signer_sign msg w h.(hp_signer) (state_file h.(hp_path) s) in
  (se_set_op_handle (mkHkPriv h.(hp_seed) h.(hp_pubkey) sg h.(hp_path))
     (se_set_files (<[h.(hp_path) := f]> s.(se_files)) s), r).

(** * Certificates of a committed block *)

Context (cfg : NodeConfig).
Definition root : RootSecret := root_from_seed cfg.(cf_master_seed).
Definition my_root_pk : bytes := root_pk_bytes root.
Definition rotation_rules (height : Z) : RotationRules :=
  mkRotationRules height cfg.(cf_chain_id) cfg.(cf_rotation_v2_from).
Definition bootstrap : option Bootstrap :=
  bootstrap_from cfg.(cf_chain_id) cfg.(cf_bootstrap_env).1 cfg.(cf_bootstrap_env).2.

(** Our own rotation: on replay the epoch is noted, live the signer moves too. *)
Definition own_rotation (c : RotationCert) (replay : bool) (s : Seats) : Seats :=
  if bool_decide (c.(rc_root_pk) = my_root_pk) && (s.(se_current_epoch) <? c.(rc_epoch)) then
    let s :=
      if replay then s
      else se_set_op_handle
             (rotate_to (op_seed cfg.(cf_master_seed) c.(rc_epoch)) c.(rc_epoch) (state_file c.(rc_epoch) s)
                s.(se_op_handle)).1 s in
    se_set_current_epoch c.(rc_epoch) s
  else s.
(** One turn of the loop of [apply_rotations]; whether the certificate applied. *)
Definition apply_rotation_cert {E} (height : Z) (replay : bool) (c : RotationCert) : M Seats E bool :=
  let* s := getM in
  match apply_rotation s.(se_validators) c (rotation_rules height) with
  | Ok set =>
      modifyM (se_set_validators set) ;;;
      modifyM (own_rotation c replay) ;;;
      modifyM (λ s, se_set_pending_rotations (retire c s.(se_pending_rotations)) s) ;;;
      modifyM (λ s, se_set_foreign_rotations (retire c s.(se_foreign_rotations)) s) ;;;
      retM true
  | Err _ => retM false
  | Panic => panicM
  end.
(** [hist.push((height + 1, set))] *)
Definition push_history {E} (height : Z) (any_applied : bool) : M Seats E unit :=
  if any_applied
  then modifyM (λ s, se_set_history (s.(se_history) ++ [(height + 1, s.(se_validators))]) s)
  else retM tt.
Definition apply_rotations {E} (height : Z) (batch : option Batch) (replay : bool) : M Seats E unit :=
  let* any := match batch with
              | Some b => anyM (apply_rotation_cert height replay) b.(b_rotations)
              | None => retM false
              end in
  push_history height any.

Definition apply_change_cert {E} (height : Z) (c : SetChangeCert) : M Seats E bool :=
  let* s := getM in
  let* any :=
    match apply_set_change s.(se_validators) c height cfg.(cf_chain_id) with
    | Ok (Some set) => modifyM (se_set_validators set) ;;; retM true
    | Ok None | Err _ => retM false
    | Panic => panicM
    end in
  modifyM (λ s, se_set_pending_changes (filter (λ q, q.(sc_body) ≠ c.(sc_body)) s.(se_pending_changes)) s) ;;;
  retM any.
(** The re-weight of the genesis seats, at its height. *)
Definition bootstrap_reweight {E} (height : Z) : M Seats E bool :=
  match bootstrap with
  | Some b =>
      if height =? b.(bs_height) then
        let* s := getM in
        let* r := readM (λ _, reweight_roots s.(se_validators) cfg.(cf_genesis_roots) b.(bs_founding_power)) in
        match r with
        | Some set => modifyM (se_set_validators set) ;;; retM true
        | None => retM false
        end
      else retM false
  | None => retM false
  end.
Definition apply_set_changes {E} (height : Z) (batch : option Batch) : M Seats E unit :=
  let* any := match batch with
              | Some b => anyM (apply_change_cert height) b.(b_set_changes)
              | None => retM false
              end in
  let* reweighted := bootstrap_reweight height in
  push_history height (any || reweighted).

(** * The signer after a restart *)

Definition adopt_epoch_signer (s : Seats) : Seats :=
  match seat_of_root my_root_pk s.(se_validators) with
  | None => s
  | Some v =>
      let adopted s :=
        se_set_highest_issued (Z.max s.(se_highest_issued) v.(v_epoch)) (se_set_current_epoch v.(v_epoch) s) in
      if bool_decide (s.(se_op_handle).(hp_pubkey) = v.(v_public_key)) then adopted s
      else
        let '(h, pk) := rotate_to (op_seed cfg.(cf_master_seed) v.(v_epoch)) v.(v_epoch)
                          (state_file v.(v_epoch) s) s.(se_op_handle) in
        let s := se_set_op_handle h s in
        if bool_decide (pk = v.(v_public_key))
        then se_set_gauge (v.(v_epoch), remaining h.(hp_signer)) (adopted s)
        else s
  end.

(** * The rotation trigger *)

Definition issue_stale (last : option Z) (now : Z) : bool :=
  match last with Some t => REISSUE_AFTER <=? now - t | None => true end.
(** The certificate for the next epoch, valid from [from]. *)
Definition next_certificate (epoch from : Z) : RotationCert :=
  rotation_issue_for root cfg.(cf_chain_id) cfg.(cf_rotation_v2_from)
    (from_seed (op_seed cfg.(cf_master_seed) epoch)).(hp_pubkey) epoch from.
(** The part of [commit] after the height was advanced; [now] is the clock. *)
Definition rotation_trigger (height now : Z) (s : Seats) : Seats :=
  let rem := remaining s.(se_op_handle).(hp_signer) in
  let s := se_set_gauge (s.(se_current_epoch), rem) s in
  let mine_pending := existsb (λ c, bool_decide (c.(rc_root_pk) = my_root_pk)) s.(se_pending_rotations) in
  let next_epoch := s.(se_current_epoch) + 1 in
  let due := (rotation_due rem (rotation_threshold CONSENSUS_CAPACITY my_root_pk) height cfg.(cf_rotate_every)
                mine_pending next_epoch s.(se_highest_issued) (issue_stale s.(se_last_issue) now)).1 in
  if due then
    let cert := next_certificate next_epoch (height + 1) in
    let s := se_set_highest_issued (Z.max s.(se_highest_issued) next_epoch) s in
    let s := se_set_pending_rotations (retire cert s.(se_pending_rotations) ++ [cert]) s in
    se_set_last_issue (Some now) s
  else s.

(** One turn of the rotation tick: its own memory (highest epoch and time of
    issue), the shared gauge and queue, the tip. *)
Record Tick := mkTick { tk_highest : Z; tk_last : option Z }.
Definition rotation_tick (tip now : Z) (tk : Tick) (s : Seats) : Tick * Seats * option RotationCert :=
  let '(epoch, rem) := s.(se_gauge) in
  let highest := if tk.(tk_highest) <? epoch then epoch else tk.(tk_highest) in
  let next_epoch := epoch + 1 in
  let mine_pending := existsb (λ c, bool_decide (c.(rc_root_pk) = my_root_pk) && (next_epoch <=? c.(rc_epoch)))
                        s.(se_foreign_rotations) in
  let due := (rotation_due rem (rotation_threshold CONSENSUS_CAPACITY my_root_pk) 0 None
                mine_pending next_epoch highest (issue_stale tk.(tk_last) now)).1 in
  if due then
    let cert := next_certificate next_epoch (tip + 1) in
    (mkTick (Z.max highest next_epoch) (Some now),
     se_set_foreign_rotations (retire cert s.(se_foreign_rotations) ++ [cert]) s, Some cert)
  else (mkTick highest tk.(tk_last), s, None).
End seats.

(** * The set as a function of the blocks

    What a block does to the set, its history and the epoch, without the
    signer, the queues and the clock. *)

Record View := mkView { vw_set : HkValidatorSet; vw_history : SetHistory; vw_epoch : Z }.

Section view.
Context {SHAKE : Shake} {ROOT : RootScheme} {HSS : Hss} (cfg : NodeConfig).

Definition view (s : Seats) : View := mkView s.(se_validators) s.(se_history) s.(se_current_epoch).
Definition own_epoch (c : RotationCert) (epoch : Z) : Z :=
  if bool_decide (c.(rc_root_pk) = my_root_pk cfg) && (epoch <? c.(rc_epoch)) then c.(rc_epoch) else epoch.
Definition view_rotation (height : Z) (va : View * bool) (c : RotationCert) : View * bool :=
  match apply_rotation va.1.(vw_set) c (rotation_rules cfg height) with
  | Ok set => (mkView set va.1.(vw_history) (own_epoch c va.1.(vw_epoch)), true)
  | _ => va
  end.
Definition view_change (height : Z) (va : View * bool) (c : SetChangeCert) : View * bool :=
  match apply_set_change va.1.(vw_set) c height cfg.(cf_chain_id) with
  | Ok (Some set) => (mkView set va.1.(vw_history) va.1.(vw_epoch), true)
  | _ => va
  end.
Definition view_bootstrap (height : Z) (va : View * bool) : View * bool :=
  match bootstrap cfg with
  | Some b =>
      if height =? b.(bs_height) then
        match reweight_roots (E := Empty_set) va.1.(vw_set) cfg.(cf_genesis_roots) b.(bs_founding_power) with
        | Ok (Some set) => (mkView set va.1.(vw_history) va.1.(vw_epoch), true)
        | _ => va
        end
      else va
  | None => va
  end.
Definition view_push (height : Z) (va : View * bool) : View :=
  if va.2
  then mkView va.1.(vw_set) (va.1.(vw_history) ++ [(height + 1, va.1.(vw_set))]) va.1.(vw_epoch)
  else va.1.
Definition batch_rotations (batch : option Batch) : list RotationCert :=
  match batch with Some b => b.(b_rotations) | None => [] end.
Definition batch_changes (batch : option Batch) : list SetChangeCert :=
  match batch with Some b => b.(b_set_changes) | None => [] end.
Definition view_rotations (height : Z) (batch : option Batch) (v : View) : View :=
  view_push height (foldl (view_rotation height) (v, false) (batch_rotations batch)).
Definition view_changes (height : Z) (batch : option Batch) (v : View) : View :=
  view_push height (view_bootstrap height (foldl (view_change height) (v, false) (batch_changes batch))).
Definition view_block (height : Z) (batch : option Batch) (v : View) : View :=
  view_changes height batch (view_rotations height batch v).

(** ** The set is never empty and always sorted *)

Definition set_normal (s : HkValidatorSet) : Prop := s.(validators) ≠ [] ∧ set_sorted s.
Lemma set_ok_normal s : set_ok s → set_normal s.
Proof. intros H. split; apply H. Qed.
Lemma set_new_normal {E} l s : set_new (E := E) l = Ok s → set_normal s.
Proof. intros (Hp & Hs & Hn)%set_new_ok. split; [|done]. intros Ev. rewrite Ev in Hp. by apply Permutation_nil in Hp. Qed.
Lemma set_new_same {E} s : set_normal s → set_new (E := E) s.(validators) = Ok s.
Proof. intros [Hn Hs]. rewrite set_new_eq, sort_by_id by done. by destruct s. Qed.

Lemma apply_rotation_no_panic s c r : apply_rotation s c r ≠ Panic.
Proof.
  unfold apply_rotation, rotation_verify_against, check_epoch, check_window, bindR.
  repeat case_match; congruence.
Qed.
Lemma apply_rotation_normal s c r s' : set_normal s → apply_rotation s c r = Ok s' → set_normal s'.
Proof.
  intros [Hn Hs] (t & _ & _ & _ & _ & _ & Ev)%apply_rotation_ok. unfold set_normal, set_sorted. rewrite Ev. split.
  - by destruct (validators s).
  - by apply rotated_sorted.
Qed.
Lemma set_new_some_no_panic {E} l : l ≠ [] → (let? s := set_new l in Ok (Some s)) ≠ @Panic E (option HkValidatorSet).
Proof. by destruct l. Qed.
Lemma set_new_some_normal {E} l s :
  (let? s' := set_new l in Ok (Some s')) = @Ok E (option HkValidatorSet) (Some s) → set_normal s.
Proof. destruct (set_new l) as [s1|e|] eqn:Es; [|done..]. intros [= <-]. by eapply set_new_normal. Qed.
Lemma count_approvals_no_panic s b l seen n : count_approvals s b seen n l ≠ Panic.
Proof. revert seen n. induction l as [|a l IH]; intros seen n; cbn [count_approvals]; [done|]. by repeat case_match. Qed.
Lemma set_change_verify_no_panic c s id : set_change_verify_against c s id ≠ Panic.
Proof.
  unfold set_change_verify_against, bindR.
  pose proof (count_approvals_no_panic s c.(sc_body) c.(sc_approvals) [] 0).
  assert (check_shape c.(sc_body) ≠ Panic) by (unfold check_shape; by repeat case_match).
  repeat case_match; congruence.
Qed.
Lemma apply_set_change_no_panic s c h id : s.(validators) ≠ [] → apply_set_change s c h id ≠ Panic.
Proof.
  intros Hn. unfold apply_set_change, bindR at 1. pose proof (set_change_verify_no_panic c s id).
  destruct (set_change_verify_against c s id); [|done..]. destruct (in_window c h); [|done]. cbn [negb].
  destruct (sb_change _); unfold change_admit, change_remove, change_power.
  - destruct (seated _ _); [done|]. destruct (existsb _ _); [done|]. apply set_new_some_no_panic. by destruct (validators s).
  - destruct (negb _); [done|]. case_bool_decide; [done|]. by apply set_new_some_no_panic.
  - destruct (seat_of_root _ _); [|done]. destruct (_ =? _); [done|]. apply set_new_some_no_panic. by destruct (validators s).
Qed.
Lemma apply_set_change_normal s c h id s' : apply_set_change s c h id = Ok (Some s') → set_normal s'.
Proof.
  unfold apply_set_change, bindR at 1. destruct (set_change_verify_against c s id); [|done..].
  destruct (in_window c h); [|done]. cbn [negb].
  destruct (sb_change _); unfold change_admit, change_remove, change_power.
  - destruct (seated _ _); [done|]. destruct (existsb _ _); [done|]. apply set_new_some_normal.
  - destruct (negb _); [done|]. case_bool_decide; [done|]. apply set_new_some_normal.
  - destruct (seat_of_root _ _); [|done]. destruct (_ =? _); [done|]. apply set_new_some_normal.
Qed.
Lemma reweight_no_panic {E} s roots power : s.(validators) ≠ [] → reweight_roots (E := E) s roots power ≠ Panic.
Proof.
  intros Hn. unfold reweight_roots. destruct (existsb _ _); [|done]. apply set_new_some_no_panic.
  by destruct (validators s).
Qed.
Lemma reweight_normal {E} s roots power s' : reweight_roots (E := E) s roots power = Ok (Some s') → set_normal s'.
Proof. unfold reweight_roots. destruct (existsb _ _); [|done]. apply set_new_some_normal. Qed.
(** The error type of the re-weight plays no part. *)
Lemma reweight_error {E E'} s roots power :
  reweight_roots (E := E) s roots power = mapErr (λ e : Empty_set, match e with end) (reweight_roots s roots power) ∧
  reweight_roots (E := E') s roots power = mapErr (λ e : Empty_set, match e with end) (reweight_roots s roots power).
Proof. split; unfold reweight_roots; destruct (existsb _ _); [|done| |done]; by destruct (_ <$> _). Qed.

Lemma view_rotation_normal h va c : set_normal va.1.(vw_set) → set_normal (view_rotation h va c).1.(vw_set).
Proof.
  intros H. unfold view_rotation. destruct (apply_rotation _ _ _) as [s'| |] eqn:E; [|done..].
  by eapply apply_rotation_normal.
Qed.
Lemma view_change_normal h va c : set_normal va.1.(vw_set) → set_normal (view_change h va c).1.(vw_set).
Proof.
  intros H. unfold view_change. destruct (apply_set_change _ _ _ _) as [[s'|]| |] eqn:E; [|done..].
  by eapply apply_set_change_normal.
Qed.
Lemma view_bootstrap_normal h va : set_normal va.1.(vw_set) → set_normal (view_bootstrap h va).1.(vw_set).
Proof.
  intros H. unfold view_bootstrap. destruct (bootstrap cfg) as [b|]; [|done]. destruct (_ =? _); [|done].
  destruct (reweight_roots _ _ _) as [[s'|]| |] eqn:E; [|done..]. by eapply reweight_normal.
Qed.
Lemma foldl_normal {A} (f : View * bool → A → View * bool) l va :
  (∀ va a, set_normal va.1.(vw_set) → set_normal (f va a).1.(vw_set)) →
  set_normal va.1.(vw_set) → set_normal (foldl f va l).1.(vw_set).
Proof. intros Hf. revert va. induction l as [|a l IH]; intros va H; [done|]. apply IH, Hf, H. Qed.
Lemma view_push_set h va : (view_push h va).(vw_set) = va.1.(vw_set).
Proof. unfold view_push. by destruct va as [v []]. Qed.
Lemma view_rotations_normal h batch v : set_normal v.(vw_set) → set_normal (view_rotations h batch v).(vw_set).
Proof. intros H. unfold view_rotations. rewrite view_push_set. apply foldl_normal; [apply view_rotation_normal|done]. Qed.
Lemma view_block_normal h batch v : set_normal v.(vw_set) → set_normal (view_block h batch v).(vw_set).
Proof.
  intros H. unfold view_block, view_changes. rewrite view_push_set.
  apply view_bootstrap_normal, foldl_normal; [apply view_change_normal|by apply view_rotations_normal].
Qed.
End view.

(** ** The code computes that function, live and on replay *)

Section runs.
Context {SHAKE : Shake} {ROOT : RootScheme} {HSS : Hss} (cfg : NodeConfig).

(** Queues and clock are left out of the view. *)
Lemma own_rotation_view c replay s :
  view (own_rotation cfg c replay s) =
  mkView s.(se_validators) s.(se_history) (own_epoch cfg c s.(se_current_epoch)).
Proof. unfold own_rotation, own_epoch, view. by destruct (_ && _), replay. Qed.

Lemma apply_rotation_cert_run {E} h replay c s :
  ∃ s' any, apply_rotation_cert (E := E) cfg h replay c s = (s', Ok any) ∧
    ∀ b, (view s', b || any) = view_rotation cfg h (view s, b) c.
Proof.
  unfold apply_rotation_cert, view_rotation, bindM, getM. cbn [view vw_set vw_history vw_epoch fst snd].
  pose proof (apply_rotation_no_panic (se_validators s) c (rotation_rules cfg h)) as Hp.
  destruct (apply_rotation _ _ _) as [set|e|]; [|eexists _, _; split; [done|by intros []]|done].
  unfold modifyM, retM. eexists _, true. split; [reflexivity|]. intros b. rewrite orb_true_r. f_equal.
  unfold view. cbn. pose proof (own_rotation_view c replay (se_set_validators set s)) as Hv.
  unfold view in Hv. cbn in Hv. injection Hv as E1 E2 E3. by rewrite E1, E2, E3.
Qed.
Lemma anyM_run {E A} (f : A → M Seats E bool) (g : View * bool → A → View * bool) (P : View → Prop) l :
  (∀ s a, P (view s) → ∃ s' any, f a s = (s', Ok any) ∧ ∀ b, (view s', b || any) = g (view s, b) a) →
  (∀ va a, P va.1 → P (g va a).1) →
  ∀ s, P (view s) →
  ∃ s' any, anyM f l s = (s', Ok any) ∧ ∀ b, (view s', b || any) = foldl g (view s, b) l.
Proof.
  intros Hf Hg. induction l as [|a l IH]; intros s Hs; cbn [anyM foldl].
  - exists s, false. split; [done|]. intros b. by rewrite orb_false_r.
  - destruct (Hf s a Hs) as (s1 & x & Hx & Hv). unfold bindM. rewrite Hx.
    destruct (IH s1) as (s2 & y & Hy & Hv2).
    { specialize (Hv false). specialize (Hg (view s, false) a Hs). rewrite <-Hv in Hg. exact Hg. }
    rewrite Hy. eexists _, _. split; [reflexivity|]. intros b. by rewrite <-Hv, orb_assoc, Hv2.
Qed.
Lemma push_history_run {E} h any s :
  ∃ s', push_history (E := E) h any s = (s', Ok tt) ∧ view s' = view_push h (view s, any).
Proof. unfold push_history. destruct any; eexists; by split. Qed.

Lemma apply_rotations_run {E} h batch replay s :
  ∃ s', apply_rotations (E := E) cfg h batch replay s = (s', Ok tt) ∧
    view s' = view_rotations cfg h batch (view s).
Proof.
  unfold apply_rotations, view_rotations.
  assert (∃ s1 any, (match batch with Some b => anyM (apply_rotation_cert (E := E) cfg h replay) b.(b_rotations)
                     | None => retM false end) s = (s1, Ok any) ∧
            (view s1, any) = foldl (view_rotation cfg h) (view s, false) (batch_rotations batch))
    as (s1 & any & Hr & Hv).
  { destruct batch as [b|]; [|by exists s, false].
    destruct (anyM_run (apply_rotation_cert (E := E) cfg h replay) (view_rotation cfg h) (λ _, True) b.(b_rotations))
      with s as (s1 & any & Hr & Hv); [intros ? ? _; apply apply_rotation_cert_run|done|done|].
    exists s1, any. split; [done|]. apply (Hv false). }
  unfold bindM. rewrite Hr. destruct (push_history_run (E := E) h any s1) as (s2 & -> & Hv2).
  exists s2. split; [done|]. by rewrite Hv2, Hv.
Qed.

Lemma apply_change_cert_run {E} h c s :
  set_normal s.(se_validators) →
  ∃ s' any, apply_change_cert (E := E) cfg h c s = (s', Ok any) ∧
    ∀ b, (view s', b || any) = view_change cfg h (view s, b) c.
Proof.
  intros [Hn _]. unfold apply_change_cert, view_change, bindM, getM, modifyM, retM, panicM.
  cbn [view vw_set vw_history vw_epoch fst snd].
  pose proof (apply_set_change_no_panic (se_validators s) c h (cf_chain_id cfg) Hn) as Hp.
  destruct (apply_set_change _ _ _ _) as [[set|]|e|]; [..|done]; eexists _, _; (split; [reflexivity|]); by intros [].
Qed.
Lemma bootstrap_reweight_run {E} h s :
  set_normal s.(se_validators) →
  ∃ s' any, bootstrap_reweight (E := E) cfg h s = (s', Ok any) ∧
    ∀ b, (view s', b || any) = view_bootstrap cfg h (view s, b).
Proof.
  intros [Hn _]. unfold bootstrap_reweight, view_bootstrap.
  destruct (bootstrap cfg) as [b|]; [|exists s, false; split; [done|by intros []]].
  destruct (h =? bs_height b); [|exists s, false; split; [done|by intros []]].
  unfold bindM, getM, readM, modifyM, retM. cbn [view vw_set vw_history vw_epoch fst snd].
  pose proof (reweight_no_panic (E := Empty_set) (se_validators s) (cf_genesis_roots cfg) (bs_founding_power b) Hn) as Hp.
  rewrite (proj1 (reweight_error (E := E) (E' := E) _ _ _)).
  destruct (reweight_roots (E := Empty_set) _ _ _) as [[set|]|[]|]; [..|done]; cbn [mapErr];
    eexists _, _; (split; [reflexivity|]); by intros [].
Qed.
Lemma apply_set_changes_run {E} h batch s :
  set_normal s.(se_validators) →
  ∃ s', apply_set_changes (E := E) cfg h batch s = (s', Ok tt) ∧
    view s' = view_changes cfg h batch (view s).
Proof.
  intros Hn. unfold apply_set_changes, view_changes.
  assert (∃ s1 any, (match batch with Some b => anyM (apply_change_cert (E := E) cfg h) b.(b_set_changes)
                     | None => retM false end) s = (s1, Ok any) ∧
            (view s1, any) = foldl (view_change cfg h) (view s, false) (batch_changes batch))
    as (s1 & any & Hr & Hv).
  { destruct batch as [b|]; [|by exists s, false].
    destruct (anyM_run (apply_change_cert (E := E) cfg h) (view_change cfg h)
                (λ v, set_normal v.(vw_set)) b.(b_set_changes)) with s as (s1 & any & Hr & Hv);
      [intros; by apply apply_change_cert_run|intros; by apply view_change_normal|done|].
    exists s1, any. split; [done|]. apply (Hv false). }
  assert (set_normal s1.(se_validators)) as Hn1.
  { change (set_normal (view s1, any).1.(vw_set)). rewrite Hv. apply foldl_normal; [apply view_change_normal|done]. }
  unfold bindM. rewrite Hr. destruct (bootstrap_reweight_run (E := E) h s1 Hn1) as (s2 & re & -> & Hv2).
  destruct (push_history_run (E := E) h (any || re) s2) as (s3 & -> & Hv3).
  exists s3. split; [done|]. by rewrite Hv3, Hv2, Hv.
Qed.
Lemma seats_block_run {E} h batch replay s :
  set_normal s.(se_validators) →
  ∃ s', (apply_rotations (E := E) cfg h batch replay ;;; apply_set_changes cfg h batch) s = (s', Ok tt) ∧
    view s' = view_block cfg h batch (view s).
Proof.
  intros Hn. destruct (apply_rotations_run (E := E) h batch replay s) as (s1 & Hr & Hv).
  assert (set_normal s1.(se_validators)) as Hn1.
  { change (set_normal (view s1).(vw_set)). rewrite Hv. by apply view_rotations_normal. }
  destruct (apply_set_changes_run (E := E) h batch s1 Hn1) as (s2 & Hc & Hv2).
  exists s2. unfold bindM. rewrite Hr. split; [done|]. unfold view_block. by rewrite Hv2, Hv.
Qed.
End runs.

(** * One leaf, one signature

    The node's trees over its life: signatures of the engine through the shared
    handle, rotations applied live, restarts and power losses followed by the
    replay and the adoption of the seat's epoch.  [released] lists, by epoch, the
    leaves of the signatures handed out, newest first. *)

Section keys.
Context {SHAKE : Shake} {ROOT : RootScheme} {HSS : Hss} {LAWS : HssLaws} (cfg : NodeConfig).

(** What blocks and adoption do to the handle: nothing, or the tree of some
    epoch, resumed from its state file. *)
Definition rekeyed (s s' : Seats) : Prop :=
  s'.(se_files) = s.(se_files) ∧
  (s'.(se_op_handle) = s.(se_op_handle) ∨
   ∃ e, s'.(se_op_handle).(hp_path) = e ∧
        s'.(se_op_handle).(hp_signer) = boot (op_seed cfg.(cf_master_seed) e) 0 (state_file e s)).
#[local] Instance rekeyed_preorder : PreOrder rekeyed.
Proof.
  split; [intros s; split; [done|by left]|]. intros a b c [F1 H1] [F2 H2]. split; [congruence|].
  destruct H2 as [->|(e & P & S)]; [done|]. right. exists e. split; [done|]. rewrite S. unfold state_file. by rewrite F1.
Qed.
Lemma rotate_to_signer seed e f h :
  (rotate_to seed e f h).1.(hp_path) = e ∧ (rotate_to seed e f h).1.(hp_signer) = boot seed 0 f.
Proof. unfold rotate_to, boot. by destruct (generate_consensus seed). Qed.
Lemma own_rotation_rekeyed c replay s : rekeyed s (own_rotation cfg c replay s).
Proof.
  unfold own_rotation. destruct (_ && _); [|done]. destruct replay; (split; [done|]); [by left|right].
  exists c.(rc_epoch). cbn. apply rotate_to_signer.
Qed.
Lemma rekeyed_same s s' :
  s'.(se_files) = s.(se_files) → s'.(se_op_handle) = s.(se_op_handle) → rekeyed s s'.
Proof. intros ? ?. split; [done|by left]. Qed.
#[local] Ltac rekey := walk_respects ltac:(first [apply own_rotation_rekeyed | by apply rekeyed_same]).
Lemma apply_rotations_rekeyed {E} h batch replay : respects rekeyed (apply_rotations (E := E) cfg h batch replay).
Proof. unfold apply_rotations, push_history, apply_rotation_cert. rekey. Qed.
Lemma apply_set_changes_rekeyed {E} h batch : respects rekeyed (apply_set_changes (E := E) cfg h batch).
Proof. unfold apply_set_changes, push_history, apply_change_cert, bootstrap_reweight. rekey. Qed.
Lemma adopt_rekeyed s : rekeyed s (adopt_epoch_signer cfg s).
Proof.
  unfold adopt_epoch_signer. destruct (seat_of_root _ _) as [v|]; [|done]. case_bool_decide; [by apply rekeyed_same|].
  pose proof (rotate_to_signer (op_seed cfg.(cf_master_seed) v.(v_epoch)) v.(v_epoch) (state_file v.(v_epoch) s)
                s.(se_op_handle)) as [Hp Hs].
  destruct (rotate_to _ _ _ _) as [h pk]. cbn in Hp, Hs.
  case_bool_decide; (split; [done|]); right; exists v.(v_epoch); by split.
Qed.

Notation Released := (gmap Z (list Z)).
Definition leaves (rel : Released) (e : Z) : list Z := default [] (rel !! e).
Inductive key_step : Seats * Released → Seats * Released → Prop :=
  | k_sign msg w s s' r rel (H : handle_sign msg w s = (s', r)) :
      key_step (s, rel)
        (s', match r with
             | Some sg => <[s.(se_op_handle).(hp_path) := sig_leaf sg :: leaves rel s.(se_op_handle).(hp_path)]> rel
             | None => rel
             end)
  | k_block h batch s rel :
      key_step (s, rel)
        (((apply_rotations (E := Empty_set) cfg h batch false ;;; apply_set_changes cfg h batch) s).1, rel)
  | k_trigger h now s rel : key_step (s, rel) (rotation_trigger cfg h now s, rel)
  | k_restart s s0 rel
      (Hf : ∀ e, state_file e s0 = state_file e s ∨ power_loss (state_file e s) (state_file e s0))
      (Hh : s0.(se_op_handle) = into_persistent (state_file 0 s0) (from_seed cfg.(cf_master_seed))) :
      key_step (s, rel) (adopt_epoch_signer cfg s0, rel).

Definition file_fresh (e : Z) (s : Seats) (rel : Released) : Prop :=
  file_ok (state_file e s) ∧ Forall (survivor_ok (leaves rel e)) (f_survivors (state_file e s)) ∧
  StronglySorted (λ x y, y < x) (leaves rel e).
Definition keys_ok (a : Seats * Released) : Prop :=
  let '(s, rel) := a in
  (∀ e, file_fresh e s rel) ∧
  let h := s.(se_op_handle) in
  world_ok (mkWorld h.(hp_signer) (state_file h.(hp_path) s) (leaves rel h.(hp_path))).

Lemma fresh_boot e s rel :
  file_fresh e s rel → world_ok (mkWorld (boot (op_seed cfg.(cf_master_seed) e) 0 (state_file e s)) (state_file e s) (leaves rel e)).
Proof. intros (H1 & H2 & H3). apply boot_ok; [ulia|done..]. Qed.
Lemma rekeyed_ok s s' rel : rekeyed s s' → keys_ok (s, rel) → keys_ok (s', rel).
Proof.
  intros [Hf Hh] [Hfiles Hw]. unfold keys_ok, file_fresh, state_file in *. rewrite Hf. split; [done|].
  destruct Hh as [->|(e & -> & ->)]; [done|]. apply (fresh_boot e s rel), Hfiles.
Qed.
Lemma handle_sign_ok msg w s s' r rel :
  keys_ok (s, rel) → handle_sign msg w s = (s', r) →
  keys_ok (s', match r with
               | Some sg => <[s.(se_op_handle).(hp_path) := sig_leaf sg :: leaves rel s.(se_op_handle).(hp_path)]> rel
               | None => rel
               end).
Proof.
  intros [Hfiles Hw] H. unfold handle_sign in H. set (p := hp_path (se_op_handle s)) in *.
  destruct (signer_sign _ _ _ _) as [[sg f] r'] eqn:Es. injection H as <- <-.
  pose proof (sign_ok _ _ _ _ _ _ Hw Es) as Hw'. cbn [w_released] in Hw'.
  set (rel' := match r' with Some _ => _ | None => _ end).
  assert (leaves rel' p = match r' with Some x => sig_leaf x :: leaves rel p | None => leaves rel p end) as Hl.
  { unfold rel', leaves. destruct r'; [by rewrite lookup_insert_eq|done]. }
  assert (∀ e, e ≠ p → leaves rel' e = leaves rel e) as Hne.
  { intros e He. unfold rel', leaves. destruct r'; [by rewrite lookup_insert_ne|done]. }
  unfold keys_ok. cbn [se_op_handle se_set_op_handle hp_signer hp_path]. fold p.
  assert (∀ s1, se_files s1 = <[p:=f]> (se_files s) → state_file p s1 = f) as Hfp.
  { intros s1 E. unfold state_file. by rewrite E, lookup_insert_eq. }
  split.
  - intros e. unfold file_fresh. destruct (decide (e = p)) as [->|He].
    + rewrite Hfp, Hl by done. destruct Hw' as [_ _ _ _ H1 H2 _ H3]. by split_and!.
    + rewrite Hne by done. unfold state_file. cbn. rewrite lookup_insert_ne by done. apply Hfiles.
  - rewrite Hfp, Hl by done. exact Hw'.
Qed.
Lemma key_step_ok a b : keys_ok a → key_step a b → keys_ok b.
Proof.
  intros Ha Hs. destruct Hs as [msg w s s' r rel H|h batch s rel|h now s rel|s s0 rel Hf Hh].
  - by eapply handle_sign_ok.
  - eapply rekeyed_ok; [|exact Ha].
    pose proof (apply_rotations_rekeyed (E := Empty_set) h batch false) as H1.
    pose proof (apply_set_changes_rekeyed (E := Empty_set) h batch) as H2.
    by apply (respects_bind rekeyed _ (λ _, apply_set_changes cfg h batch)).
  - eapply rekeyed_ok; [|exact Ha]. unfold rotation_trigger. by destruct (fst _); apply rekeyed_same.
  - eapply rekeyed_ok; [apply adopt_rekeyed|]. destruct Ha as [Hfiles _].
    assert (∀ e, file_fresh e s0 rel) as Hfiles0.
    { intros e. destruct (Hfiles e) as (H1 & H2 & H3). unfold file_fresh.
      destruct (Hf e) as [->|Hl]; [done|].
      destruct (power_loss_ok _ _ _ H2 Hl) as [H4 H5]. by split_and!. }
    split; [done|]. rewrite Hh. cbn [into_persistent hp_path hp_signer].
    unfold from_seed. destruct (generate_consensus (cf_master_seed cfg)) as [sg pk] eqn:Eg. cbn [hp_signer].
    pose proof (fresh_boot 0 s0 rel (Hfiles0 0)) as Hb. unfold boot, op_seed in Hb. cbn in Hb. by rewrite Eg in Hb.
Qed.

(** C37: no leaf signs twice, of any tree.  Whatever a node signs, whichever
    rotations it applies, however often it restarts or loses power and adopts
    the epoch its seat is at, the leaves of the signatures it released under the
    tree of one epoch are pairwise distinct and ascending, and the state file of
    every epoch, in whatever form it comes back, is past them. *)
Theorem epochs_never_share_a_leaf s s' rel' :
  s.(se_files) = ∅ → s.(se_op_handle) = into_persistent no_file (from_seed cfg.(cf_master_seed)) →
  rtc key_step (s, ∅) (s', rel') →
  ∀ e, NoDup (leaves rel' e) ∧ StronglySorted (λ x y, y < x) (leaves rel' e) ∧
       Forall (survivor_ok (leaves rel' e)) (f_survivors (state_file e s')).
Proof.
  intros Hf Hh H e. assert (keys_ok (s, ∅)) as H0.
  { assert (∀ e, file_fresh e s ∅) as Hfr.
    { intros e'. unfold file_fresh, state_file, leaves. rewrite Hf, !lookup_empty. cbn.
      split_and!; [by apply list_elem_of_singleton|by repeat constructor|constructor]. }
    split; [done|]. rewrite Hh. cbn [into_persistent hp_path hp_signer].
    pose proof (fresh_boot 0 s ∅ (Hfr 0)) as Hb. unfold boot, op_seed, state_file in Hb. rewrite Hf in Hb. cbn in Hb.
    unfold state_file. rewrite Hf. unfold from_seed.
    by destruct (generate_consensus (cf_master_seed cfg)) as [sg pk]. }
  assert (keys_ok (s', rel')) as [H1 _].
  { revert H0 H. generalize (s, ∅ : Released), (s', rel'). clear -LAWS. intros a b H0 H.
    induction H as [|x y z Hxy _ IH]; [done|]. eapply IH, key_step_ok; done. }
  destruct (H1 e) as (_ & Hs & Hd). split_and!; [|done|done].
  clear -Hd. induction Hd as [|x l Hd IH Hx]; constructor; [|done].
  intros Hin. rewrite Forall_forall in Hx. specialize (Hx x Hin). cbn beta in Hx. lia.
Qed.
End keys.

(** * The history of sets *)

Section history.
Context {SHAKE : Shake} {ROOT : RootScheme} {HSS : Hss} (cfg : NodeConfig).

(** The seats' side of the blocks from height [h] on, each applied live or replayed. *)
Fixpoint seats_blocks {E} (h : Z) (l : list (option Batch * bool)) : M Seats E unit :=
  match l with
  | [] => retM tt
  | (b, replay) :: l =>
      (apply_rotations cfg h b replay ;;; apply_set_changes cfg h b) ;;; seats_blocks (h + 1) l
  end.
Fixpoint view_blocks (h : Z) (l : list (option Batch)) (v : View) : View :=
  match l with [] => v | b :: l => view_blocks (h + 1) l (view_block cfg h b v) end.
Lemma seats_blocks_run {E} h l s :
  set_normal s.(se_validators) →
  ∃ s', seats_blocks (E := E) h l s = (s', Ok tt) ∧ view s' = view_blocks h l.*1 (view s).
Proof.
  revert h s. induction l as [|[b replay] l IH]; intros h s Hn; cbn [seats_blocks view_blocks fmap list_fmap fst].
  { by exists s. }
  destruct (seats_block_run (E := E) cfg h b replay s Hn) as (s1 & H1 & Hv).
  assert (set_normal s1.(se_validators)) as Hn1.
  { change (set_normal (view s1).(vw_set)). rewrite Hv. by apply view_block_normal. }
  destruct (IH (h + 1) s1 Hn1) as (s2 & H2 & Hv2). exists s2. unfold bindM at 1. rewrite H1. split; [done|].
  by rewrite Hv2, Hv.
Qed.
Lemma view_blocks_normal h l v : set_normal v.(vw_set) → set_normal (view_blocks h l v).(vw_set).
Proof. revert h v. induction l as [|b l IH]; intros h v H; [done|]. by apply IH, view_block_normal. Qed.
Lemma view_blocks_app h l1 l2 v :
  view_blocks h (l1 ++ l2) v = view_blocks (h + Z.of_nat (length l1)) l2 (view_blocks h l1 v).
Proof.
  revert h v. induction l1 as [|b l1 IH]; intros h v; cbn [app view_blocks length].
  - by rewrite Z.add_0_r.
  - rewrite IH. f_equal. lia.
Qed.

(** The history up to height [h] answers for [h] with the set as it stands, and
    says nothing of later heights. *)
Definition current (h : Z) (v : View) : Prop :=
  Forall (λ e, e.1 ≤ h) v.(vw_history) ∧ validator_set_at (Some v.(vw_history)) h = Some v.(vw_set).
Definition answers_same (h : Z) (l l' : SetHistory) : Prop :=
  ∀ k, k < h → validator_set_at (Some l') k = validator_set_at (Some l) k.
Lemma set_at_snoc l h set k :
  validator_set_at (Some (l ++ [(h, set)])) k = if h <=? k then Some set else validator_set_at (Some l) k.
Proof. unfold validator_set_at. cbn [mbind option_bind]. rewrite rev_app_distr. cbn. by destruct (h <=? k). Qed.
Lemma set_at_beyond l h k : Forall (λ e, e.1 ≤ h) l → h ≤ k → validator_set_at (Some l) k = validator_set_at (Some l) h.
Proof.
  intros Hl Hk. unfold validator_set_at. cbn [mbind option_bind]. f_equal. apply Forall_rev in Hl.
  destruct Hl as [|e l' He _]; [done|]. cbn. by rewrite !(proj2 (Z.leb_le _ _)) by lia.
Qed.
Lemma current_later h k v : current h v → h ≤ k → current k v.
Proof.
  intros [Hl Hs] Hk. split; [|by rewrite (set_at_beyond _ h)].
  eapply Forall_impl; [exact Hl|]. intros e ?. cbn beta in *. lia.
Qed.
Lemma push_current h v va :
  current (h + 1) v → va.1.(vw_history) = v.(vw_history) → (va.2 = false → va.1.(vw_set) = v.(vw_set)) →
  current (h + 1) (view_push h va) ∧ answers_same (h + 1) v.(vw_history) (view_push h va).(vw_history).
Proof.
  intros [Hl Hs] Hh Hsame. destruct va as [w any]. cbn [fst snd] in *. unfold view_push, current. cbn [fst snd].
  destruct any; cbn [vw_history vw_set].
  - rewrite Hh. split_and!; [|by rewrite set_at_snoc, Z.leb_refl|].
    + apply Forall_app. split; [done|]. constructor; [cbn; lia|done].
    + intros k Hk. rewrite set_at_snoc. by rewrite (proj2 (Z.leb_gt _ _)) by lia.
  - rewrite Hh, Hsame by done. by split_and!.
Qed.
Lemma foldl_quiet {A} (f : View * bool → A → View * bool) l va :
  (∀ va a, (f va a).1.(vw_history) = va.1.(vw_history) ∧
           ((f va a).2 = false → va.2 = false ∧ (f va a).1.(vw_set) = va.1.(vw_set))) →
  (foldl f va l).1.(vw_history) = va.1.(vw_history) ∧
  ((foldl f va l).2 = false → va.2 = false ∧ (foldl f va l).1.(vw_set) = va.1.(vw_set)).
Proof.
  intros Hf. revert va. induction l as [|a l IH]; intros va; [done|]. cbn [foldl].
  destruct (IH (f va a)) as [H1 H2], (Hf va a) as [H3 H4]. split; [congruence|].
  intros H. destruct (H2 H) as [H5 H6]. destruct (H4 H5) as [H7 H8]. split; congruence.
Qed.
Lemma view_rotation_quiet h va c :
  (view_rotation cfg h va c).1.(vw_history) = va.1.(vw_history) ∧
  ((view_rotation cfg h va c).2 = false → va.2 = false ∧ (view_rotation cfg h va c).1.(vw_set) = va.1.(vw_set)).
Proof. unfold view_rotation. by destruct (apply_rotation _ _ _). Qed.
Lemma view_change_quiet h va c :
  (view_change cfg h va c).1.(vw_history) = va.1.(vw_history) ∧
  ((view_change cfg h va c).2 = false → va.2 = false ∧ (view_change cfg h va c).1.(vw_set) = va.1.(vw_set)).
Proof. unfold view_change. by destruct (apply_set_change _ _ _ _) as [[]| |]. Qed.
Lemma view_bootstrap_quiet h va :
  (view_bootstrap cfg h va).1.(vw_history) = va.1.(vw_history) ∧
  ((view_bootstrap cfg h va).2 = false → va.2 = false ∧ (view_bootstrap cfg h va).1.(vw_set) = va.1.(vw_set)).
Proof.
  unfold view_bootstrap. destruct (bootstrap cfg) as [b|]; [|done]. destruct (_ =? _); [|done].
  by destruct (reweight_roots _ _ _) as [[]| |].
Qed.
Lemma view_block_current h b v :
  current h v →
  current (h + 1) (view_block cfg h b v) ∧
  answers_same (h + 1) v.(vw_history) (view_block cfg h b v).(vw_history).
Proof.
  intros Hc%(current_later h (h + 1)); [|lia]. unfold view_block, view_changes, view_rotations.
  destruct (foldl_quiet (view_rotation cfg h) (batch_rotations b) (v, false) (view_rotation_quiet h)) as [H1 H2].
  cbn [fst snd] in H1, H2.
  destruct (push_current h v (foldl (view_rotation cfg h) (v, false) (batch_rotations b)) Hc H1) as [Hc1 Ha1].
  { intros H. by apply H2. }
  set (v1 := view_push h _) in *.
  destruct (foldl_quiet (view_change cfg h) (batch_changes b) (v1, false) (view_change_quiet h)) as [H3 H4].
  cbn [fst snd] in H3, H4. destruct (view_bootstrap_quiet h (foldl (view_change cfg h) (v1, false) (batch_changes b))) as [H5 H6].
  destruct (push_current h v1 (view_bootstrap cfg h (foldl (view_change cfg h) (v1, false) (batch_changes b))) Hc1)
    as [Hc2 Ha2].
  { congruence. }
  { intros H. destruct (H6 H) as [H7 H8]. destruct (H4 H7) as [_ H9]. congruence. }
  split; [done|]. intros k Hk. by rewrite Ha2, Ha1.
Qed.
Lemma view_blocks_current h l v :
  current h v →
  current (h + Z.of_nat (length l)) (view_blocks h l v) ∧
  answers_same (h + 1) v.(vw_history) (view_blocks h l v).(vw_history).
Proof.
  revert h v. induction l as [|b l IH]; intros h v Hc; cbn [view_blocks length].
  { rewrite Z.add_0_r. done. }
  destruct (view_block_current h b v Hc) as [Hc1 Ha1]. destruct (IH (h + 1) _ Hc1) as [Hc2 Ha2]. split.
  - by replace (h + Z.of_nat (S (length l))) with (h + 1 + Z.of_nat (length l)) by lia.
  - intros k Hk. by rewrite Ha2, Ha1 by lia.
Qed.

(** C36: the set of every height is known.  Starting from a height whose set is
    the one entry of the history (genesis, or a restored snapshot), whatever
    blocks follow and whether each is committed live or replayed, the history
    then answers for every height with the set the blocks before that height
    left; and a replay ends with the set, the history and the epoch of the live
    run. *)
Theorem every_height_has_its_set {E} s h l l' n :
  set_normal s.(se_validators) → s.(se_history) = [(h, s.(se_validators))] →
  l'.*1 = l.*1 → (n ≤ length l)%nat →
  ∃ s1 s2, seats_blocks (E := E) h (take n l) s = (s1, Ok tt) ∧ seats_blocks (E := E) h l' s = (s2, Ok tt) ∧
    validator_set_at (Some s2.(se_history)) (h + Z.of_nat n) = Some s1.(se_validators) ∧
    (n = length l → view s2 = view s1).
Proof.
  intros Hn Hh Hl Hlen. destruct (seats_blocks_run (E := E) h (take n l) s Hn) as (s1 & H1 & Hv1).
  destruct (seats_blocks_run (E := E) h l' s Hn) as (s2 & H2 & Hv2). exists s1, s2. split_and!; [done..| |].
  - assert (current h (view s)) as Hc.
    { unfold view, current. cbn. rewrite Hh. unfold validator_set_at. cbn. rewrite Z.leb_refl.
      split; [by repeat constructor|done]. }
    destruct (view_blocks_current h (take n l).*1 (view s) Hc) as [Hc1 _]. rewrite <-Hv1 in Hc1.
    rewrite length_fmap, length_take_le in Hc1 by done.
    rewrite Hl, <-(take_drop n l), fmap_app, view_blocks_app, <-Hv1, length_fmap, length_take_le in Hv2 by done.
    destruct (view_blocks_current (h + Z.of_nat n) (drop n l).*1 (view s1) Hc1) as [_ Ha].
    rewrite <-Hv2 in Ha. specialize (Ha (h + Z.of_nat n)). cbn [view vw_history] in Ha. rewrite Ha by lia. apply Hc1.
  - intros ->. rewrite Hv2, Hv1, Hl, firstn_all. done.
Qed.
End history.

(** * The signer and the seat *)

Section step.
Context {SHAKE : Shake} {ROOT : RootScheme} {HSS : Hss} (cfg : NodeConfig).

(** The public key of the tree of an epoch. *)
Definition tree_key (epoch : Z) : HkPub := (from_seed (op_seed cfg.(cf_master_seed) epoch)).(hp_pubkey).
(** The node signs with the tree of epoch [e], resumed from its state file, and
    its seat is registered with the key of that tree. *)
Definition in_step (e : Z) (s : Seats) : Prop :=
  s.(se_op_handle).(hp_path) = e ∧
  s.(se_op_handle).(hp_signer) = boot (op_seed cfg.(cf_master_seed) e) 0 (state_file e s) ∧
  v_public_key <$> seat_of_root (my_root_pk cfg) s.(se_validators) = Some (tree_key e).

Lemma find_fmap {A} (p : A → bool) (f : A → A) l :
  (∀ x, p (f x) = p x) → find p (f <$> l) = f <$> find p l.
Proof. intros H. induction l as [|x l IH]; [done|]. cbn. rewrite H. by destruct (p x). Qed.
Lemma apply_rotation_seat s c r s' :
  apply_rotation s c r = Ok s' →
  ∃ t, seat_of_root c.(rc_root_pk) s = Some t ∧
    seat_of_root c.(rc_root_pk) s' = Some (v_set_key c.(rc_new_op_pk) c.(rc_epoch) t).
Proof.
  unfold apply_rotation. destruct (seat_of_root _ s) as [t|] eqn:Et; [|done].
  destruct (rotation_verify_against _ _ _ _); cbn [bindR]; [|done..].
  intros H. injection H as <-. exists t. split; [done|].
  unfold seat_of_root in *. cbn [validators]. rewrite find_fmap, Et.
  - cbn. by rewrite bool_decide_eq_true_2.
  - intros v. by destruct (bool_decide (v_address v = _)).
Qed.
Lemma rotate_to_key e f h : (rotate_to (op_seed cfg.(cf_master_seed) e) e f h).2 = tree_key e.
Proof. unfold rotate_to, tree_key, from_seed. by destruct (generate_consensus _). Qed.

(** The signer follows the seat.  When a block applies our own rotation with
    the key of its epoch, the live node moves to the tree of that key at once;
    and a node restarted on a set that registers it with the key of its seat's
    epoch, or with its genesis key, adopts the tree of that key.  Either way it
    signs with the key the other validators check, resumed from the state file
    of that tree. *)
Theorem signer_follows_seat :
  (∀ E h c s set,
     apply_rotation s.(se_validators) c (rotation_rules cfg h) = Ok set →
     c.(rc_root_pk) = my_root_pk cfg → c.(rc_new_op_pk) = tree_key c.(rc_epoch) →
     s.(se_current_epoch) < c.(rc_epoch) →
     ∃ s', apply_rotation_cert (E := E) cfg h false c s = (s', Ok true) ∧ in_step c.(rc_epoch) s' ∧
       s'.(se_current_epoch) = c.(rc_epoch)) ∧
  (∀ s v, s.(se_op_handle) = into_persistent (state_file 0 s) (from_seed cfg.(cf_master_seed)) →
     seat_of_root (my_root_pk cfg) s.(se_validators) = Some v →
     v.(v_public_key) = tree_key v.(v_epoch) ∨ v.(v_public_key) = tree_key 0 →
     let s' := adopt_epoch_signer cfg s in
     ∃ e, in_step e s' ∧ v.(v_public_key) = tree_key e ∧ s'.(se_current_epoch) = v.(v_epoch)).
Proof.
  split.
  - intros E h c s set Ha Hm Hk He. unfold apply_rotation_cert, bindM, getM. rewrite Ha. unfold modifyM, retM.
    eexists. split; [reflexivity|]. unfold own_rotation.
    rewrite bool_decide_eq_true_2, (proj2 (Z.ltb_lt _ _)) by done. cbn [andb].
    destruct (rotate_to_signer (op_seed cfg.(cf_master_seed) c.(rc_epoch)) c.(rc_epoch)
                (state_file c.(rc_epoch) (se_set_validators set s)) s.(se_op_handle)) as [Hp Hs].
    split; [|done]. split_and!; [exact Hp|exact Hs|].
    destruct (apply_rotation_seat _ _ _ _ Ha) as (t & _ & Ht). rewrite <-Hm, <-Hk. cbn. by rewrite Ht.
  - intros s v Hh Hv Hk. unfold adopt_epoch_signer. rewrite Hv, Hh.
    assert (hp_pubkey (from_seed (cf_master_seed cfg)) = tree_key 0) as H0 by done.
    cbn [into_persistent hp_pubkey]. rewrite H0. case_bool_decide as Eq.
    + exists 0. cbn. split; [|done]. split_and!; [cbn; by rewrite Hh| |cbn; by rewrite Hv, Eq].
      cbn. rewrite Hh. unfold into_persistent, boot, from_seed. by destruct (generate_consensus (cf_master_seed cfg)).
    + destruct Hk as [Hk|Hk]; [|by rewrite Hk in Eq]. exists v.(v_epoch).
      set (h0 := into_persistent _ _).
      pose proof (rotate_to_key v.(v_epoch) (state_file v.(v_epoch) s) h0) as Hk2.
      destruct (rotate_to_signer (op_seed cfg.(cf_master_seed) v.(v_epoch)) v.(v_epoch) (state_file v.(v_epoch) s) h0)
        as [Hp Hs].
      destruct (rotate_to _ _ _ h0) as [h1 pk]. cbn [snd fst] in Hk2, Hp, Hs. subst pk.
      rewrite bool_decide_eq_true_2 by done. split_and!; [|done|done].
      split_and!; [exact Hp|exact Hs|]. cbn. by rewrite Hv, <-Hk.
Qed.

(** A seat admitted while the node runs is not adopted: no certificate of a
    block but our own rotation moves the signer, so a node readmitted with
    another key than the one it signs with is out of step until it restarts or
    rotates. *)
Lemma admission_keeps_signer {E} h batch s :
  (apply_set_changes (E := E) cfg h batch s).1.(se_op_handle) = s.(se_op_handle).
Proof.
  set (R := λ a b : Seats, se_op_handle b = se_op_handle a).
  assert (PreOrder R) by (split; [done|intros a b c; unfold R; congruence]).
  enough (respects R (apply_set_changes (E := E) cfg h batch)) as HR by apply HR.
  unfold apply_set_changes, push_history, apply_change_cert, bootstrap_reweight.
  walk_respects ltac:(done).
Qed.
End step.

(** * Witnesses *)

Module Sample.
#[local] Existing Instances toy_shake toy_root toy_hss.

Definition cfg : NodeConfig := mkNodeConfig Governance.sample_seed [] "chain" 5 (None, None) None.
Definition handle : HkPriv := into_persistent no_file (from_seed Governance.sample_seed).
Definition seats (set : HkValidatorSet) : Seats :=
  mkSeats set [(10, set)] 0 0 handle ∅ [] [] [] (0, 0) None.
(** A block whose certificate admits a fourth validator. *)
Definition admission : Batch := mkBatch (id_of 0) [] [] [] [Governance.Sample.admit_cert].
(** The rotation of the only seat to epoch 1, issued by the node itself. *)
Definition own : RotationCert := next_certificate cfg 1 11.
Definition start : Seats := seats Governance.sample_singleton.
Definition signed (s : Seats) : Seats * option bytes := handle_sign [x07] WDone s.
Definition moved (s : Seats) : Seats :=
  ((apply_rotations (E := Empty_set) cfg 20 (Some (mkBatch (id_of 0) [] [own] [] [])) false ;;;
    apply_set_changes cfg 20 (Some (mkBatch (id_of 0) [] [own] [] []))) s).1.
Definition restarted (s : Seats) : Seats :=
  adopt_epoch_signer cfg (se_set_op_handle (into_persistent (state_file 0 s) (from_seed Governance.sample_seed)) s).
(** Two signatures around an own rotation, a restart, another signature. *)
Definition Life : Type := Seats * gmap Z (list Z).
Definition sign (a : Life) : Life :=
  let '(s, r) := signed a.1 in
  (s, match r with
      | Some sg => <[a.1.(se_op_handle).(hp_path) := sig_leaf sg :: leaves a.2 a.1.(se_op_handle).(hp_path)]> a.2
      | None => a.2
      end).
Definition move (a : Life) : Life := (moved a.1, a.2).
Definition restart (a : Life) : Life := (restarted a.1, a.2).
Definition life : Life := sign (restart (sign (move (sign (start, ∅))))).
End Sample.
#[local] Existing Instances toy_shake toy_root toy_hss.

Lemma every_height_has_its_set_witness :
  ∃ s1 s2 : Seats,
    seats_blocks (E := unit) Sample.cfg 10 (take 1 [(Some Sample.admission, false); (None, false)])
      (Sample.seats SampleSet.set) = (s1, Ok tt) ∧
    seats_blocks (E := unit) Sample.cfg 10 [(Some Sample.admission, true); (None, true)]
      (Sample.seats SampleSet.set) = (s2, Ok tt) ∧
    validator_set_at (Some s2.(se_history)) (10 + Z.of_nat 1) = Some s1.(se_validators) ∧
    (1%nat = length [(Some Sample.admission, false); (None, false)] → view s2 = view s1).
Proof.
  apply (every_height_has_its_set Sample.cfg (Sample.seats SampleSet.set) 10).
  - apply set_ok_normal, sample_set_ok.
  - reflexivity.
  - reflexivity.
  - simpl. lia.
Defined.

Lemma sample_own_accepted :
  apply_rotation Governance.sample_singleton Sample.own (rotation_rules Sample.cfg 20) =
  Ok (mkHkValidatorSet [v_set_key (tree_key Sample.cfg 1) 1 Governance.sample_seat]).
Proof. vm_compute. reflexivity. Qed.
Lemma signer_follows_seat_witness :
  ∃ s', apply_rotation_cert (E := unit) Sample.cfg 20 false Sample.own Sample.start = (s', Ok true) ∧
    in_step Sample.cfg 1 s' ∧ s'.(se_current_epoch) = 1.
Proof.
  destruct (signer_follows_seat Sample.cfg) as [H _].
  apply (H unit 20 Sample.own Sample.start _ sample_own_accepted).
  - reflexivity.
  - reflexivity.
  - simpl. lia.
Defined.

Lemma sample_sign a : key_step Sample.cfg a (Sample.sign a).
Proof.
  destruct a as [s rel]. unfold Sample.sign. destruct (Sample.signed (s, rel).1) as [s' r] eqn:E.
  by apply (k_sign _ [x07] WDone).
Qed.
Lemma sample_restart a : key_step Sample.cfg a (Sample.restart a).
Proof. destruct a as [s rel]. apply k_restart; [by left|done]. Qed.
Lemma sample_move a : key_step Sample.cfg a (Sample.move a).
Proof. destruct a as [s rel]. apply (k_block _ 20). Qed.
Lemma sample_life : rtc (key_step Sample.cfg) (Sample.start, ∅) Sample.life.
Proof.
  unfold Sample.life. eapply rtc_r; [|apply sample_sign]. eapply rtc_r; [|apply sample_restart].
  eapply rtc_r; [|apply sample_sign]. eapply rtc_r; [|apply sample_move]. apply rtc_once, sample_sign.
Qed.
Lemma life_eta x (a : Sample.Life) : rtc (key_step Sample.cfg) x a → rtc (key_step Sample.cfg) x (a.1, a.2).
Proof. by destruct a. Qed.
Lemma epochs_never_share_a_leaf_witness :
  leaves Sample.life.2 0 = [0] ∧ leaves Sample.life.2 1 = [1; 0] ∧ NoDup (leaves Sample.life.2 1).
Proof.
  split_and!; [vm_compute; reflexivity..|].
  apply (epochs_never_share_a_leaf (LAWS := toy_hss_laws) Sample.cfg Sample.start Sample.life.1 Sample.life.2).
  - reflexivity.
  - reflexivity.
  - apply life_eta, sample_life.
Defined.
