(* ===== verification/Apply.v ===== *)
(** Applying one decided batch ([apply_batch_to_chain] of hk-node/src/state.rs):
    the divergence check, the coverage of the aggregate proof, the ordered
    application, and the node's indexes around the chain.

    The live path verifies the aggregate proof; the restart path installs the
    verdict recorded with the block.  Timers and log lines are left out. *)

From S2P Require Export Batch NodeParts.
From stdpp Require Import pretty.
#[local] Open Scope Z_scope.

Notation FeedNote := (H256 * bytes)%type.

(** What [apply_batch_to_chain] reads and writes of the node. *)
Record Ledger := mkLedger {
  lg_chain : State;
  lg_last_app_hash : option H256;
  lg_receipts : ReceiptLog;
  lg_notes : list FeedNote;
  lg_notes_by_asset : gmap H256 (list FeedNote);
  lg_mempool : Mempool;
  lg_bundles : list (list SignedTx * bytes);
  lg_index : SearchIndex;
}.
Definition lg_set_chain (c : State) (l : Ledger) : Ledger :=
  mkLedger c l.(lg_last_app_hash) l.(lg_receipts) l.(lg_notes) l.(lg_notes_by_asset) l.(lg_mempool) l.(lg_bundles) l.(lg_index).
Definition lg_set_last (h : option H256) (l : Ledger) : Ledger :=
  mkLedger l.(lg_chain) h l.(lg_receipts) l.(lg_notes) l.(lg_notes_by_asset) l.(lg_mempool) l.(lg_bundles) l.(lg_index).
Definition lg_set_receipts (r : ReceiptLog) (l : Ledger) : Ledger :=
  mkLedger l.(lg_chain) l.(lg_last_app_hash) r l.(lg_notes) l.(lg_notes_by_asset) l.(lg_mempool) l.(lg_bundles) l.(lg_index).
Definition lg_set_feeds (f : list FeedNote * gmap H256 (list FeedNote)) (l : Ledger) : Ledger :=
  mkLedger l.(lg_chain) l.(lg_last_app_hash) l.(lg_receipts) f.1 f.2 l.(lg_mempool) l.(lg_bundles) l.(lg_index).
Definition lg_set_mempool (p : Mempool) (l : Ledger) : Ledger :=
  mkLedger l.(lg_chain) l.(lg_last_app_hash) l.(lg_receipts) l.(lg_notes) l.(lg_notes_by_asset) p l.(lg_bundles) l.(lg_index).
Definition lg_set_bundles (b : list (list SignedTx * bytes)) (l : Ledger) : Ledger :=
  mkLedger l.(lg_chain) l.(lg_last_app_hash) l.(lg_receipts) l.(lg_notes) l.(lg_notes_by_asset) l.(lg_mempool) b l.(lg_index).
Definition lg_set_index (i : SearchIndex) (l : Ledger) : Ledger :=
  mkLedger l.(lg_chain) l.(lg_last_app_hash) l.(lg_receipts) l.(lg_notes) l.(lg_notes_by_asset) l.(lg_mempool) l.(lg_bundles) i.

(** [agg]: the verifier of aggregate proofs and the two verifying-key hashes. *)
Record AggVerifier := mkAggVerifier {
  agg_verify : bytes → H256 → bool;
  agg_spend_vk : list Z;
  agg_mint_vk : list Z;
}.
Inductive NodeError :=
  | AppHashDivergence (height : Z) (parent ours : H256)
  | ApplyBlockFailed (e : StateError)
  | ValueNotFound (height : Z) (id : H256)
  | SnapshotIntegrity (height : Z)
  | CorruptHistory (height : Z)
  | StoreFailed
  | ProcessStopped.
#[local] Notation Nd A := (M Ledger NodeError A).

Section apply.
Context {SHAKE : Shake} {SHA2 : Sha2} {CODECS : Codecs} {STX : StxCodec} {SCODECS : StateCodecs}.
Context (agg : option AggVerifier) (chain_start_time : Z).

Definition on_chain {A} (m : St A) : Nd A := zoom lg_chain lg_set_chain ApplyBlockFailed m.

(** The publics of the proof-less pool transactions, in order. *)
Definition proofless_public (tx : SignedTx) : option (byte * bytes) :=
  match stx_payload tx with
  | Tx.MintToPool _ value commitment [] _ =>
      Some (KIND_MINT, bincode_mint_public (expected_mint_public commitment value))
  | Tx.ShieldedSpend anchor nullifier out out2 fee credit _ [] _ _ =>
      Some (KIND_SPEND, bincode_spend_public (expected_spend_public anchor nullifier out out2 fee credit))
  | _ => None
  end.
Definition agg_leaf_of (v : AggVerifier) (p : byte * bytes) : H256 :=
  agg_leaf p.1 (if bool_decide (p.1 = KIND_MINT) then v.(agg_mint_vk) else v.(agg_spend_vk)) p.2.
(** The aggregate's verdict: verified on the live path, recorded on the other. *)
Definition agg_verdict (b : Batch) (pubs : list (byte * bytes)) (live_agg recorded : bool) : bool :=
  if live_agg then
    match agg with
    | Some v => v.(agg_verify) b.(b_agg_proof) (agg_digest (agg_leaf_of v <$> pubs))
    | None => false
    end
  else recorded.
Definition install_coverage (batch : option Batch) (live_agg recorded : bool) : St bool :=
  match batch with
  | None => retM false
  | Some b =>
      match b.(b_agg_proof) with
      | [] => retM false
      | _ =>
          let pubs := omap proofless_public b.(b_txs) in
          match pubs with
          | [] => retM false
          | _ =>
              if agg_verdict b pubs live_agg recorded
              then set_block_coverage (list_to_set ((λ p, cover_key p.1 p.2) <$> pubs)) ;;; retM true
              else retM false
          end
      end
  end.

(** The consensus-fatal check against the cached or recomputed commitment. *)
Definition parent_check (height : Z) (batch : option Batch) (cached : option H256) : Nd unit :=
  match batch with
  | None => retM tt
  | Some b =>
      let* l := getM in
      let* ours := match cached with
                   | Some h => retM h
                   | None => expect (state_commitment l.(lg_chain))
                   end in
      refuse_if (negb (bool_decide (b.(b_parent) = ours))) (AppHashDivergence height b.(b_parent) ours)
  end.

Definition receipt_detail (r : Receipt) : string :=
  match rc_result r with
  | inr events => "ok: " +:+ pretty (Z.of_nat (length events)) +:+ " event(s)"
  | inl e => "rejected: " +:+ e
  end.
Fixpoint record_receipts (l : list (SignedTx * Receipt)) : Nd unit :=
  match l with
  | [] => retM tt
  | (tx, r) :: l =>
      let* id := readM (λ _, txid tx) in
      modifyM (λ g, lg_set_receipts (rlog_insert id (receipt_detail r) g.(lg_receipts)) g) ;;;
      record_receipts l
  end.

(** Dropping the included transactions and the bundles they spend. *)
Definition drop_included (txs : list SignedTx) : Nd unit :=
  match slot_of <$> txs with
  | [] => retM tt
  | included =>
      zoom lg_mempool lg_set_mempool id (expectM (remove_included included)) ;;;
      modifyM (λ g, lg_set_bundles (filter (λ b, Forall (λ t, slot_of t ∉ included) b.1) g.(lg_bundles)) g)
  end.

(** The note feeds: a shield goes to the feed of its asset's pool, a spend to
    that of its anchor's. *)
Definition feed_push (a : option AssetId) (n : FeedNote) (f : list FeedNote * gmap H256 (list FeedNote)) :
    list FeedNote * gmap H256 (list FeedNote) :=
  match a with
  | Some a => (f.1, <[a := default [] (f.2 !! a) ++ [n]]> f.2)
  | None => (f.1 ++ [n], f.2)
  end.
Definition feed_tx (chain : State) (tx : SignedTx) (f : list FeedNote * gmap H256 (list FeedNote)) :
    list FeedNote * gmap H256 (list FeedNote) :=
  match stx_payload tx with
  | Tx.MintToPool asset _ commitment _ ct =>
      feed_push (match pool_key_of_asset chain asset with Ok (Asset a) => Some a | _ => None end) (commitment, ct) f
  | Tx.ShieldedSpend anchor _ out out2 _ _ _ _ ct ct2 =>
      let a := match pool_key_of_anchor chain anchor with Some (Asset a) => Some a | _ => None end in
      feed_push a (out2, ct2) (feed_push a (out, ct) f)
  | _ => f
  end.
Definition receipt_ok (r : Receipt) : bool := match rc_result r with inr _ => true | inl _ => false end.
Definition feed_notes (chain : State) (l : list (SignedTx * Receipt)) (f : list FeedNote * gmap H256 (list FeedNote)) :
    list FeedNote * gmap H256 (list FeedNote) :=
  foldl (λ f e, if receipt_ok e.2 then feed_tx chain e.1 f else f) f l.

Definition apply_batch_to_chain (height : Z) (batch : option Batch) (live_agg recorded : bool) : Nd bool :=
  let time := wrapping u64_max (chain_start_time + height) in
  let txs := match batch with Some b => b.(b_txs) | None => [] end in
  let sig_verdicts := verify_envelope <$> txs in
  let* l := getM in
  let cached := l.(lg_last_app_hash) in
  modifyM (lg_set_last None) ;;;
  parent_check height batch cached ;;;
  let* agg_valid := on_chain (install_coverage batch live_agg recorded) in
  let* receipts := on_chain (apply_block_verified height time txs (Some sig_verdicts)) in
  record_receipts (zip txs receipts) ;;;
  zoom lg_index lg_set_index id (index_txs_into height txs) ;;;
  drop_included txs ;;;
  modifyM (λ g, lg_set_feeds (feed_notes g.(lg_chain) (zip txs receipts) (g.(lg_notes), g.(lg_notes_by_asset))) g) ;;;
  let* g := getM in
  let* app_hash := expect (state_commitment g.(lg_chain)) in
  modifyM (lg_set_last (Some app_hash)) ;;;
  retM agg_valid.
End apply.

(** * What a block leaves alone *)

(** The parameters a chain is configured with. *)
Definition config (s : State) : ProofVerifier * Amount * Z * AssetId * Z * Z * Z :=
  (st_verifier s, st_fee_micro s, st_fee_from s, st_fee_asset s, st_multi_pool_from s,
   st_mandate_asset_from s, st_payword_cap_from s).

Section frame.
Context {SHAKE : Shake} {SHA2 : Sha2} {CODECS : Codecs}.

Definition same_config (s s' : State) : Prop := config s' = config s ∧ st_height s' = st_height s ∧ st_time s' = st_time s.
#[local] Instance same_config_preorder : PreOrder same_config.
Proof.
  split; [by split|]. intros s1 s2 s3 (C1 & H1 & T1) (C2 & H2 & T2). split; [|split]; congruence.
Qed.
Lemma accepts_config s sender tx ev s' : accepts s sender tx ev s' → same_config s s'.
Proof. intros H. split; [|split]; destruct H; simpl; repeat case_match; by try destruct key. Qed.
Lemma charged_config id s : same_config s (charged id s).
Proof. unfold charged. by destruct (0 <? fee_due s). Qed.
Lemma apply_tx_config stx pre s s' r : apply_tx_at stx pre s = (s', r) → r ≠ Panic → same_config s s'.
Proof.
  destruct r as [ev|e|]; [intros H _|intros H _|done].
  { apply apply_tx_ok in H as [_ _ (s2 & acc & Hacc & _ & ->)]. transitivity s2.
    - etrans; [apply charged_config|]. by eapply accepts_config.
    - unfold burned. by destruct (0 <? fee_due s). }
  unfold apply_tx_at in H.
  apply bindM_inv in H as [(s1 & [] & H1 & H)|[(e' & H1 & _)|[_ [=]]]]; apply readM_inv in H1 as [-> _]; [|done].
  rewrite run_get in H. cbv zeta in H.
  apply bindM_inv in H as [(s1 & [] & H1 & H)|[(e' & H1 & _)|[_ [=]]]]; [|by apply fee_step_err in H1 as ->].
  apply fee_step_ok in H1 as [-> _].
  apply bindM_inv in H as [(s2 & ev & H1 & H)|[(e' & H1 & _)|[_ [=]]]].
  - exfalso. assert (noerr (S := State) (E := StateError) (A := list Event)
      ((if 0 <? fee_due s
        then modifyM (λ s0, set_fees_burned (sat_add u128_max (st_fees_burned s0) (fee_due s)) s0)
        else retM tt) ;;;
       let* s0 := getM in
       let* acc := expect (st_accounts s0 !! stx_sender stx) in
       put_account (stx_sender stx)
         (mkAccount (stx_next_auth stx) (wrapping u64_max (acc_nonce acc + 1))) ;;;
       retM ev)) as Hn by frame.
    by eapply Hn.
  - unfold on_errM in H1. destruct (dispatch _ _ _) as [s3 [ev3|e3|]] eqn:Hd; try done.
    injection H1 as <- _. apply atomic_dispatch in Hd as ->. etrans; [apply charged_config|].
    by destruct (0 <? fee_due s).
Qed.
Lemma apply_txs_config i txs v s s' rs : apply_txs i txs v s = (s', Ok rs) → same_config s s'.
Proof.
  revert i s rs. induction txs as [|stx txs IH]; intros i s rs H; cbn [apply_txs] in H; [by mrun|]. mrun.
  match goal with H : (match v with _ => _ end) s = (?x, _) |- _ =>
    assert (x = s) as -> by (destruct v; by mrun) end.
  match goal with H : tryM _ _ = _ |- _ => apply tryM_ok in H as (r & Hr & Hp) end.
  etrans; [by eapply apply_tx_config|]. eauto.
Qed.
Lemma on_pool_config {A} key p (m : M PoolState StateError A) : respects same_config (on_pool key p m).
Proof.
  intros s. unfold on_pool, zoom. destruct (m p) as [p' [a|e|]]; cbn; by destruct key.
Qed.
Lemma block_config h t txs v s s' rs :
  apply_block_verified h t txs v s = (s', Ok rs) →
  config s' = config s ∧ st_height s' = h ∧ st_time s' = t ∧ st_agg_cover s' = ∅ ∧
  h = wrapping u64_max (st_height s + 1).
Proof.
  unfold apply_block_verified. intros H. srun.
  match goal with H : seal_pools ?y = (?z, _) |- _ =>
    assert (same_config y (fst (seal_pools y))) as Hseal; [|rewrite H in Hseal; cbn in Hseal] end.
  { eapply (respects_bind same_config getM); [apply respects_quiet; [apply _|apply quiet_get]|]. intros s0.
    apply respects_bind; [apply _|apply on_pool_config|]. intros [].
    apply respects_for_each; [apply _|]. intros e. apply on_pool_config. }
  match goal with H : apply_txs _ _ _ _ = _ |- _ => apply apply_txs_config in H as (Ct & Ht & Tt) end.
  destruct Hseal as (Cs & Hs & Ts). cbn in *. split_and!; [|congruence|congruence|done|].
  - unfold config in *. cbn. by rewrite Cs, Ct.
  - by apply Z.eqb_eq.
Qed.
End frame.

(** * The block as a function of the persistent part *)

(** What a snapshot keeps and a replay rebuilds of the ledger. *)
Record Persistent := mkPersistent {
  p_chain : State;
  p_receipts : ReceiptLog;
  p_feeds : list FeedNote * gmap H256 (list FeedNote);
}.
Definition persistent (l : Ledger) : Persistent :=
  mkPersistent l.(lg_chain) l.(lg_receipts) (l.(lg_notes), l.(lg_notes_by_asset)).

Section spec.
Context {SHAKE : Shake} {SHA2 : Sha2} {CODECS : Codecs} {STX : StxCodec} {SCODECS : StateCodecs}.
Context (agg : option AggVerifier) (chain_start_time : Z).
(** A signed transaction always has a JSON form (the [expect] of [txid]). *)
Context (json_total : ∀ tx, is_Some (json_stx tx)).

Definition stx_id (tx : SignedTx) : H256 := shake256_32 DOM_TXID [default [] (json_stx tx)].
Lemma txid_total {E} tx : txid (E := E) tx = Ok (stx_id tx).
Proof. unfold txid, stx_id. by destruct (json_total tx) as [b ->]. Qed.

(** The cached commitment, when there is one, is the chain's. *)
Definition cache_ok (l : Ledger) : Prop :=
  ∀ h, l.(lg_last_app_hash) = Some h → state_commitment l.(lg_chain) = Some h.

Definition batch_txs (batch : option Batch) : list SignedTx := match batch with Some b => b.(b_txs) | None => [] end.
(** A batch whose aggregate covers something. *)
Definition coverable (batch : option Batch) : Prop :=
  ∃ b, batch = Some b ∧ b.(b_agg_proof) ≠ [] ∧ omap proofless_public b.(b_txs) ≠ [].
Definition covered (batch : option Batch) (v : bool) (s : State) : State :=
  if v then set_agg_cover (list_to_set ((λ p, cover_key p.1 p.2) <$> omap proofless_public (batch_txs batch))) s else s.
Definition log_receipts (l : list (SignedTx * Receipt)) (g : ReceiptLog) : ReceiptLog :=
  foldl (λ g e, rlog_insert (stx_id e.1) (receipt_detail e.2) g) g l.

(** One block, as a relation between persistent parts: [v] is the verdict on its
    aggregate proof. *)
Definition block_step (height : Z) (batch : option Batch) (v : bool) (p p' : Persistent) : Prop :=
  match batch with Some b => state_commitment p.(p_chain) = Some b.(b_parent) | None => True end ∧
  (v = true → coverable batch) ∧
  ∃ receipts,
    apply_block_verified height (wrapping u64_max (chain_start_time + height)) (batch_txs batch)
      (Some (verify_envelope <$> batch_txs batch)) (covered batch v p.(p_chain)) = (p'.(p_chain), Ok receipts) ∧
    p'.(p_receipts) = log_receipts (zip (batch_txs batch) receipts) p.(p_receipts) ∧
    p'.(p_feeds) = feed_notes p'.(p_chain) (zip (batch_txs batch) receipts) p.(p_feeds) ∧
    is_Some (state_commitment p'.(p_chain)).
Lemma block_step_det height batch v p p1 p2 : block_step height batch v p p1 → block_step height batch v p p2 → p1 = p2.
Proof.
  intros (_ & _ & r1 & A1 & B1 & C1 & _) (_ & _ & r2 & A2 & B2 & C2 & _).
  rewrite A1 in A2. injection A2 as Hc Hr. subst r2. destruct p1, p2. cbn in *. congruence.
Qed.

(** ** The pieces *)

Lemma install_coverage_run batch live rec s s' v :
  install_coverage agg batch live rec s = (s', Ok v) →
  s' = covered batch v s ∧ (v = true → coverable batch) ∧ (v = true → live = false → rec = true).
Proof.
  unfold install_coverage. destruct batch as [b|]; [|by intros [= <- <-]].
  destruct (b_agg_proof b) as [|x proof] eqn:Ep; [by intros [= <- <-]|].
  destruct (omap proofless_public (b_txs b)) as [|q pubs] eqn:Eq; [by intros [= <- <-]|].
  destruct (agg_verdict agg b (q :: pubs) live rec) eqn:Ev; intros H; unfold set_block_coverage in H; mrun; [|done].
  unfold covered, batch_txs. rewrite Eq. split_and!; [done| |].
  - intros _. exists b. rewrite Ep, Eq. done.
  - intros _ ->. done.
Qed.
Lemma install_coverage_recorded batch s v :
  (v = true → coverable batch) → install_coverage agg batch false v s = (covered batch v s, Ok v).
Proof.
  intros Hv. unfold install_coverage. destruct v.
  - destruct Hv as (b & -> & Hp & Hq); [done|]. destruct (b_agg_proof b) eqn:Ep; [done|].
    unfold covered, batch_txs. destruct (omap proofless_public (b_txs b)) eqn:Eq; [done|]. done.
  - destruct batch as [b|]; [|done]. destruct (b_agg_proof b); [done|]. by destruct (omap proofless_public (b_txs b)).
Qed.
Lemma record_receipts_run l g :
  record_receipts l g = (lg_set_receipts (log_receipts l g.(lg_receipts)) g, Ok tt).
Proof.
  revert g. induction l as [|[tx r] l IH]; intros g; cbn [record_receipts].
  - by destruct g.
  - unfold bindM, readM, modifyM. rewrite txid_total, IH. done.
Qed.
Lemma index_from_run {E} height i txs ix : ∃ ix', index_from (E := E) height i txs ix = (ix', Ok tt).
Proof.
  revert i ix. induction txs as [|tx txs IH]; intros i ix; [by exists ix|]. cbn [index_from].
  unfold index_tx, bindM, readM, getM. rewrite txid_total. destruct (bool_decide _); apply IH.
Qed.
Lemma prune_run gone q p : ∃ p' kept, prune gone q p = (p', Ok kept).
Proof.
  revert p. induction q as [|tx q IH]; intros p; [by eexists _, _|]. cbn [prune].
  destruct (bool_decide _).
  - unfold bindM at 1, unindex, bindM, readM. rewrite txid_total. apply IH.
  - unfold bindM. destruct (IH p) as (p' & kept & ->). by eexists _, _.
Qed.
Lemma remove_included_run gone p : ∃ p' n, remove_included gone p = (p', Ok n).
Proof.
  unfold remove_included. destruct (bool_decide _); [by eexists _, _|].
  unfold bindM, getM, modifyM. destruct (prune_run gone (mp_q p) (mp_set_q [] p)) as (p' & kept & ->). by eexists _, _.
Qed.
Lemma drop_included_run txs g :
  ∃ g', drop_included txs g = (g', Ok tt) ∧ persistent g' = persistent g ∧ lg_last_app_hash g' = lg_last_app_hash g.
Proof.
  unfold drop_included. destruct (slot_of <$> txs) as [|s l]; [by exists g|].
  unfold bindM, zoom, expectM. destruct (remove_included_run (s :: l) (lg_mempool g)) as (p' & n & ->).
  eexists. split; [done|]. done.
Qed.

(** ** Both paths are the block step *)

Lemma parent_check_ok height batch cached g g' u :
  (∀ h, cached = Some h → state_commitment (lg_chain g) = Some h) →
  parent_check height batch cached g = (g', Ok u) →
  g' = g ∧ match batch with Some b => state_commitment (lg_chain g) = Some (b_parent b) | None => True end.
Proof.
  intros Hc H. unfold parent_check in H. destruct batch as [b|]; [|by mrun].
  apply bindM_ok in H as (g1 & l & Hg & H). apply getM_inv in Hg as [-> [= ->]].
  apply bindM_ok in H as (g2 & ours & Ho & H).
  assert (g2 = g ∧ state_commitment (lg_chain g) = Some ours) as [-> Hs].
  { destruct cached as [h|]; [|by apply expect_ok in Ho]. apply retM_inv in Ho as [-> [= ->]]. split; [done|by apply Hc]. }
  apply refuse_if_ok in H as [-> H]. apply negb_false_iff, bool_decide_eq_true in H. by rewrite H.
Qed.
Lemma parent_check_run height batch cached g :
  (∀ h, cached = Some h → state_commitment (lg_chain g) = Some h) →
  match batch with Some b => state_commitment (lg_chain g) = Some (b_parent b) | None => True end →
  parent_check height batch cached g = (g, Ok tt).
Proof.
  intros Hc Hs. unfold parent_check. destruct batch as [b|]; [|done]. rewrite run_get. unfold bindM.
  destruct cached as [h|]; cbn.
  - specialize (Hc h eq_refl). rewrite Hs in Hc. injection Hc as ->. by rewrite bool_decide_eq_true_2.
  - rewrite Hs. cbn. by rewrite bool_decide_eq_true_2.
Qed.
Lemma on_chain_inv {A} (m : St A) g g' (a : A) :
  on_chain m g = (g', Ok a) → ∃ c, m (lg_chain g) = (c, Ok a) ∧ g' = lg_set_chain c g.
Proof.
  intros H. apply zoom_inv in H as (c & r & Hm & -> & Hr). exists c. destruct r; [|done..]. by injection Hr as ->.
Qed.

Lemma apply_sound height batch live rec l l' v :
  cache_ok l → apply_batch_to_chain agg chain_start_time height batch live rec l = (l', Ok v) →
  block_step height batch v (persistent l) (persistent l') ∧ cache_ok l' ∧ (v = true → live = false → rec = true).
Proof.
  intros Hcache H. unfold apply_batch_to_chain in H. rewrite run_get, run_modify in H.
  apply bindM_ok in H as (g1 & [] & Hp & H). apply parent_check_ok in Hp as [-> Hp]; [|exact Hcache].
  apply bindM_ok in H as (g2 & av & Hcov & H). apply on_chain_inv in Hcov as (c1 & Hcov & ->).
  apply install_coverage_run in Hcov as (-> & Hv1 & Hv2).
  apply bindM_ok in H as (g3 & rs & Hb & H). apply on_chain_inv in Hb as (c2 & Hb & ->).
  apply bindM_ok in H as (g4 & [] & Hr & H). rewrite record_receipts_run in Hr. injection Hr as <-.
  apply bindM_ok in H as (g5 & [] & Hi & H). apply zoom_inv in Hi as (ix & r & _ & -> & _).
  apply bindM_ok in H as (g6 & [] & Hd & H).
  match type of Hd with drop_included _ ?g = _ => destruct (drop_included_run (batch_txs batch) g) as (g' & Hd' & Hpers & _) end.
  unfold batch_txs in Hd'. rewrite Hd' in Hd. injection Hd as <-.
  rewrite run_modify, run_get in H. apply bindM_ok in H as (g7 & ah & Ha & H). apply expect_ok in Ha as [-> Ha].
  rewrite run_modify in H. apply retM_inv in H as [-> [= ->]].
  unfold persistent in Hpers. injection Hpers as Hc Hrl Hn Hna. cbn in Hc, Hrl, Hn, Hna, Ha.
  split_and!; [|intros h; cbn; congruence|done].
  split; [exact Hp|]. split; [exact Hv1|]. exists rs. cbn. rewrite Hc, Hrl, Hn, Hna in *.
  split_and!; [exact Hb|done|by rewrite <-surjective_pairing|by eexists].
Qed.
Lemma apply_complete height batch l p' v :
  cache_ok l → block_step height batch v (persistent l) p' →
  ∃ l', apply_batch_to_chain agg chain_start_time height batch false v l = (l', Ok v) ∧
    persistent l' = p' ∧ cache_ok l'.
Proof.
  intros Hcache (Hp & Hv & rs & Hb & Hr & Hf & [ah Ha]).
  cbn [persistent p_chain p_receipts p_feeds] in Hp, Hb, Hr, Hf.
  unfold apply_batch_to_chain. rewrite run_get, run_modify. unfold bindM at 1.
  rewrite parent_check_run; [|exact Hcache|exact Hp].
  unfold bindM at 1, on_chain at 1, zoom at 1. cbn [lg_chain lg_set_last]. rewrite install_coverage_recorded by done.
  unfold bindM at 1, on_chain at 1, zoom at 1. cbn [lg_chain lg_set_chain]. unfold batch_txs in Hb. rewrite Hb.
  unfold bindM at 1. rewrite record_receipts_run.
  unfold bindM at 1, zoom at 1.
  match goal with |- context [index_txs_into ?h ?txs ?ix] =>
    destruct (index_from_run (E := NodeError) h 0 txs ix) as (ix' & Hix); unfold index_txs_into; rewrite Hix end.
  unfold bindM at 1.
  match goal with |- context [drop_included ?txs ?g] =>
    destruct (drop_included_run txs g) as (g' & Hd & Hpers & _); rewrite Hd end.
  unfold persistent in Hpers. injection Hpers as Hc Hrl Hn Hna. cbn in Hc, Hrl, Hn, Hna.
  rewrite run_modify, run_get. unfold bindM at 1. cbn [lg_chain lg_set_feeds]. rewrite Hc, Ha. cbn [expect retM].
  rewrite run_modify. eexists. split; [reflexivity|]. split.
  - unfold persistent. cbn. rewrite Hc, Hrl, Hn, Hna. destruct p' as [pc pr pf]. cbn in *. subst pr pf.
    unfold batch_txs. by rewrite <-surjective_pairing.
  - intros h. cbn. rewrite Hc. congruence.
Qed.
End spec.
