(* ===== verification/Snapshot.v ===== *)
(** The node image on disk (hk-node/src/store.rs): the snapshot in its four
    formats, which of them a restart loads, and the persisted search index.
    bincode is a parameter; the file name is the format. *)

From S2P Require Export Apply BlockLog.
From S2P Require Import Signer Toy Demo.
#[local] Open Scope Z_scope.

Record ValidatorDto := mkValidatorDto {
  dto_address : HkAddress;
  dto_root_pk : bytes;
  dto_public_key : HkPub;
  dto_epoch : Z;
  dto_voting_power : Z;
}.
Definition dto_of (v : HkValidator) : ValidatorDto :=
  mkValidatorDto v.(v_address) v.(v_root_pk) v.(v_public_key) v.(v_epoch) v.(v_power).
Definition validator_of (d : ValidatorDto) : HkValidator :=
  mkHkValidator d.(dto_address) d.(dto_root_pk) d.(dto_public_key) d.(dto_epoch) d.(dto_voting_power).

Record NodeSnapshot := mkNodeSnapshot {
  ns_app_hash : H256;
  ns_height : Z;
  ns_state : StateSnapshot;
  ns_pool_notes : list FeedNote;
  ns_receipts : list (H256 * string);
  ns_mempool : list SignedTx;
  ns_validators : list ValidatorDto;
  ns_current_epoch : Z;
  ns_highest_issued : Z;
  ns_notes_by_asset : gmap H256 (list FeedNote);
}.

(** * Older formats

    [V3NodeSnapshot], [V2NodeSnapshot] and [LegacyNodeSnapshot] differ in the
    layout of the ledger only. *)

Record V3StateSnapshot := mkV3State {
  v3_height : Z;
  v3_time : Timestamp;
  v3_accounts : gmap H256 Account;
  v3_balances : gmap (H256 * H256) Amount;
  v3_mandates : MandateTree;
  v3_root_funding : gmap H256 AccountId;
  v3_channels : gmap H256 Channel;
  v3_pool : PoolState;
  v3_fees_burned : Amount;
  v3_assets : gmap H256 AssetInfo;
}.
Record V2StateSnapshot := mkV2State {
  v2_height : Z;
  v2_time : Timestamp;
  v2_accounts : gmap H256 Account;
  v2_balances : gmap (H256 * H256) Amount;
  v2_mandates : MandateTree;
  v2_root_funding : gmap H256 AccountId;
  v2_channels : gmap H256 Channel;
  v2_pool : PoolState;
  v2_fees_burned : Amount;
}.
Record LegacyStateSnapshot := mkLegacyState {
  lg_height : Z;
  lg_time : Timestamp;
  lg_accounts : gmap H256 Account;
  lg_balances : gmap (H256 * H256) Amount;
  lg_mandates : MandateTree;
  lg_root_funding : gmap H256 AccountId;
  lg_channels : gmap H256 Channel;
  lg_pool : PoolState;
}.
Record OldNodeSnapshot (S : Type) := mkOldSnapshot {
  os_app_hash : H256;
  os_height : Z;
  os_state : S;
  os_pool_notes : list FeedNote;
  os_receipts : list (H256 * string);
  os_mempool : list SignedTx;
  os_validators : list ValidatorDto;
  os_current_epoch : Z;
  os_highest_issued : Z;
}.
Arguments mkOldSnapshot {S}.
Arguments os_app_hash {S}. Arguments os_height {S}. Arguments os_state {S}.
Arguments os_pool_notes {S}. Arguments os_receipts {S}. Arguments os_mempool {S}.
Arguments os_validators {S}. Arguments os_current_epoch {S}. Arguments os_highest_issued {S}.

Definition v3_state (l : V3StateSnapshot) : StateSnapshot :=
  mkSnapshot l.(v3_height) l.(v3_time) l.(v3_accounts) l.(v3_balances) l.(v3_mandates) l.(v3_root_funding)
    l.(v3_channels) l.(v3_pool) l.(v3_fees_burned) l.(v3_assets) ∅.
Definition v2_state (l : V2StateSnapshot) : StateSnapshot :=
  mkSnapshot l.(v2_height) l.(v2_time) l.(v2_accounts) l.(v2_balances) l.(v2_mandates) l.(v2_root_funding)
    l.(v2_channels) l.(v2_pool) l.(v2_fees_burned) ∅ ∅.
Definition legacy_state (l : LegacyStateSnapshot) : StateSnapshot :=
  mkSnapshot l.(lg_height) l.(lg_time) l.(lg_accounts) l.(lg_balances) l.(lg_mandates) l.(lg_root_funding)
    l.(lg_channels) l.(lg_pool) 0 ∅ ∅.
(** The three [From] instances, given the conversion of the ledger. *)
Definition from_old {S} (state : S → StateSnapshot) (l : OldNodeSnapshot S) : NodeSnapshot :=
  mkNodeSnapshot l.(os_app_hash) l.(os_height) (state l.(os_state)) l.(os_pool_notes) l.(os_receipts)
    l.(os_mempool) l.(os_validators) l.(os_current_epoch) l.(os_highest_issued) ∅.

(** [bincode] at the four layouts; only the newest is written. *)
Class SnapWire := {
  enc_snap : NodeSnapshot → option bytes;
  dec_snap : bytes → option NodeSnapshot;
  dec_snap3 : bytes → option (OldNodeSnapshot V3StateSnapshot);
  dec_snap2 : bytes → option (OldNodeSnapshot V2StateSnapshot);
  dec_snap1 : bytes → option (OldNodeSnapshot LegacyStateSnapshot);
}.
Class SnapWireLaws {W : SnapWire} : Prop := {
  snap_roundtrip n x : enc_snap n = Some x → dec_snap x = Some n;
}.

(** The snapshot files of a home directory. *)
Record SnapFiles := mkSnapFiles {
  sf_current : File;
  sf_v3 : File;
  sf_v2 : File;
  sf_legacy : File;
  sf_prev : File;
}.

Section snapshots.
Context {W : SnapWire}.

(** One format: the file's image, if there is a file. *)
Definition candidate (format : Z) (dec : bytes → option NodeSnapshot) (f : File) : res StoreError (list NodeSnapshot) :=
  match f.(f_visible) with
  | None => Ok []
  | Some x => match dec x with Some n => Ok [n] | None => Err (CorruptSnapshot format) end
  end.
(** [max_by_key]: of equal keys the last. *)
Definition later (best : option NodeSnapshot) (n : NodeSnapshot) : option NodeSnapshot :=
  match best with
  | Some b => if b.(ns_height) <=? n.(ns_height) then Some n else Some b
  | None => Some n
  end.
Definition max_by_height (l : list NodeSnapshot) : option NodeSnapshot := foldl later None l.
Definition load_snapshot (d : SnapFiles) : res StoreError (option NodeSnapshot) :=
  let? c4 := candidate 4 dec_snap d.(sf_current) in
  let? c3 := candidate 3 (λ x, from_old v3_state <$> dec_snap3 x) d.(sf_v3) in
  let? c2 := candidate 2 (λ x, from_old v2_state <$> dec_snap2 x) d.(sf_v2) in
  let? c1 := candidate 1 (λ x, from_old legacy_state <$> dec_snap1 x) d.(sf_legacy) in
  Ok (max_by_height (c4 ++ c3 ++ c2 ++ c1)).

(** [save_snapshot], with the outcome of the write. *)
Definition save_snapshot (n : NodeSnapshot) (w : WriteOutcome) (d : SnapFiles) : SnapFiles * bool :=
  match enc_snap n with
  | None => (d, false)
  | Some x =>
      let '(f, ok) := write_atomic x w d.(sf_current) in
      (mkSnapFiles f d.(sf_v3) d.(sf_v2) d.(sf_legacy) d.(sf_prev), ok)
  end.
(** [rotate_snapshot_if_configured]: [copied] says whether the copy went through. *)
Definition rotate_snapshot_if_configured (keep copied : bool) (d : SnapFiles) : SnapFiles :=
  match keep, d.(sf_current).(f_visible) with
  | true, Some x =>
      if copied
      then mkSnapFiles d.(sf_current) d.(sf_v3) d.(sf_v2) d.(sf_legacy)
             (mkFile (Some x) (d.(sf_prev).(f_survivors) ++ [Some x]))
      else d
  | _, _ => d
  end.
End snapshots.

(** * Which image a restart takes *)

Lemma max_by_height_spec l :
  match max_by_height l with
  | None => l = []
  | Some n => n ∈ l ∧ ∀ m, m ∈ l → m.(ns_height) ≤ n.(ns_height)
  end.
Proof.
  unfold max_by_height.
  enough (∀ best, match foldl later best l with
                  | None => best = None ∧ l = []
                  | Some n => (n ∈ l ∨ best = Some n) ∧ (∀ m, m ∈ l ∨ best = Some m → m.(ns_height) ≤ n.(ns_height))
                  end) as H.
  { specialize (H None). destruct (foldl later None l) as [n|]; [|by destruct H]. destruct H as [[H1|H1] H2]; [|done].
    split; [done|]. intros m Hm. apply H2. by left. }
  induction l as [|n l IH]; intros best; cbn [foldl].
  { destruct best as [n|]; [|done]. split; [by right|]. intros m [Hm|[= <-]]; [|lia]. by apply elem_of_nil in Hm. }
  specialize (IH (later best n)). destruct (foldl later (later best n) l) as [x|]; unfold later in IH.
  - destruct IH as [H1 H2]. destruct best as [b|].
    + destruct (Z.leb_spec b.(ns_height) n.(ns_height)) as [Hle|Hlt].
      * assert (n.(ns_height) ≤ x.(ns_height)) by (apply H2; by right). split.
        -- destruct H1 as [H1|[= ->]]; left; set_solver.
        -- intros m [[->|Hm]%elem_of_cons|[= <-]]; [done|apply H2; by left|lia].
      * assert (b.(ns_height) ≤ x.(ns_height)) by (apply H2; by right). split.
        -- destruct H1 as [H1|[= ->]]; [left; set_solver|by right].
        -- intros m [[->|Hm]%elem_of_cons|[= <-]]; [lia|apply H2; by left|done].
    + split.
      * destruct H1 as [H1|[= ->]]; left; set_solver.
      * intros m [[->|Hm]%elem_of_cons|[=]]; [apply H2; by right|apply H2; by left].
  - destruct IH as [H1 _]. exfalso. by destruct best as [b|]; [destruct (_ <=? _)|].
Qed.

Lemma candidate_elem v dec f l x m :
  candidate v dec f = Ok l → f.(f_visible) = Some x → dec x = Some m → m ∈ l.
Proof. unfold candidate. intros H Hx Hd. rewrite Hx, Hd in H. apply Ok_inj in H as <-. by apply list_elem_of_singleton. Qed.

(** The older images of a ledger that has nothing the format lacks. *)
Definition old_image {S} (state : S) (n : NodeSnapshot) : OldNodeSnapshot S :=
  mkOldSnapshot n.(ns_app_hash) n.(ns_height) state n.(ns_pool_notes) n.(ns_receipts) n.(ns_mempool)
    n.(ns_validators) n.(ns_current_epoch) n.(ns_highest_issued).
Definition v3_image (n : StateSnapshot) : V3StateSnapshot :=
  mkV3State (sn_height n) (sn_time n) (sn_accounts n) (sn_balances n) (sn_mandates n) (sn_root_funding n)
    (sn_channels n) (sn_pool n) (sn_fees_burned n) (sn_assets n).
Definition v2_image (n : StateSnapshot) : V2StateSnapshot :=
  mkV2State (sn_height n) (sn_time n) (sn_accounts n) (sn_balances n) (sn_mandates n) (sn_root_funding n)
    (sn_channels n) (sn_pool n) (sn_fees_burned n).
Definition legacy_image (n : StateSnapshot) : LegacyStateSnapshot :=
  mkLegacyState (sn_height n) (sn_time n) (sn_accounts n) (sn_balances n) (sn_mandates n) (sn_root_funding n)
    (sn_channels n) (sn_pool n).
Lemma v3_image_state n : sn_pools n = ∅ → v3_state (v3_image n) = n.
Proof. intros H. destruct n. cbn in *. by subst. Qed.
Lemma v2_image_state n : sn_pools n = ∅ → sn_assets n = ∅ → v2_state (v2_image n) = n.
Proof. intros H1 H2. destruct n. cbn in *. by subst. Qed.
Lemma legacy_image_state n :
  sn_pools n = ∅ → sn_assets n = ∅ → sn_fees_burned n = 0 → legacy_state (legacy_image n) = n.
Proof. intros H1 H2 H3. destruct n. cbn in *. by subst. Qed.
Lemma from_old_image {S} (state : S) conv n :
  conv state = n.(ns_state) → n.(ns_notes_by_asset) = ∅ → from_old conv (old_image state n) = n.
Proof. intros H1 H2. destruct n. unfold from_old, old_image. cbn in *. by rewrite H1, H2. Qed.

Section upgrade.
Context {W : SnapWire}.

(** Upgrading in place.  Of the snapshots a home directory holds, in whatever
    formats, the restart takes one of the greatest height; and an image written
    in an older format by a node whose ledger had nothing that format lacks
    loads as the image the current format would have held. *)
Theorem restart_takes_highest_image d n :
  (load_snapshot d = Ok (Some n) →
     ∀ m, (∃ x, d.(sf_current).(f_visible) = Some x ∧ dec_snap x = Some m) ∨
          (∃ x o, d.(sf_v3).(f_visible) = Some x ∧ dec_snap3 x = Some o ∧ m = from_old v3_state o) ∨
          (∃ x o, d.(sf_v2).(f_visible) = Some x ∧ dec_snap2 x = Some o ∧ m = from_old v2_state o) ∨
          (∃ x o, d.(sf_legacy).(f_visible) = Some x ∧ dec_snap1 x = Some o ∧ m = from_old legacy_state o) →
     m.(ns_height) ≤ n.(ns_height)) ∧
  (sn_pools n.(ns_state) = ∅ → n.(ns_notes_by_asset) = ∅ →
     from_old v3_state (old_image (v3_image n.(ns_state)) n) = n ∧
     (sn_assets n.(ns_state) = ∅ →
        from_old v2_state (old_image (v2_image n.(ns_state)) n) = n ∧
        (sn_fees_burned n.(ns_state) = 0 →
           from_old legacy_state (old_image (legacy_image n.(ns_state)) n) = n))).
Proof.
  split.
  - unfold load_snapshot. intros H m Hm.
    destruct (candidate 4 _ _) as [c4| |] eqn:E4; cbn [bindR] in H; [|done..].
    destruct (candidate 3 _ _) as [c3| |] eqn:E3; cbn [bindR] in H; [|done..].
    destruct (candidate 2 _ _) as [c2| |] eqn:E2; cbn [bindR] in H; [|done..].
    destruct (candidate 1 _ _) as [c1| |] eqn:E1; cbn [bindR] in H; [|done..].
    apply Ok_inj in H. pose proof (max_by_height_spec (c4 ++ c3 ++ c2 ++ c1)) as Hs. rewrite H in Hs.
    apply Hs. rewrite !elem_of_app.
    destruct Hm as [(x & Hx & Hd)|[(x & o & Hx & Hd & ->)|[(x & o & Hx & Hd & ->)|(x & o & Hx & Hd & ->)]]].
    + left. by eapply candidate_elem.
    + right; left. eapply candidate_elem; [exact E3|exact Hx|]. cbn beta. by rewrite Hd.
    + right; right; left. eapply candidate_elem; [exact E2|exact Hx|]. cbn beta. by rewrite Hd.
    + right; right; right. eapply candidate_elem; [exact E1|exact Hx|]. cbn beta. by rewrite Hd.
  - intros Hp Hn. split; [by apply from_old_image; [apply v3_image_state|]|]. intros Ha.
    split; [by apply from_old_image; [apply v2_image_state|]|]. intros Hb.
    by apply from_old_image; [apply legacy_image_state|].
Qed.
End upgrade.

(** * Witness *)

Module Sample.
#[local] Existing Instance toy_sha2.
Definition state (h : Z) : StateSnapshot := to_snapshot (set_height h state_default).
Definition image (h : Z) : NodeSnapshot := mkNodeSnapshot (id_of 0) h (state h) [] [] [] [] 0 0 ∅.
(** A wire that reads the height off the first byte. *)
Definition wire : SnapWire := {|
  enc_snap := λ _, None;
  dec_snap := λ x, Some (image (le_val x));
  dec_snap3 := λ x, Some (old_image (v3_image (state (le_val x))) (image (le_val x)));
  dec_snap2 := λ _, None;
  dec_snap1 := λ _, None;
|}.
(** A rolled-back node: an older current file, a fresher [snapshot3.bin]. *)
Definition file (x : bytes) : File := mkFile (Some x) [Some x].
Definition home : SnapFiles := mkSnapFiles (file [x01]) (file [x05]) no_file no_file no_file.
End Sample.
#[local] Existing Instance Sample.wire.

Lemma restart_takes_highest_image_witness :
  load_snapshot Sample.home = Ok (Some (Sample.image 5)) ∧ (Sample.image 1).(ns_height) ≤ (Sample.image 5).(ns_height).
Proof.
  assert (load_snapshot Sample.home = Ok (Some (Sample.image 5))) as H by reflexivity. split; [exact H|].
  apply (restart_takes_highest_image Sample.home (Sample.image 5)); [exact H|]. left. exists [x01]. split; reflexivity.
Defined.
