(* ===== verification/Codec.v ===== *)
(** The wire and WAL codec (hk-node/src/codec.rs): engine messages as plain
    serde structures.  bincode is a parameter, one instance of [Bincode] per
    serialized type; the engine's message types are those of the vendored
    core-types, core-consensus and sync crates. *)

From S2P Require Export BlockLog Streaming.
From S2P Require Import Signer Toy.
#[local] Open Scope Z_scope.

(** [bincode::serialize] and [bincode::deserialize] at a type. *)
Class Bincode (A : Type) := { bin_enc : A → option bytes; bin_dec : bytes → option A }.
Class BincodeLaws (A : Type) {B : Bincode A} : Prop := {
  bin_roundtrip (a : A) x : bin_enc a = Some x → bin_dec x = Some a;
}.

(** * The engine's messages *)

Record SignedMsg (A : Type) := mkSigned { sg_message : A; sg_signature : HkSig }.
Arguments mkSigned {A}. Arguments sg_message {A}. Arguments sg_signature {A}.
Inductive SignedConsensusMsg :=
  | ScmVote (v : SignedMsg HkVote)
  | ScmProposal (p : SignedMsg HkProposal).
Record CommitCertificate := mkCommitCert {
  cc_height : HkHeight;
  cc_round : Round;
  cc_value_id : H256;
  cc_signatures : list (HkAddress * HkSig);
}.
Record PolkaCertificate := mkPolkaCert {
  pc_height : HkHeight;
  pc_round : Round;
  pc_value_id : H256;
  pc_signatures : list (HkAddress * HkSig);
}.
Inductive RoundCertificateType := CertSkip | CertPrecommit.
Record RoundSignature := mkRoundSig {
  rs_vote_type : VoteType;
  rs_value_id : NilOrVal H256;
  rs_address : HkAddress;
  rs_signature : HkSig;
}.
Record RoundCertificate := mkRoundCert {
  rd_height : HkHeight;
  rd_round : Round;
  rd_cert_type : RoundCertificateType;
  rd_signatures : list RoundSignature;
}.
Inductive LivenessMsg :=
  | LvVote (v : SignedMsg HkVote)
  | LvPolka (c : PolkaCertificate)
  | LvSkip (c : RoundCertificate).
(** A peer id is opaque to the codec. *)
Record Status (P : Type) := mkStatus { su_peer : P; su_tip : HkHeight; su_history_min : HkHeight }.
Arguments mkStatus {P}. Arguments su_peer {P}. Arguments su_tip {P}. Arguments su_history_min {P}.
(** [ValueRequest] by the ends of its range. *)
Inductive Request := ValueRequest (first last : HkHeight).
Record RawDecidedValue := mkDecidedValue { rv_value_bytes : bytes; rv_certificate : CommitCertificate }.
Inductive Response := ValueResponse (start_height : HkHeight) (values : list RawDecidedValue).

(** * The serialized structures *)

Record RawVote := mkRawVote {
  rw_typ : VoteType;
  rw_height : HkHeight;
  rw_round : Round;
  rw_value : NilOrVal H256;
  rw_address : HkAddress;
}.
Definition raw_vote (v : HkVote) : RawVote :=
  mkRawVote v.(vote_typ) v.(vote_height) v.(vote_round) v.(vote_value) v.(vote_address).
Definition vote_of (r : RawVote) : HkVote :=
  mkHkVote r.(rw_typ) r.(rw_height) r.(rw_round) r.(rw_value) r.(rw_address) None.
Record RawProposal := mkRawProposal {
  rp_height : HkHeight;
  rp_round : Round;
  rp_value : HkValue;
  rp_pol_round : Round;
  rp_address : HkAddress;
}.
Definition raw_proposal (p : HkProposal) : RawProposal :=
  mkRawProposal p.(prop_height) p.(prop_round) p.(prop_value) p.(prop_pol_round) p.(prop_address).
Definition proposal_of (r : RawProposal) : HkProposal :=
  mkHkProposal r.(rp_height) r.(rp_round) r.(rp_value) r.(rp_pol_round) r.(rp_address).
Inductive RawSignedConsensusMsg :=
  | RawScmVote (vote : RawVote) (signature : bytes)
  | RawScmProposal (proposal : RawProposal) (signature : bytes).
Record RawPolkaCertificate := mkRawPolka {
  rk_height : HkHeight;
  rk_round : Round;
  rk_value_id : H256;
  rk_signatures : list (HkAddress * bytes);
}.
Record RawRoundSignature := mkRawRoundSig {
  rg_vote_type : VoteType;
  rg_value_id : NilOrVal H256;
  rg_address : HkAddress;
  rg_signature : bytes;
}.
Record RawRoundCertificate := mkRawRoundCert {
  rn_height : HkHeight;
  rn_round : Round;
  rn_cert_type : RoundCertificateType;
  rn_signatures : list RawRoundSignature;
}.
Inductive RawLivenessMsg :=
  | RawLvVote (vote : RawVote) (signature : bytes)
  | RawLvPolka (c : RawPolkaCertificate)
  | RawLvSkip (c : RawRoundCertificate).
Inductive RawStreamContent := RawData (p : HkProposalPart) | RawFin.
Record RawStreamMessage := mkRawStream {
  rm_stream_id : bytes;
  rm_sequence : Z;
  rm_content : RawStreamContent;
}.
Record RawProposedValue := mkRawProposed {
  ro_height : HkHeight;
  ro_round : Round;
  ro_valid_round : Round;
  ro_proposer : HkAddress;
  ro_value : HkValue;
  ro_valid : bool;
}.
Record RawStatus (P : Type) := mkRawStatus { rt_peer : P; rt_tip : HkHeight; rt_history_min : HkHeight }.
Arguments mkRawStatus {P}. Arguments rt_peer {P}. Arguments rt_tip {P}. Arguments rt_history_min {P}.
Record RawValueRequest := mkRawRequest { rq_start : HkHeight; rq_end : HkHeight }.
Record RawSyncedValue := mkRawSynced { ry_value_bytes : bytes; ry_certificate : RawCommitCertificate }.
Record RawValueResponse := mkRawResponse { rr_start_height : HkHeight; rr_values : list RawSyncedValue }.

Definition raw_certificate (c : CommitCertificate) : RawCommitCertificate :=
  mkRawCert c.(cc_height) c.(cc_round) c.(cc_value_id) c.(cc_signatures).
(** The store's conversion does not look at the signatures' lengths. *)
Definition certificate_of (r : RawCommitCertificate) : CommitCertificate :=
  mkCommitCert r.(rc_height) r.(rc_round) r.(rc_value_id) r.(rc_signatures).

(** * The codec *)

Inductive CodecError := BincodeError | BadSignatureLength (len : Z).
(** [Codec<T>] *)
Class Codec (A : Type) := { encode : A → res CodecError bytes; decode : bytes → res CodecError A }.

Definition enc {A} {B : Bincode A} (a : A) : res CodecError bytes := from_option Ok (Err BincodeError) (bin_enc a).
Definition dec {A} {B : Bincode A} (x : bytes) : res CodecError A := from_option Ok (Err BincodeError) (bin_dec x).
(** [sig]: a consensus signature has one length. *)
Definition sig (raw : bytes) : res CodecError HkSig :=
  let len := Z.of_nat (length raw) in
  if len =? CONSENSUS_SIG_LEN then Ok raw else Err (BadSignatureLength len).
(** [collect] into a [Result]: the first error. *)
Fixpoint collect {A B} (f : A → res CodecError B) (l : list A) : res CodecError (list B) :=
  match l with
  | [] => Ok []
  | a :: l => let? b := f a in let? l := collect f l in Ok (b :: l)
  end.

Section codec.
Context {P : Type} {BV : Bincode HkValue} {BPP : Bincode HkProposalPart} {BS : Bincode RawSignedConsensusMsg}
  {BL : Bincode RawLivenessMsg} {BM : Bincode RawStreamMessage} {BP : Bincode RawProposedValue}
  {BT : Bincode (RawStatus P)} {BQ : Bincode RawValueRequest} {BR : Bincode RawValueResponse}.

#[export] Instance value_codec : Codec HkValue := {| encode := enc; decode := dec |}.
#[export] Instance part_codec : Codec HkProposalPart := {| encode := enc; decode := dec |}.

Definition scm_raw (m : SignedConsensusMsg) : RawSignedConsensusMsg :=
  match m with
  | ScmVote v => RawScmVote (raw_vote v.(sg_message)) v.(sg_signature)
  | ScmProposal p => RawScmProposal (raw_proposal p.(sg_message)) p.(sg_signature)
  end.
Definition scm_of (r : RawSignedConsensusMsg) : res CodecError SignedConsensusMsg :=
  match r with
  | RawScmVote v s => let? s := sig s in Ok (ScmVote (mkSigned (vote_of v) s))
  | RawScmProposal p s => let? s := sig s in Ok (ScmProposal (mkSigned (proposal_of p) s))
  end.
#[export] Instance scm_codec : Codec SignedConsensusMsg :=
  {| encode m := enc (scm_raw m); decode x := let? r := dec x in scm_of r |}.

Definition polka_raw (c : PolkaCertificate) : RawPolkaCertificate :=
  mkRawPolka c.(pc_height) c.(pc_round) c.(pc_value_id) c.(pc_signatures).
Definition polka_of (r : RawPolkaCertificate) : res CodecError PolkaCertificate :=
  let? l := collect (λ s, let? x := sig s.2 in Ok (s.1, x)) r.(rk_signatures) in
  Ok (mkPolkaCert r.(rk_height) r.(rk_round) r.(rk_value_id) l).
Definition round_sig_raw (s : RoundSignature) : RawRoundSignature :=
  mkRawRoundSig s.(rs_vote_type) s.(rs_value_id) s.(rs_address) s.(rs_signature).
Definition round_sig_of (s : RawRoundSignature) : res CodecError RoundSignature :=
  let? x := sig s.(rg_signature) in Ok (mkRoundSig s.(rg_vote_type) s.(rg_value_id) s.(rg_address) x).
Definition round_raw (c : RoundCertificate) : RawRoundCertificate :=
  mkRawRoundCert c.(rd_height) c.(rd_round) c.(rd_cert_type) (round_sig_raw <$> c.(rd_signatures)).
Definition round_of (r : RawRoundCertificate) : res CodecError RoundCertificate :=
  let? l := collect round_sig_of r.(rn_signatures) in
  Ok (mkRoundCert r.(rn_height) r.(rn_round) r.(rn_cert_type) l).
Definition liveness_raw (m : LivenessMsg) : RawLivenessMsg :=
  match m with
  | LvVote v => RawLvVote (raw_vote v.(sg_message)) v.(sg_signature)
  | LvPolka c => RawLvPolka (polka_raw c)
  | LvSkip c => RawLvSkip (round_raw c)
  end.
Definition liveness_of (r : RawLivenessMsg) : res CodecError LivenessMsg :=
  match r with
  | RawLvVote v s => let? s := sig s in Ok (LvVote (mkSigned (vote_of v) s))
  | RawLvPolka c => let? c := polka_of c in Ok (LvPolka c)
  | RawLvSkip c => let? c := round_of c in Ok (LvSkip c)
  end.
#[export] Instance liveness_codec : Codec LivenessMsg :=
  {| encode m := enc (liveness_raw m); decode x := let? r := dec x in liveness_of r |}.

Definition stream_raw (m : StreamMessage) : RawStreamMessage :=
  mkRawStream m.(sm_stream_id) m.(sm_sequence) (match m.(sm_content) with SData p => RawData p | SFin => RawFin end).
Definition stream_of (r : RawStreamMessage) : StreamMessage :=
  mkStreamMessage r.(rm_stream_id) r.(rm_sequence) (match r.(rm_content) with RawData p => SData p | RawFin => SFin end).
#[export] Instance stream_codec : Codec StreamMessage :=
  {| encode m := enc (stream_raw m); decode x := let? r := dec x in Ok (stream_of r) |}.

Definition proposed_raw (v : ProposedValue) : RawProposedValue :=
  mkRawProposed v.(pv_height) v.(pv_round) v.(pv_valid_round) v.(pv_proposer) v.(pv_value)
    (match v.(pv_validity) with Valid => true | Invalid => false end).
Definition proposed_value_of (r : RawProposedValue) : ProposedValue :=
  mkProposedValue r.(ro_height) r.(ro_round) r.(ro_valid_round) r.(ro_proposer) r.(ro_value)
    (if r.(ro_valid) then Valid else Invalid).
#[export] Instance proposed_codec : Codec ProposedValue :=
  {| encode v := enc (proposed_raw v); decode x := let? r := dec x in Ok (proposed_value_of r) |}.

#[export] Instance status_codec : Codec (Status P) := {|
  encode s := enc (mkRawStatus s.(su_peer) s.(su_tip) s.(su_history_min));
  decode x := let? r := dec x in Ok (mkStatus r.(rt_peer) r.(rt_tip) r.(rt_history_min))
|}.
#[export] Instance request_codec : Codec Request := {|
  encode q := match q with ValueRequest a b => enc (mkRawRequest a b) end;
  decode x := let? r := dec x in Ok (ValueRequest r.(rq_start) r.(rq_end))
|}.
Definition response_raw (m : Response) : RawValueResponse :=
  match m with
  | ValueResponse start values =>
      mkRawResponse start ((λ v, mkRawSynced v.(rv_value_bytes) (raw_certificate v.(rv_certificate))) <$> values)
  end.
Definition response_of (r : RawValueResponse) : Response :=
  ValueResponse r.(rr_start_height)
    ((λ v, mkDecidedValue v.(ry_value_bytes) (certificate_of v.(ry_certificate))) <$> r.(rr_values)).
#[export] Instance response_codec : Codec Response :=
  {| encode m := enc (response_raw m); decode x := let? r := dec x in Ok (response_of r) |}.
Definition encoded_len (m : Response) : res CodecError Z :=
  let? x := encode m in Ok (Z.of_nat (length x)).
End codec.

(** * Round trips and refusals *)

(** What a codec promises: a message it encodes decodes to [norm] of itself
    when [accepts] allows it, and to an error otherwise. *)
Class CodecSpec (A : Type) {C : Codec A} (norm : A → A) (accepts : A → Prop) : Prop := {
  codec_accepts a x : encode a = Ok x → accepts a → decode x = Ok (norm a);
  codec_refuses a x : encode a = Ok x → ¬ accepts a → ∃ len, decode x = Err (BadSignatureLength len);
}.

(** No extension travels. *)
Definition bare_vote (v : SignedMsg HkVote) : SignedMsg HkVote :=
  mkSigned (vote_of (raw_vote v.(sg_message))) v.(sg_signature).
Definition full_length (s : HkSig) : Prop := Z.of_nat (length s) = CONSENSUS_SIG_LEN.
Definition scm_norm (m : SignedConsensusMsg) : SignedConsensusMsg :=
  match m with ScmVote v => ScmVote (bare_vote v) | ScmProposal p => m end.
Definition scm_signature (m : SignedConsensusMsg) : HkSig :=
  match m with ScmVote v => v.(sg_signature) | ScmProposal p => p.(sg_signature) end.
Definition liveness_norm (m : LivenessMsg) : LivenessMsg :=
  match m with LvVote v => LvVote (bare_vote v) | _ => m end.
Definition liveness_signatures (m : LivenessMsg) : list HkSig :=
  match m with
  | LvVote v => [v.(sg_signature)]
  | LvPolka c => c.(pc_signatures).*2
  | LvSkip c => rs_signature <$> c.(rd_signatures)
  end.

Section spec.
Lemma enc_dec {A} {B : Bincode A} {L : BincodeLaws A} (a : A) x : enc a = Ok x → dec x = Ok a.
Proof. unfold enc, dec. destruct (bin_enc a) eqn:E; [|done]. cbn. intros [= <-]. by rewrite (bin_roundtrip _ _ E). Qed.
Lemma sig_ok s : full_length s → sig s = Ok s.
Proof. unfold sig, full_length. intros ->. by rewrite Z.eqb_refl. Qed.
Lemma sig_bad s : ¬ full_length s → sig s = Err (BadSignatureLength (Z.of_nat (length s))).
Proof. unfold sig, full_length. intros H. by rewrite (proj2 (Z.eqb_neq _ _) H). Qed.
#[local] Instance full_length_dec s : Decision (full_length s).
Proof. unfold full_length. apply _. Defined.

Lemma collect_ok {A B} (f : A → res CodecError B) (g : A → B) l :
  Forall (λ a, f a = Ok (g a)) l → collect f l = Ok (g <$> l).
Proof. induction 1 as [|a l Ha _ IH]; [done|]. cbn. rewrite Ha. cbn. by rewrite IH. Qed.
Lemma collect_bad {A B} (f : A → res CodecError B) (g : A → B) (P : A → Prop) `{!∀ a, Decision (P a)} l :
  (∀ a, P a → f a = Ok (g a)) → (∀ a, ¬ P a → ∃ len, f a = Err (BadSignatureLength len)) →
  ¬ Forall P l → ∃ len, collect f l = Err (BadSignatureLength len).
Proof.
  intros Hok Hbad. induction l as [|a l IH]; intros Hl; [by destruct Hl|]. cbn. destruct (decide (P a)) as [Ha|Ha].
  - rewrite (Hok a Ha). cbn. destruct IH as [len ->]; [|by exists len]. intros Hf. apply Hl. by constructor.
  - destruct (Hbad a Ha) as [len ->]. by exists len.
Qed.

Context {BS : Bincode RawSignedConsensusMsg} {LS : BincodeLaws RawSignedConsensusMsg}.
#[export] Instance scm_spec : CodecSpec SignedConsensusMsg scm_norm (λ m, full_length (scm_signature m)).
Proof.
  split; intros [v|p] x; cbn [encode decode scm_codec scm_signature]; intros Hx Hs; rewrite (enc_dec _ _ Hx); cbn.
  - by rewrite sig_ok.
  - rewrite sig_ok by done. by destruct p as [[] ?].
  - rewrite sig_bad by done. by eexists.
  - rewrite sig_bad by done. by eexists.
Qed.

Context {BL : Bincode RawLivenessMsg} {LL : BincodeLaws RawLivenessMsg}.
#[export] Instance liveness_spec :
  CodecSpec LivenessMsg liveness_norm (λ m, Forall full_length (liveness_signatures m)).
Proof.
  split; intros [v|c|c] x; cbn [encode decode liveness_codec liveness_signatures]; intros Hx Hs; rewrite (enc_dec _ _ Hx); cbn.
  - by rewrite sig_ok by by apply Forall_singleton.
  - unfold polka_of. cbn. rewrite (collect_ok _ id).
    + rewrite list_fmap_id. by destruct c.
    + rewrite Forall_fmap in Hs. eapply Forall_impl; [exact Hs|]. intros [a s] Ha. cbn in *. by rewrite sig_ok.
  - unfold round_of. cbn. rewrite (collect_ok _ (λ s, mkRoundSig s.(rg_vote_type) s.(rg_value_id) s.(rg_address) s.(rg_signature))).
    + cbn. rewrite <-list_fmap_compose. rewrite (list_fmap_ext _ id); [|by intros ? []]. rewrite list_fmap_id. by destruct c.
    + rewrite Forall_fmap in Hs. apply Forall_fmap. eapply Forall_impl; [exact Hs|]. intros s Ha.
      unfold round_sig_of. cbn in *. by rewrite sig_ok.
  - rewrite sig_bad; [by eexists|]. by rewrite Forall_singleton in Hs.
  - unfold polka_of. cbn. rewrite Forall_fmap in Hs.
    destruct (collect_bad (λ s : HkAddress * bytes, let? x0 := sig s.2 in Ok (s.1, x0)) id (full_length ∘ snd)
                c.(pc_signatures)) as [len ->]; [| |done|by exists len].
    + intros [a s] Ha. cbn in *. by rewrite sig_ok.
    + intros [a s] Ha. cbn in *. rewrite sig_bad by done. by eexists.
  - unfold round_of. cbn. rewrite Forall_fmap in Hs.
    destruct (collect_bad round_sig_of (λ s, mkRoundSig s.(rg_vote_type) s.(rg_value_id) s.(rg_address) s.(rg_signature))
                (full_length ∘ rg_signature) (round_sig_raw <$> c.(rd_signatures))) as [len ->]; [| | |by exists len].
    + intros s Ha. unfold round_sig_of. cbn in *. by rewrite sig_ok.
    + intros s Ha. unfold round_sig_of. cbn in *. rewrite sig_bad by done. by eexists.
    + by rewrite Forall_fmap.
Qed.
End spec.

Section claims.
Context {P : Type} {BS : Bincode RawSignedConsensusMsg} {BL : Bincode RawLivenessMsg} {BM : Bincode RawStreamMessage}
  {BP : Bincode RawProposedValue} {BT : Bincode (RawStatus P)} {BQ : Bincode RawValueRequest}
  {BR : Bincode RawValueResponse}.
Context {LS : BincodeLaws RawSignedConsensusMsg} {LL : BincodeLaws RawLivenessMsg} {LM : BincodeLaws RawStreamMessage}
  {LP : BincodeLaws RawProposedValue} {LT : BincodeLaws (RawStatus P)} {LQ : BincodeLaws RawValueRequest}
  {LR : BincodeLaws RawValueResponse}.

(** The wire codec.  A vote, proposal or certificate of the gossip whose
    signatures all have the consensus length decodes to the message that was
    encoded (a vote without its extension), and one with a signature of any
    other length is refused; stream messages, proposed values, statuses,
    requests and responses come back exactly as they were, whatever the length
    of the signatures in a response's certificates. *)
Theorem wire_roundtrip_or_refused :
  (∀ (m : SignedConsensusMsg) x, encode m = Ok x →
     (full_length (scm_signature m) → decode x = Ok (scm_norm m)) ∧
     (¬ full_length (scm_signature m) → ∃ len, decode (A := SignedConsensusMsg) x = Err (BadSignatureLength len))) ∧
  (∀ (m : LivenessMsg) x, encode m = Ok x →
     (Forall full_length (liveness_signatures m) → decode x = Ok (liveness_norm m)) ∧
     (¬ Forall full_length (liveness_signatures m) →
        ∃ len, decode (A := LivenessMsg) x = Err (BadSignatureLength len))) ∧
  (∀ (m : StreamMessage) x, encode m = Ok x → decode x = Ok m) ∧
  (∀ (v : ProposedValue) x, encode v = Ok x → decode x = Ok v) ∧
  (∀ (s : Status P) x, encode s = Ok x → decode x = Ok s) ∧
  (∀ (q : Request) x, encode q = Ok x → decode x = Ok q) ∧
  (∀ (m : Response) x, encode m = Ok x → decode x = Ok m).
Proof.
  split_and!.
  - intros m x Hx. by split; [apply (codec_accepts (CodecSpec := scm_spec))|apply (codec_refuses (CodecSpec := scm_spec))].
  - intros m x Hx. by split; [apply (codec_accepts (CodecSpec := liveness_spec))|apply (codec_refuses (CodecSpec := liveness_spec))].
  - intros [i s c] x. cbn. intros ->%enc_dec. cbn. unfold stream_of. cbn. by destruct c.
  - intros [h r vr p v va] x. cbn. intros ->%enc_dec. cbn. unfold proposed_value_of. cbn. by destruct va.
  - intros [p t m] x. cbn. by intros ->%enc_dec.
  - intros [a b] x. cbn. by intros ->%enc_dec.
  - intros [s l] x. cbn. intros ->%enc_dec. cbn. unfold response_of. cbn. rewrite <-list_fmap_compose.
    do 2 f_equal. rewrite (list_fmap_ext _ id); [by rewrite list_fmap_id|]. by intros i [y [h r v g]].
Qed.
End claims.

(** * Witness *)

Module Sample.
#[local] Existing Instance toy_shake.
Definition address : HkAddress := address_prefix (id_of 5).
Definition vote (s : HkSig) : SignedConsensusMsg :=
  ScmVote (mkSigned (new_prevote 7 RNil NVNil address) s).
(** A wire for the prevotes of one validator at one height; nothing else is encoded. *)
Definition votes : Bincode RawSignedConsensusMsg := {|
  bin_enc m := match m with
               | RawScmVote (mkRawVote Prevote 7 RNil NVNil a) s => if decide (a = address) then Some s else None
               | _ => None
               end;
  bin_dec x := Some (RawScmVote (mkRawVote Prevote 7 RNil NVNil address) x);
|}.
Lemma votes_laws : @BincodeLaws RawSignedConsensusMsg votes.
Proof.
  constructor. intros m x. cbn. intros H. repeat case_match; simplify_eq. done.
Qed.
Definition nothing (A : Type) : Bincode A := {| bin_enc := λ _, None; bin_dec := λ _, None |}.
Lemma nothing_laws A : @BincodeLaws A (nothing A).
Proof. by constructor. Qed.
End Sample.
#[local] Existing Instance Sample.votes.

Lemma wire_roundtrip_or_refused_witness :
  encode (Sample.vote [x01]) = Ok [x01] ∧
  ∃ len, decode (A := SignedConsensusMsg) [x01] = Err (BadSignatureLength len).
Proof.
  assert (encode (Sample.vote [x01]) = Ok [x01]) as He by (vm_compute; reflexivity). split; [exact He|].
  apply (@wire_roundtrip_or_refused Z Sample.votes (Sample.nothing _) (Sample.nothing _) (Sample.nothing _)
           (Sample.nothing _) (Sample.nothing _) (Sample.nothing _) Sample.votes_laws (Sample.nothing_laws _)
           (Sample.nothing_laws _) (Sample.nothing_laws _) (Sample.nothing_laws _) (Sample.nothing_laws _)
           (Sample.nothing_laws _)) in He as [_ H].
  apply H. cbn. unfold full_length. vm_compute. discriminate.
Defined.
