(* ===== verification/Node.v ===== *)
(** The running node (hk-node/src/state.rs): [HkApp], what it serves and what it
    proposes, and [commit], which applies a decided value and persists it.

    The home directory is part of the node's state.  Every write of a file takes
    its outcome from the script of the run; a script that runs out stops the
    process ([ProcessStopped]), and what is left is the directory.  The threads
    a node detaches, the compaction of the block log and the pass of the search
    index, are operations of their own.  Heights are far from the end of [u64]
    and are added without wrap-around. *)

From S2P Require Export Codec Seats Apply Snapshot Wal Proposer.
From S2P Require Import Signer.
#[local] Open Scope Z_scope.

(** Configuration and environment of a node. *)
Record NodeEnv := mkNodeEnv {
  ne_cfg : NodeConfig;
  ne_address : HkAddress;
  ne_agg : option AggVerifier;
  ne_start_time : Z;
  ne_nonce_window : option Z;
  ne_decided_window : Z;
  ne_snapshot_every : Z;
  ne_index_every : Z;
  ne_index_history : bool;
  ne_retain_blocks : Z;
  ne_keep_prev : bool;
}.

Record DecidedEntry := mkDecided { de_value : HkValue; de_certificate : CommitCertificate }.
Record PersistedIndex := mkPersistedIndex {
  pi_through : Z;
  pi_tx : list (H256 * Z * Z);
  pi_acct : list (AccountId * list (H256 * Z * string));
}.
(** The home directory, with the floor the explorer reads. *)
Record Store := mkStore {
  so_log : Disk;
  so_snaps : SnapFiles;
  so_wal : File;
  so_index : File;
  so_disk_min : Z;
}.
Definition so_set_log (x : Disk) (s : Store) : Store :=
  mkStore x s.(so_snaps) s.(so_wal) s.(so_index) s.(so_disk_min).
Definition so_set_snaps (x : SnapFiles) (s : Store) : Store :=
  mkStore s.(so_log) x s.(so_wal) s.(so_index) s.(so_disk_min).
Definition so_set_wal (x : File) (s : Store) : Store :=
  mkStore s.(so_log) s.(so_snaps) x s.(so_index) s.(so_disk_min).
Definition so_set_index (x : File) (s : Store) : Store :=
  mkStore s.(so_log) s.(so_snaps) s.(so_wal) x s.(so_disk_min).
Definition so_set_disk_min (x : Z) (s : Store) : Store :=
  mkStore s.(so_log) s.(so_snaps) s.(so_wal) s.(so_index) x.

Section node.
Context {PeerId : Type} `{Countable PeerId} {SHAKE : Shake} {SHA2 : Sha2} {CODECS : Codecs} {STX : StxCodec}
  {SCODECS : StateCodecs} {HSS : Hss} {ROOT : RootScheme} {BATCH : BatchWire} {BLOCK : BlockWire}
  {SNAP : SnapWire} {STXW : StxWire} {VALUE : Bincode HkValue} {INDEX : Bincode PersistedIndex}.

(** [HkApp].  The sinks of the index pass ([ap_index_todo]) are the heights its
    thread still has to read; [ap_attached] says whether the store is attached. *)
Record HkApp := mkHkApp {
  ap_ledger : Ledger;
  ap_seats : Seats;
  ap_proposals : Proposals (PeerId := PeerId);
  ap_height : HkHeight;
  ap_round : Round;
  ap_proposer : option HkAddress;
  ap_decided : gmap Z DecidedEntry;
  ap_history_min : Z;
  ap_index_floor : Z;
  ap_index_todo : list Z;
  ap_store : Store;
  ap_attached : bool;
  ap_script : list WriteOutcome;
}.
Definition ap_set_ledger (x : Ledger) (s : HkApp) : HkApp :=
mkHkApp x s.(ap_seats) s.(ap_proposals) s.(ap_height) s.(ap_round) s.(ap_proposer) s.(ap_decided)
    s.(ap_history_min) s.(ap_index_floor) s.(ap_index_todo) s.(ap_store) s.(ap_attached) s.(ap_script).
Definition ap_set_seats (x : Seats) (s : HkApp) : HkApp :=
mkHkApp s.(ap_ledger) x s.(ap_proposals) s.(ap_height) s.(ap_round) s.(ap_proposer) s.(ap_decided)
    s.(ap_history_min) s.(ap_index_floor) s.(ap_index_todo) s.(ap_store) s.(ap_attached) s.(ap_script).
Definition ap_set_proposals (x : Proposals (PeerId := PeerId)) (s : HkApp) : HkApp :=
mkHkApp s.(ap_ledger) s.(ap_seats) x s.(ap_height) s.(ap_round) s.(ap_proposer) s.(ap_decided)
    s.(ap_history_min) s.(ap_index_floor) s.(ap_index_todo) s.(ap_store) s.(ap_attached) s.(ap_script).
Definition ap_set_height (x : HkHeight) (s : HkApp) : HkApp :=
mkHkApp s.(ap_ledger) s.(ap_seats) s.(ap_proposals) x s.(ap_round) s.(ap_proposer) s.(ap_decided)
    s.(ap_history_min) s.(ap_index_floor) s.(ap_index_todo) s.(ap_store) s.(ap_attached) s.(ap_script).
Definition ap_set_round (x : Round) (s : HkApp) : HkApp :=
mkHkApp s.(ap_ledger) s.(ap_seats) s.(ap_proposals) s.(ap_height) x s.(ap_proposer) s.(ap_decided)
    s.(ap_history_min) s.(ap_index_floor) s.(ap_index_todo) s.(ap_store) s.(ap_attached) s.(ap_script).
Definition ap_set_proposer (x : option HkAddress) (s : HkApp) : HkApp :=
mkHkApp s.(ap_ledger) s.(ap_seats) s.(ap_proposals) s.(ap_height) s.(ap_round) x s.(ap_decided)
    s.(ap_history_min) s.(ap_index_floor) s.(ap_index_todo) s.(ap_store) s.(ap_attached) s.(ap_script).
Definition ap_set_decided (x : gmap Z DecidedEntry) (s : HkApp) : HkApp :=
mkHkApp s.(ap_ledger) s.(ap_seats) s.(ap_proposals) s.(ap_height) s.(ap_round) s.(ap_proposer) x
    s.(ap_history_min) s.(ap_index_floor) s.(ap_index_todo) s.(ap_store) s.(ap_attached) s.(ap_script).
Definition ap_set_history_min (x : Z) (s : HkApp) : HkApp :=
mkHkApp s.(ap_ledger) s.(ap_seats) s.(ap_proposals) s.(ap_height) s.(ap_round) s.(ap_proposer) s.(ap_decided) x
    s.(ap_index_floor) s.(ap_index_todo) s.(ap_store) s.(ap_attached) s.(ap_script).
Definition ap_set_index_floor (x : Z) (s : HkApp) : HkApp :=
mkHkApp s.(ap_ledger) s.(ap_seats) s.(ap_proposals) s.(ap_height) s.(ap_round) s.(ap_proposer) s.(ap_decided)
    s.(ap_history_min) x s.(ap_index_todo) s.(ap_store) s.(ap_attached) s.(ap_script).
Definition ap_set_index_todo (x : list Z) (s : HkApp) : HkApp :=
mkHkApp s.(ap_ledger) s.(ap_seats) s.(ap_proposals) s.(ap_height) s.(ap_round) s.(ap_proposer) s.(ap_decided)
    s.(ap_history_min) s.(ap_index_floor) x s.(ap_store) s.(ap_attached) s.(ap_script).
Definition ap_set_store (x : Store) (s : HkApp) : HkApp :=
mkHkApp s.(ap_ledger) s.(ap_seats) s.(ap_proposals) s.(ap_height) s.(ap_round) s.(ap_proposer) s.(ap_decided)
    s.(ap_history_min) s.(ap_index_floor) s.(ap_index_todo) x s.(ap_attached) s.(ap_script).
Definition ap_set_attached (x : bool) (s : HkApp) : HkApp :=
mkHkApp s.(ap_ledger) s.(ap_seats) s.(ap_proposals) s.(ap_height) s.(ap_round) s.(ap_proposer) s.(ap_decided)
    s.(ap_history_min) s.(ap_index_floor) s.(ap_index_todo) s.(ap_store) x s.(ap_script).
Definition ap_set_script (x : list WriteOutcome) (s : HkApp) : HkApp :=
mkHkApp s.(ap_ledger) s.(ap_seats) s.(ap_proposals) s.(ap_height) s.(ap_round) s.(ap_proposer) s.(ap_decided)
    s.(ap_history_min) s.(ap_index_floor) s.(ap_index_todo) s.(ap_store) s.(ap_attached) x.
#[local] Notation Ap A := (M HkApp NodeError A).

Context (env : NodeEnv).
#[local] Notation cfg := env.(ne_cfg).

(** * Parts of the state *)

Definition on_ledger {A} (m : M Ledger NodeError A) : Ap A := zoom ap_ledger ap_set_ledger id m.
Definition on_mempool {E A} (m : M Mempool E A) : Ap A :=
  on_ledger (zoom lg_mempool lg_set_mempool id (expectM m)).
Definition on_seats {A} (m : M Seats NodeError A) : Ap A := zoom ap_seats ap_set_seats id m.
Definition on_store (f : Store → Store) : Ap unit := modifyM (λ a, ap_set_store (f a.(ap_store)) a).
Definition set_floor (h : Z) : Ap unit :=
  modifyM (ap_set_history_min h) ;;; on_store (so_set_disk_min h).

Definition write_done (w : WriteOutcome) : bool := match w with WDone => true | _ => false end.
(** The outcome of the next write. *)
Definition next_write : Ap WriteOutcome :=
  let* a := getM in
  match a.(ap_script) with
  | [] => failM ProcessStopped
  | w :: script => modifyM (ap_set_script script) ;;; retM w
  end.
(** A routine of the block log: its errors are values, a crash is the end. *)
Definition log_io {A} (m : Io A) : Ap (StoreError + A) :=
  λ a, let '(fs, r) := m (mkFs a.(ap_store).(so_log) a.(ap_script)) in
       let a := ap_set_script fs.(fs_script) (ap_set_store (so_set_log fs.(fs_disk) a.(ap_store)) a) in
       match r with
       | Ok x => (a, Ok (inr x))
       | Err Crashed => (a, Err ProcessStopped)
       | Err e => (a, Ok (inl e))
       | Panic => (a, Panic)
       end.

(** * Serving *)

Definition ap_chain (a : HkApp) : State := a.(ap_ledger).(lg_chain).
Definition start_height (a : HkApp) : HkHeight := st_height (ap_chain a) + 1.
Definition validator_set (a : HkApp) : HkValidatorSet := a.(ap_seats).(se_validators).
(** The keys of a [BTreeMap] by height, in order. *)
Definition decided_heights (m : gmap Z DecidedEntry) : list Z := sort_by Z.leb (map_to_list m).*1.
Definition INITIAL : HkHeight := 1.
Definition earliest_height (a : HkApp) : HkHeight :=
  let disk_min := if 0 <? a.(ap_history_min) then Some a.(ap_history_min) else None in
  match head (decided_heights a.(ap_decided)), disk_min with
  | Some r, Some d => Z.min r d
  | Some h, None | None, Some h => h
  | None, None => INITIAL
  end.
Definition certificate_value_mismatch (cert : RawCommitCertificate) (value : HkValue) : bool :=
  negb (bool_decide (cert.(rc_value_id) = val_id value)).
(** [HkCodec.encode(..).unwrap_or_default()] *)
Definition value_bytes (v : HkValue) : bytes := match Codec.encode v with Ok x => x | _ => [] end.
Definition decided_value (height : Z) (a : HkApp) : option RawDecidedValue :=
  match a.(ap_decided) !! height with
  | Some e => Some (mkDecidedValue (value_bytes e.(de_value)) e.(de_certificate))
  | None =>
      if a.(ap_attached) then
        match load_block a.(ap_store).(so_log) height with
        | Ok (Some sb) =>
            let value := value_new sb.(sb_value_bytes) in
            if certificate_value_mismatch sb.(sb_certificate) value then None
            else Some (mkDecidedValue (value_bytes value) (certificate_of sb.(sb_certificate)))
        | _ => None
        end
      else None
  end.

(** * Proposing *)

(** The bundle that rides ahead of the pool, if it fits a block. *)
Definition bundle_ahead (l : Ledger) : list SignedTx * bytes :=
  match l.(lg_bundles) with
  | (btxs, aggp) :: _ => if Z.of_nat (length btxs) <=? MAX_TXS_PER_BLOCK then (btxs, aggp) else ([], [])
  | [] => ([], [])
  end.
Definition bundle_links (chain : State) (txs : list SignedTx) : Z :=
  foldl (sat_add u64_max) 0
    (omap (λ t, match stx_payload t with
                | Tx.ChannelSettle id _ step => Some (settle_cost chain id step)
                | _ => None
                end) txs).
Definition rotation_live (height : Z) (set : HkValidatorSet) (c : RotationCert) : bool :=
  match apply_rotation set c (rotation_rules cfg height) with Ok _ => true | _ => false end.
(** Foreign certificates that still apply; they are dropped from the queue otherwise. *)
Definition live_foreign (height : Z) (s : Seats) : list RotationCert :=
  filter (λ c, rotation_live height s.(se_validators) c = true) s.(se_foreign_rotations).
Definition merge_rotation (rs : list RotationCert) (c : RotationCert) : list RotationCert :=
  if existsb (λ r, bool_decide (r.(rc_root_pk) = c.(rc_root_pk)) && (c.(rc_epoch) <=? r.(rc_epoch))) rs
  then rs else rs ++ [c].
Definition change_ready (height : Z) (set : HkValidatorSet) (c : SetChangeCert) : bool :=
  match apply_set_change set c height cfg.(cf_chain_id) with Ok (Some _) => true | _ => false end.
(** The queue of set changes split: (kept, included). *)
Definition ready_changes (height : Z) (s : Seats) : list SetChangeCert * list SetChangeCert :=
  let early (c : SetChangeCert) := height <? c.(sc_body).(sb_not_before) in
  let ready c := change_ready height s.(se_validators) c in
  (filter (λ c, early c || ready c = true) s.(se_pending_changes),
   filter (λ c, negb (early c) && ready c = true) s.(se_pending_changes)).
Definition build_batch (height : Z) : Ap bytes :=
  let* a := getM in
  let chain := ap_chain a in
  let* parent := expect (state_commitment chain) in
  let '(btxs, agg_proof) := bundle_ahead a.(ap_ledger) in
  let room := MAX_TXS_PER_BLOCK - Z.of_nat (length btxs) in
  let picked := (select_batch_txs chain (mp_q a.(ap_ledger).(lg_mempool)) room (bundle_links chain btxs)).1 in
  let foreign := live_foreign height a.(ap_seats) in
  let '(kept, changes) := ready_changes height a.(ap_seats) in
  modifyM (λ a, ap_set_seats (se_set_pending_changes kept (se_set_foreign_rotations foreign a.(ap_seats))) a) ;;;
  readM (λ _, batch_encode
    (mkBatch parent (btxs ++ picked) (foldl merge_rotation a.(ap_seats).(se_pending_rotations) foreign)
       agg_proof changes)).

(** * Deciding *)

(** The undecided values of a height, round by round. *)
Definition undecided_of (height : Z) (p : Proposals (PeerId := PeerId)) : list ProposedValue :=
  concat (sort_by (λ x y, x.1.2 <=? y.1.2)
            (filter (λ e, e.1.1 = height) (map_to_list p.(pr_undecided)))).*2.
Definition find_decided (cert : CommitCertificate) (p : Proposals (PeerId := PeerId)) : option HkValue :=
  pv_value <$> find (λ v, bool_decide (val_id v.(pv_value) = cert.(cc_value_id))) (undecided_of cert.(cc_height) p).

(** The newest heights of the window. *)
Definition evict (window : Z) (m : gmap Z DecidedEntry) : gmap Z DecidedEntry :=
  if 0 <? window
  then foldl (λ m h, delete h m) m
         (take (length (decided_heights m) - Z.to_nat window) (decided_heights m))
  else m.

(** ** Persistence *)

Definition make_snapshot (commitment : H256) (a : HkApp) : NodeSnapshot :=
  let l := a.(ap_ledger) in
  let s := a.(ap_seats) in
  mkNodeSnapshot commitment (st_height l.(lg_chain)) (to_snapshot l.(lg_chain)) l.(lg_notes)
    (rlog_entries l.(lg_receipts)) (mp_q l.(lg_mempool)) (dto_of <$> s.(se_validators).(validators))
    s.(se_current_epoch) s.(se_highest_issued) l.(lg_notes_by_asset).
(** [rotate_snapshot_if_configured]; the copy is one write. *)
Definition keep_prev_snapshot : Ap unit :=
  if env.(ne_keep_prev) then
    let* w := next_write in
    on_store (λ s, so_set_snaps (rotate_snapshot_if_configured true (write_done w) s.(so_snaps)) s)
  else retM tt.
Definition store_snapshot (n : NodeSnapshot) : Ap bool :=
  let* w := next_write in
  let* a := getM in
  let '(snaps, ok) := save_snapshot n w a.(ap_store).(so_snaps) in
  on_store (so_set_snaps snaps) ;;; retM ok.
Definition reset_wal : Ap unit :=
  let* w := next_write in
  let* a := getM in
  on_store (so_set_wal (wal_reset (mp_q a.(ap_ledger).(lg_mempool)) w a.(ap_store).(so_wal)).1).
(** Retention, and the floor it raises. *)
Definition retain (height : Z) : Ap unit :=
  let* r := log_io (prune_below height env.(ne_retain_blocks)) in
  let* a := getM in
  match r with
  | inr (Some min) => if a.(ap_history_min) <? min then set_floor min else retM tt
  | _ => retM tt
  end.
(** [persist_index] *)
Definition indexed_upto (through : Z) (ix : SearchIndex) : PersistedIndex :=
  mkPersistedIndex through
    (omap (λ e, if e.2.1 <=? through then Some (e.1, e.2.1, e.2.2) else None) (map_to_list ix.(ix_tx)))
    ((λ e, (e.1, filter (λ x, x.1.2 ≤ through) e.2)) <$> map_to_list ix.(ix_acct)).
Definition persist_index (tip : Z) : Ap unit :=
  let* a := getM in
  let through := if a.(ap_index_floor) =? u64_max then tip else a.(ap_index_floor) in
  if through =? 0 then retM tt
  else
    let* w := next_write in
    match bin_enc (indexed_upto through a.(ap_ledger).(lg_index)) with
    | Some x => on_store (λ s, so_set_index (write_atomic x w s.(so_index)).1 s)
    | None => retM tt
    end.

(** The block of a height, its floor, and every so often the whole image. *)
Definition persist_block (b : StoredBlock) : Ap unit :=
  let* r := log_io (save_block b) in
  let* a := getM in
  match r with
  | inr _ => if a.(ap_history_min) =? 0 then set_floor b.(sb_height) else retM tt
  | inl _ => set_floor (b.(sb_height) + 1)
  end.
Definition persist_image (height : Z) : Ap unit :=
  let* a := getM in
  let* commitment := expect (state_commitment (ap_chain a)) in
  keep_prev_snapshot ;;;
  let* ok := store_snapshot (make_snapshot commitment a) in
  if ok then reset_wal ;;; retain height else retM tt.
Definition persist (b : StoredBlock) : Ap unit :=
  let height := b.(sb_height) in
  persist_block b ;;;
  (if height mod env.(ne_snapshot_every) =? 0 then persist_image height else retM tt) ;;;
  if height mod env.(ne_index_every) =? 0 then persist_index height else retM tt.

(** ** [commit], with the clock [now] *)

(** The state changes of a commit, up to the disk: the block to persist. *)
Definition commit_state (cert : CommitCertificate) (now : Z) : Ap StoredBlock :=
  let height := cert.(cc_height) in
  let* a := getM in
  let* value := ok_or (find_decided cert a.(ap_proposals)) (ValueNotFound height cert.(cc_value_id)) in
  let batch := batch_decode (val_txs value) in
  let* agg_valid := on_ledger (apply_batch_to_chain env.(ne_agg) env.(ne_start_time) height batch true false) in
  on_seats (apply_rotations cfg height batch false) ;;;
  on_seats (apply_set_changes cfg height batch) ;;;
  modifyM (λ a, ap_set_decided (evict env.(ne_decided_window) (<[height := mkDecided value cert]> a.(ap_decided))) a) ;;;
  modifyM (λ a, ap_set_proposals
    (mkProposals a.(ap_proposals).(pr_streams) (filter (λ e, height < e.1.1) a.(ap_proposals).(pr_undecided))) a) ;;;
  modifyM (ap_set_height (height + 1)) ;;;
  modifyM (λ a, ap_set_seats (rotation_trigger cfg height now a.(ap_seats)) a) ;;;
  retM (mkStoredBlock height (val_txs value) (raw_certificate cert) agg_valid).
Definition commit (cert : CommitCertificate) (now : Z) : Ap unit :=
  let* block := commit_state cert now in
  let* a := getM in
  if a.(ap_attached) then persist block else retM tt.

(** * The detached threads *)

(** [compact_one_background]: the oldest span that can be packed. *)
Definition compact_one (through : Z) : Ap unit :=
  let* a := getM in
  match compactable_segments a.(ap_store).(so_log) through with
  | id :: _ => log_io (compact_segment id) ;;; retM tt
  | [] => retM tt
  end.
(** One height of the index pass. *)
Definition index_pass_step : Ap unit :=
  let* a := getM in
  match a.(ap_index_todo) with
  | [] => retM tt
  | h :: todo =>
      match load_block a.(ap_store).(so_log) h with
      | Ok (Some sb) =>
          match batch_decode sb.(sb_value_bytes) with
          | Some b => on_ledger (zoom lg_index lg_set_index id (index_txs_into h b.(b_txs)))
          | None => retM tt
          end
      | _ => retM tt
      end ;;;
      modifyM (λ a, ap_set_index_todo todo
        (ap_set_index_floor (match todo with [] => u64_max | _ => h end) a))
  end.
End node.
