(* ===== verification/Boot.v ===== *)
(** Starting a node (hk-node/src/state.rs: [HkApp::new], [set_genesis_digest],
    [restore_from_store]; the genesis file of genesis.rs; the order of node.rs):
    the chain of the genesis with the rules of its chain id, then the image on
    disk, the replay of the blocks above it, the search index and the mempool.

    A restart writes no file; a read that finds a corrupt file ends it. *)

From S2P Require Export Node Text.
From S2P Require Import Signer.
#[local] Open Scope Z_scope.

(** * Genesis *)

Record HkGenesis := mkHkGenesis {
  hg_start_time : Z;
  hg_validators : list GenesisValidator;
  hg_chain : option Genesis;
}.
Definition chain_genesis (g : HkGenesis) : Genesis :=
  default (mkGenesis g.(hg_start_time) [] [] None []) g.(hg_chain).
Definition genesis_fee_of (g : HkGenesis) : option GenesisFee := g.(hg_chain) ≫= g_fee.

(** The environment variables [HkApp::new] and genesis.rs read, parsed. *)
Record BootEnv := mkBootEnv {
  be_fee_micro : option Z;
  be_fee_from : option Z;
  be_p6 : option Z;
  be_r17 : option Z;
  be_r18 : option Z;
  be_rotation_v2 : option Z;
  be_g1 : option Z * option Z;
  be_rotate_every : option Z;
  be_mempool_cap : option Z;
}.

Definition chain_id_of (digest : H256) : string := "hashkinetics-1-" +:+ hex (take 4 (h256_bytes digest)).

(** The configuration of a state, replaced as a whole. *)
Definition with_config (c : ProofVerifier * Amount * Z * AssetId * Z * Z * Z) (s : State) : State :=
  let '(verifier, fee_micro, fee_from, fee_asset, multi_pool_from, mandate_asset_from, payword_cap_from) := c in
  mkState s.(st_height) s.(st_time) s.(st_accounts) s.(st_balances) s.(st_mandates) s.(st_root_funding)
    s.(st_channels) s.(st_pool) verifier s.(st_agg_cover) fee_micro fee_from s.(st_fees_burned) fee_asset
    s.(st_assets) s.(st_pools) multi_pool_from mandate_asset_from payword_cap_from.

Inductive BootError :=
  | BadGenesisSet (e : GenesisError)
  | BadChainGenesis (e : StateError)
  | FeePairIncomplete.
Definition map_err {E E' A} (f : E → E') (r : res E A) : res E' A :=
  match r with Ok a => Ok a | Err e => Err (f e) | Panic => Panic end.

Section genesis.
Context {SHAKE : Shake} {SHA2 : Sha2} {CODECS : Codecs}.

(** The fee a chain runs with: its genesis', or both variables, or none. *)
Definition fee_policy (g : HkGenesis) (en : BootEnv) (s : State) : res BootError (Amount * Z) :=
  match genesis_fee_of g with
  | Some _ => Ok (s.(st_fee_micro), s.(st_fee_from))
  | None =>
      match en.(be_fee_micro), en.(be_fee_from) with
      | Some m, Some f => Ok (m, f)
      | None, None => Ok (0, u64_max)
      | _, _ => Err FeePairIncomplete
      end
  end.
(** The chain of [HkApp::new] after [set_genesis_digest]. *)
Definition genesis_chain (g : HkGenesis) (en : BootEnv) (verifier : option ProofVerifier) (chain_id : string)
    : res BootError State :=
  let? s := map_err BadChainGenesis (from_genesis (chain_genesis g)) in
  let? fee := fee_policy g en s in
  Ok (with_config (default s.(st_verifier) verifier, fee.1, fee.2, s.(st_fee_asset),
        multi_pool_from_from chain_id en.(be_p6), mandate_asset_from_from chain_id en.(be_r17),
        payword_cap_from_from chain_id en.(be_r18)) s).
Definition node_config (g : HkGenesis) (en : BootEnv) (seed : bytes) (chain_id : string) : NodeConfig :=
  mkNodeConfig seed (gv_root_pk <$> g.(hg_validators)) chain_id
    (rotation_v2_from_from chain_id en.(be_rotation_v2)) en.(be_g1)
    (n ← en.(be_rotate_every); if 0 <? n then Some n else None).
End genesis.

(** [kind_static]: an unknown name becomes "unknown". *)
Definition KINDS : list string :=
  ["transfer"; "mandate_create"; "mandate_spend"; "mandate_revoke"; "channel_open"; "channel_settle";
   "channel_refund"; "shield"; "shielded_spend"; "account_create"; "asset_register"; "asset_mint";
   "asset_burn"; "asset_freeze"; "asset_pause"].
Definition kind_static (s : string) : string :=
  if bool_decide (s ∈ KINDS) then s else "unknown".

Section boot.
Context {PeerId : Type} `{Countable PeerId} {SHAKE : Shake} {SHA2 : Sha2} {CODECS : Codecs} {STX : StxCodec}
  {SCODECS : StateCodecs} {HSS : Hss} {ROOT : RootScheme} {BATCH : BatchWire} {BLOCK : BlockWire}
  {SNAP : SnapWire} {STXW : StxWire} {VALUE : Bincode HkValue} {INDEX : Bincode PersistedIndex}.
#[local] Notation HkApp := (HkApp (PeerId := PeerId)).
#[local] Notation Ap A := (M HkApp NodeError A).

Definition RECEIPT_CAP : Z := 4096.
(** [HkApp::new]: the node of a genesis chain and set, with its key handle, the
    home directory and the outcomes of the writes to come. *)
Definition app_new (chain : State) (set : HkValidatorSet) (en : BootEnv) (handle : HkPriv) (keys : gmap Z File)
    (store : Store) (script : list WriteOutcome) : HkApp :=
  mkHkApp
    (mkLedger chain None (rlog_new RECEIPT_CAP) [] ∅ (mempool_default en.(be_mempool_cap)) [] (mkSearchIndex ∅ ∅))
    (mkSeats set [(1, set)] 0 0 handle keys [] [] [] (0, remaining handle.(hp_signer)) None)
    (mkProposals ∅ ∅) INITIAL RNil None ∅ 0 u64_max [] store false script.

Context (env : NodeEnv).
#[local] Notation cfg := env.(ne_cfg).

(** * The image *)

Definition restore_chain (n : NodeSnapshot) : Ap unit :=
  let* a := getM in
  let st := with_config (config (ap_chain a)) (from_snapshot n.(ns_state)) in
  let* got := expect (state_commitment st) in
  refuse_if (negb (bool_decide (got = n.(ns_app_hash)))) (SnapshotIntegrity n.(ns_height)) ;;;
  on_ledger (modifyM (λ l, lg_set_receipts (rlog_restore n.(ns_receipts) l.(lg_receipts))
    (lg_set_feeds (n.(ns_pool_notes), n.(ns_notes_by_asset)) (lg_set_chain st l)))) ;;;
  on_mempool (restore n.(ns_mempool)).
Definition restore_seats (n : NodeSnapshot) : Ap unit :=
  (match n.(ns_validators) with
   | [] => retM tt
   | l => let* set := readM (λ _, set_new (validator_of <$> l)) in
          on_seats (modifyM (se_set_validators set))
   end) ;;;
  on_seats (modifyM (λ s,
    se_set_history [(n.(ns_height) + 1, s.(se_validators))]
      (se_set_highest_issued n.(ns_highest_issued) (se_set_current_epoch n.(ns_current_epoch) s)))).
Definition restore_image (n : NodeSnapshot) : Ap unit := restore_chain n ;;; restore_seats n.

(** * The blocks above it *)

Definition replay_block (h : Z) (sb : StoredBlock) : Ap unit :=
  let value := value_new sb.(sb_value_bytes) in
  refuse_if (certificate_value_mismatch sb.(sb_certificate) value) (CorruptHistory h) ;;;
  let batch := batch_decode (val_txs value) in
  on_ledger (apply_batch_to_chain env.(ne_agg) env.(ne_start_time) h batch false sb.(sb_agg_valid)) ;;;
  on_seats (apply_rotations cfg h batch true) ;;;
  on_seats (apply_set_changes cfg h batch) ;;;
  modifyM (λ a, ap_set_decided (<[h := mkDecided value (certificate_of sb.(sb_certificate))]> a.(ap_decided)) a).
Fixpoint replay (heights : list Z) : Ap unit :=
  match heights with
  | [] => retM tt
  | h :: heights =>
      let* a := getM in
      if negb (h =? st_height (ap_chain a) + 1) then retM tt
      else
        match load_block a.(ap_store).(so_log) h with
        | Ok (Some sb) => replay_block h sb ;;; replay heights
        | Ok None => replay heights
        | _ => failM StoreFailed
        end
  end.

(** The height to decide next, and the servable floor of the disk. *)
Definition restore_floor (heights : list Z) : Ap unit :=
  let* a := getM in
  let tip := st_height (ap_chain a) in
  modifyM (ap_set_height (tip + 1)) ;;;
  set_floor (match contiguous_suffix_min heights with
             | Some min => if default 0 (last heights) =? tip then min else tip + 1
             | None => tip + 1
             end).

(** * The search index *)

(** [load_index]: an unreadable file is no file. *)
Definition load_index (f : File) : option PersistedIndex := f.(f_visible) ≫= bin_dec.
Definition adopt_index (through : Z) (p : PersistedIndex) (ix : SearchIndex) : SearchIndex :=
  mkSearchIndex
    (foldl (λ m e, if e.1.2 <=? through then <[e.1.1 := (e.1.2, e.2)]> m else m) ix.(ix_tx) p.(pi_tx))
    (foldl (λ m e, <[e.1 := default [] (m !! e.1) ++
              ((λ x, (x.1, kind_static x.2)) <$> filter (λ x, x.1.2 ≤ through) e.2)]> m) ix.(ix_acct) p.(pi_acct)).
Definition restore_index (heights : list Z) (snap_height : Z) : Ap unit :=
  let* a := getM in
  let* through :=
    match load_index a.(ap_store).(so_index) with
    | Some p =>
        let through := Z.min p.(pi_through) snap_height in
        on_ledger (modifyM (λ l, lg_set_index (adopt_index through p l.(lg_index)) l)) ;;; retM through
    | None => retM 0
    end in
  let todo := filter (λ h, through < h ∧ h ≤ snap_height) heights in
  modifyM (λ a,
    if env.(ne_index_history)
    then match todo with
         | [] => ap_set_index_floor u64_max a
         | _ => ap_set_index_todo todo (ap_set_index_floor through a)
         end
    else ap_set_index_floor through a).

(** * The mempool *)

(** The admissions since the image, through the door again. *)
Fixpoint readmit (txs : list SignedTx) : Ap unit :=
  match txs with
  | [] => retM tt
  | tx :: txs =>
      let* a := getM in
      on_mempool (E := AdmitError) (tryM (try_admit env.(ne_nonce_window) tx (ap_chain a))) ;;;
      readmit txs
  end.

Definition restore_from_store : Ap unit :=
  let* a := getM in
  match load_snapshot a.(ap_store).(so_snaps) with
  | Ok o =>
      (match o with Some n => restore_image n | None => retM tt end) ;;;
      let* a := getM in
      let heights := block_heights a.(ap_store).(so_log) in
      let snap_height := st_height (ap_chain a) in
      replay (filter (λ h, snap_height < h) heights) ;;;
      restore_floor heights ;;;
      restore_index heights snap_height ;;;
      readmit (wal_load a.(ap_store).(so_wal).(f_visible))
  | _ => failM StoreFailed
  end.
(** The part of node.rs that starts the application. *)
Definition start_node (persist : bool) : Ap unit :=
  (if persist then restore_from_store ;;; modifyM (ap_set_attached true) else retM tt) ;;;
  on_seats (modifyM (adopt_epoch_signer cfg)).
End boot.
