(* ===== verification/Door.v ===== *)
(** The JSON-RPC doors (hk-node/src/rpc.rs): the requests that change a node's
    state (a transaction, gossip, a bundle, a rotation or set-change certificate)
    and the paged reads of the pool feed and the explorer.

    Parsing and rendering JSON are left out: a request is its parsed parameters,
    and a reply the data it carries.  [submit_rotation] and [submit_set_change]
    give up every lock while they verify: [between] is what the rest of the node
    does to the seats meanwhile, and [free] says whether a verification slot was. *)

From S2P Require Export Boot.
From S2P Require Import Signer Toy Governance Proposer.
#[local] Open Scope Z_scope.

Definition CERT_VERIFY_SLOTS : Z := 2.
Definition POOL_PATH_SLOTS : Z := 2.
Definition SET_CHANGE_HORIZON : Z := 1000000.
Definition BUNDLE_QUEUE_MAX : Z := 64.
Definition GOSSIP_MAX_TXS : Z := 1024.
Definition POOL_PAGE_MAX : Z := 10000.

(** * Transactions *)

Section admission.
Context {PeerId : Type} `{Countable PeerId} {SHAKE : Shake} {SHA2 : Sha2} {CODECS : Codecs} {STX : StxCodec}
  {HSS : Hss} {STXW : StxWire}.
#[local] Notation HkApp := (HkApp (PeerId := PeerId)).
#[local] Notation Ap A := (M HkApp NodeError A).
Context (env : NodeEnv).

(** The log after an append; of a cut one any part may be what survives. *)
Definition append_file (tx : SignedTx) (written : option nat) (f : File) : File :=
  let w := (wal_append tx written f.(f_visible)).1 in
  mkFile w (match written with None => [w] | Some _ => f.(f_survivors) ++ [w] end).
(** [admit_one]; an append that fails is only logged. *)
Definition admit_one (tx : SignedTx) (written : option nat) : Ap (AdmitError.t + H256) :=
  let verdict := envelope_verdict tx in
  let* a := getM in
  let* admitted := on_mempool (E := AdmitError.t)
    (tryM (try_admit_verified env.(ne_nonce_window) tx (ap_chain a) verdict)) in
  match admitted with
  | inr id =>
      (if a.(ap_attached)
       then on_store (λ s, so_set_wal (append_file tx written s.(so_wal)) s)
       else retM tt) ;;;
      retM (inr id)
  | inl e => retM (inl e)
  end.

Inductive GossipReply := TooMany | Gossiped (admitted dropped : Z).
(** [hk_gossipTxs]; every append runs to its end. *)
Fixpoint gossip_loop (txs : list SignedTx) (admitted dropped : Z) : Ap GossipReply :=
  match txs with
  | [] => retM (Gossiped admitted dropped)
  | tx :: txs =>
      let* r := admit_one tx None in
      match r with
      | inr _ => gossip_loop txs (admitted + 1) dropped
      | inl _ => gossip_loop txs admitted (dropped + 1)
      end
  end.
Definition gossip_txs (txs : list SignedTx) : Ap GossipReply :=
  if GOSSIP_MAX_TXS <? Z.of_nat (length txs) then retM TooMany else gossip_loop txs 0 0.

(** ** Bundles *)

Inductive BundleError := BadBundle | BundleTooLarge | NotProofless (i : nat) | QueueFull | DuplicateBundle.
Definition proof_less_pool_tx (t : SignedTx) : bool :=
  match stx_payload t with
  | Tx.MintToPool _ _ _ proof _ | Tx.ShieldedSpend _ _ _ _ _ _ _ proof _ _ => bool_decide (proof = [])
  | _ => false
  end.
Definition bundle_shape_verdict (txs : list SignedTx) : res BundleError unit :=
  if MAX_TXS_PER_BLOCK <? Z.of_nat (length txs) then Err BundleTooLarge
  else match list_find (λ t, proof_less_pool_tx t = false) txs with
  | Some (i, _) => Err (NotProofless i)
  | None => Ok tt
  end.
Fixpoint txids {E} (txs : list SignedTx) : res E (list H256) :=
  match txs with
  | [] => Ok []
  | t :: txs => let? id := txid t in let? ids := txids txs in Ok (id :: ids)
  end.
(** [hk_submitBundle] *)
Definition submit_bundle (txs : list SignedTx) (agg : bytes) : M Ledger NodeError (BundleError + list H256) :=
  if bool_decide (txs = []) || bool_decide (agg = []) then retM (inl BadBundle)
  else match bundle_shape_verdict txs with
  | Ok _ =>
      let* l := getM in
      if BUNDLE_QUEUE_MAX <=? Z.of_nat (length l.(lg_bundles)) then retM (inl QueueFull)
      else if existsb (λ b, bool_decide (b.2 = agg)) l.(lg_bundles) then retM (inl DuplicateBundle)
      else
        let* ids := readM (λ _, txids txs) in
        modifyM (λ l, lg_set_bundles (l.(lg_bundles) ++ [(txs, agg)]) l) ;;;
        retM (inr ids)
  | Err e => retM (inl e)
  | Panic => panicM
  end.
End admission.

(** * Certificates *)

Inductive Preflight := PVerify | PAlreadyQueued.
Inductive DoorReply (E : Type) := Refused (e : E) | Accepted (queued : bool) | Busy.
Arguments Refused {E}. Arguments Accepted {E}. Arguments Busy {E}.

Section certificates.
Context {SHAKE : Shake} {ROOT : RootScheme} {HSS : Hss}.
#[local] Notation Se A := (M Seats NodeError A).

Inductive RotationRefusal := RotRule (e : RotationError) | RotSigLength (got : Z).
Definition rotation_preflight (set : HkValidatorSet) (queue : list RotationCert) (rules : RotationRules)
    (cert : RotationCert) : res RotationRefusal Preflight :=
  let? seat := ok_orR (seat_of_root cert.(rc_root_pk) set) (RotRule NoSuchRoot) in
  let? _ := refuseR (cert.(rc_epoch) <=? seat.(v_epoch)) (RotRule (StaleEpoch cert.(rc_epoch) seat.(v_epoch))) in
  let? _ := map_err RotRule (check_window cert rules) in
  let? _ := refuseR (negb (byte_len cert.(rc_root_sig) =? ROOT_SIG_LEN)) (RotSigLength (byte_len cert.(rc_root_sig))) in
  if existsb (λ x, bool_decide (x.(rc_root_pk) = cert.(rc_root_pk)) && (cert.(rc_epoch) <=? x.(rc_epoch))) queue
  then Ok PAlreadyQueued else Ok PVerify.
(** What a preflight answers by itself. *)
Definition preflight_reply {E} (r : res E Preflight) : option (DoorReply E) :=
  match r with
  | Err e => Some (Refused e)
  | Ok PAlreadyQueued => Some (Accepted false)
  | Ok PVerify => None
  | Panic => None
  end.
(** The queue without the older certificates of the root. *)
Definition retire_older (cert : RotationCert) (q : list RotationCert) : list RotationCert :=
  filter (λ x, ¬ (x.(rc_root_pk) = cert.(rc_root_pk) ∧ x.(rc_epoch) < cert.(rc_epoch))) q.
Definition queue_rotation (rules : RotationRules) (cert : RotationCert) : Se (DoorReply RotationRefusal) :=
  let* s := getM in
  match preflight_reply (rotation_preflight s.(se_validators) s.(se_foreign_rotations) rules cert) with
  | Some reply => retM reply
  | None =>
      modifyM (λ s, se_set_foreign_rotations (retire_older cert s.(se_foreign_rotations) ++ [cert]) s) ;;;
      retM (Accepted true)
  end.
Definition submit_rotation (rules : RotationRules) (free : bool) (between : Seats → Seats) (cert : RotationCert)
    : Se (DoorReply RotationRefusal) :=
  let* s := getM in
  let set := s.(se_validators) in
  match preflight_reply (rotation_preflight set s.(se_foreign_rotations) rules cert) with
  | Some reply => retM reply
  | None =>
      if negb free then retM Busy
      else match apply_rotation set cert rules with
      | Ok _ => modifyM between ;;; queue_rotation rules cert
      | Err e => retM (Refused (RotRule e))
      | Panic => panicM
      end
  end.

Inductive ChangeRefusal :=
  | ChgRule (e : SetChangeError)
  | WindowClosed (not_after tip : Z) | WindowTooFar (not_before tip : Z)
  | ApprovalLength | AlreadySeated | AlreadyAbsent | AlreadyWeighs (power : Z).
(** The loop over the approvals, without their signatures. *)
Fixpoint preflight_approvals (set : HkValidatorSet) (seen : list bytes) (approving : Z) (l : list Approval)
    : res ChangeRefusal Z :=
  match l with
  | [] => Ok approving
  | a :: l =>
      let? _ := refuseR (negb (byte_len a.(ap_root_pk) =? ROOT_PK_LEN) || negb (byte_len a.(ap_root_sig) =? ROOT_SIG_LEN))
                  ApprovalLength in
      let? _ := refuseR (existsb (λ r, bool_decide (r = a.(ap_root_pk))) seen) (ChgRule DuplicateApproval) in
      let? seat := ok_orR (seat_of_root a.(ap_root_pk) set) (ChgRule NotSeatedApproval) in
      preflight_approvals set (seen ++ [a.(ap_root_pk)]) (sat_add u64_max approving seat.(v_power)) l
  end.
(** The subject against the set as it stands. *)
Definition preflight_subject (set : HkValidatorSet) (change : SetChange) : res ChangeRefusal unit :=
  match change with
  | Admit root pk _ =>
      let? _ := refuseR (seated root set) AlreadySeated in
      refuseR (existsb (λ v, bool_decide (v.(v_address) = from_public_key pk)) set.(validators)) (ChgRule AddressCollision)
  | Remove root =>
      let? _ := refuseR (negb (seated root set)) AlreadyAbsent in
      refuseR (set_len set =? 1) (ChgRule LastSeat)
  | SetPower root power =>
      let? v := ok_orR (seat_of_root root set) (ChgRule SetPowerNotSeated) in
      refuseR (v.(v_power) =? power) (AlreadyWeighs power)
  end.
Definition set_change_preflight (set : HkValidatorSet) (queue : list SetChangeCert) (chain_id : string) (tip : Z)
    (cert : SetChangeCert) : res ChangeRefusal Preflight :=
  let body := cert.(sc_body) in
  let? _ := map_err ChgRule (check_shape body) in
  let? _ := refuseR (negb (bool_decide (body.(sb_chain_id) = chain_id))) (ChgRule (WrongChain body.(sb_chain_id) chain_id)) in
  let? _ := refuseR (body.(sb_not_after) <? tip) (WindowClosed body.(sb_not_after) tip) in
  let? _ := refuseR (sat_add u64_max tip SET_CHANGE_HORIZON <? body.(sb_not_before)) (WindowTooFar body.(sb_not_before) tip) in
  let? _ := refuseR (bool_decide (cert.(sc_approvals) = [])) (ChgRule NoApprovals) in
  let total := total_voting_power set in
  let? approving := preflight_approvals set [] 0 cert.(sc_approvals) in
  let? _ := refuseR (sat_mul u64_max approving 3 <=? sat_mul u64_max total 2) (ChgRule (NotSupermajority approving total)) in
  let? _ := preflight_subject set body.(sb_change) in
  if existsb (λ x, bool_decide (x.(sc_body) = body)) queue then Ok PAlreadyQueued else Ok PVerify.
Definition queue_set_change (chain_id : string) (tip : Z) (cert : SetChangeCert) : Se (DoorReply ChangeRefusal) :=
  let* s := getM in
  match preflight_reply (set_change_preflight s.(se_validators) s.(se_pending_changes) chain_id tip cert) with
  | Some reply => retM reply
  | None =>
      modifyM (λ s, se_set_pending_changes (s.(se_pending_changes) ++ [cert]) s) ;;; retM (Accepted true)
  end.
Definition submit_set_change (chain_id : string) (tip : Z) (free : bool) (between : Seats → Seats) (cert : SetChangeCert)
    : Se (DoorReply ChangeRefusal) :=
  let* s := getM in
  let set := s.(se_validators) in
  match preflight_reply (set_change_preflight set s.(se_pending_changes) chain_id tip cert) with
  | Some reply => retM reply
  | None =>
      if negb free then retM Busy
      else match set_change_verify_against cert set chain_id with
      | Ok _ => modifyM between ;;; queue_set_change chain_id tip cert
      | Err e => retM (Refused (ChgRule e))
      | Panic => panicM
      end
  end.
End certificates.

(** * Reads *)

(** [pool_page]: (from, to, next) of a page of [total] items. *)
Definition pool_page (from limit : option Z) (total : Z) : Z * Z * option Z :=
  let from := Z.min (default 0 from) total in
  let limit := match limit with Some l => Z.max 1 (Z.min l POOL_PAGE_MAX) | None => POOL_PAGE_MAX end in
  let to := Z.min (from + limit) total in
  (from, to, if to <? total then Some to else None).
Record PoolPage (A : Type) := mkPoolPage {
  pg_from : Z;
  pg_to : Z;
  pg_total : Z;
  pg_next : option Z;
  pg_items : list A;
}.
Arguments mkPoolPage {A}. Arguments pg_from {A}. Arguments pg_to {A}.
Arguments pg_total {A}. Arguments pg_next {A}. Arguments pg_items {A}.
Definition page_of {A} (feed : list FeedNote) (from limit : option Z) (project : FeedNote → A) : PoolPage A :=
  let '(from, to, next) := pool_page from limit (Z.of_nat (length feed)) in
  mkPoolPage from to (Z.of_nat (length feed)) next
    (project <$> take (Z.to_nat (to - from)) (drop (Z.to_nat from) feed)).
Definition pool_key_param (asset : option AssetId) (chain : State) : PoolKey :=
  match asset with
  | None => Legacy
  | Some a => if decide (pool_asset (st_pool chain) = Some a) then Legacy else Asset a
  end.
(** [with_pool_feed]: the feed a request addresses, with its label. *)
Definition with_pool_feed {A} (l : Ledger) (asset : option AssetId) (f : list FeedNote → A) : A * option AssetId :=
  match pool_key_param asset l.(lg_chain) with
  | Legacy => (f l.(lg_notes), None)
  | Asset a => (f (default [] (l.(lg_notes_by_asset) !! a)), Some a)
  end.

Section reads.
Context {SHAKE : Shake} {SHA2 : Sha2} {BLOCK : BlockWire} {BATCH : BatchWire}.

Inductive PathReply :=
  | IndexRequired | PathBusy | IndexOutOfRange (index total : Z)
  | PoolPath (asset : option AssetId) (index : Z) (commitment : H256) (siblings : list H256) (root : H256) (total : Z).
Definition pool_path (l : Ledger) (free : bool) (asset : option AssetId) (index : option Z) : res NodeError PathReply :=
  match index with
  | None => Ok IndexRequired
  | Some index =>
      if negb free then Ok PathBusy
      else
        let '(leaves, label) := with_pool_feed l asset (fmap fst) in
        if Z.of_nat (length leaves) <=? index then Ok (IndexOutOfRange index (Z.of_nat (length leaves)))
        else match full_tree_path leaves index, leaves !! Z.to_nat index with
        | Some (siblings, root), Some leaf => Ok (PoolPath label index leaf siblings root (Z.of_nat (length leaves)))
        | _, _ => Panic
        end
  end.
Definition nullifier_spent (chain : State) (asset : option AssetId) (nf : H256) : bool :=
  match pool_ref chain (pool_key_param asset chain) with
  | Some p => bool_decide (nf ∈ pool_nullifiers p)
  | None => false
  end.

(** The loop of [hk_getBlocks], from [hgt] down to [floor]. *)
Fixpoint blocks_walk (fuel : nat) (d : Disk) (floor : Z) (limit : nat) (hgt : Z) : list StoredBlock :=
  match fuel, limit with
  | S fuel, S room =>
      if hgt <? floor then []
      else match load_block d hgt with
      | Ok (Some sb) => sb :: (if hgt =? 0 then [] else blocks_walk fuel d floor room (hgt - 1))
      | _ => if hgt =? 0 then [] else blocks_walk fuel d floor limit (hgt - 1)
      end
  | _, _ => []
  end.
(** The blocks, newest first, with the range they are cut from. *)
Definition get_blocks (x : Store) (latest : Z) (before limit : option Z) : list StoredBlock * option (Z * Z) :=
  let earliest := x.(so_disk_min) in
  let hgt := Z.min (Z.max 0 (default u64_max before - 1)) latest in
  let floor := Z.max earliest 1 in
  (if earliest =? 0 then []
   else blocks_walk (Z.to_nat (hgt - floor + 1)) x.(so_log) floor (Z.to_nat (Z.min (default 20 limit) 50)) hgt,
   if (earliest =? 0) || (latest <? earliest) then None else Some (earliest, latest)).

(** [hk_getTx]: where a transaction is, its content and its receipt. *)
Definition get_tx (l : Ledger) (x : Store) (id : H256) : option (Z * Z * option SignedTx * option string) :=
  match l.(lg_index).(ix_tx) !! id with
  | Some (height, idx) =>
      let content :=
        match load_block x.(so_log) height with
        | Ok (Some sb) => b ← batch_decode sb.(sb_value_bytes); b.(b_txs) !! Z.to_nat idx
        | _ => None
        end in
      Some (height, idx, content, rlog_get id l.(lg_receipts))
  | None => None
  end.
(** [hk_getAccountTxs]: how many, and the newest of them. *)
Definition account_txs (l : Ledger) (id : AccountId) (limit : option Z) : Z * list (H256 * Z * string) :=
  let v := default [] (l.(lg_index).(ix_acct) !! id) in
  (Z.of_nat (length v),
   take (Z.to_nat (Z.min (default 25 limit) 100)) (sort_by (λ a b, b.1.2 <=? a.1.2) v)).
End reads.

(** * Paging *)

(** A wallet that follows [next] from [from], in pages of [limit]. *)
Fixpoint scan_feed {A} (fuel : nat) (feed : list FeedNote) (limit : option Z) (project : FeedNote → A) (from : Z)
    : option (list A) :=
  match fuel with
  | O => None
  | S fuel =>
      let page := page_of feed (Some from) limit project in
      match pg_next page with
      | None => Some (pg_items page)
      | Some next => app (pg_items page) <$> scan_feed fuel feed limit project next
      end
  end.
Definition page_limit (limit : option Z) : Z :=
  match limit with Some l => Z.max 1 (Z.min l POOL_PAGE_MAX) | None => POOL_PAGE_MAX end.
Lemma page_limit_bounds limit : 1 ≤ page_limit limit ≤ POOL_PAGE_MAX.
Proof. unfold page_limit, POOL_PAGE_MAX. destruct limit; lia. Qed.
Lemma scan_feed_run {A} feed limit (project : FeedNote → A) from n :
  0 ≤ from ≤ Z.of_nat (length feed) → Z.of_nat (length feed) - from ≤ Z.of_nat n * page_limit limit → (0 < n)%nat →
  scan_feed n feed limit project from = Some (project <$> drop (Z.to_nat from) feed).
Proof.
  revert from. induction n as [|n IH]; intros from Hf Hn Hpos; [lia|]. cbn [scan_feed].
  pose proof (page_limit_bounds limit) as Hl.
  unfold page_of, pool_page. cbn [default from_option]. rewrite (Z.min_l from) by lia. fold (page_limit limit).
  set (to := Z.min (from + page_limit limit) (Z.of_nat (length feed))).
  cbn [pg_next pg_items]. destruct (Z.ltb_spec to (Z.of_nat (length feed))) as [Hto|Hto].
  - assert (to = from + page_limit limit) as Eto by lia. rewrite IH by lia. cbn. f_equal.
    rewrite <-fmap_app. f_equal. replace (Z.to_nat to) with (Z.to_nat from + Z.to_nat (to - from))%nat by lia.
    rewrite <-drop_drop. apply take_drop.
  - rewrite take_ge; [done|]. rewrite length_drop. lia.
Qed.

(** A wallet that pages through a pool with the cursor the node returns reads every
    note exactly once, in order, whatever limit it asks for, and is done after as
    many calls as pages fit: one more than the feed's length over the page size. *)
Theorem paged_scan_is_the_feed {A} (feed : list FeedNote) limit (project : FeedNote → A) :
  let calls := Z.to_nat (Z.of_nat (length feed) / page_limit limit + 1) in
  scan_feed calls feed limit project 0 = Some (project <$> feed) ∧
  (∀ from, (length (pg_items (page_of feed from limit project)) ≤ Z.to_nat POOL_PAGE_MAX)%nat).
Proof.
  cbv zeta. pose proof (page_limit_bounds limit) as Hl. split.
  - rewrite scan_feed_run; [done|lia| |].
    + pose proof (Z.div_mod (Z.of_nat (length feed)) (page_limit limit)).
      pose proof (Z.mod_pos_bound (Z.of_nat (length feed)) (page_limit limit)).
      pose proof (Z.div_pos (Z.of_nat (length feed)) (page_limit limit)). nia.
    + pose proof (Z.div_pos (Z.of_nat (length feed)) (page_limit limit)). lia.
  - intros from. unfold page_of, pool_page. fold (page_limit limit). cbn [pg_items].
    rewrite length_fmap, length_take. lia.
Qed.

(** * The free checks *)

Section preflight.
Context {SHAKE : Shake} {ROOT : RootScheme}.

Lemma preflight_approvals_count set b seen acc l x :
  count_approvals set b seen acc l = Ok x → preflight_approvals set seen acc l = Ok x.
Proof.
  revert seen acc. induction l as [|a l IH]; intros seen acc; [by intros [= ->]|]. cbn [count_approvals preflight_approvals].
  destruct (existsb _ seen); [done|]. destruct (seat_of_root _ set) as [v|]; [|done].
  destruct (approval_verify a b) eqn:Ev; [|done]. unfold approval_verify in Ev.
  destruct (_ || _); [done|]. cbn. apply IH.
Qed.
Lemma preflight_seat root set : seated root set = true ↔ is_Some (seat_of_root root set).
Proof.
  unfold seated, seat_of_root. rewrite existsb_exists. split.
  - intros (v & Hv & Hp). destruct (find _ _) eqn:Ef; [done|]. rewrite Validators.find_none in Ef. rewrite <-list_elem_of_In in Hv. specialize (Ef v Hv). cbn in Ef, Hp. congruence.
  - intros [v Ef]. apply Validators.find_some in Ef as [Hv Hp]. exists v. split; [by apply list_elem_of_In|done].
Qed.
Lemma preflight_subject_ok set change height chain_id c set' :
  (sc_body c).(sb_change) = change →
  apply_set_change set c height chain_id = Ok (Some set') → preflight_subject set change = Ok tt.
Proof.
  intros <- H. unfold apply_set_change in H. destruct (set_change_verify_against _ _ _) as [[]| |]; [|done..].
  cbn [bindR] in H. destruct (in_window c height); [|done]. cbn [negb] in H. unfold preflight_subject.
  destruct (sb_change (sc_body c)) as [root pk power|root|root power].
  - unfold change_admit in H. destruct (seated root set); [done|]. cbn [refuseR bindR].
    cbn [v_address validator_new] in H. by destruct (existsb _ _).
  - unfold change_remove in H. destruct (seated root set) eqn:Es; [|done]. cbn [negb refuseR bindR] in *.
    destruct (Z.eqb_spec (set_len set) 1) as [E1|]; [|done]. exfalso. unfold set_len in E1.
    apply preflight_seat in Es as [v Hv]. unfold seat_of_root in Hv. apply Validators.find_some in Hv as [Hv Hp].
    destruct (validators set) as [|w [|? ?]]; [done| |cbn in E1; lia]. apply list_elem_of_singleton in Hv as ->.
    apply bool_decide_eq_true in Hp. rewrite filter_cons_False in H by (by intros ?). cbn in H. done.
  - unfold change_power in H. destruct (seat_of_root root set) as [v|]; [|done]. cbn [ok_orR bindR].
    by destruct (_ =? _).
Qed.

(** The doors refuse for free only what consensus refuses.  A rotation that the rule
    of the next height accepts passes its preflight, and so does a set change that
    would change the set at some height from the tip to the horizon: each is either
    queued already or goes on to the verification. *)
Theorem free_checks_refuse_no_valid_cert :
  (∀ set queue rules cert set',
     apply_rotation set cert rules = Ok set' →
     ∃ p, rotation_preflight set queue rules cert = Ok p) ∧
  (∀ set queue chain_id tip height cert set',
     apply_set_change set cert height chain_id = Ok (Some set') →
     tip ≤ height ≤ sat_add u64_max tip SET_CHANGE_HORIZON →
     ∃ p, set_change_preflight set queue chain_id tip cert = Ok p).
Proof.
  split.
  - intros set queue rules cert set' H. unfold rotation_preflight, apply_rotation in *.
    destruct (seat_of_root _ set) as [v|]; [|done]. cbn [ok_orR bindR]. unfold rotation_verify_against in H.
    destruct (bool_decide _); [|done]. cbn [negb] in H. unfold check_epoch in H.
    destruct (Z.leb_spec (rc_epoch cert) (v_epoch v)); [done|]. cbn [refuseR bindR] in *.
    destruct (check_window cert rules) as [[]| |]; [|done..]. cbn [map_err bindR].
    assert (byte_len cert.(rc_root_sig) =? ROOT_SIG_LEN = true) as ->; [|destruct (existsb _ _); by eexists].
    assert (∀ d id, verify_sig cert d id = true → byte_len cert.(rc_root_sig) =? ROOT_SIG_LEN = true) as Hv.
    { intros d id. unfold verify_sig. destruct (byte_len (rc_root_pk cert) =? _), (byte_len (rc_root_sig cert) =? _); done. }
    destruct (rr_domain rules).
    + destruct (verify_sig cert RotV1 "") eqn:E; [by eapply Hv|done].
    + destruct (verify_sig cert RotV2 _) eqn:E; [by eapply Hv|by destruct (verify_sig cert RotV1 "")].
  - intros set queue chain_id tip height cert set' H Hh. pose proof (preflight_subject_ok _ _ _ _ _ _ eq_refl H) as Hsub.
    unfold apply_set_change in H. destruct (set_change_verify_against cert set chain_id) as [[]| |] eqn:Ev; [|done..].
    cbn [bindR] in H. destruct (in_window cert height) eqn:Ew; [|done]. clear H.
    unfold in_window in Ew. apply andb_prop in Ew as [H1%Z.leb_le H2%Z.leb_le].
    unfold set_change_verify_against in Ev. unfold set_change_preflight.
    destruct (check_shape _) as [[]| |]; [|done..]. cbn [map_err bindR] in *.
    destruct (bool_decide (sb_chain_id (sc_body cert) = chain_id)); [|done]. cbn [negb refuseR bindR] in *.
    rewrite (proj2 (Z.ltb_ge _ _)) by lia. cbn [refuseR bindR].
    rewrite (proj2 (Z.ltb_ge _ _)) by lia. cbn [refuseR bindR].
    destruct (bool_decide (sc_approvals cert = [])); [done|]. cbn [refuseR bindR].
    destruct (count_approvals _ _ _ _ _) as [n| |] eqn:Ec; [|done..]. cbn [bindR] in Ev.
    rewrite (preflight_approvals_count _ _ _ _ _ _ Ec). cbn [bindR].
    destruct (_ <=? _); [done|]. cbn [refuseR bindR]. rewrite Hsub. cbn [bindR]. destruct (existsb _ _); by eexists.
Qed.
End preflight.

(** * The queues *)

Section queues.
Context {SHAKE : Shake} {ROOT : RootScheme} {HSS : Hss} {STX : StxCodec}.

(** One certificate for a root, one for a change. *)
Record doors_ok (s : Seats) : Prop := mkDoorsOk {
  do_roots : NoDup (rc_root_pk <$> s.(se_foreign_rotations));
  do_bodies : NoDup (sc_body <$> s.(se_pending_changes));
}.
(** What waits to be bundled: a block's worth of transactions that an aggregate
    covers, each aggregate once, and not more bundles than the bound. *)
Record bundles_ok (l : Ledger) : Prop := mkBundlesOk {
  bu_count : Z.of_nat (length l.(lg_bundles)) ≤ BUNDLE_QUEUE_MAX;
  bu_proofs : NoDup (snd <$> l.(lg_bundles));
  bu_txs b : b ∈ l.(lg_bundles) →
    Z.of_nat (length b.1) ≤ MAX_TXS_PER_BLOCK ∧ Forall (λ t, proof_less_pool_tx t = true) b.1;
}.

Lemma NoDup_fmap_filter {A B} (f : A → B) (P : A → Prop) `{!∀ x, Decision (P x)} l :
  NoDup (f <$> l) → NoDup (f <$> filter P l).
Proof. intros Hl. eapply sublist_NoDup; [exact Hl|]. apply fmap_sublist, sublist_filter. Qed.
Lemma NoDup_snoc {A} (l : list A) x : NoDup l → x ∉ l → NoDup (l ++ [x]).
Proof. intros Hl Hx. apply NoDup_app. split_and!; [done| |apply NoDup_singleton]. intros y Hy ->%list_elem_of_singleton. done. Qed.

Lemma preflight_verify {E} (r : res E Preflight) : preflight_reply r = None → r ≠ Panic → r = Ok PVerify.
Proof. by destruct r as [[]| |]. Qed.
Lemma rotation_preflight_verify set queue rules cert x :
  rotation_preflight set queue rules cert = Ok PVerify → x ∈ queue → x.(rc_root_pk) = cert.(rc_root_pk) →
  x.(rc_epoch) < cert.(rc_epoch).
Proof.
  unfold rotation_preflight. destruct (ok_orR _ _); [|done..]. cbn [bindR]. do 1 (destruct (refuseR _ _); [|done..]; cbn [bindR]).
  destruct (map_err _ _); [|done..]. cbn [bindR]. destruct (refuseR _ _); [|done..]. cbn [bindR].
  destruct (existsb _ queue) eqn:Ex; [done|]. intros _ Hx Hr.
  destruct (Z.lt_ge_cases (rc_epoch x) (rc_epoch cert)) as [|Hge]; [done|]. exfalso.
  assert (existsb (λ x, bool_decide (x.(rc_root_pk) = cert.(rc_root_pk)) && (cert.(rc_epoch) <=? x.(rc_epoch))) queue = true)
    as E; [|congruence].
  apply existsb_exists. exists x. split; [by apply list_elem_of_In|]. rewrite bool_decide_eq_true_2 by done.
  by apply Z.leb_le.
Qed.
Lemma map_err_calm {E E' A} (f : E → E') (r : res E A) : r ≠ Panic → map_err f r ≠ Panic.
Proof. by destruct r. Qed.
Lemma rotation_preflight_calm set queue rules cert : rotation_preflight set queue rules cert ≠ Panic.
Proof.
  unfold rotation_preflight. repeat (apply bindR_calm; [first [apply map_err_calm; unfold check_window; calm|calm]|intros ?]). calm.
Qed.
Lemma queue_rotation_ok rules cert s s' r :
  doors_ok s → queue_rotation rules cert s = (s', Ok r) →
  doors_ok s' ∧ (r = Accepted true → cert ∈ s'.(se_foreign_rotations)) ∧ s'.(se_validators) = s.(se_validators).
Proof.
  intros D. unfold queue_rotation. rewrite run_get. destruct (preflight_reply _) as [reply|] eqn:Er.
  { intros [= <- <-]. split_and!; [done| |done]. intros ->. unfold preflight_reply in Er. by repeat case_match. }
  apply preflight_verify in Er; [|apply rotation_preflight_calm]. rewrite run_modify. intros [= <- <-].
  split_and!; [|intros _; cbn; apply elem_of_app; right; by left|done]. destruct D as [D1 D2]. constructor; [|done].
  cbn. rewrite fmap_app. apply NoDup_snoc; [by apply NoDup_fmap_filter|].
  intros (x & Hr & Hx)%list_elem_of_fmap. unfold retire_older in Hx. apply list_elem_of_filter in Hx as [Hn Hx].
  apply Hn. split; [by symmetry|]. by eapply rotation_preflight_verify.
Qed.
Lemma queue_rotation_run rules cert s : ∃ s' r, queue_rotation rules cert s = (s', Ok r).
Proof. unfold queue_rotation. rewrite run_get. destruct (preflight_reply _); by eexists _, _. Qed.
Lemma set_change_preflight_verify set queue chain_id tip cert :
  set_change_preflight set queue chain_id tip cert = Ok PVerify → sc_body cert ∉ sc_body <$> queue.
Proof.
  unfold set_change_preflight. do 5 (destruct (map_err _ _) || destruct (refuseR _ _); [|done..]; cbn [bindR]).
  destruct (preflight_approvals _ _ _ _); [|done..]. cbn [bindR]. destruct (refuseR _ _); [|done..]. cbn [bindR].
  destruct (preflight_subject _ _); [|done..]. cbn [bindR]. destruct (existsb _ queue) eqn:Ex; [done|]. intros _.
  intros (x & Hb & Hx)%list_elem_of_fmap.
  assert (existsb (λ x, bool_decide (x.(sc_body) = sc_body cert)) queue = true) as E; [|congruence].
  apply existsb_exists. exists x. split; [by apply list_elem_of_In|]. by apply bool_decide_eq_true_2.
Qed.
Lemma preflight_approvals_calm set seen acc l : preflight_approvals set seen acc l ≠ Panic.
Proof.
  revert seen acc. induction l as [|a l IH]; intros seen acc; [done|]. cbn [preflight_approvals]. 
  repeat (apply bindR_calm; [calm|intros ?]). apply IH.
Qed.
Lemma set_change_preflight_calm set queue chain_id tip cert : set_change_preflight set queue chain_id tip cert ≠ Panic.
Proof.
  unfold set_change_preflight. pose proof (preflight_approvals_calm set [] 0 (sc_approvals cert)).
  apply bindR_calm; [apply map_err_calm; unfold check_shape; calm|intros ?].
  repeat (apply bindR_calm; [first [done|apply refuseR_calm|unfold preflight_subject; calm]|intros ?]). calm.
Qed.
Lemma queue_set_change_ok chain_id tip cert s s' r :
  doors_ok s → queue_set_change chain_id tip cert s = (s', Ok r) →
  doors_ok s' ∧ (r = Accepted true → cert ∈ s'.(se_pending_changes)) ∧ s'.(se_validators) = s.(se_validators).
Proof.
  intros D. unfold queue_set_change. rewrite run_get. destruct (preflight_reply _) as [reply|] eqn:Er.
  { intros [= <- <-]. split_and!; [done| |done]. intros ->. unfold preflight_reply in Er. by repeat case_match. }
  apply preflight_verify in Er; [|apply set_change_preflight_calm]. rewrite run_modify. intros [= <- <-].
  split_and!; [|intros _; cbn; apply elem_of_app; right; by left|done]. destruct D as [D1 D2]. constructor; [done|].
  cbn. rewrite fmap_app. apply NoDup_snoc; [done|]. by eapply set_change_preflight_verify.
Qed.

Lemma bundle_shape_ok txs :
  bundle_shape_verdict txs = Ok tt →
  Z.of_nat (length txs) ≤ MAX_TXS_PER_BLOCK ∧ Forall (λ t, proof_less_pool_tx t = true) txs.
Proof.
  unfold bundle_shape_verdict. destruct (Z.ltb_spec MAX_TXS_PER_BLOCK (Z.of_nat (length txs))); [done|].
  destruct (list_find _ _) as [[i t]|] eqn:Ef; [done|]. intros _. split; [lia|].
  apply list_find_None in Ef. eapply Forall_impl; [exact Ef|]. intros t Ht. cbn in Ht.
  by destruct (proof_less_pool_tx t).
Qed.
Lemma submit_bundle_ok txs agg l l' r :
  bundles_ok l → submit_bundle txs agg l = (l', Ok r) →
  bundles_ok l' ∧ (∀ ids, r = inr ids → (txs, agg) ∈ l'.(lg_bundles)).
Proof.
  intros B. unfold submit_bundle. destruct (_ || _); [by intros [= <- <-]|].
  destruct (bundle_shape_verdict txs) as [[]|e|] eqn:Es; [|by intros [= <- <-]|done].
  rewrite run_get. destruct (Z.leb_spec BUNDLE_QUEUE_MAX (Z.of_nat (length (lg_bundles l)))); [by intros [= <- <-]|].
  destruct (existsb _ (lg_bundles l)) eqn:Ex; [by intros [= <- <-]|].
  intros Hrun. apply bindM_ok in Hrun as (l1 & ids & Hids & Hrun). unfold readM in Hids.
  apply pair_equal_spec in Hids as [<- _]. rewrite run_modify in Hrun. injection Hrun as <- <-.
  split; [|intros _ _; cbn; apply elem_of_app; right; by left].
  destruct B as [B1 B2 B3]. constructor; cbn.
  - rewrite length_app. cbn. lia.
  - rewrite fmap_app. apply NoDup_snoc; [done|]. intros (b & Hb & Hin)%list_elem_of_fmap.
    assert (existsb (λ b, bool_decide (b.2 = agg)) (lg_bundles l) = true) as E; [|congruence].
    apply existsb_exists. exists b. split; [by apply list_elem_of_In|]. by apply bool_decide_eq_true_2.
  - intros b [Hb| ->%list_elem_of_singleton]%elem_of_app; [by apply B3|]. by apply bundle_shape_ok.
Qed.
(** No bundle carries a settlement, so none spends the proposer's budget of links. *)
Lemma bundle_links_zero chain l : bundles_ok l → bundle_links chain (bundle_ahead l).1 = 0.
Proof.
  intros B. unfold bundle_ahead. destruct (lg_bundles l) as [|[btxs agg] bs] eqn:Eb; [done|].
  destruct (bu_txs l B (btxs, agg)) as [_ Hf]; [rewrite Eb; by left|]. cbn [fst] in Hf.
  destruct (_ <=? _); [|done]. unfold bundle_links. cbn [fst].
  assert (omap (λ t, match stx_payload t with Tx.ChannelSettle id _ step => Some (settle_cost chain id step) | _ => None end)
            btxs = []) as ->; [|done].
  clear Eb. induction Hf as [|t ts Ht _ IH]; [done|]. cbn. unfold proof_less_pool_tx in Ht.
  destruct (stx_payload t); try done; exact IH.
Qed.

(** What strangers post stays bounded and verified.  Whatever the rest of the node
    does while a certificate is being verified, the queue of foreign rotations holds
    one certificate for a root and that of set changes one for a change; an
    accepted certificate is in its queue and was verified against the set of its
    submission; the bundle queue stays within its bound, each aggregate once,
    with nothing but pool transactions that the aggregate covers. *)
Theorem doors_keep_queues :
  (∀ rules free between cert s s' r,
     doors_ok s → (∀ x, doors_ok x → doors_ok (between x)) →
     submit_rotation rules free between cert s = (s', Ok r) →
     doors_ok s' ∧ (r = Accepted true →
       cert ∈ s'.(se_foreign_rotations) ∧ ∃ set', apply_rotation s.(se_validators) cert rules = Ok set')) ∧
  (∀ chain_id tip free between cert s s' r,
     doors_ok s → (∀ x, doors_ok x → doors_ok (between x)) →
     submit_set_change chain_id tip free between cert s = (s', Ok r) →
     doors_ok s' ∧ (r = Accepted true →
       cert ∈ s'.(se_pending_changes) ∧ set_change_verify_against cert s.(se_validators) chain_id = Ok tt)) ∧
  (∀ txs agg l l' r,
     bundles_ok l → submit_bundle txs agg l = (l', Ok r) →
     bundles_ok l' ∧ (∀ ids, r = inr ids → (txs, agg) ∈ l'.(lg_bundles)) ∧
     ∀ chain, bundle_links chain (bundle_ahead l').1 = 0).
Proof.
  assert (∀ E (r : res E Preflight), preflight_reply r ≠ Some (Accepted true)) as Hpre by (intros E r; by destruct r as [[]| |]).
  split; [|split].
  - intros rules free between cert s s' r D Hb. unfold submit_rotation. rewrite run_get. cbv zeta.
    destruct (preflight_reply _) as [reply|] eqn:Er.
    { intros [= <- <-]. split; [done|]. intros ->. by apply Hpre in Er. }
    destruct (negb free); [by intros [= <- <-]|]. destruct (apply_rotation _ cert rules) as [set'| |]; [|by intros [= <- <-]|done].
    rewrite run_modify. intros (D' & Hin & _)%queue_rotation_ok; [|by apply Hb]. split; [done|]. intros Hr. eauto.
  - intros chain_id tip free between cert s s' r D Hb. unfold submit_set_change. rewrite run_get. cbv zeta.
    destruct (preflight_reply _) as [reply|] eqn:Er.
    { intros [= <- <-]. split; [done|]. intros ->. by apply Hpre in Er. }
    destruct (negb free); [by intros [= <- <-]|].
    destruct (set_change_verify_against cert _ chain_id) as [[]| |]; [|by intros [= <- <-]|done].
    rewrite run_modify. intros (D' & Hin & _)%queue_set_change_ok; [|by apply Hb]. split; [done|]. intros Hr. eauto.
  - intros txs agg l l' r B Hrun. assert (bundles_ok l' ∧ (∀ ids, r = inr ids → (txs, agg) ∈ l'.(lg_bundles))) as [B' Hin].
    { by eapply submit_bundle_ok. }
    split_and!; [done|done|]. intros chain. by apply bundle_links_zero.
Qed.
End queues.

(** * Witnesses *)

Module Sample.
#[local] Existing Instances toy_shake toy_sha2 toy_root toy_hss toy_stx.
Definition set : HkValidatorSet := SampleSet.set.
Definition rotation : RotationCert := Governance.Sample.rotation x03 1.
Definition admission : SetChangeCert := Governance.Sample.admit_cert.
Definition rules : RotationRules := Governance.Sample.rules.
Definition seats : Seats := Seats.Sample.seats set.
(** While the rotation is verified, another request queues a newer one. *)
Definition newer (s : Seats) : Seats := (queue_rotation rules (Governance.Sample.rotation x03 2) s).1.
Definition mint : SignedTx := mkSignedTx (id_of 1) 0 (Tx.MintToPool (id_of 2) 5 (id_of 3) [] []) (id_of 4) [] [].
Definition ledger : Ledger :=
  mkLedger state_default None (rlog_new 1) [] ∅ (mempool_default None) [] (mkSearchIndex ∅ ∅).
End Sample.
#[local] Existing Instances toy_shake toy_sha2 toy_root toy_hss toy_stx.

Lemma free_checks_refuse_no_valid_cert_witness :
  (∃ p, rotation_preflight Sample.set [] Sample.rules Sample.rotation = Ok p) ∧
  ∃ p, set_change_preflight Sample.set [] "chain" 10 Sample.admission = Ok p.
Proof.
  destruct free_checks_refuse_no_valid_cert as [H1 H2]. split.
  - apply (H1 _ _ _ _ sample_rotated). exact sample_rotation.
  - apply (H2 _ _ _ _ 10 _ Governance.sample_admitted); [exact sample_admission|]. vm_compute. split; discriminate.
Defined.
(** The three requests, their replies and what they leave. *)
#[local] Notation sample_rotation_run := (submit_rotation Sample.rules true Sample.newer Sample.rotation Sample.seats).
#[local] Notation sample_change_run := (submit_set_change "chain" 10 true id Sample.admission Sample.seats).
#[local] Notation sample_bundle_run := (submit_bundle [Sample.mint] [x01] Sample.ledger).
Lemma sample_rotation_reply : sample_rotation_run = (sample_rotation_run.1, Ok (Accepted false)).
Proof. rewrite (surjective_pairing sample_rotation_run) at 1. apply (f_equal (pair _)). vm_compute. reflexivity. Qed.
Lemma sample_change_reply : sample_change_run = (sample_change_run.1, Ok (Accepted true)).
Proof. rewrite (surjective_pairing sample_change_run) at 1. apply (f_equal (pair _)). vm_compute. reflexivity. Qed.
Lemma sample_bundle_reply : ∃ ids, sample_bundle_run = (sample_bundle_run.1, Ok (inr ids)).
Proof. eexists. rewrite (surjective_pairing sample_bundle_run) at 1. apply (f_equal (pair _)). vm_compute. reflexivity. Qed.
Lemma sample_newer_ok x : doors_ok x → doors_ok (Sample.newer x).
Proof.
  intros Dx. unfold Sample.newer.
  destruct (queue_rotation_run Sample.rules (Governance.Sample.rotation x03 2) x) as (x' & r & Hr).
  rewrite Hr. by destruct (queue_rotation_ok _ _ _ _ _ Dx Hr).
Qed.
Lemma doors_keep_queues_witness :
  doors_ok sample_rotation_run.1 ∧ Sample.admission ∈ sample_change_run.1.(se_pending_changes) ∧
  ([Sample.mint], [x01]) ∈ sample_bundle_run.1.(lg_bundles).
Proof.
  assert (doors_ok Sample.seats) as D by (constructor; apply NoDup_nil_2).
  assert (bundles_ok Sample.ledger) as B.
  { constructor; [discriminate|apply NoDup_nil_2|]. intros b Hb. by apply elem_of_nil in Hb. }
  destruct doors_keep_queues as (H1 & H2 & H3). split; [|split].
  - exact (proj1 (H1 Sample.rules true Sample.newer Sample.rotation Sample.seats _ _ D sample_newer_ok sample_rotation_reply)).
  - exact (proj1 (proj2 (H2 "chain" 10 true id Sample.admission Sample.seats _ _ D (λ x Dx, Dx) sample_change_reply) eq_refl)).
  - destruct sample_bundle_reply as [ids Hr]. exact (proj1 (proj2 (H3 [Sample.mint] [x01] Sample.ledger _ _ B Hr)) ids eq_refl).
Defined.
