(* ===== verification/Explorer.v ===== *)
(** Blocks and transactions as the node tells them in JSON (tx_summary, hk_getBlock
    and hk_getTx of hk-node/src/rpc.rs), and the two that believe it: the bridge's
    scan for burns and the co-signer (cosign_one of hk-node/src/attest.rs). *)

From S2P Require Import Signer Toy Ledger.
From S2P Require Export Bridge Door.
#[local] Open Scope Z_scope.

(** * JSON of a transaction *)

Definition vhex (h : H256) : Value := VStr (hex (h256_bytes h)).
Definition vbytes (b : bytes) : Value := VStr (hex b).
Definition vamount (a : Amount) : Value := VStr (pretty a).
Definition vopt {A} (f : A → Value) (o : option A) : Value := match o with Some a => f a | None => VNull end.
Definition is_empty (b : bytes) : bool := match b with [] => true | _ => false end.
(** A text of ASCII characters given by their codes. *)
Definition text_of (l : list Z) : string := foldr (λ c s, String (Ascii.ascii_of_N (Z.to_N c)) s) EmptyString l.
Definition tx_fields (tx : Tx) : list (string * Value) :=
  match tx with
  | Tx.Transfer to asset amount => [("to", vhex to); ("asset", vhex asset); ("amount", vamount amount)]
  | Tx.MandateCreate id parent holder _ _ _ _ _ _ _ => [("id", vhex id); ("parent", vopt vhex parent); ("holder", vhex holder)]
  | Tx.MandateSpend leaf to amount => [("leaf", vhex leaf); ("to", vhex to); ("amount", vamount amount)]
  | Tx.MandateRevoke target => [("target", vhex target)]
  | Tx.ChannelOpen id _ payee _ _ unit_price max_steps _ =>
      [("id", vhex id); ("payee", vhex payee); ("unit_price", vamount unit_price); ("max_steps", VNum max_steps)]
  | Tx.ChannelSettle id _ step => [("id", vhex id); ("step", VNum step)]
  | Tx.ChannelRefund id => [("id", vhex id)]
  | Tx.MintToPool _ value commitment proof _ =>
      [("value", vamount value); ("commitment", vhex commitment); ("via_aggregate", VBool (is_empty proof))]
  | Tx.ShieldedSpend _ nullifier _ _ fee credit mandate proof _ _ =>
      [("nullifier", vhex nullifier); ("fee", vamount fee); ("credit", vopt vhex credit); ("mandate", vopt vhex mandate);
       ("via_aggregate", VBool (is_empty proof))]
  | Tx.AccountCreate id _ asset amount => [("id", vhex id); ("asset", vhex asset); ("amount", vamount amount)]
  | Tx.AssetRegister asset symbol decimals policy =>
      [("asset", vhex asset); ("symbol", VStr symbol); ("decimals", VNum decimals); ("policy", VStr (text_of (flags policy)))]
  | Tx.AssetMint asset to amount => [("asset", vhex asset); ("to", vhex to); ("amount", vamount amount)]
  | Tx.AssetBurn asset amount destination =>
      [("asset", vhex asset); ("amount", vamount amount); ("destination", vbytes destination)]
  | Tx.AssetFreeze asset account frozen => [("asset", vhex asset); ("account", vhex account); ("frozen", VBool frozen)]
  | Tx.AssetPause asset paused => [("asset", vhex asset); ("paused", VBool paused)]
  end.
Definition found_nothing : Value := VObj [("result", VObj [("found", VBool false)])].
Definition error_reply (e : string) : Value := VObj [("error", VStr e)].

Section explorer.
Context {SHAKE : Shake} {STX : StxCodec} {BLOCK : BlockWire} {BATCH : BatchWire}.

(** [tx_summary]; [txid] of a transaction that does not encode would panic. *)
Definition summary (tx : SignedTx) : list (string * Value) :=
  [("txid", vhex (stx_id tx)); ("sender", vhex tx.(stx_sender)); ("nonce", VNum tx.(stx_nonce));
   ("kind", VStr (tx_kind tx.(stx_payload))); ("fields", VObj (tx_fields tx.(stx_payload)))].
Definition receipt_json (r : option string) : Value :=
  match r with
  | Some d => VObj [("found", VBool true); ("ok", VBool (starts_with "ok" d)); ("detail", VStr d)]
  | None => VObj [("found", VBool false)]
  end.
(** A transaction of [hk_getBlock]. *)
Definition tx_json (rl : ReceiptLog) (tx : SignedTx) : Value :=
  VObj (summary tx ++ [("receipt", receipt_json (rlog_get (stx_id tx) rl))]).
Definition change_json (c : SetChangeCert) : Value :=
  let '(kind, root, power) :=
    match c.(sc_body).(sb_change) with
    | Admit root _ p => ("admit", root, Some p)
    | Remove root => ("remove", root, None)
    | SetPower root p => ("set_power", root, Some p)
    end in
  VObj [("change", VStr kind); ("root_pk", vbytes root); ("voting_power", vopt VNum power);
        ("approvals", VNum (Z.of_nat (length c.(sc_approvals)))); ("not_before", VNum c.(sc_body).(sb_not_before));
        ("not_after", VNum c.(sc_body).(sb_not_after))].
Definition block_json (rl : ReceiptLog) (chain_start : Z) (sb : StoredBlock) : Value :=
  let batch := batch_decode sb.(sb_value_bytes) in
  let txs := batch_txs batch in
  VObj [("result", VObj
    [("found", VBool true); ("height", VNum sb.(sb_height)); ("time", VNum (wrapping u64_max (chain_start + sb.(sb_height))));
     ("parent_app_hash", vopt (λ b, vhex b.(b_parent)) batch); ("tx_count", VNum (Z.of_nat (length txs)));
     ("txs", VArr (tx_json rl <$> txs));
     ("aggregate", VObj [("present", VBool match batch with Some b => negb (is_empty b.(b_agg_proof)) | None => false end);
                         ("verified", VBool sb.(sb_agg_valid))]);
     ("rotations", VNum match batch with Some b => Z.of_nat (length b.(b_rotations)) | None => 0 end);
     ("set_changes", VArr match batch with Some b => change_json <$> b.(b_set_changes) | None => [] end);
     ("certificate", VObj [("round", VNum (round_as_i64 sb.(sb_certificate).(rc_round)));
                           ("value_id", vhex sb.(sb_certificate).(rc_value_id));
                           ("signatures", VNum (Z.of_nat (length sb.(sb_certificate).(rc_signatures))))])])].
(** [hk_getBlock], with the store if the node has one. *)
Definition get_block (rl : ReceiptLog) (chain_start : Z) (store : option Store) (height : option Z) : Value :=
  match store, height with
  | None, _ => error_reply "persistence disabled on this node (HK_NO_PERSIST)"
  | _, None => error_reply "height (number) required"
  | Some s, Some h =>
      match load_block s.(so_log) h with
      | Ok (Some sb) => block_json rl chain_start sb
      | Ok None => found_nothing
      | _ => error_reply "block load failed (see node log)"
      end
  end.
(** [param_h256] and [hk_getTx] *)
Definition param_h256 (params : Value) (key : string) : option H256 := (vget key params ≫= vstr) ≫= h256_of_hex.
Definition get_tx_json (l : Ledger) (x : Store) (params : Value) : Value :=
  match param_h256 params "txid" with
  | Some id =>
      match get_tx l x id with
      | Some (height, idx, tx, receipt) =>
          VObj [("result", VObj
            [("found", VBool true); ("txid", vhex id); ("height", VNum height); ("index", VNum idx);
             ("summary", vopt (λ t, VObj (summary t)) tx); ("receipt", vopt VStr receipt)])]
      | None => found_nothing
      end
  | None => error_reply "txid must be 64-char hex"
  end.
End explorer.

(** * The co-signer *)

Record CosignCfg := mkCosignCfg { cc_usdc : string; cc_hkt : option string }.
Definition lower_char (c : Ascii.ascii) : Ascii.ascii :=
  let n := Ascii.N_of_ascii c in if ((65 <=? n) && (n <=? 90))%N then Ascii.ascii_of_N (n + 32) else c.
Fixpoint lower (s : string) : string := match s with String c s => String (lower_char c) (lower s) | EmptyString => EmptyString end.

Section cosigner.
Context {KECCAK : Keccak} {SECP : Secp}.
Definition text_field (k : string) (v : Value) : string := default "" (vget k v ≫= vstr).
(** The independent check of [cosign_one]: the burn exists, was accepted and says
    exactly this. *)
Definition check_burn (asset : string) (to : Address) (amount : Z) (reply : Value) : res string unit :=
  let? r := ok_orR (vget "result" reply) "hk_getTx: no result" in
  if negb (bool_decide (vget "found" r ≫= vbool = Some true)) then Err "burn not found on my HashKinetics node" else
  let? s := ok_orR (vget "summary" r) "no summary" in
  if negb (bool_decide (vget "kind" s ≫= vstr = Some "asset_burn")) then Err "not an asset_burn" else
  let? f := ok_orR (vget "fields" s) "no fields" in
  if negb (bool_decide (vget "asset" f ≫= vstr = Some asset)) then Err "asset mismatch" else
  let? amt := ok_orR ((vget "amount" f ≫= vstr) ≫= parse_u128) "amount field" in
  if negb (amt =? amount) then Err "amount mismatch" else
  if negb (bool_decide (lower (text_field "destination" f) = hex (address_bytes to))) then Err "destination mismatch" else
  if negb (starts_with "ok" (text_field "receipt" r)) then Err "burn was not accepted by the chain" else Ok tt.
(** [cosign_one]: the request, and the reply of the co-signer's own node to the
    question for the transaction of its id. *)
Definition cosign_one (cfg : CosignCfg) (sg : EthSigner) (vault : H256) (wrapped : option H256) (req : Value)
    (ask : Value → Value) : res string Value :=
  let kind := text_field "kind" req in
  let? to := ok_orR (address_parse (text_field "to" req)) "address" in
  let? amount := ok_orR ((vget "amount" req ≫= vstr) ≫= parse_u128) "amount" in
  let id_hex := text_field "id" req in
  let? id_b := ok_orR (hex_decode id_hex) "hex" in
  let? id := match h256_try_from id_b with Ok h => Ok h | _ => Err "id must be 32 bytes" end in
  let? what :=
    (if bool_decide (kind = "burn") then Ok (vault, UNLOCK_TYPE, cfg.(cc_usdc))
     else if bool_decide (kind = "wlock") then
       let? d := ok_orR wrapped "no wrapped contract configured" in
       let? a := ok_orR cfg.(cc_hkt) "no hkt asset configured" in
       Ok (d, MINT_TYPE, a)
     else Err "kind must be burn|wlock") in
  let '(domain, type_sig, asset) := what in
  let? _ := check_burn asset to amount (ask (VObj [("txid", VStr id_hex)])) in
  let digest := typed_digest domain (attest_struct_hash type_sig to amount id) in
  let? _ :=
    match vget "digest" req ≫= vstr with
    | Some d => let? d := ok_orR (unhex d) "hex" in
                if bool_decide (d = h256_bytes digest) then Ok tt else Err "digest mismatch"
    | None => Ok tt
    end in
  let? sig := ok_orR (sign_digest sg digest) "sign" in
  Ok (VObj [("sig", VStr (hex0x sig)); ("address", VStr (hex0x (address_bytes sg.(sg_address))))]).
End cosigner.

(** * What the readers make of it *)

Lemma lower_hex b : lower (hex b) = hex b.
Proof.
  assert (H : ∀ n, lower_char (hex_digit (n mod 16)) = hex_digit (n mod 16)).
  { intros n. assert (n mod 16 < 16)%N by (by apply N.mod_lt). revert H. generalize (n mod 16)%N. intros m Hm.
    assert (m = 0 ∨ m = 1 ∨ m = 2 ∨ m = 3 ∨ m = 4 ∨ m = 5 ∨ m = 6 ∨ m = 7 ∨ m = 8 ∨ m = 9 ∨ m = 10 ∨ m = 11 ∨
      m = 12 ∨ m = 13 ∨ m = 14 ∨ m = 15)%N as E by lia.
    by repeat destruct E as [->|E]; subst. }
  induction b as [|x b IH]; [done|]. cbn [hex lower]. rewrite IH, H. by destruct x.
Qed.

(** ** Fields of objects written out *)

Lemma vfield_here k v l : vfield k ((k, v) :: l) = Some v.
Proof. cbn. by rewrite bool_decide_eq_true_2. Qed.
Lemma vfield_next k k' v l : bool_decide (k' = k) = false → vfield k ((k', v) :: l) = vfield k l.
Proof. cbn. by intros ->. Qed.
(** Read fields of objects written out. *)
Ltac vfields :=
  unfold vget; cbn [app];
  repeat first
    [ rewrite vfield_here | rewrite vfield_next by reflexivity
    | progress cbn [mbind option_bind vstr vbool vu64 varr default from_option id ok_orR bindR vopt] ].

Section readers.
Context {SHAKE : Shake} {STX : StxCodec} {BLOCK : BlockWire} {BATCH : BatchWire} {KECCAK : Keccak} {SECP : Secp}.

(** What the bridge is to see of a transaction: a burn of its asset, unless the
    node's receipt says it was refused. *)
Definition burn_seen (rl : ReceiptLog) (asset : AssetId) (tx : SignedTx) : option (string * Z * string * BurnClass) :=
  match tx.(stx_payload) with
  | Tx.AssetBurn a amount destination =>
      if bool_decide (a = asset) then
        class ← match rlog_get (stx_id tx) rl with
                | Some d => if starts_with "ok" d then Some BurnOk else None
                | None => Some BurnUnknown
                end;
        Some (hex (h256_bytes (stx_id tx)), amount, hex destination, class)
      else None
  | _ => None
  end.
Definition burn_fits (tx : SignedTx) : Prop :=
  match tx.(stx_payload) with Tx.AssetBurn _ amount _ => 0 ≤ amount ≤ u128_max | _ => True end.
Lemma vstr_vhex (a b : H256) : (vstr (vhex a) = Some (hex (h256_bytes b))) ↔ a = b.
Proof.
  split; [|by intros ->]. intros H. injection H as H. apply (inj hex) in H. by apply h256_eq.
Qed.
Lemma burn_of_json rl asset tx : burn_fits tx → burn_of (hex (h256_bytes asset)) (tx_json rl tx) = burn_seen rl asset tx.
Proof.
  intros Hf. unfold burn_of, burn_seen, burn_fits in *. unfold tx_json, summary.
  destruct (stx_payload tx) as [| | | | | | | | | | | |a amount destination| |]; try done; cbn [tx_kind tx_fields]; vfields; try done.
  rewrite bool_decide_eq_true_2 by done. cbn [negb].
  rewrite (bool_decide_ext _ (a = asset)) by exact (vstr_vhex a asset). case_bool_decide; cbn [negb]; [|done].
  unfold burn_class, vamount, vhex, vbytes, parse_u128. vfields. rewrite parse_pretty by done. destruct (rlog_get (stx_id tx) rl) as [d|]; cbn [receipt_json]; vfields; [|done].
  by destruct (starts_with "ok" d).
Qed.
Lemma omap_cons_match {A B} (f : A → option B) x l :
  omap f (x :: l) = match f x with Some y => y :: omap f l | None => omap f l end.
Proof. done. Qed.
Lemma burns_json rl asset txs :
  Forall burn_fits txs → omap (burn_of (hex (h256_bytes asset))) (tx_json rl <$> txs) = omap (burn_seen rl asset) txs.
Proof.
  induction 1 as [|tx txs Hf _ IH]; [done|]. rewrite fmap_cons, !omap_cons_match, burn_of_json by done. by rewrite IH.
Qed.
Lemma block_burns rl start sb asset :
  let txs := batch_txs (batch_decode sb.(sb_value_bytes)) in
  Forall burn_fits txs → hk_burns (hex (h256_bytes asset)) (block_json rl start sb) = Some (omap (burn_seen rl asset) txs).
Proof.
  intros txs Hf. unfold block_json, hk_burns. vfields. rewrite bool_decide_eq_false_2 by done. f_equal. by apply burns_json.
Qed.
(** C22: the bridge scans a block exactly.  From the node's JSON of a block the service
    reads the burns of its asset in that block, in order, each with its id, amount
    and destination, leaving out those whose receipt says refused and
    marking those without a receipt; a block the node does not have is an error. *)
Theorem bridge_reads_block_burns rl start s h asset :
  (∀ sb tx, load_block s.(so_log) h = Ok (Some sb) → tx ∈ batch_txs (batch_decode sb.(sb_value_bytes)) → burn_fits tx) →
  hk_burns (hex (h256_bytes asset)) (get_block rl start (Some s) (Some h)) =
    match load_block s.(so_log) h with
    | Ok (Some sb) => Some (omap (burn_seen rl asset) (batch_txs (batch_decode sb.(sb_value_bytes))))
    | _ => None
    end.
Proof.
  intros Hf. unfold get_block. destruct (load_block _ h) as [[sb|]|e|]; [|done..]. apply block_burns, Forall_forall. eauto.
Qed.
Definition burns_fit (l : Ledger) (x : Store) : Prop :=
  ∀ id height idx tx receipt, get_tx l x id = Some (height, idx, Some tx, receipt) → burn_fits tx.
Lemma kind_burn tx : tx_kind tx = "asset_burn" → ∃ asset amount destination, tx = Tx.AssetBurn asset amount destination.
Proof. destruct tx; try done. eauto. Qed.
(** A node's reply that passes the check. *)
Lemma check_burn_ok asset_hex to amount l x req_id id :
  check_burn asset_hex to amount (get_tx_json l x (VObj [("txid", VStr req_id)])) = Ok tt →
  h256_of_hex req_id = Some id → burns_fit l x →
  ∃ height idx tx detail asset, get_tx l x id = Some (height, idx, Some tx, Some detail) ∧ starts_with "ok" detail = true ∧
    tx.(stx_payload) = Tx.AssetBurn asset amount (address_bytes to) ∧ hex (h256_bytes asset) = asset_hex.
Proof.
  intros H Hid Hfit. unfold get_tx_json, param_h256, check_burn, text_field in H.
  assert (Hp : (vget "txid" (VObj [("txid", VStr req_id)]) ≫= vstr) ≫= h256_of_hex = Some id) by by vfields.
  rewrite Hp in H. destruct (get_tx l x id) as [[[[height idx] tx] receipt]|] eqn:Et; [|done].
  revert H. vfields. rewrite (bool_decide_eq_true_2 (Some true = Some true)) by done. cbn [negb].
  destruct tx as [tx|]; [|done]. unfold summary. vfields. case_bool_decide as Hk; cbn [negb]; [|done].
  injection Hk as Hk. apply kind_burn in Hk as (asset & amt & dest & Hp'). rewrite Hp'. cbn [tx_fields]. vfields.
  pose proof (Hfit _ _ _ _ _ Et) as Hf. unfold burn_fits in Hf. rewrite Hp' in Hf.
  unfold vhex at 1, vamount, vbytes. vfields. case_bool_decide as Ha; cbn [negb]; [|done]. injection Ha as Ha.
  unfold parse_u128. rewrite parse_pretty by done. vfields.
  destruct (Z.eqb_spec amt amount) as [->|]; cbn [negb]; [|done]. rewrite lower_hex.
  case_bool_decide as Hd; cbn [negb]; [|done]. apply (inj hex) in Hd as ->.
  destruct receipt as [detail|]; [|done]. vfields. destruct (starts_with "ok" detail) eqn:Eo; [|done].
  intros _. by exists height, idx, tx, detail, asset.
Qed.
(** C21: the co-signer signs only for burns.  It signs only if its own node has, under the
    id of the request, a transaction that burns exactly the requested amount of
    the configured asset to the requested address, with an [ok] receipt, and what
    it signs is the digest of those fields, whatever digest it was sent. *)
Theorem cosigner_signs_only_burns cfg sg vault wrapped req l x v :
  cosign_one cfg sg vault wrapped req (get_tx_json l x) = Ok v →
  burns_fit l x → ∃ id height idx tx detail asset amount to domain type_sig sig,
    get_tx l x id = Some (height, idx, Some tx, Some detail) ∧ starts_with "ok" detail = true ∧
    tx.(stx_payload) = Tx.AssetBurn asset amount (address_bytes to) ∧
    (domain = vault ∧ type_sig = UNLOCK_TYPE ∧ hex (h256_bytes asset) = cfg.(cc_usdc) ∨
     wrapped = Some domain ∧ type_sig = MINT_TYPE ∧ cfg.(cc_hkt) = Some (hex (h256_bytes asset))) ∧
    h256_of_hex (text_field "id" req) = Some id ∧ address_parse (text_field "to" req) = Some to ∧
    sign_digest sg (typed_digest domain (attest_struct_hash type_sig to amount id)) = Some sig ∧ vget "sig" v = Some (VStr (hex0x sig)).
Proof.
  unfold cosign_one. set (req_id := text_field "id" req). intros H Hfit. set (req_to := text_field "to" req) in *.
  destruct (address_parse req_to) as [to|] eqn:Eto; cbn [ok_orR bindR] in H; [|done].
  destruct (_ ≫= parse_u128) as [amount|]; cbn [ok_orR bindR] in H; [|done].
  destruct (hex_decode req_id) as [id_b|] eqn:Eid; cbn [ok_orR bindR] in H; [|done].
  destruct (h256_try_from id_b) as [id| |] eqn:Eh; cbn [bindR] in H; [|done..].
  assert (Hid : h256_of_hex req_id = Some id) by (unfold h256_of_hex; rewrite Eid; cbn; by rewrite Eh).
  destruct (if bool_decide (_ = "burn") then _ else _) as [[[domain ty] asset_hex]|e|] eqn:Ew; cbn [bindR] in H; [|done..].
  destruct (check_burn _ _ _ _) as [[]|e|] eqn:Ec; cbn [bindR] in H; [|done..].
  apply (check_burn_ok _ _ _ _ _ _ id) in Ec as (height & idx & tx & detail & asset & Et & Hd & Hp & Ha); [|done..].
  destruct (match vget "digest" req ≫= vstr with Some d => _ | None => _ end) as [[]|e|]; cbn [bindR] in H; [|done..].
  destruct (sign_digest _ _) as [sig|] eqn:Es; cbn [ok_orR bindR] in H; [|done]. injection H as <-.
  exists id, height, idx, tx, detail, asset, amount, to, domain, ty, sig.
  split_and!; [done..| |done|done|done|by vfields].
  repeat case_bool_decide; [| |done]; [left|right].
  - by injection Ew as <- <- <-.
  - destruct wrapped; cbn in Ew; [|done]. destruct (cc_hkt cfg) as [a|]; cbn in Ew; [|done]. injection Ew as <- <- <-. by rewrite Ha.
Qed.
End readers.

(** * A burn that is in a block twice *)

Section repeated.
Context {SHAKE : Shake} {SHA2 : Sha2} {CODECS : Codecs} {STX : StxCodec} {BLOCK : BlockWire} {BATCH : BatchWire}.

Lemma rlog_insert_get id d l : 1 ≤ l.(rl_cap) → rlog_ok l → rlog_get id (rlog_insert id d l) = Some d.
Proof.
  intros Hc [_ Hd _]. unfold rlog_insert, rlog_get. case_bool_decide as Hin; [apply lookup_insert_eq|].
  case_match eqn:Hlt; [|apply lookup_insert_eq]. destruct (rl_order l) as [|old order] eqn:Eo; cbn in *.
  - apply Z.ltb_lt in Hlt. lia.
  - rewrite lookup_delete_ne; [apply lookup_insert_eq|]. intros ->. apply Hin, Hd. left.
Qed.
Lemma rlog_insert_cap id d l : (rlog_insert id d l).(rl_cap) = l.(rl_cap).
Proof. unfold rlog_insert. case_bool_decide; [done|]. case_match; [|done]. by destruct (_ ++ _). Qed.
(** The second of two equal transactions is refused, whatever became of the first. *)
Lemma second_refused tx pre s s1 s2 r1 r2 :
  balances_ok s → in_u64 tx.(stx_nonce) → apply_tx_at tx pre s = (s1, r1) → apply_tx_at tx pre s1 = (s2, r2) →
  r1 ≠ Panic → r2 ≠ Panic → ∃ e, r2 = Err e ∧ (∀ ev, r1 = Ok ev → balances_ok s1 → s2 = s1).
Proof.
  intros Hb Hn H1 H2 Hp1 Hp2. destruct r1 as [ev|e|]; [| |done].
  - destruct r2 as [ev2|e2|]; [exfalso|exists e2; split; [done|]; intros ? _ Hb1; by apply apply_tx_err in H2|done].
    apply apply_tx_ok, applied_accounts in H1 as (a & _ & Hna & Hs1 & _).
    apply apply_tx_ok, applied_accounts in H2 as (a2 & Ha2 & Hna2 & _). rewrite Hs1 in Ha2. injection Ha2 as <-. cbn in Hna2.
    rewrite <-Hna in Hna2. unfold wrapping in Hna2. destruct (decide (stx_nonce tx = u64_max)) as [E|E].
    + rewrite E in Hna2. by vm_compute in Hna2.
    + rewrite Z.mod_small in Hna2; [lia|]. unfold in_u64, u64_max in *. lia.
  - assert (s1 = s) as -> by by apply apply_tx_err in H1. rewrite H1 in H2. injection H2 as <- <-. exists e. by split.
Qed.
Definition same_assets : relation State := λ s s', s'.(st_assets) = s.(st_assets).
#[local] Instance same_assets_preorder : PreOrder same_assets.
Proof. split; [done|]. intros x y z ? ?. unfold same_assets in *. congruence. Qed.
Lemma same_assets_closed : frame_closed same_assets.
Proof. by split_and!. Qed.
Lemma tryM_cases {S E E' A} (m : M S E A) s s' x :
  tryM (E' := E') m s = (s', Ok x) → (∃ a, m s = (s', Ok a) ∧ x = inr a) ∨ (∃ e, m s = (s', Err e) ∧ x = inl e).
Proof. unfold tryM. destruct (m s) as [s1 [a|e|]]; intros H; simplify_eq; eauto. Qed.
Lemma two_txs tx v s s' r1 r2 :
  apply_txs 0 [tx; tx] (Some [v; v]) s = (s', Ok [r1; r2]) →
  ∃ s1 x1 x2, apply_tx_at tx (Some v) s = (s1, x1) ∧ apply_tx_at tx (Some v) s1 = (s', x2) ∧ x1 ≠ Panic ∧ x2 ≠ Panic ∧
    (receipt_ok r1 = true → ∃ ev, x1 = Ok ev) ∧ (∀ e, x2 = Err e → ∃ t, receipt_detail r2 = "rejected: " +:+ t).
Proof.
  intros H. cbn [apply_txs] in H. mrun.
  repeat match goal with H : [v; v] !! _ = Some _ |- _ => injection H as <- end.
  repeat match goal with H : tryM _ _ = _ |- _ => apply tryM_cases in H as [(? & ? & ->)|(? & ? & ->)] end.
  all: eexists _, _, _; split; [eassumption|]; split; [eassumption|]; split; [done|]; split; [done|].
  all: split; [first [done|by eexists]|by intros e [=]; eexists].
Qed.
Lemma burn_effect tx pre s s' ev asset amount destination :
  tx.(stx_payload) = Tx.AssetBurn asset amount destination → apply_tx_at tx pre s = (s', Ok ev) →
  ∃ info, s.(st_assets) !! asset = Some info ∧
    s'.(st_assets) !! asset = Some (ai_set_burned (sat_add u128_max (ai_burned info) amount) info).
Proof.
  intros Hp H. apply apply_tx_ok in H as [_ _ (s2 & acc & Hacc & _ & ->)]. rewrite Hp in Hacc.
  assert (Hch : st_assets (charged (stx_sender tx) s) = st_assets s) by by unfold charged; case_match.
  inversion Hacc; subst. exists info. split; [by rewrite <-Hch|].
  unfold ratcheted, burned. cbn. case_match; cbn; apply lookup_insert_eq.
Qed.
(** C26: a burn that is in a block twice is never bridged.  The second copy is refused, and
    its receipt takes the place of the first one's, which carries the same id: the
    chain has burned the amount, and from the node's JSON of the block the
    bridge reads no burn at all, now or later, neither to unlock nor to review. *)
Theorem repeated_burn_never_bridged height time s s' tx asset amount destination r1 r2 rl start sb b :
  inv s → rlog_ok rl → 1 ≤ rl.(rl_cap) → in_u64 height → in_u64 time →
  stx_ok tx → tx.(stx_payload) = Tx.AssetBurn asset amount destination →
  b.(b_txs) = [tx; tx] → batch_decode sb.(sb_value_bytes) = Some b →
  apply_block_verified height time b.(b_txs) (Some (verify_envelope <$> b.(b_txs))) s = (s', Ok [r1; r2]) →
  receipt_ok r1 = true →
  (∃ info, st_assets s !! asset = Some info ∧
     st_assets s' !! asset = Some (ai_set_burned (sat_add u128_max (ai_burned info) amount) info)) ∧
  hk_burns (hex (h256_bytes asset)) (block_json (log_receipts (zip b.(b_txs) [r1; r2]) rl) start sb) = Some [].
Proof.
  intros Hs Hrl Hcap Hh Ht Hok Hp Hb Hsb H Hr1. rewrite Hb in H |- *. unfold apply_block_verified in H. srun.
  match goal with H : seal_pools ?y = (?z, _) |- _ =>
    pose proof (seal_pools_frame same_assets y same_assets_closed) as Hseal; rewrite H in Hseal end.
  match goal with H : apply_txs _ _ _ _ = (?y, _) |- _ => apply two_txs in H as (s1 & x1 & x2 & A1 & A2 & Hp1 & Hp2 & Hr & Hd) end.
  assert (Hs0 : inv (set_time time (set_height height s))) by (destruct Hs; by constructor).
  assert (Hs1 : inv s1) by by eapply apply_tx_inv.
  destruct (second_refused _ _ _ _ _ _ _ (inv_balances _ Hs0) (proj2 Hok) A1 A2 Hp1 Hp2) as (e & -> & Hsame).
  destruct (Hr Hr1) as [ev ->]. rewrite (Hsame ev eq_refl (inv_balances _ Hs1)) in Hseal. destruct (Hd e eq_refl) as [t Hdet].
  split.
  - destruct (burn_effect _ _ _ _ _ _ _ _ Hp A1) as (info & Hi & Hi'). exists info. split; [exact Hi|]. cbn. cbn in Hseal. by rewrite Hseal.
  - assert (Hf : burn_fits tx) by (destruct Hok as [Hok _]; unfold burn_fits; rewrite Hp in Hok |- *; exact Hok).
    rewrite block_burns; rewrite Hsb; cbn [batch_txs]; rewrite Hb; [|by repeat constructor].
    cbn [zip zip_with log_receipts foldl fst snd]. set (rl1 := rlog_insert _ _ rl).
    assert (Hg : rlog_get (stx_id tx) (rlog_insert (stx_id tx) (receipt_detail r2) rl1) = Some (receipt_detail r2)).
    { apply rlog_insert_get; [unfold rl1; by rewrite rlog_insert_cap|by apply rlog_insert_ok]. }
    rewrite !omap_cons_match. unfold burn_seen, log_receipts. cbn [foldl fst snd]. rewrite Hp, bool_decide_eq_true_2 by done.
    rewrite Hg, Hdet. done.
Qed.
End repeated.
