(* ===== verification/ExplorerDemo.v ===== *)
(** A burn on a small ledger: the witnesses of Explorer.v. *)

From S2P Require Export Explorer.
From S2P Require Import Toy Demo Proposer NodeParts BridgeDemo.
#[local] Open Scope Z_scope.

Module Burned.
#[local] Existing Instances toy_shake toy_sha2 toy_codecs toy_stx.
(** Alice, by her first key, burns 10 of her 100 units for an address. *)
Definition payload : Tx := Tx.AssetBurn usd 10 (address_bytes Bridged.address).
Definition burn : SignedTx :=
  match sign_tx [x01] alice 0 payload with Some tx => tx | None => alice_sends 0 payload end.
Definition ledger : State :=
  set_accounts {[alice := mkAccount (commit_at [x01] 0) 0]} (demo_asset usd_info).
(** Every value is the batch of the burn twice, and every stored block is [block]. *)
Definition batch : BatchV1 := mkBatchV1 zero_h256 [burn; burn] [] [].
#[export] Instance batch_wire : BatchWire := {|
  enc_v1 := λ _, None; dec_v1 := λ _, Some batch; enc_v2 := λ _, None; dec_v2 := λ _, None |}.
Definition whole : Batch := mkBatch zero_h256 [burn; burn] [] [] [].
Definition block : StoredBlock := mkStoredBlock 1 [x07] (mkRawCert 1 (RSome 0) zero_h256 []) false.
#[export] Instance block_wire : BlockWire := {| enc_block := λ _, Some [x05]; dec_block := λ _, Some block |}.
Definition home : Store :=
  mkStore (mkDisk {[1 := BlockLog.Sample.durable [x05]]} ∅) (mkSnapFiles no_file no_file no_file no_file no_file) no_file no_file 0.
(** A node that knows the burn by its id, and keeps its receipt. *)
Definition node (detail : string) : Apply.Ledger :=
  Apply.mkLedger state_default None (rlog_insert (stx_id burn) detail (rlog_new 8)) [] ∅ (mempool_default None) []
    (mkSearchIndex {[stx_id burn := (1, 0)]} ∅).
Definition cfg : CosignCfg := mkCosignCfg (hex (h256_bytes usd)) None.
Definition request : Value :=
  VObj [("kind", VStr "burn"); ("to", VStr (hex0x (address_bytes Bridged.address))); ("amount", VStr "10");
        ("id", VStr (hex (h256_bytes (stx_id burn))))].
End Burned.

#[local] Existing Instances toy_shake toy_sha2 toy_codecs toy_stx.
Import Bridged Burned.
Lemma sample_burn : stx_ok burn ∧ burn.(stx_payload) = payload.
Proof.
  unfold burn. destruct (sign_tx [x01] alice 0 payload) as [tx|] eqn:E; [|split; [|done]].
  - unfold sign_tx in E. destruct (keygen _ _). destruct (signing_digest _ _ _ _); [|done]. injection E as <-.
    split; [|done]. split; cbn; [unfold in_u128, u128_max; lia|unfold in_u64, u64_max; lia].
  - apply stx_ok_sends; cbn; [unfold in_u64, u64_max; lia|unfold in_u128, u128_max; lia].
Qed.
Lemma sample_decode : batch_decode block.(sb_value_bytes) = Some whole.
Proof. reflexivity. Qed.
Lemma sample_load : load_block home.(so_log) 1 = Ok (Some block).
Proof. vm_compute. reflexivity. Qed.
Lemma bridge_reads_block_burns_witness :
  hk_burns (hex (h256_bytes usd)) (get_block (lg_receipts (node "ok: burned")) 0 (Some home) (Some 1)) =
    Some (replicate 2 (hex (h256_bytes (stx_id burn)), 10, hex (address_bytes address), BurnOk)).
Proof.
  rewrite bridge_reads_block_burns.
  - rewrite sample_load. vm_compute. reflexivity.
  - rewrite sample_load. intros sb tx [= <-] Htx. destruct sample_burn as [_ Hp]. unfold burn_fits.
    assert (tx = burn) as -> by by apply list_elem_of_fmap_2 || (cbn in Htx; set_solver). rewrite Hp. cbn. unfold u128_max. lia.
Defined.
Lemma some_third {A B C D} (a a' : A) (b b' : B) (c c' : C) (d d' : D) : Some (a, b, c, d) = Some (a', b', c', d') → c = c'.
Proof. by intros [= _ _ -> _]. Qed.
Lemma sample_burns_fit detail : burns_fit (node detail) home.
Proof.
  intros id height idx tx receipt H. unfold get_tx in H. destruct (_ !! id) as [[h i]|] eqn:Ei; [|done].
  change (({[stx_id burn := (1, 0)]} : gmap H256 (Z * Z)) !! id = Some (h, i)) in Ei.
  apply lookup_singleton_Some in Ei as [_ [= <- <-]]. rewrite sample_load in H. apply some_third in H.
  rewrite sample_decode in H. apply (inj Some) in H as <-.
  destruct sample_burn as [_ Hp]. unfold burn_fits. rewrite Hp. cbn.
  unfold u128_max. lia.
Qed.
Lemma cosigner_signs_only_burns_witness :
  ∃ v tx sig, cosign_one Burned.cfg Bridged.cfg.(bc_signer) (id_of 1) None request (get_tx_json (node "ok: burned") home) = Ok v ∧
    tx.(stx_payload) = Tx.AssetBurn usd 10 (address_bytes address) ∧ vget "sig" v = Some (VStr (hex0x sig)).
Proof.
  destruct (cosign_one Burned.cfg Bridged.cfg.(bc_signer) (id_of 1) None request (get_tx_json (node "ok: burned") home)) as [v|e|] eqn:E;
    [|exfalso; vm_compute in E; discriminate..].
  destruct (cosigner_signs_only_burns _ _ _ _ _ _ _ _ E (sample_burns_fit _))
    as (id & h & i & tx & d & asset & amount & to & dom & ty & sig & Hg & _ & Hp & Hd & _ & Hto & _ & Hv).
  exists v, burn, sig. split; [reflexivity|]. split; [exact (proj2 sample_burn)|exact Hv].
Defined.
Lemma set_accounts_assets m s : st_assets (set_accounts m s) = st_assets s.
Proof. reflexivity. Qed.
Lemma sample_usd : st_assets ledger !! usd = Some usd_info.
Proof. unfold ledger. rewrite set_accounts_assets. apply usd_demo_asset. Qed.
Lemma sample_ledger_inv : inv ledger.
Proof. apply (inv_set_accounts (demo_asset usd_info)), inv_demo_asset; [exact usd_counters|exact usd_no_burn]. Qed.
Lemma one_u64 : in_u64 1.
Proof. ulia. Qed.
Lemma zero_u64 : in_u64 0.
Proof. ulia. Qed.
Lemma two_receipts {E} (r : res E (list State.Receipt)) :
  match r with Ok [r1; r2] => receipt_ok r1 | _ => false end = true → ∃ r1 r2, r = Ok [r1; r2] ∧ receipt_ok r1 = true.
Proof. destruct r as [[|r1 [|r2 [|? ?]]]| |]; try discriminate. eauto. Qed.
Lemma sample_applied :
  ∃ s' r1 r2, apply_block_verified 1 0 whole.(b_txs) (Some (verify_envelope <$> whole.(b_txs))) ledger = (s', Ok [r1; r2]) ∧
    receipt_ok r1 = true.
Proof.
  destruct (apply_block_verified 1 0 whole.(b_txs) (Some (verify_envelope <$> whole.(b_txs))) ledger) as [s' r] eqn:E.
  assert (Hr : match r with Ok [r1; r2] => receipt_ok r1 | _ => false end = true).
  { replace r with (snd (apply_block_verified 1 0 whole.(b_txs) (Some (verify_envelope <$> whole.(b_txs))) ledger)) by (by rewrite E).
    vm_compute. reflexivity. }
  apply two_receipts in Hr as (r1 & r2 & -> & Hr).
  exists s', r1, r2. split; [reflexivity|exact Hr].
Qed.
(** Alice has burned 10 units, and nothing is to be unlocked. *)
Lemma repeated_burn_never_bridged_witness :
  ∃ s' r1 r2, apply_block_verified 1 0 whole.(b_txs) (Some (verify_envelope <$> whole.(b_txs))) ledger = (s', Ok [r1; r2]) ∧
    (∃ info, st_assets s' !! usd = Some info ∧ ai_burned info = 10) ∧
    hk_burns (hex (h256_bytes usd)) (block_json (log_receipts (zip whole.(b_txs) [r1; r2]) (rlog_new 8)) 0 block) = Some [].
Proof.
  destruct sample_applied as (s' & r1 & r2 & E & Hr).
  exists s', r1, r2. split; [exact E|].
  destruct (repeated_burn_never_bridged 1 0 ledger s' burn usd 10 (address_bytes address) r1 r2 (rlog_new 8) 0 block whole) as [(info & Hi & Hi') Hb].
  - exact sample_ledger_inv.
  - apply rlog_new_ok. discriminate.
  - discriminate.
  - apply one_u64.
  - exact zero_u64.
  - exact (proj1 sample_burn).
  - exact (proj2 sample_burn).
  - reflexivity.
  - exact sample_decode.
  - exact E.
  - exact Hr.
  - split; [|exact Hb]. rewrite sample_usd in Hi. injection Hi as <-.
    eexists. split; [exact Hi'|reflexivity].
Defined.
