(* ===== verification/Receiving.v ===== *)
(** What a wallet reads of the pool feed of a node (hk_getPoolNotes of
    hk-node/src/rpc.rs): page after page, its scan finds every payment. *)

From S2P Require Import Signer State Door.
From S2P Require Export Shielding Explorer.
#[local] Open Scope Z_scope.

Section feed.
Context {SHAKE : Shake} {SHA2 : Sha2} {KEM : MlKem} {LAWS : MlKemLaws KEM}.
Implicit Types (feed : list FeedNote).

(** [hk_getPoolNotes] *)
Definition note_json (from : Z) (i : nat) (e : FeedNote) : Value :=
  VObj [("index", VNum (from + Z.of_nat i)); ("commitment", vhex e.1); ("stealth_ct", vbytes e.2)].
Definition pool_notes_reply (l : Ledger) (asset : option AssetId) (from limit : option Z) : Value :=
  let '(page, label) := with_pool_feed l asset (λ feed, page_of feed from limit id) in
  VObj [("result", VObj
    [("asset", vopt vhex label); ("notes", VArr (imap (note_json page.(pg_from)) page.(pg_items)));
     ("from", VNum page.(pg_from)); ("count", VNum (page.(pg_to) - page.(pg_from))); ("total", VNum page.(pg_total));
     ("next", vopt VNum page.(pg_next))])].

(** The feed a wallet asks for, and the replies to the cursors it goes through. *)
Definition feed_of (l : Ledger) (asset : option AssetId) : list FeedNote := (with_pool_feed l asset id).1.
Fixpoint node_pages (n : nat) (l : Ledger) (asset : option AssetId) (cursor : Z) : list Value :=
  match n with
  | O => []
  | S n =>
      pool_notes_reply l asset (Some cursor) (Some POOL_PAGE) ::
      match (page_of (feed_of l asset) (Some cursor) (Some POOL_PAGE) id).(pg_next) with
      | Some next => node_pages n l asset next
      | None => []
      end
  end.
Definition feed_entry (from : Z) (i : nat) (e : FeedNote) : Entry := (from + Z.of_nat i, e.1, e.2).
Definition entries_from (cursor : Z) feed : list Entry := imap (feed_entry cursor) (drop (Z.to_nat cursor) feed).

Lemma mapM_imap {A B C} (f : B → option C) (g : nat → A → B) (h : nat → A → C) l :
  (∀ i x, l !! i = Some x → f (g i x) = Some (h i x)) → mapM f (imap g l) = Some (imap h l).
Proof.
  revert g h. induction l as [|x l IH]; intros g h H; [done|]. cbn [imap mapM]. rewrite (H 0%nat x eq_refl). cbn [mbind option_bind].
  change (mapM f (imap (g ∘ S) l) ≫= (λ k, Some (h 0%nat x :: k)) = Some (h 0%nat x :: imap (h ∘ S) l)).
  rewrite (IH (g ∘ S) (h ∘ S)); [done|]. intros i y Hy. exact (H (S i) y Hy).
Qed.
Lemma page_fields feed cursor :
  0 ≤ cursor ≤ Z.of_nat (length feed) → ∃ size : nat, let to := cursor + Z.of_nat size in
    to = Z.min (cursor + POOL_PAGE) (Z.of_nat (length feed)) ∧
    page_of feed (Some cursor) (Some POOL_PAGE) id =
      mkPoolPage cursor to (Z.of_nat (length feed)) (if to <? Z.of_nat (length feed) then Some to else None)
        (take size (drop (Z.to_nat cursor) feed)).
Proof.
  intros Hc. exists (Z.to_nat (Z.min POOL_PAGE (Z.of_nat (length feed) - cursor))).
  assert (E : cursor + Z.of_nat (Z.to_nat (Z.min POOL_PAGE (Z.of_nat (length feed) - cursor))) =
    Z.min (cursor + POOL_PAGE) (Z.of_nat (length feed))) by (unfold POOL_PAGE; lia).
  cbv zeta. split; [done|]. rewrite E. unfold page_of, pool_page. cbn [default from_option].
  rewrite (Z.min_l cursor) by lia. change (Z.max 1 (Z.min POOL_PAGE POOL_PAGE_MAX)) with POOL_PAGE. f_equal.
  rewrite list_fmap_id. f_equal. unfold POOL_PAGE. lia.
Qed.
Lemma reply_of_page l asset cursor :
  ∃ label, pool_notes_reply l asset (Some cursor) (Some POOL_PAGE) =
    let page := page_of (feed_of l asset) (Some cursor) (Some POOL_PAGE) id in
    VObj [("result", VObj
      [("asset", label); ("notes", VArr (imap (note_json page.(pg_from)) page.(pg_items)));
       ("from", VNum page.(pg_from)); ("count", VNum (page.(pg_to) - page.(pg_from))); ("total", VNum page.(pg_total));
       ("next", vopt VNum page.(pg_next))])].
Proof. unfold pool_notes_reply, feed_of, with_pool_feed. destruct (pool_key_param _ _); by eexists. Qed.
Lemma u64_value n : 0 ≤ n ≤ u64_max → vu64 (VNum n) = Some n.
Proof. intros [H1 H2]. cbn. by rewrite (proj2 (Z.leb_le _ _) H1), (proj2 (Z.leb_le _ _) H2). Qed.
Lemma note_json_entry cursor i (e : FeedNote) :
  0 ≤ cursor + Z.of_nat i ≤ u64_max → page_entry (note_json cursor i e) = Some (feed_entry cursor i e).
Proof.
  intros Hi%u64_value. destruct e as [cm ct]. unfold page_entry, note_json, vhex, vbytes, parse_hash.
  unfold vget. cbn [app]. rewrite vfield_here. cbn [mbind option_bind]. rewrite Hi. vfields.
  by rewrite h256_of_hex_hex, hex_decode_hex.
Qed.
Lemma notes_page_reply l asset cursor :
  let feed := feed_of l asset in
  0 ≤ cursor ≤ Z.of_nat (length feed) → Z.of_nat (length feed) ≤ u64_max →
  notes_page (pool_notes_reply l asset (Some cursor) (Some POOL_PAGE)) =
    let page := page_of feed (Some cursor) (Some POOL_PAGE) id in
    Some (imap (feed_entry cursor) page.(pg_items), page.(pg_next), Some (Z.of_nat (length feed))).
Proof.
  intros feed Hc Hmax. destruct (reply_of_page l asset cursor) as [label ->]. fold feed.
  destruct (page_fields feed cursor Hc) as (size & Hto & ->). cbv zeta. cbn [pg_from pg_items pg_to pg_total pg_next].
  set (to := cursor + Z.of_nat size) in *. set (next := if to <? Z.of_nat (length feed) then Some to else None).
  assert (Hn : vu64 (vopt VNum next) = next).
  { unfold next. destruct (to <? _); [|done]. apply u64_value. lia. }
  pose proof (u64_value (Z.of_nat (length feed)) ltac:(lia)) as Ht.
  unfold notes_page, vget. rewrite !vfield_here. cbn [mbind option_bind].
  rewrite (vfield_next "notes" "asset"), vfield_here by reflexivity. cbn [mbind option_bind varr].
  rewrite (mapM_imap _ _ (feed_entry cursor)).
  - repeat first [rewrite vfield_here | rewrite vfield_next by reflexivity | progress cbn [mbind option_bind]].
    by rewrite Hn, Ht.
  - intros i e Hi%lookup_lt_Some. apply note_json_entry. rewrite length_take, length_drop in Hi. lia.
Qed.

(** ** The requests of a scan *)

Lemma entries_split cursor (size : nat) feed :
  0 ≤ cursor → cursor + Z.of_nat size ≤ Z.of_nat (length feed) →
  entries_from cursor feed = imap (feed_entry cursor) (take size (drop (Z.to_nat cursor) feed)) ++ entries_from (cursor + Z.of_nat size) feed.
Proof.
  intros Hc Hs. unfold entries_from. rewrite <-(take_drop size (drop (Z.to_nat cursor) feed)) at 1. rewrite imap_app. f_equal.
  rewrite drop_drop, length_take_le by (rewrite length_drop; lia). rewrite Z2Nat.inj_add, Nat2Z.id by lia.
  apply imap_ext. intros i e _. unfold feed_entry. cbn. do 2 f_equal. lia.
Qed.
Lemma entries_end cursor feed : Z.of_nat (length feed) ≤ cursor → entries_from cursor feed = [].
Proof. intros H. unfold entries_from. by rewrite drop_ge by lia. Qed.
Lemma filter_entries from cursor (items : list FeedNote) :
  from ≤ cursor → filter (λ e, from <= entry_index e) (imap (feed_entry cursor) items) = imap (feed_entry cursor) items.
Proof.
  intros H. assert (Ha : Forall (λ e, from ≤ entry_index e) (imap (feed_entry cursor) items)).
  { apply Forall_forall. intros e (j & x & -> & _)%elem_of_lookup_imap_1. cbn. lia. }
  induction Ha as [|e l He _ IH]; [done|]. rewrite filter_cons, IH. by rewrite decide_True.
Qed.

(** A purse with another script. *)
Definition with_script (s : list Answer) (p : Purse) : Purse :=
  pu_set_client (mkClient p.(pu_client).(cl_account) s p.(pu_client).(cl_sent)) p.
Definition replies (l : list Value) : list Answer := (λ v, OnReply (inr v)) <$> l.
Lemma bind_to {S E A B} (m : M S E A) (h : A → M S E B) s1 s2 a : m s1 = (s2, Ok a) → bindM m h s1 = h a s2.
Proof. unfold bindM. by intros ->. Qed.
Lemma rpc_reply v s p : rpc (with_script (OnReply (inr v) :: s) p) = (with_script s p, Ok v).
Proof. done. Qed.
Lemma notes_loop_pages n fuel l asset cursor from all s p :
  let feed := feed_of l asset in
  from ≤ cursor → 0 ≤ cursor ≤ Z.of_nat (length feed) → Z.of_nat (length feed) ≤ u64_max →
  Z.of_nat (length feed) - cursor < Z.of_nat n → (length (node_pages n l asset cursor) ≤ fuel)%nat →
  notes_loop fuel from cursor all (with_script (replies (node_pages n l asset cursor) ++ s) p) =
    (with_script s p, Ok (all ++ entries_from cursor feed, Z.of_nat (length feed))).
Proof.
  intros feed. revert fuel cursor all. induction n as [|n IH]; intros fuel cursor all Hfrom Hc Hmax Hn Hfuel; [lia|].
  pose proof (notes_page_reply l asset cursor Hc Hmax) as Hpage. cbv zeta in Hpage. fold feed in Hpage.
  cbn [node_pages] in Hfuel |- *. fold feed in Hfuel |- *.
  destruct (page_fields feed cursor Hc) as (size & Hto & Ep). rewrite Ep in Hpage, Hfuel |- *. cbn [pg_items pg_next] in Hpage, Hfuel |- *.
  destruct fuel as [|fuel]; [cbn in Hfuel; lia|].
  assert (Hsplit : entries_from cursor feed =
    imap (feed_entry cursor) (take size (drop (Z.to_nat cursor) feed)) ++ entries_from (cursor + Z.of_nat size) feed).
  { apply entries_split; lia. }
  cbn [notes_loop]. unfold replies. rewrite fmap_cons, <-app_comm_cons, (bind_to _ _ _ _ _ (rpc_reply _ _ _)), Hpage.
  cbn [ok_or]. rewrite bindM_ret_l, filter_entries by lia. rewrite Hsplit, app_assoc.
  destruct (Z.ltb_spec (cursor + Z.of_nat size) (Z.of_nat (length feed))) as [Hlt|Hge].
  - rewrite (proj2 (Z.ltb_lt _ _)) by (unfold POOL_PAGE in *; lia). apply IH; [unfold POOL_PAGE in *; lia..|]. cbn in Hfuel. lia.
  - cbn [default from_option id]. rewrite (entries_end (cursor + _)) by (fold feed; lia). by rewrite app_nil_r.
Qed.

(** ** What a scan keeps *)

Lemma stored_roundtrip d : to_discovered d.(dc_note).(note_owner) (stored_note d) = Some d.
Proof.
  destruct d as [[v owner rho rcm] cm i memo]. unfold to_discovered, stored_note.
  cbn [dc_note note_owner note_value note_rho note_rcm dc_commitment dc_leaf_index dc_memo sn_rho sn_rcm sn_commitment sn_value sn_leaf_index sn_memo].
  by rewrite !h256_of_hex_hex, hex_decode_hex.
Qed.
Lemma keep_notes_from ds notes n : n ∈ foldl keep_note notes ds → n ∈ notes ∨ ∃ d, d ∈ ds ∧ n = stored_note d.
Proof.
  revert notes. induction ds as [|d ds IH]; intros notes; [by left|]. cbn [foldl]. intros [H|(d' & Hd & ->)]%IH.
  - unfold keep_note in H. destruct (existsb _ notes); [by left|]. apply elem_of_app in H as [H|H]; [by left|].
    apply list_elem_of_singleton in H as ->. right. exists d. by split; [left|].
  - right. exists d'. by split; [right|].
Qed.
Lemma keep_notes_leaf ds notes i :
  (∃ n, n ∈ notes ∧ n.(sn_leaf_index) = i) ∨ (∃ d, d ∈ ds ∧ d.(dc_leaf_index) = i) →
  ∃ n, n ∈ foldl keep_note notes ds ∧ n.(sn_leaf_index) = i.
Proof.
  revert notes. induction ds as [|d ds IH]; intros notes; cbn [foldl].
  { intros [H|(d & H%not_elem_of_nil & _)]; done. }
  intros H. apply IH. unfold keep_note. destruct (existsb _ notes) eqn:E.
  - destruct H as [H|(d' & [->|Hd]%elem_of_cons & Hi)]; [by left| |by right; exists d'].
    left. apply existsb_exists in E as (n & Hn%list_elem_of_In & He%Z.eqb_eq). exists n. by rewrite He.
  - destruct H as [(n & Hn & Hi)|(d' & [->|Hd]%elem_of_cons & Hi)]; [| |by right; exists d'].
    + left. exists n. by split; [apply elem_of_app; left|].
    + left. exists (stored_note d). by split; [apply elem_of_app; right; apply list_elem_of_singleton|].
Qed.
Definition found_at (k : WalletKeys) (tag : H256) (entries : list Entry) (epochs : list Z) : list Discovered :=
  epochs ≫= λ e, scan_core (kem_at k e) tag entries.
Lemma keep_epochs k tag entries notes epochs :
  owner_tag k = Some tag →
  foldl (keep_epoch k entries) (Some notes) epochs = Some (foldl keep_note notes (found_at k tag entries epochs)).
Proof.
  intros Ht. unfold found_at. revert notes. induction epochs as [|e epochs IH]; intros notes; [done|].
  cbn [foldl mbind list_bind]. rewrite foldl_app, <-IH. unfold keep_epoch at 2, scan_at. by rewrite Ht.
Qed.
Lemma mark_spent_run owner notes rs s p :
  Forall (λ n, is_Some (to_discovered owner n)) notes →
  length rs = length (filter (λ n, n.(sn_spent) = false) notes) →
  ∃ marked, mark_spent owner notes (with_script ((OnReply <$> rs) ++ s) p) = (with_script s p, Ok marked) ∧
    Forall2 (λ n m, to_discovered owner n = Some m.2 ∧ m.1.(sn_leaf_index) = n.(sn_leaf_index)) notes marked.
Proof.
  intros Hn. revert rs. induction Hn as [|n notes [d Hd] _ IH]; intros rs Hrs.
  { destruct rs; [|done]. exists []. by split. }
  cbn [mark_spent]. rewrite Hd. cbn [ok_or]. rewrite filter_cons in Hrs. destruct (sn_spent n) eqn:Es.
  - rewrite decide_False in Hrs by done. destruct (IH rs Hrs) as (marked & Hm & Hall). exists ((sn_set_spent n, d) :: marked).
    split; [|by constructor]. rewrite !bindM_ret_l, (bind_to _ _ _ _ _ Hm). done.
  - rewrite decide_True in Hrs by done. destruct rs as [|r rs]; [done|]. injection Hrs as Hrs.
    destruct (IH rs Hrs) as (marked & Hm & Hall). rewrite bindM_ret_l, fmap_cons, <-app_comm_cons.
    assert (∃ b, nullifier_is_spent (with_script (OnReply r :: (OnReply <$> rs) ++ s) p) = (with_script ((OnReply <$> rs) ++ s) p, Ok b)) as [b Hb].
    { destruct r; by eexists. }
    rewrite (bind_to _ _ _ _ _ Hb). exists ((if b then sn_set_spent n else n, d) :: marked).
    split; [by rewrite (bind_to _ _ _ _ _ Hm)|]. constructor; [by destruct b|done].
Qed.
Lemma attempt_chain_info v i s p :
  chain_info_of v = Some i → attempt chain_info (with_script (OnReply (inr v) :: s) p) = (with_script s p, Ok (inr i)).
Proof. intros H. unfold attempt, chain_info. by rewrite (bind_to _ _ _ _ _ (rpc_reply _ _ _)), H. Qed.
Lemma height_reply v i s p :
  chain_info_of v = Some i → height (with_script (OnReply (inr v) :: s) p) = (with_script s p, Ok i.(ci_height)).
Proof. intros H. unfold height, chain_info, bindM at 1. by rewrite (bind_to _ _ _ _ _ (rpc_reply _ _ _)), H. Qed.
Lemma pool_notes_pages l asset from s p :
  let feed := feed_of l asset in
  0 ≤ from ≤ Z.of_nat (length feed) → Z.of_nat (length feed) ≤ u64_max →
  pool_notes_from from (with_script (replies (node_pages (S (length feed)) l asset from) ++ s) p) =
    (with_script s p, Ok (entries_from from feed, Z.of_nat (length feed))).
Proof.
  intros feed Hf Hmax. unfold pool_notes_from, bindM, getM. cbn [pu_client with_script pu_set_client cl_script].
  unfold feed in *. rewrite (notes_loop_pages _ _ _ _ _ _ [] s p); [done|lia..|]. unfold replies. rewrite length_app, length_fmap. lia.
Qed.
Lemma save_shield_done f s p :
  save_shield f (with_script (OnSave WDone :: s) p) = (pu_set_disk (mkShieldDisk (Some f) [Some f]) (with_script s p), Ok tt).
Proof. done. Qed.
Lemma put_cache_of asset c f : cache_of asset (put_cache asset c f) = c.
Proof. unfold cache_of, put_cache. case_bool_decide; cbn; [done|]. by rewrite lookup_insert_eq. Qed.
Lemma entries_elem cursor feed i e :
  0 ≤ cursor → (i, e.1, e.2) ∈ entries_from cursor feed ↔ cursor ≤ i ∧ feed !! Z.to_nat i = Some e.
Proof.
  intros Hc. unfold entries_from. rewrite elem_of_lookup_imap. destruct e as [cm ct]. cbn [fst snd]. split.
  - intros (j & [a b] & E & Hl). injection E as -> -> ->. rewrite lookup_drop in Hl. split; [lia|].
    by rewrite Z2Nat.inj_add, Nat2Z.id by lia.
  - intros [Hi Hl]. exists (Z.to_nat (i - cursor)), (cm, ct). unfold feed_entry. split; [cbn; do 2 f_equal; lia|].
    rewrite lookup_drop, <-Z2Nat.inj_add by lia. by replace (cursor + (i - cursor)) with i by lia.
Qed.

(** The cache a scan goes on from. *)
Definition cache_now (asset : AssetId) (chain_id : string) (f : ShieldFile) : ScanCache :=
  if bool_decide ((cache_of asset f).(ca_chain_id) = chain_id) then cache_of asset f else mkCache chain_id 0 [].
Lemma found_at_elem k tag entries epochs d :
  d ∈ found_at k tag entries epochs ↔ ∃ e, e ∈ epochs ∧ d ∈ scan_core (kem_at k e) tag entries.
Proof.
  unfold found_at. rewrite list_elem_of_bind. naive_solver.
Qed.
Lemma my_notes_result k tag asset f l request ci head tip_reply tip p :
  let c := cache_now asset head.(ci_chain_id) f in let feed := feed_of l request in
  let notes := foldl keep_note c.(ca_notes)
    (found_at k tag (entries_from c.(ca_scanned_through) feed) (seqZ 0 (epoch_of tip.(ci_height) + 1))) in
  chain_info_of ci = Some head → chain_info_of tip_reply = Some tip → owner_tag k = Some tag →
  0 ≤ c.(ca_scanned_through) < Z.of_nat (length feed) → Z.of_nat (length feed) ≤ u64_max →
  Forall (λ n, is_Some (to_discovered tag n)) c.(ca_notes) →
  ∃ m, ∀ rs s, length rs = m → ∃ marked,
    let f' := put_cache asset (mkCache head.(ci_chain_id) (Z.of_nat (length feed)) marked.*1) f in
    my_notes k asset f (with_script
      (replies [ci] ++ replies (node_pages (S (length feed)) l request c.(ca_scanned_through)) ++ replies [tip_reply] ++
       (OnReply <$> rs) ++ OnSave WDone :: s) p) =
      (pu_set_disk (mkShieldDisk (Some f') [Some f']) (with_script s p), Ok (f', (λ nd, (nd.2, nd.1.(sn_spent))) <$> marked)) ∧
    Forall2 (λ n x, to_discovered tag n = Some x.2 ∧ x.1.(sn_leaf_index) = n.(sn_leaf_index)) notes marked.
Proof.
  intros c feed notes Hci Htip Htag Hcur Hmax Hcache. exists (length (filter (λ n, n.(sn_spent) = false) notes)). intros rs s Hrs.
  assert (Hnotes : Forall (λ n, is_Some (to_discovered tag n)) notes).
  { apply Forall_forall. intros n [Hn|(d & Hd & ->)]%keep_notes_from; [by apply (proj1 (Forall_forall _ _) Hcache)|].
    apply found_at_elem in Hd as (e & _ & Hd).
    apply scan_core_elem in Hd as (_ & _ & <- & _). rewrite stored_roundtrip. by eexists. }
  destruct (mark_spent_run tag notes rs (OnSave WDone :: s) p Hnotes Hrs) as (marked & Hmark & Hall). exists marked. split; [|done].
  unfold my_notes. cbn [replies fmap list_fmap app]. rewrite (bind_to _ _ _ _ _ (attempt_chain_info _ _ _ _ Hci)).
  change (if bool_decide _ then cache_of asset f else _) with c.
  rewrite (bind_to _ _ _ _ _ (pool_notes_pages l request (ca_scanned_through c) _ p ltac:(fold feed; lia) Hmax)). fold feed.
  rewrite (proj2 (Z.ltb_ge _ _)) by lia. rewrite bindM_ret_l.
  destruct (entries_from (ca_scanned_through c) feed) as [|e0 es] eqn:Ee.
  { apply (f_equal length) in Ee. unfold entries_from in Ee. rewrite length_imap, length_drop in Ee. cbn in Ee. lia. }
  rewrite (bind_to _ _ (with_script _ p) (with_script ((OnReply <$> rs) ++ OnSave WDone :: s) p) notes).
  2: { rewrite (bind_to _ _ _ _ _ (height_reply _ _ _ _ Htip)), (keep_epochs k tag) by done. done. }
  rewrite Htag. cbn [expect]. rewrite bindM_ret_l, (bind_to _ _ _ _ _ Hmark).
  assert (Hc : ca_chain_id c = ci_chain_id head) by (unfold c, cache_now; by case_bool_decide). rewrite Hc, Z.max_l by lia.
  rewrite bool_decide_eq_false_2.
  - by rewrite (bind_to _ _ _ _ _ (save_shield_done _ _ _)).
  - intros E. assert (E2 : c = cache_of asset f) by (unfold c, cache_now; by rewrite E, bool_decide_eq_true_2).
    rewrite E2, E in Hcur. cbn in Hcur. lia.
Qed.
(** C18: a wallet's scan finds every payment that it is due.  A payment to the wallet
    at some epoch, no later than the chain's, is in the pool of a node (of at most 2^64
    entries) beyond what the wallet has scanned, and its cache reads back: from
    the node's replies, page after page, the scan ends, for any answers on what is
    spent; the payment's note is among the notes it gives, at the payment's leaf (the
    very note, unless SHA-256 collides), and the scanned part is the whole pool, on disk. *)
Theorem wallet_finds_every_payment k epoch value coin entropy memo out i asset f l request ci head tip_reply tip p :
  let c := cache_now asset head.(ci_chain_id) f in let feed := feed_of l request in
  output_for k epoch value coin entropy memo out →
  feed !! Z.to_nat i = Some (out.(so_commitment), out.(so_stealth_ct)) → 0 ≤ c.(ca_scanned_through) ≤ i →
  Z.of_nat (length feed) ≤ u64_max → chain_info_of ci = Some head → chain_info_of tip_reply = Some tip →
  0 ≤ epoch ≤ epoch_of tip.(ci_height) →
  Forall (λ n, n.(sn_leaf_index) ≠ i ∧ is_Some (to_discovered out.(so_note).(note_owner) n)) c.(ca_notes) →
  ∃ m, ∀ rs s, length rs = m → ∃ f' notes d spent,
    my_notes k asset f (with_script
      (replies [ci] ++ replies (node_pages (S (length feed)) l request c.(ca_scanned_through)) ++ replies [tip_reply] ++
       (OnReply <$> rs) ++ OnSave WDone :: s) p) =
      (pu_set_disk (mkShieldDisk (Some f') [Some f']) (with_script s p), Ok (f', notes)) ∧
    (cache_of asset f').(ca_scanned_through) = Z.of_nat (length feed) ∧
    (d, spent) ∈ notes ∧ d.(dc_leaf_index) = i ∧ d.(dc_commitment) = out.(so_commitment) ∧
    (collision_free [note_input d.(dc_note); note_input out.(so_note)] → d.(dc_note) = out.(so_note)).
Proof.
  intros c feed Ho Hi Hcur Hmax Hci Htip Hep Hcache.
  pose proof (output_for_sealed _ _ _ _ _ _ _ Ho) as (Htag & Hv & Hc & Hs & _). pose proof (of_value _ _ _ _ _ _ _ Ho) as Hval.
  pose proof (lookup_lt_Some _ _ _ Hi) as Hlen.
  destruct (my_notes_result k _ asset f l request ci head tip_reply tip p Hci Htip Htag) as [m Hrun]; [fold c feed; lia|done| |].
  { eapply Forall_impl; [exact Hcache|]. by intros n []. }
  exists m. intros rs s Hrs. destruct (Hrun rs s Hrs) as (marked & Erun & Hall). cbv zeta in Erun. fold c feed in Erun, Hall.
  set (entries := entries_from (ca_scanned_through c) feed) in *.
  assert (Hin : (i, out.(so_commitment), out.(so_stealth_ct)) ∈ entries).
  { apply (entries_elem _ feed i (so_commitment out, so_stealth_ct out)); [lia|]. split; [lia|done]. }
  set (ds := found_at k (note_owner (so_note out)) entries (seqZ 0 (epoch_of (ci_height tip) + 1))) in *.
  assert (Hd : mkDiscovered out.(so_note) out.(so_commitment) i memo ∈ ds).
  { apply found_at_elem. exists epoch. split; [apply elem_of_seqZ; lia|]. apply scan_core_elem. exists (so_stealth_ct out).
    cbn. rewrite Hv. by split_and!. }
  destruct (keep_notes_leaf ds (ca_notes c) i) as (n & Hn & Hni); [right; by eexists|].
  destruct (proj1 (list_elem_of_lookup _ _) Hn) as [j Hj]. destruct (Forall2_lookup_l _ _ _ _ _ Hall Hj) as ([n' d] & Hj' & Hd' & _).
  cbn [fst snd] in Hd'. apply keep_notes_from in Hn as [Hn|(d0 & Hd0 & ->)].
  { by destruct (proj1 (Forall_forall _ _) Hcache n Hn). }
  apply found_at_elem in Hd0 as (e & _ & Hd0). apply scan_core_elem in Hd0 as (ct & Hct & Hown & Hdv & Hdc & _).
  rewrite <-Hown, stored_roundtrip in Hd'. injection Hd' as <-. cbn in Hni. rewrite Hni in Hct.
  apply (entries_elem _ _ _ (dc_commitment d0, ct)) in Hct as [_ Hct]; [|lia]. rewrite Hi in Hct. injection Hct as Hcm _.
  exists (put_cache asset (mkCache head.(ci_chain_id) (Z.of_nat (length feed)) marked.*1) f), ((λ nd, (nd.2, nd.1.(sn_spent))) <$> marked), d0, (sn_spent n').
  split_and!; [exact Erun|by rewrite put_cache_of| |done|done|].
  - apply list_elem_of_fmap. exists (n', d0). split; [done|]. by eapply list_elem_of_lookup_2.
  - intros Hf. apply commit_note_inj; [done|by rewrite Hv|done|]. by rewrite Hdc, <-Hcm, Hc.
Qed.
End feed.
