(* ===== verification/NotesDemo.v ===== *)
(** A payment of a thousand units to a small wallet: the witnesses of Notes.v,
    Shielding.v and Receiving.v. *)

From S2P Require Export Notes Shielding Receiving.
From S2P Require Import Toy Demo State Door.
#[local] Open Scope Z_scope.

Module Paid.
#[local] Existing Instances toy_shake toy_sha2.
(** A KEM whose secrets are hashes of the public key and the coin, which it sends. *)
Definition toy_public (seed : bytes) : bytes := take EK_LEN (seed ++ replicate EK_LEN x00).
Definition toy_secret (ek coin : bytes) : H256 := h256_of (toy_xof (take 64 ek ++ coin) 32).
Definition toy_ct (coin : H256) : bytes := h256_bytes coin ++ replicate (CT_LEN - 32) x00.
#[export] Instance toy_kem : MlKem := {|
  kem_public := toy_public;
  kem_secret kem ct := toy_secret (toy_public kem) (take 32 ct);
  kem_encaps ek coin := Some (toy_ct coin, toy_secret ek (h256_bytes coin)) |}.
#[export] Instance toy_kem_laws : MlKemLaws toy_kem.
Proof.
  constructor. intros ek coin ct ss [= <- _]. unfold toy_ct. rewrite length_app, length_h256, length_replicate. reflexivity.
Qed.
Lemma toy_agrees kem coin : kem_agrees kem coin.
Proof. intros ct ss [= <- <-]. unfold toy_ct. cbn [kem_secret toy_kem]. by rewrite take_app_length' by by rewrite length_h256. Qed.

(** The wallet of Circuit.Sample, and the output that is paid to it in epoch 2. *)
Definition payee : WalletKeys := mkWalletKeys Sample.master 0.
Definition note_paid : Note := mkNote 1000 (address_tag Sample.root (nk payee))
  (shake256_32 DOM_WALLET_RHO [h256_bytes (id_of 51); str_bytes "out"])
  (shake256_32 DOM_WALLET_RCM [h256_bytes (id_of 51); str_bytes "out"]).
Definition memo : bytes := str_bytes "rent".
Definition to : Notes.Address := Notes.mkAddress (address_tag Sample.root (nk payee)) (kem_public (kem_at payee 2)).
Definition sealed : bytes * H256 := default ([], zero_h256) (seal_note note_paid to (id_of 50) memo).
Definition out : SealedOutput := mkSealedOutput note_paid (commit_note note_paid) sealed.1 sealed.2.
Definition leaves : list H256 := [id_of 7; commit_note note_paid; id_of 8].
End Paid.
#[local] Existing Instances toy_shake toy_sha2.
Import Paid.
Lemma sample_root : spend_root Sample.master 0 = Some Sample.root.
Proof. vm_compute. reflexivity. Qed.
Lemma sample_output : output_for payee 2 1000 (id_of 50) (id_of 51) memo out.
Proof.
  constructor; [done|done| |apply toy_agrees]. exists to. split.
  - unfold address_at, owner_tag. cbn [payee wk_master wk_h]. rewrite sample_root. reflexivity.
  - unfold build_output, out, sealed. cbn [ad_tag to]. fold note_paid.
    assert (H : is_Some (seal_note note_paid to (id_of 50) memo)).
    { unfold seal_note, encapsulate. cbn [ad_kem_pk to kem_public toy_kem].
      assert (E : length (toy_public (kem_at payee 2)) = EK_LEN).
      { unfold toy_public. rewrite length_take_le; [done|]. rewrite length_app, length_replicate. lia. }
      rewrite E, Nat.eqb_refl. by eexists. }
    destruct H as [[ct key] H]. change (mkNote 1000 _ _ _) with note_paid. by rewrite H.
Qed.
Lemma sample_paid_leaf : leaves !! Z.to_nat 1 = Some out.(so_commitment).
Proof. reflexivity. Qed.
Lemma payment_reaches_its_owner_witness :
  let entries := [(0, id_of 7, []); (1, out.(so_commitment), out.(so_stealth_ct))] in
  (∃ found, scan_at payee 2 entries = Some found ∧ mkDiscovered note_paid out.(so_commitment) 1 memo ∈ found) ∧
  ∃ plan, build_spend leaves 1 note_paid payee 0 Sample.out1 Sample.out2 10 zero_h256 = Ok plan ∧
    run plan.(pl_witness) = Ok plan.(pl_public).
Proof.
  intros entries.
  destruct (payment_reaches_its_owner payee 2 1000 (id_of 50) (id_of 51) memo out 1 entries leaves sample_output) as (Hfound & _ & Hspend).
  - by right; left.
  - done.
  - exact sample_paid_leaf.
  - split; [exact Hfound|]. specialize (Hspend 0 Sample.out1 Sample.out2 10 zero_h256 (conj (Z.le_refl 0) Z.lt_0_1) ltac:(clear; lia)).
    change (so_note out) with note_paid in Hspend. destruct (build_spend _ _ _ _ _ _ _ _ _) as [plan|e|].
    + exists plan. split; [done|]. exact (proj1 (proj2 Hspend)).
    + by destruct Hspend.
    + destruct Hspend.
Defined.
Lemma disclosure_tells_the_payment_witness :
  note_key_as_recipient payee 2 out.(so_commitment) out.(so_stealth_ct) = Some out.(so_note_key) ∧
  ∃ p d, build_disclosure "hk" leaves 1 note_paid.(note_owner) out.(so_stealth_ct) out.(so_note_key) = Some p ∧
    verify_disclosure p = Ok d ∧ d.(di_value) = 1000 ∧ d.(di_memo) = str_bytes "rent".
Proof.
  destruct (disclosure_tells_the_payment payee 2 1000 (id_of 50) (id_of 51) memo out "hk" 1 leaves sample_output) as (Hkey & p & Hb & Hv).
  - done.
  - exact sample_paid_leaf.
  - split; [exact Hkey|]. exists p. eexists. split; [exact Hb|]. split; [exact Hv|]. split; reflexivity.
Defined.

Lemma collision_free_same x : collision_free [x; x].
Proof. repeat constructor. Qed.
(** The package that the auditor gets, and what he reads in it. *)
Definition package : DisclosurePackage :=
  mkDisclosure 1 "hk" out.(so_commitment) note_paid.(note_owner) 1 (node_at_fast merkle_node leaves TREE_DEPTH 0)
    (tree_path_fast merkle_node leaves TREE_DEPTH 1) out.(so_stealth_ct) out.(so_note_key).
Definition disclosed : DisclosedPayment :=
  mkDisclosed 1000 note_paid.(note_owner) note_paid.(note_rho) note_paid.(note_rcm) memo out.(so_commitment) 1
    (node_at_fast merkle_node leaves TREE_DEPTH 0).
Lemma package_ok : verify_disclosure package = Ok disclosed.
Proof. vm_compute. reflexivity. Qed.
Lemma disclosure_binds_amount_witness :
  (leaves !! 1%nat = Some out.(so_commitment) ∨ out.(so_commitment) = zero_h256) ∧
  note_paid = mkNote disclosed.(di_value) disclosed.(di_owner_tag) disclosed.(di_rho) disclosed.(di_rcm).
Proof.
  apply (disclosure_binds_amount package disclosed leaves 1 note_paid package_ok).
  - unfold disclosed. cbn [di_anchor]. by rewrite node_at_fast_eq by done.
  - cbn [disclosed di_leaf_index]. lia.
  - reflexivity.
  - unfold tree_inputs. rewrite <-tree_path_fast_eq by done.
    apply collision_free_nodup. apply (bool_decide_unpack _). vm_compute. exact I.
  - cbn [note_paid note_value]. unfold in_u64, u64_max. lia.
  - reflexivity.
  - exact (collision_free_same (note_input note_paid)).
Defined.
Lemma disclosed_memo_is_not_bound_witness :
  ∃ ct, verify_disclosure (mkDisclosure 1 "hk" out.(so_commitment) note_paid.(note_owner) 1 package.(dp_anchor)
                             package.(dp_siblings) ct out.(so_note_key)) =
    Ok (mkDisclosed 1000 note_paid.(note_owner) note_paid.(note_rho) note_paid.(note_rcm) (str_bytes "bribe")
          out.(so_commitment) 1 package.(dp_anchor)).
Proof. exact (disclosed_memo_is_not_bound package disclosed (str_bytes "bribe") package_ok). Defined.

(** ** A wallet that shields twice *)

Module Shielded.
#[local] Existing Instances toy_shake toy_sha2 toy_codecs Account.Sample.text.
Definition result (l : list (string * Value)) : string + Value := inr (VObj [("result", VObj l)]).
Definition at_height (h : Z) : string + Value := result [("chain_id", VStr "hk"); ("height", VNum h)].
(** The answers up to the proof, then the process is killed. *)
Definition shield_answers : list Answer :=
  [OnReply (at_height 2100); OnReply (result [("amount", VStr "5000")]); OnSave WDone; OnReply (at_height 2100);
   OnFresh (id_of 61); OnReply (result []); OnReply (result [("proof", VStr "00")])].
Definition account : option AccountFile := Some (Account.Sample.file 4).
Definition fresh : Purse := mkPurse (mkClient None [] []) (mkShieldDisk None [None]) [].
Definition answered (script : list Answer) (p : Purse) : Purse :=
  pu_set_client (mkClient account script p.(pu_client).(cl_sent)) p.
Definition once : Purse :=
  (run_call (CShield 1000 USD) (answered (OnFresh (id_of 60) :: OnSave WDone :: shield_answers) fresh)).1.
(** The note that was shielded, beside its ciphertext in the node's pool of one leaf. *)
Definition owner : WalletKeys := wallet_keys (h256_bytes (id_of 60)).
Definition note : Note := match once.(pu_proved) with [ProvedMint w] => w.(mw_note) | _ => note_paid end.
Definition ct : bytes :=
  match address_at owner 2 ≫= λ to, seal_note note to (id_of 61) (str_bytes "shield") with Some (ct, _) => ct | None => [] end.
Definition pool : list H256 := [commit_note note].
Definition path_reply : string + Value :=
  result [("siblings", VArr (vhex <$> tree_path_fast merkle_node pool TREE_DEPTH 0));
          ("root", vhex (node_at_fast merkle_node pool TREE_DEPTH 0))].
(** Two unshieldings of the one note, the node still saying that it is unspent; [scan] are the
    answers to the scan. *)
Definition unshield_answers (scan : list Answer) : list Answer :=
  [OnReply (at_height 2100); OnReply (result [("amount", VStr "5000")]); OnReply (at_height 2100)] ++ scan ++
  [OnReply path_reply; OnSave WDone; OnSave WDone; OnReply (at_height 2100); OnFresh (id_of 62); OnFresh (id_of 63);
   OnFresh (id_of 64); OnReply (result []); OnReply (result [("proof", VStr "00")])].
Definition unspent : Answer := OnReply (result [("spent", VBool false)]).
Definition first_scan : list Answer :=
  [OnReply (result [("notes", VArr [note_json 0 0 (commit_note note, ct)]); ("total", VNum 1); ("next", VNull)]);
   OnReply (at_height 2100); unspent; OnSave WDone].
Definition next_scan : list Answer :=
  [OnReply (result [("notes", VArr []); ("total", VNum 1); ("next", VNull)]); unspent].
Definition twice : Purse := (run_call (CUnshield 400 USD) (answered (unshield_answers first_scan) once)).1.
Definition thrice : Purse := (run_call (CUnshield 300 USD) (answered (unshield_answers next_scan) twice)).1.
End Shielded.
#[local] Existing Instances toy_codecs Account.Sample.text.
Lemma sample_leaves : leaves_of Shielded.thrice.(pu_proved) = [0; 1].
Proof. vm_compute. reflexivity. Qed.
Lemma sample_proved : length Shielded.thrice.(pu_proved) = 3%nat.
Proof. vm_compute. reflexivity. Qed.
Lemma sample_purse : purse_life (0 + 1 + 1 + 1) Shielded.thrice.
Proof.
  assert (H : purse_life (0 + 1) Shielded.once) by apply life_call, life_new.
  exact (life_call _ _ _ _ _ (life_call _ _ _ _ _ H)).
Qed.
Lemma no_leaf_or_tag_used_twice_witness :
  ∃ k tags, leaves_of Shielded.thrice.(pu_proved) = [0; 1] ∧ NoDup [0; 1] ∧ length tags = 3%nat ∧ NoDup tags ∧
    Forall2 (own_note k) Shielded.thrice.(pu_proved) tags.
Proof.
  destruct (no_leaf_or_tag_used_twice _ _ sample_purse) as (k & tags & Hl & Ht & Ho).
  - unfold u64_max. lia.
  - rewrite sample_leaves in Hl. exists k, tags. split_and!; [exact sample_leaves|exact Hl| |exact Ht|exact Ho].
    rewrite <-(Forall2_length _ _ _ Ho). exact sample_proved.
Defined.

(** ** A node whose pool holds the payment *)

Module Paying.
(** A node that knows the payment, and a file that has seen the leaf before it. *)
Definition node : Apply.Ledger :=
  Apply.mkLedger state_default None (rlog_new 8) [(id_of 7, []); (out.(so_commitment), out.(so_stealth_ct))] ∅
    (mempool_default None) [] (mkSearchIndex ∅ ∅).
Definition file : ShieldFile := mkShield (hex Sample.master) 0 1 (mkCache "hk" 1 []) ∅.
Definition info : Value := VObj [("result", VObj [("chain_id", VStr "hk"); ("height", VNum 2100)])].
Definition head : ChainInfo := mkChainInfo "hk" 2100 0 u64_max.
Definition wallet : Purse := mkPurse (mkClient None [] []) (mkShieldDisk (Some file) [Some file]) [].
End Paying.
Lemma wallet_finds_every_payment_witness :
  ∃ m, ∀ rs s, length rs = m → ∃ f' notes d spent,
    my_notes payee USD Paying.file (with_script
      (replies [Paying.info] ++ replies (node_pages 3 Paying.node None 1) ++ replies [Paying.info] ++
       (OnReply <$> rs) ++ OnSave WDone :: s) Paying.wallet) =
      (pu_set_disk (mkShieldDisk (Some f') [Some f']) (with_script s Paying.wallet), Ok (f', notes)) ∧
    (cache_of USD f').(ca_scanned_through) = 2 ∧
    (d, spent) ∈ notes ∧ d.(dc_leaf_index) = 1 ∧ d.(dc_commitment) = commit_note note_paid.
Proof.
  destruct (wallet_finds_every_payment payee 2 1000 (id_of 50) (id_of 51) memo out 1 USD Paying.file Paying.node None
    Paying.info Paying.head Paying.info Paying.head Paying.wallet sample_output) as [m H].
  - reflexivity.
  - change (0 ≤ 1 ≤ 1). lia.
  - change (2 ≤ u64_max). unfold u64_max. lia.
  - reflexivity.
  - reflexivity.
  - change (epoch_of _) with 2. lia.
  - constructor.
  - exists m. intros rs s Hrs. destruct (H rs s Hrs) as (f' & notes & d & spent & Hrun & Hc & Hin & Hi & Hcm & _).
    exists f', notes, d, spent. split; [exact Hrun|]. split; [exact Hc|]. split; [exact Hin|]. split; [exact Hi|exact Hcm].
Defined.
