(* ===== verification/Chain.v ===== *)
(** The chain as a function of the decided values: what a node's ledger, note
    feeds, receipts and validator set are after each height, without files,
    pools, queues and clocks.  Every node of Node.v is compared with it. *)

From S2P Require Export Boot.
From S2P Require Import Ledger Signer.
#[local] Open Scope Z_scope.

(** * When a block does not apply *)

Section errors.
Context {SHAKE : Shake} {SHA2 : Sha2} {CODECS : Codecs} {STX : StxCodec} {SCODECS : StateCodecs}.
Context (agg : option AggVerifier) (chain_start_time : Z) (json_total : ∀ tx, is_Some (json_stx tx)).

Definition block_time (height : Z) : Z := wrapping u64_max (chain_start_time + height).

Lemma parent_check_state height batch cached g g' r : parent_check height batch cached g = (g', r) → g' = g.
Proof.
  unfold parent_check. destruct batch as [b|]; [|by intros [= <- _]]. rewrite run_get. unfold bindM, refuse_if.
  destruct cached as [h|]; cbn; [by destruct (negb _); intros [= <- _]|].
  destruct (state_commitment _); cbn; [by destruct (negb _); intros [= <- _]|by intros [= <- _]].
Qed.
Lemma parent_check_error height batch cached g g' e :
  parent_check height batch cached g = (g', Err e) → ∃ parent ours, e = AppHashDivergence height parent ours.
Proof.
  unfold parent_check. destruct batch as [b|]; [|by intros [=]]. rewrite run_get. unfold bindM, refuse_if.
  destruct cached as [h|]; cbn; [destruct (negb _); [|done]; intros [= _ <-]; eauto|].
  destruct (state_commitment _); cbn; [destruct (negb _); [|done]; intros [= _ <-]; eauto|done].
Qed.
Lemma install_coverage_noerr batch live rec s s' e : install_coverage agg batch live rec s ≠ (s', Err e).
Proof.
  unfold install_coverage, set_block_coverage. intros H. destruct batch as [b|]; [|done].
  destruct (b_agg_proof b); [done|]. cbv zeta in H. destruct (omap _ _); [done|]. by destruct (agg_verdict _ _ _ _ _).
Qed.

(** A block that is refused is refused for its parent, and then only the cached
    commitment is gone, or for its height or its time. *)
Lemma apply_error height batch live rec l l' e :
  apply_batch_to_chain agg chain_start_time height batch live rec l = (l', Err e) →
  (l' = lg_set_last None l ∧ ∃ parent ours, e = AppHashDivergence height parent ours) ∨
  (∃ e', e = ApplyBlockFailed e') ∧
    (height ≠ wrapping u64_max (st_height l.(lg_chain) + 1) ∨ block_time height < st_time l.(lg_chain)).
Proof.
  intros H. unfold apply_batch_to_chain in H. rewrite run_get, run_modify in H.
  apply bindM_inv in H as [(g1 & u & Hp & H)|[(e' & Hp & [= ->])|[_ [=]]]].
  2: { left. pose proof (parent_check_state _ _ _ _ _ _ Hp) as ->. split; [done|]. by eapply parent_check_error. }
  apply parent_check_state in Hp as ->. right.
  apply bindM_inv in H as [(g2 & av & Hcov & H)|[(e' & Hcov & _)|[_ [=]]]].
  2: { exfalso. unfold on_chain, zoom in Hcov. destruct (install_coverage _ _ _ _ _) as [c [?|e2|]] eqn:E; try done.
    by apply install_coverage_noerr in E. }
  apply on_chain_inv in Hcov as (c1 & Hcov & ->). apply install_coverage_run in Hcov as (-> & _ & _).
  apply bindM_inv in H as [(g3 & rs & Hb & H)|[(e' & Hb & [= ->])|[_ [=]]]].
  - exfalso. apply on_chain_inv in Hb as (c2 & Hb & ->).
    unfold bindM at 1 in H. rewrite record_receipts_run in H by done.
    unfold bindM at 1, zoom at 1 in H.
    match type of H with context [index_txs_into ?h ?txs ?ix] =>
      destruct (index_from_run json_total (E := NodeError) h 0 txs ix) as (ix' & Hix); unfold index_txs_into in H; rewrite Hix in H end.
    unfold bindM at 1 in H.
    match type of H with context [drop_included ?txs ?g] =>
      destruct (drop_included_run json_total txs g) as (g' & Hd & _); rewrite Hd in H end.
    rewrite run_modify, run_get in H. unfold expect, bindM at 1 in H. by destruct (state_commitment _).
  - unfold on_chain, zoom in Hb. cbn [lg_chain lg_set_chain lg_set_last] in Hb.
    destruct (apply_block_verified _ _ _ _ _) as [c [rs|e2|]] eqn:E; [done| |done]. injection Hb as _ <-.
    split; [by eexists|]. apply refused_block_errors in E.
    assert (st_height (covered batch av (lg_chain l)) = st_height (lg_chain l) ∧
            st_time (covered batch av (lg_chain l)) = st_time (lg_chain l)) as [Eh Et] by (unfold covered; by destruct av).
    rewrite Eh, Et in E. destruct E as [[[Hh|(v & [= <-] & Hl)] _]|[Ht _]]; [by left| |by right].
    by rewrite length_fmap in Hl.
Qed.
End errors.

(** * The image of the chain *)

Record Image := mkImage { im_ledger : Persistent; im_set : HkValidatorSet }.

Section verdict.
Context {SHAKE : Shake} {SHA2 : Sha2} {CODECS : Codecs} {STX : StxCodec} {SCODECS : StateCodecs}.
Context (agg : option AggVerifier) (chain_start_time : Z).

(** The verdict on a block's aggregate proof: every node computes the same one. *)
Definition live_verdict (batch : option Batch) : bool :=
  match batch with
  | Some b =>
      match b.(b_agg_proof), omap proofless_public b.(b_txs) with
      | [], _ | _, [] => false
      | _, pubs => agg_verdict agg b pubs true false
      end
  | None => false
  end.
Lemma install_coverage_live batch rec s s' v :
  install_coverage agg batch true rec s = (s', Ok v) → v = live_verdict batch.
Proof.
  unfold install_coverage, live_verdict. destruct batch as [b|]; [|by intros [= _ <-]].
  destruct (b_agg_proof b); [by intros [= _ <-]|]. cbv zeta. destruct (omap _ _); [by intros [= _ <-]|].
  unfold agg_verdict. destruct agg as [a|]; [|by intros [= _ <-]].
  unfold set_block_coverage, bindM, modifyM, retM. by destruct (agg_verify _ _ _); intros [= _ <-].
Qed.
Lemma apply_live_verdict height batch rec l l' v :
  apply_batch_to_chain agg chain_start_time height batch true rec l = (l', Ok v) → v = live_verdict batch.
Proof.
  intros H. unfold apply_batch_to_chain in H. rewrite run_get, run_modify in H.
  apply bindM_ok in H as (g1 & [] & _ & H). apply bindM_ok in H as (g2 & av & Hcov & H).
  apply on_chain_inv in Hcov as (c1 & Hcov & _). apply install_coverage_live in Hcov as ->.
  do 5 (apply bindM_ok in H as (? & ? & _ & H)). rewrite ?run_modify, ?run_get in H.
  apply bindM_ok in H as (? & ? & _ & H). rewrite ?run_modify in H. by apply retM_inv in H as [_ [= ->]].
Qed.
(** A live block is the block replayed with the verdict every node computes. *)
Lemma apply_live_recorded height batch rec :
  apply_batch_to_chain agg chain_start_time height batch true rec =
  apply_batch_to_chain agg chain_start_time height batch false (live_verdict batch).
Proof.
  assert (install_coverage agg batch true rec = install_coverage agg batch false (live_verdict batch)) as E.
  { unfold install_coverage, live_verdict. destruct batch as [b|]; [|done]. destruct (b_agg_proof b); [done|].
    cbv zeta. destruct (omap _ _); [done|]. unfold agg_verdict. by destruct agg. }
  unfold apply_batch_to_chain. by rewrite E.
Qed.
End verdict.

(** ** The set after a block *)

Section set_block.
Context {SHAKE : Shake} {ROOT : RootScheme} {HSS : Hss} (cfg : NodeConfig).

Definition set_block (height : Z) (batch : option Batch) (set : HkValidatorSet) : HkValidatorSet :=
  (view_block cfg height batch (mkView set [] 0)).(vw_set).

(** The set does not depend on the history and the epoch it is seen with. *)
Definition alike (x y : View * bool) : Prop := x.1.(vw_set) = y.1.(vw_set) ∧ x.2 = y.2.
Lemma foldl_alike {A} (f : View * bool → A → View * bool) l x y :
  (∀ x y a, alike x y → alike (f x a) (f y a)) → alike x y → alike (foldl f x l) (foldl f y l).
Proof. intros Hf. revert x y. induction l as [|a l IH]; intros x y Hxy; [done|]. cbn. auto. Qed.
Lemma view_rotation_alike h x y c : alike x y → alike (view_rotation cfg h x c) (view_rotation cfg h y c).
Proof. intros [Hs Hb]. unfold view_rotation. rewrite Hs. by destruct (apply_rotation _ _ _). Qed.
Lemma view_change_alike h x y c : alike x y → alike (view_change cfg h x c) (view_change cfg h y c).
Proof. intros [Hs Hb]. unfold view_change. rewrite Hs. by destruct (apply_set_change _ _ _ _) as [[]| |]. Qed.
Lemma view_bootstrap_alike h x y : alike x y → alike (view_bootstrap cfg h x) (view_bootstrap cfg h y).
Proof.
  intros [Hs Hb]. unfold view_bootstrap. rewrite Hs. destruct (bootstrap cfg) as [b|]; [|done].
  destruct (h =? _); [|done]. by destruct (reweight_roots _ _ _) as [[]| |].
Qed.
Lemma view_block_set h batch v : (view_block cfg h batch v).(vw_set) = set_block h batch v.(vw_set).
Proof.
  unfold set_block, view_block, view_changes. rewrite !view_push_set.
  assert (∀ x y : View, x.(vw_set) = y.(vw_set) → alike (x, false) (y, false)) as Hal by done.
  apply view_bootstrap_alike, foldl_alike; [apply view_change_alike|]. apply Hal.
  unfold view_rotations. rewrite !view_push_set. apply foldl_alike; [apply view_rotation_alike|]. by apply Hal.
Qed.
Lemma set_block_normal h batch set : set_normal set → set_normal (set_block h batch set).
Proof. intros Hn. by apply view_block_normal. Qed.
End set_block.

Section chain.
Context {SHAKE : Shake} {SHA2 : Sha2} {CODECS : Codecs} {STX : StxCodec} {SCODECS : StateCodecs} {HSS : Hss}
  {ROOT : RootScheme} {BATCH : BatchWire}.
(** A chain: its rules, its genesis state and set, and the bytes decided at
    each height. *)
Context (env : NodeEnv) (g0 : State) (set0 : HkValidatorSet) (values : Z → bytes).
#[local] Notation cfg := env.(ne_cfg).
#[local] Notation start := env.(ne_start_time).

Definition decided_batch (h : Z) : option Batch := batch_decode (values h).
Definition genesis_image : Image := mkImage (mkPersistent g0 (rlog_new RECEIPT_CAP) ([], ∅)) set0.
Inductive chain_at : Z → Image → Prop :=
  | chain_origin : chain_at 0 genesis_image
  | chain_next h im p :
      chain_at h im →
      block_step start (h + 1) (decided_batch (h + 1)) (live_verdict env.(ne_agg) (decided_batch (h + 1)))
        im.(im_ledger) p →
      chain_at (h + 1) (mkImage p (set_block cfg (h + 1) (decided_batch (h + 1)) im.(im_set))).

Lemma chain_at_nonneg h im : chain_at h im → 0 ≤ h.
Proof. induction 1; lia. Qed.
Lemma chain_at_det h im1 im2 : chain_at h im1 → chain_at h im2 → im1 = im2.
Proof.
  intros H1. revert im2. induction H1 as [|h im p H1 IH Hb]; intros im2 H2.
  - inversion H2 as [|h im p H3]; [done|]. apply chain_at_nonneg in H3. lia.
  - inversion H2 as [|h' im' p' H3 Hb' Eh]; subst; [apply chain_at_nonneg in H1; lia|].
    assert (h' = h) as -> by lia. specialize (IH _ H3) as <-. f_equal. by eapply block_step_det.
Qed.

(** What the genesis has to be for the chain to be one. *)
Record genesis_fit : Prop := mkGenesisFit {
  gf_height : st_height g0 = 0;
  gf_time : st_time g0 ≤ start;
  gf_cover : st_agg_cover g0 = ∅;
  gf_set : set_normal set0;
  gf_commits : is_Some (state_commitment g0);
}.
Record image_ok (h : Z) (im : Image) : Prop := mkImageOk {
  io_height : st_height im.(im_ledger).(p_chain) = h;
  io_range : 0 ≤ h ≤ u64_max;
  io_time : st_time im.(im_ledger).(p_chain) = if h =? 0 then st_time g0 else block_time start h;
  io_config : config im.(im_ledger).(p_chain) = config g0;
  io_cover : st_agg_cover im.(im_ledger).(p_chain) = ∅;
  io_receipts : rlog_ok im.(im_ledger).(p_receipts);
  io_cap : im.(im_ledger).(p_receipts).(rl_cap) = RECEIPT_CAP;
  io_set : set_normal im.(im_set);
  io_commits : is_Some (state_commitment im.(im_ledger).(p_chain));
}.
Lemma log_receipts_ok l g :
  1 ≤ g.(rl_cap) → rlog_ok g → rlog_ok (log_receipts l g) ∧ (log_receipts l g).(rl_cap) = g.(rl_cap).
Proof.
  unfold log_receipts. revert g. induction l as [|[tx r] l IH]; intros g Hc Hg; [done|]. cbn.
  assert (rl_cap (rlog_insert (stx_id tx) (receipt_detail r) g) = rl_cap g) as Ec.
  { unfold rlog_insert. case_bool_decide; [done|]. destruct (_ <? _); [|done]. by destruct (_ ++ _). }
  destruct (IH (rlog_insert (stx_id tx) (receipt_detail r) g)) as [H1 H2].
  - by rewrite Ec.
  - by apply rlog_insert_ok.
  - by rewrite H2, Ec.
Qed.
Lemma chain_at_ok h im : genesis_fit → chain_at h im → image_ok h im.
Proof.
  intros G. induction 1 as [|h im p H IH Hb].
  { constructor; cbn; try apply G; try done. apply rlog_new_ok. done. }
  destruct IH as [Ih Ir It Ic Ico Irc Icp Is Icm]. destruct Hb as (_ & _ & rs & Hb & Er & _ & Hc).
  apply block_config in Hb as (Cc & Ch & Ct & Cco & Ehh).
  assert (∀ b v s, config (covered b v s) = config s ∧ st_height (covered b v s) = st_height s) as Hcov
    by (intros b v s; unfold covered; by destruct v).
  destruct (Hcov (decided_batch (h + 1)) (live_verdict env.(ne_agg) (decided_batch (h + 1))) im.(im_ledger).(p_chain)) as [E1 E2].
  rewrite E1 in Cc. rewrite E2, Ih in Ehh.
  destruct (log_receipts_ok (zip (batch_txs (decided_batch (h + 1))) rs) im.(im_ledger).(p_receipts)) as [Hr1 Hr2];
    [by rewrite Icp|done|].
  pose proof (wrapping_in_u64 (h + 1)) as Hw. rewrite <-Ehh in Hw. unfold in_u64 in Hw.
  constructor; cbn [im_ledger im_set]; [done|lia| |congruence|done|by rewrite Er|by rewrite Er, Hr2|by apply set_block_normal|done].
  rewrite Ct, (proj2 (Z.eqb_neq _ _)) by lia. done.
Qed.
End chain.
