(* ===== verification/App.v ===== *)
(** The application loop (hk-node/src/app.rs): the messages of the consensus
    engine, what the node does and what it answers.  Pacing (the block-time
    floor) and the sending of replies are left out. *)

From S2P Require Export Boot.
From S2P Require Import Signer.
#[local] Open Scope Z_scope.

Section app.
Context {PeerId : Type} `{Countable PeerId} {SHAKE : Shake} {SHA2 : Sha2} {CODECS : Codecs} {STX : StxCodec}
  {SCODECS : StateCodecs} {HSS : Hss} {ROOT : RootScheme} {BATCH : BatchWire} {BLOCK : BlockWire}
  {SNAP : SnapWire} {STXW : StxWire} {VALUE : Bincode HkValue} {INDEX : Bincode PersistedIndex}.
#[local] Notation HkApp := (HkApp (PeerId := PeerId)).
#[local] Notation Ap A := (M HkApp NodeError A).

Inductive AppMsg :=
  | ConsensusReady
  | StartedRound (height : HkHeight) (round : Round) (proposer : HkAddress)
  | GetValue (height : HkHeight) (round : Round)
  | ExtendVote
  | VerifyVoteExtension
  | ReceivedProposalPart (from : PeerId) (part : StreamMessage)
  | Decided (certificate : CommitCertificate) (now : Z)
  | ProcessSyncedValue (height : HkHeight) (round : Round) (proposer : HkAddress) (value_bytes : bytes)
  | GetDecidedValue (height : HkHeight)
  | GetHistoryMinHeight
  | RestreamProposal (height : HkHeight) (round valid_round : Round) (value_id : H256).
Inductive Reply :=
  | Ready (height : HkHeight) (set : HkValidatorSet)
  | Undecided (values : list ProposedValue)
  | Value (v : LocallyProposedValue)
  | NoExtension
  | ExtensionOk
  | Proposed (v : option ProposedValue)
  | NextStart (height : HkHeight) (set : HkValidatorSet)
  | NextRestart (height : HkHeight) (set : HkValidatorSet)
  | DecidedValue (v : option RawDecidedValue)
  | HistoryMin (height : HkHeight)
  | NoReply.

Context (env : NodeEnv).
Definition on_proposals {A} (f : Proposals (PeerId := PeerId) → Proposals (PeerId := PeerId) * A) : Ap A :=
  λ a, let '(p, x) := f a.(ap_proposals) in (ap_set_proposals p a, Ok x).

Definition get_value (height : HkHeight) (round : Round) : Ap LocallyProposedValue :=
  let* a := getM in
  match previously_built env.(ne_address) height round a.(ap_proposals) with
  | Some p => retM p
  | None =>
      let* payload := build_batch env height in
      on_proposals (propose_value env.(ne_address) height round payload)
  end.
(** A value from a syncing peer: as the peer encoded it, and marked valid. *)
Definition process_synced_value (height : HkHeight) (round : Round) (proposer : HkAddress) (x : bytes)
    : Ap (option ProposedValue) :=
  match Codec.decode x with
  | Ok value =>
      let proposed := mkProposedValue height round RNil proposer value Valid in
      on_proposals (λ p, (store_undecided proposed p, Some proposed))
  | _ => retM None
  end.
(** A failed commit restarts the height; a stopped process answers nothing. *)
Definition decided (certificate : CommitCertificate) (now : Z) : Ap Reply :=
  let* r := tryM (commit env certificate now) in
  let* a := getM in
  match r with
  | inr _ => retM (NextStart a.(ap_height) (validator_set a))
  | inl ProcessStopped => failM ProcessStopped
  | inl _ => retM (NextRestart a.(ap_height) (validator_set a))
  end.

(** One turn of the loop: the reply and the stream messages published. *)
Definition handle (msg : AppMsg) : Ap (Reply * list StreamMessage) :=
  let* a := getM in
  match msg with
  | ConsensusReady => retM (Ready (start_height a) (validator_set a), [])
  | StartedRound height round proposer =>
      modifyM (λ a, ap_set_proposer (Some proposer) (ap_set_round round (ap_set_height height a))) ;;;
      retM (Undecided (undecided_at height round a.(ap_proposals)), [])
  | GetValue height round =>
      let* v := get_value height round in
      retM (Value v, stream_proposal env.(ne_address) v RNil)
  | ExtendVote => retM (NoExtension, [])
  | VerifyVoteExtension => retM (ExtensionOk, [])
  | ReceivedProposalPart from part =>
      let* v := on_proposals (received_proposal_part from part) in
      retM (Proposed v, [])
  | Decided certificate now => let* r := decided certificate now in retM (r, [])
  | ProcessSyncedValue height round proposer x =>
      let* v := process_synced_value height round proposer x in
      retM (Proposed v, [])
  | GetDecidedValue height => retM (DecidedValue (decided_value height a), [])
  | GetHistoryMinHeight => retM (HistoryMin (earliest_height a), [])
  | RestreamProposal height round valid_round value_id =>
      let proposal_round := if decide (valid_round = RNil) then round else valid_round in
      retM (NoReply,
            match find_undecided height proposal_round value_id a.(ap_proposals) with
            | Some p => stream_proposal env.(ne_address) (mkLocallyProposed height round p.(pv_value)) valid_round
            | None => []
            end)
  end.
End app.
