(* ===== verification/Lifecycle.v ===== *)
(** A node follows its chain: what the home directory holds after any sequence
    of commits, failed writes, crashes and power losses, and what a restart
    makes of it. *)

From S2P Require Export Chain App.
From S2P Require Import Signer.
#[local] Open Scope Z_scope.

Section life.
Context {PeerId : Type} `{Countable PeerId} {SHAKE : Shake} {SHA2 : Sha2} {CODECS : Codecs} {STX : StxCodec}
  {SCODECS : StateCodecs} {HSS : Hss} {ROOT : RootScheme} {BATCH : BatchWire} {BLOCK : BlockWire}
  {SNAP : SnapWire} {STXW : StxWire} {VALUE : Bincode HkValue} {INDEX : Bincode PersistedIndex}.
#[local] Notation HkApp := (HkApp (PeerId := PeerId)).
#[local] Notation Ap A := (M HkApp NodeError A).
Implicit Types a : HkApp.
Context (env : NodeEnv) (g0 : State) (set0 : HkValidatorSet) (values : Z → bytes).
#[local] Notation cfg := env.(ne_cfg).
#[local] Notation chain_at := (chain_at env g0 set0 values).
#[local] Notation batch_at := (decided_batch values).
#[local] Notation verdict_at h := (live_verdict env.(ne_agg) (batch_at h)).

(** * The directory of a node that followed the chain *)

Definition good_block (h : Z) (b : StoredBlock) : Prop :=
  b.(sb_height) = h ∧ b.(sb_value_bytes) = values h ∧ b.(sb_agg_valid) = verdict_at h ∧
  b.(sb_certificate).(rc_value_id) = val_id (value_new (values h)) ∧ ∃ im, chain_at h im.
(** A height reads as nothing or as its block. *)
Definition fine : LogSpec := λ h o, match o with None => True | Some b => good_block h b end.

(** The snapshot of an image of the chain. *)
Record snapshot_of (h : Z) (im : Image) (n : NodeSnapshot) : Prop := mkSnapshotOf {
  so_height : n.(ns_height) = h;
  so_hash : state_commitment im.(im_ledger).(p_chain) = Some n.(ns_app_hash);
  so_state : n.(ns_state) = to_snapshot im.(im_ledger).(p_chain);
  so_feeds : (n.(ns_pool_notes), n.(ns_notes_by_asset)) = im.(im_ledger).(p_feeds);
  so_receipts : n.(ns_receipts) = rlog_entries im.(im_ledger).(p_receipts);
  so_validators : n.(ns_validators) = dto_of <$> im.(im_set).(validators);
}.
Definition good_image (n : NodeSnapshot) : Prop := ∃ h im, chain_at h im ∧ snapshot_of h im n.
(** What a snapshot file holds: an image of the chain of height [s] or above. *)
Definition image_bytes_ok (s : Z) (c : option bytes) : Prop :=
  match c with None => s ≤ 0 | Some x => ∃ n, dec_snap x = Some n ∧ good_image n ∧ s ≤ n.(ns_height) end.
Definition absent (f : File) : Prop := f.(f_visible) = None ∧ ∀ c, c ∈ f.(f_survivors) → c = None.
Record snaps_ok (s : Z) (d : SnapFiles) : Prop := mkSnapsOk {
  sn_file : file_ok d.(sf_current);
  sn_images c : c ∈ d.(sf_current).(f_survivors) → image_bytes_ok s c;
  sn_v3 : absent d.(sf_v3);
  sn_v2 : absent d.(sf_v2);
  sn_legacy : absent d.(sf_legacy);
}.
(** The blocks of the heights above [s] up to [d] are there, whatever survives. *)
Definition held (s d : Z) : LogSpec := λ k o, fine k o ∧ (s < k ≤ d → is_Some o).
(** A directory from which a restart comes up at [d] or above. *)
Record home_ok (s d : Z) (x : Store) : Prop := mkHomeOk {
  ho_base : 0 ≤ s;
  ho_tidy : tidy fine x.(so_log);
  ho_held : disk_ok x.(so_log) (held s d);
  ho_snaps : snaps_ok s x.(so_snaps);
}.

(** * The running node *)

Definition app_image (a : HkApp) : Image := mkImage (persistent a.(ap_ledger)) a.(ap_seats).(se_validators).
Record follows (h : Z) (a : HkApp) : Prop := mkFollows {
  fw_chain : chain_at h (app_image a);
  fw_cache : cache_ok a.(ap_ledger);
  fw_current : current (h + 1) (view a.(ap_seats));
}.

(** ** Running the parts *)

Lemma on_ledger_run {A} (m : M Ledger NodeError A) a l r :
  m a.(ap_ledger) = (l, r) → on_ledger m a = (ap_set_ledger l a, r).
Proof. intros E. unfold on_ledger, zoom. rewrite E. by destruct r. Qed.
Lemma on_seats_run {A} (m : M Seats NodeError A) a s r :
  m a.(ap_seats) = (s, r) → on_seats m a = (ap_set_seats s a, r).
Proof. intros E. unfold on_seats, zoom. rewrite E. by destruct r. Qed.
(** What a block does to the seats, live or replayed, in one step. *)
Lemma seats_steps {B} batch replay h a (k : Ap B) :
  set_normal a.(ap_seats).(se_validators) →
  ∃ s', (on_seats (apply_rotations cfg h batch replay) ;;; on_seats (apply_set_changes cfg h batch) ;;; k) a =
          k (ap_set_seats s' a) ∧ view s' = view_block cfg h batch (view a.(ap_seats)).
Proof.
  intros Hn. destruct (seats_block_run (E := NodeError) cfg h batch replay a.(ap_seats) Hn) as (s' & Hrun & Hv).
  exists s'. split; [|done]. apply bindM_ok in Hrun as (s1 & [] & H1 & H2).
  rewrite (run_eq _ _ _ _ _ (on_seats_run _ _ _ _ H1)).
  by rewrite (run_eq _ _ _ _ _ (on_seats_run _ (ap_set_seats s1 a) _ _ H2)).
Qed.

Lemma seats_steps_inv {B} batch replay h a (k : Ap B) a' r :
  (on_seats (apply_rotations cfg h batch replay) ;;; on_seats (apply_set_changes cfg h batch) ;;; k) a = (a', r) →
  set_normal a.(ap_seats).(se_validators) →
  ∃ s', k (ap_set_seats s' a) = (a', r) ∧ view s' = view_block cfg h batch (view a.(ap_seats)).
Proof. intros Hrun Hn. destruct (seats_steps batch replay h a k Hn) as (s' & Hs & Hv). exists s'. by rewrite <-Hs. Qed.

Context (G : genesis_fit env g0 set0) (json_total : ∀ tx, is_Some (json_stx tx)).

Lemma chain_ok h im : chain_at h im → image_ok env g0 h im.
Proof. by apply chain_at_ok. Qed.
Lemma follows_ok h a : follows h a → image_ok env g0 h (app_image a).
Proof. intros F. apply chain_ok, F. Qed.
Lemma follows_normal h a : follows h a → set_normal a.(ap_seats).(se_validators).
Proof. intros F%follows_ok. apply F. Qed.
Lemma follows_tip h a : follows h a → st_height (ap_chain a) = h.
Proof. intros F%follows_ok. apply F. Qed.
(** The next image of the chain is the next block applied to this one. *)
Lemma chain_at_step h im im' :
  chain_at h im → chain_at (h + 1) im' →
  block_step env.(ne_start_time) (h + 1) (batch_at (h + 1)) (verdict_at (h + 1)) im.(im_ledger) im'.(im_ledger) ∧
  im'.(im_set) = set_block cfg (h + 1) (batch_at (h + 1)) im.(im_set).
Proof.
  intros H1 H2. inversion H2 as [Eh|h0 im0 p H0 Hb Eh]; subst.
  { apply chain_at_nonneg in H1. lia. }
  assert (h0 = h) as -> by lia. by rewrite (chain_at_det _ _ _ _ _ _ _ H1 H0).
Qed.
(** The seats after the next block show the next set, from the next height on. *)
Lemma seats_advance h a s' :
  follows h a → view s' = view_block cfg (h + 1) (batch_at (h + 1)) (view a.(ap_seats)) →
  s'.(se_validators) = set_block cfg (h + 1) (batch_at (h + 1)) a.(ap_seats).(se_validators) ∧
  current (h + 1 + 1) (view s').
Proof.
  intros F Hv. split.
  - change (se_validators s') with (vw_set (view s')). by rewrite Hv, view_block_set.
  - rewrite Hv. apply view_block_current, F.
Qed.

(** * Restarting *)

(** A computation that only fills the pool. *)
Lemma insert_unchecked_run tx p : ∃ p' b, insert_unchecked tx p = (p', Ok b).
Proof.
  unfold insert_unchecked, bindM at 1, readM. rewrite txid_total by done. rewrite run_get.
  destruct (_ || _); by eexists _, _.
Qed.
Lemma restore_run q p : ∃ p', restore q p = (p', Ok tt).
Proof.
  revert p. induction q as [|tx q IH]; intros p; [by exists p|]. unfold restore. cbn [for_eachM].
  destruct (insert_unchecked_run tx p) as (p1 & b & Hi). destruct (IH p1) as [p2 H2]. exists p2.
  erewrite run_eq; [exact H2|]. by rewrite (run_eq _ _ _ _ _ Hi).
Qed.
Lemma gate_calm p tx : gate p tx ≠ Panic.
Proof. unfold gate. rewrite txid_total by done. calm. Qed.
Lemma settle_cap_calm tx chain : channel_settle_cap tx chain ≠ Panic.
Proof. unfold channel_settle_cap. calm. Qed.
Lemma gated_checks_calm w p tx chain v : gated_checks w p tx chain v ≠ Panic.
Proof. unfold gated_checks, nullifier_check, expected_auth. calm. Qed.
Lemma try_admit_run {E} w tx chain p : ∃ p' r, tryM (E' := E) (try_admit w tx chain) p = (p', Ok r).
Proof.
  unfold tryM, try_admit, bindM at 1, readM at 1. pose proof (gate_calm p tx).
  destruct (gate p tx) as [id|e|]; [|by eexists _, _|done]. unfold bindM at 1, readM at 1.
  pose proof (settle_cap_calm tx chain). destruct (channel_settle_cap tx chain) as [u|e|]; [|by eexists _, _|done].
  unfold admit_gated, bindM at 1, readM at 1. pose proof (gated_checks_calm w p tx chain (envelope_verdict tx)).
  destruct (gated_checks _ _ _ _ _) as [v|e|]; [|by eexists _, _|done]. by eexists _, _.
Qed.
Lemma on_mempool_run {E A} (m : M Mempool E A) a p x :
  m a.(ap_ledger).(lg_mempool) = (p, Ok x) →
  on_mempool m a = (ap_set_ledger (lg_set_mempool p a.(ap_ledger)) a, Ok x).
Proof. intros Hm. apply on_ledger_run. unfold zoom, expectM. by rewrite Hm. Qed.
Lemma readmit_run txs a :
  ∃ p, readmit env txs a = (ap_set_ledger (lg_set_mempool p a.(ap_ledger)) a, Ok tt).
Proof.
  revert a. induction txs as [|tx txs IH]; intros a.
  { exists a.(ap_ledger).(lg_mempool). by destruct a as [[] ? ? ? ? ? ? ? ? ? ? ? ?]. }
  cbn [readmit]. rewrite run_get.
  destruct (try_admit_run (E := AdmitError) env.(ne_nonce_window) tx (ap_chain a) a.(ap_ledger).(lg_mempool)) as (p & r & Hr).
  rewrite (run_eq _ _ _ _ _ (on_mempool_run _ _ _ _ Hr)).
  destruct (IH (ap_set_ledger (lg_set_mempool p a.(ap_ledger)) a)) as [p' ->]. by exists p'.
Qed.

(** ** The image *)

Lemma with_config_snapshot s c :
  c = config s → st_agg_cover s = ∅ → with_config c (from_snapshot (to_snapshot s)) = s.
Proof. intros -> Hc. destruct s. cbn in *. by rewrite Hc. Qed.
Lemma validator_dto v : validator_of (dto_of v) = v.
Proof. by destruct v. Qed.

(** A node that was just made. *)
Record fresh (a : HkApp) : Prop := mkFresh {
  fr_config : config (ap_chain a) = config g0;
  fr_receipts : a.(ap_ledger).(lg_receipts) = rlog_new RECEIPT_CAP;
  fr_cache : a.(ap_ledger).(lg_last_app_hash) = None;
}.
(** What a restart leaves as it finds it: the directory, the script, the queues. *)
Record same_home a a' : Prop := mkSameHome {
  sh_log : a'.(ap_store).(so_log) = a.(ap_store).(so_log);
  sh_snaps : a'.(ap_store).(so_snaps) = a.(ap_store).(so_snaps);
  sh_wal : a'.(ap_store).(so_wal) = a.(ap_store).(so_wal);
  sh_index : a'.(ap_store).(so_index) = a.(ap_store).(so_index);
  sh_proposals : a'.(ap_proposals) = a.(ap_proposals);
}.
#[local] Instance same_home_preorder : PreOrder same_home.
Proof. split; [done|]. intros a b c [] []. constructor; congruence. Qed.

Lemma restore_chain_run n h im a :
  chain_at h im → snapshot_of h im n → fresh a →
  ∃ l, restore_chain n a = (ap_set_ledger l a, Ok tt) ∧ persistent l = im.(im_ledger) ∧ l.(lg_last_app_hash) = None.
Proof.
  intros Hc [Eh Ehash Est Ef Er Ev] [Fc Fr Fl]. pose proof (chain_ok _ _ Hc) as I.
  pose proof (with_config_snapshot im.(im_ledger).(p_chain) _ eq_refl (io_cover _ _ _ _ I)) as Hst.
  rewrite (io_config _ _ _ _ I), <-Fc, <-Est in Hst.
  unfold restore_chain. rewrite run_get, Hst, Ehash. unfold expect. rewrite run_ret.
  rewrite bool_decide_eq_true_2 by done. unfold refuse_if, negb. rewrite run_ret.
  set (l := lg_set_receipts (rlog_restore n.(ns_receipts) a.(ap_ledger).(lg_receipts))
              (lg_set_feeds (n.(ns_pool_notes), n.(ns_notes_by_asset)) (lg_set_chain im.(im_ledger).(p_chain) a.(ap_ledger)))).
  rewrite (run_eq _ _ _ (ap_set_ledger l a) tt) by (apply on_ledger_run; reflexivity).
  destruct (restore_run n.(ns_mempool) l.(lg_mempool)) as (p & Hp). exists (lg_set_mempool p l). split_and!.
  - by rewrite (on_mempool_run _ (ap_set_ledger l a) _ _ Hp).
  - unfold persistent. cbn. rewrite Ef, Er, Fr, <-(io_cap _ _ _ _ I), rlog_export_restore by apply I.
    by destruct (im_ledger im).
  - done.
Qed.
Lemma restore_seats_run n h im a :
  chain_at h im → snapshot_of h im n →
  ∃ s, restore_seats n a = (ap_set_seats s a, Ok tt) ∧ s.(se_validators) = im.(im_set) ∧
    s.(se_history) = [(h + 1, im.(im_set))].
Proof.
  intros Hc [Eh _ _ _ _ Ev]. pose proof (io_set _ _ _ _ (chain_ok _ _ Hc)) as Hset.
  unfold restore_seats. rewrite Ev, Eh. assert (dto_of <$> validators (im_set im) ≠ []) as Hne.
  { intros Hn%fmap_nil_inv. by apply Hset. }
  set (s1 := se_set_validators im.(im_set) a.(ap_seats)).
  rewrite (run_eq _ _ _ (ap_set_seats s1 a) tt).
  - eexists. split; [rewrite (on_seats_run _ (ap_set_seats s1 a) _ _ eq_refl); reflexivity|done].
  - destruct (dto_of <$> validators (im_set im)) as [|d ds] eqn:Ed; [done|].
    rewrite <-Ed, <-list_fmap_compose, (list_fmap_ext _ id), list_fmap_id; [|by intros i v _; apply validator_dto].
    rewrite (run_eq _ _ _ a im.(im_set)) by (unfold readM; by rewrite set_new_same).
    by rewrite (on_seats_run _ _ _ _ eq_refl).
Qed.
Lemma restore_image_run n h im a :
  chain_at h im → snapshot_of h im n → fresh a →
  ∃ a', restore_image n a = (a', Ok tt) ∧ follows h a' ∧ same_home a a' ∧ a'.(ap_decided) = a.(ap_decided).
Proof.
  intros Hc Hn Hf. destruct (restore_chain_run n h im a Hc Hn Hf) as (l & Hl & Hp & Hlast).
  destruct (restore_seats_run n h im (ap_set_ledger l a) Hc Hn) as (s & Hs & Hset & Hhist).
  eexists. split; [unfold restore_image; rewrite (run_eq _ _ _ _ _ Hl); exact Hs|].
  split_and!; [|done|done]. constructor.
  - unfold app_image. cbn. rewrite Hp, Hset. by destruct im.
  - intros x. cbn. by rewrite Hlast.
  - unfold current, view. cbn. rewrite Hset, Hhist. unfold validator_set_at. cbn. rewrite Z.leb_refl.
    split; [by repeat constructor|done].
Qed.

(** ** The replay *)

Lemma replay_block_run h sb a :
  follows h a → good_block (h + 1) sb →
  ∃ a', replay_block env (h + 1) sb a = (a', Ok tt) ∧ follows (h + 1) a' ∧ same_home a a' ∧
    a'.(ap_decided) =
      <[h + 1 := mkDecided (value_new (values (h + 1))) (certificate_of sb.(sb_certificate))]> a.(ap_decided).
Proof.
  intros F (Eh & Ev & Ea & Ec & im' & Hc'). pose proof F as [Hc Hcache _].
  destruct (chain_at_step _ _ _ Hc Hc') as [Hb Hset].
  destruct (apply_complete env.(ne_agg) env.(ne_start_time) json_total (h + 1) (batch_at (h + 1)) a.(ap_ledger)
              im'.(im_ledger) (verdict_at (h + 1)) Hcache Hb) as (l' & Hl & Hpers & Hcache').
  destruct (seats_steps (B := unit) (batch_at (h + 1)) true (h + 1) (ap_set_ledger l' a)
              (modifyM (λ a, ap_set_decided
                 (<[h + 1 := mkDecided (value_new (values (h + 1))) (certificate_of sb.(sb_certificate))]> a.(ap_decided)) a))
              (follows_normal _ _ F)) as (s' & Hs & Hv).
  destruct (seats_advance _ _ _ F Hv) as [Hset' Hcur].
  eexists. split; [|split_and!].
  - unfold replay_block, certificate_value_mismatch. rewrite Ev, Ec, bool_decide_eq_true_2 by done.
    unfold negb, refuse_if, bindM at 1, retM at 1. cbv zeta. rewrite Ea. unfold decided_batch, value_new in *. cbn [val_txs].
    erewrite run_eq by (apply on_ledger_run, Hl). exact Hs.
  - constructor; [|exact Hcache'|exact Hcur]. unfold app_image. cbn. rewrite Hpers, Hset'.
    replace (mkImage _ _) with im'; [done|]. rewrite <-Hset at 1. by destruct im'.
  - done.
  - done.
Qed.

Lemma read_fine d h : tidy fine d → ∃ o, load_block d h = Ok o ∧ fine h o.
Proof. intros [Hd _]. by apply disk_ok_load. Qed.

(** A replay takes the blocks above the chain as long as they are gap-free. *)
Lemma replay_run d hs h a :
  tidy fine d → StronglySorted Z.lt hs → (∀ k, k ∈ hs ↔ h < k ∧ ∃ b, load_block d k = Ok (Some b)) →
  follows h a → a.(ap_store).(so_log) = d →
  ∃ a' h', replay env hs a = (a', Ok tt) ∧ follows h' a' ∧ same_home a a' ∧ h ≤ h' ∧
    (∀ k, h < k ≤ h' → ∃ b, load_block d k = Ok (Some b)) ∧ load_block d (h' + 1) = Ok None ∧
    (∀ k e, a'.(ap_decided) !! k = Some e → a.(ap_decided) !! k = Some e ∨
       h < k ≤ h' ∧ e.(de_value) = value_new (values k)) ∧
    (∀ k, h < k ≤ h' → is_Some (a'.(ap_decided) !! k)) ∧
    (∀ k, is_Some (a.(ap_decided) !! k) → is_Some (a'.(ap_decided) !! k)).
Proof.
  intros Hd. revert h a. induction hs as [|k hs IH]; intros h a Hs Hin F Hlog.
  - exists a, h. split_and!; [done|done|done|lia|intros; exfalso; lia| |by left|intros; exfalso; lia|done].
    destruct (read_fine d (h + 1) Hd) as ([b|] & Hl & _); [|done].
    exfalso. apply (not_elem_of_nil (h + 1)). apply Hin. split; [lia|by eexists].
  - apply StronglySorted_inv in Hs as [Hs Hf]. rewrite Forall_forall in Hf.
    destruct (proj1 (Hin k)) as (Hk & b & Hb); [by left|].
    cbn [replay]. rewrite run_get, (follows_tip _ _ F). destruct (Z.eqb_spec k (h + 1)) as [->|Hne].
    + cbn [negb]. rewrite Hlog, Hb. destruct (read_fine d (h + 1) Hd) as (o & Ho & Hgood).
      rewrite Hb in Ho. apply Ok_inj in Ho as <-.
      destruct (replay_block_run h b a F Hgood) as (a1 & Hr & F1 & Hsame & Hdec).
      destruct (IH (h + 1) a1) as (a' & h' & Hrun & F' & Hsame' & Hle & Hall & Hnone & Hd1 & Hd2 & Hd3); [done| |done| |].
      * intros k. split.
        -- intros Hin'. split; [by apply Hf|]. apply Hin. by right.
        -- intros (Hlt & Hbk). assert (k ∈ h + 1 :: hs) as [->|?]%elem_of_cons; [|lia|done].
           apply Hin. split; [lia|done].
      * by rewrite (sh_log _ _ Hsame).
      * exists a', h'. split_and!.
        -- by rewrite (run_eq _ _ _ _ _ Hr).
        -- done.
        -- by etrans.
        -- lia.
        -- intros k Hk'. destruct (decide (k = h + 1)) as [->|]; [by eexists|]. apply Hall. lia.
        -- done.
        -- intros k e He. destruct (Hd1 k e He) as [Ha|[? ?]]; [|right; split; [lia|done]].
           rewrite Hdec in Ha. destruct (decide (k = h + 1)) as [->|].
           ++ rewrite lookup_insert_eq in Ha. injection Ha as <-. right. split; [lia|done].
           ++ rewrite lookup_insert_ne in Ha by done. by left.
        -- intros k Hk'. destruct (decide (k = h + 1)) as [->|]; [|apply Hd2; lia].
           apply Hd3. rewrite Hdec, lookup_insert_eq. done.
        -- intros k Hk'. apply Hd3. rewrite Hdec. destruct (decide (k = h + 1)) as [->|].
           ++ rewrite lookup_insert_eq. done.
           ++ by rewrite lookup_insert_ne.
    + cbn [negb]. exists a, h. split_and!; [done|done|done|lia|intros; exfalso; lia| |by left|intros; exfalso; lia|done].
      destruct (read_fine d (h + 1) Hd) as ([b1|] & Hl & _); [|done].
      exfalso. assert (h + 1 ∈ k :: hs) as [Heq|Hin']%elem_of_cons; [|by symmetry in Heq|].
      * apply Hin. split; [lia|by eexists].
      * apply Hf in Hin'. lia.
Qed.

(** ** The restart *)

Record same_core a a' : Prop := mkSameCore {
  sc_persistent : persistent a'.(ap_ledger) = persistent a.(ap_ledger);
  sc_cache : a'.(ap_ledger).(lg_last_app_hash) = a.(ap_ledger).(lg_last_app_hash);
  sc_set : a'.(ap_seats).(se_validators) = a.(ap_seats).(se_validators);
  sc_history : a'.(ap_seats).(se_history) = a.(ap_seats).(se_history);
}.
#[local] Instance same_core_preorder : PreOrder same_core.
Proof. split; [done|]. intros a b c [] []. constructor; congruence. Qed.
Lemma follows_core h a a' : same_core a a' → follows h a → follows h a'.
Proof.
  intros [Hp Hl Hs Hh] [Fc Fk Fv]. constructor.
  - unfold app_image. by rewrite Hp, Hs.
  - intros x. rewrite Hl. intros Hx. unfold persistent in Hp. injection Hp as -> _ _ _. by apply Fk.
  - unfold current, view in *. cbn in *. by rewrite Hs, Hh.
Qed.
Lemma adopt_seats s :
  (adopt_epoch_signer cfg s).(se_validators) = s.(se_validators) ∧
  (adopt_epoch_signer cfg s).(se_history) = s.(se_history).
Proof. unfold adopt_epoch_signer. repeat case_match; done. Qed.

Lemma sorted_filter (P : Z → Prop) `{!∀ x, Decision (P x)} l : StronglySorted Z.lt l → StronglySorted Z.lt (filter P l).
Proof.
  induction 1 as [|x l Hs IH Hf]; [constructor|]. rewrite filter_cons. destruct (decide (P x)); [|done].
  constructor; [done|]. rewrite Forall_forall in Hf |- *. intros y [_ Hy]%list_elem_of_filter. by apply Hf.
Qed.
(** The height of the image a restart takes, zero without one. *)
Definition image_height (s : SnapFiles) : Z :=
  match load_snapshot s with Ok (Some n) => n.(ns_height) | _ => 0 end.
Lemma load_snapshot_ok s d :
  snaps_ok s d →
  (load_snapshot d = Ok None ∧ s ≤ 0) ∨ ∃ n, load_snapshot d = Ok (Some n) ∧ good_image n ∧ s ≤ n.(ns_height).
Proof.
  intros [Hf Hi [H3 _] [H2 _] [H1 _]]. unfold load_snapshot, candidate. rewrite H3, H2, H1.
  specialize (Hi _ Hf). destruct (f_visible (sf_current d)) as [x|]; [|by left]. right.
  destruct Hi as (n & Hd & Hn & Hs). rewrite Hd. by exists n.
Qed.

Lemma image_height_base s d x : home_ok s d x → s ≤ image_height x.(so_snaps).
Proof.
  intros Hx. unfold image_height. by destruct (load_snapshot_ok _ _ (ho_snaps _ _ _ Hx)) as [[-> ?]|(n & -> & _ & ?)].
Qed.
Lemma restore_floor_run heights a :
  ∃ a', restore_floor heights a = (a', Ok tt) ∧ a'.(ap_height) = st_height (ap_chain a) + 1 ∧
    same_core a a' ∧ same_home a a' ∧ a'.(ap_decided) = a.(ap_decided) ∧
    a'.(ap_history_min) =
      match contiguous_suffix_min heights with
      | Some min => if default 0 (last heights) =? st_height (ap_chain a) then min else st_height (ap_chain a) + 1
      | None => st_height (ap_chain a) + 1
      end.
Proof.
  unfold restore_floor. rewrite run_get. cbv zeta. rewrite run_modify. unfold set_floor. rewrite run_modify.
  unfold on_store, modifyM. eexists. split; [reflexivity|done].
Qed.
Lemma restore_index_run heights top a :
  ∃ a', restore_index env heights top a = (a', Ok tt) ∧ same_core a a' ∧ same_home a a' ∧
    a'.(ap_height) = a.(ap_height) ∧ a'.(ap_decided) = a.(ap_decided) ∧ a'.(ap_history_min) = a.(ap_history_min).
Proof.
  unfold restore_index. rewrite run_get. destruct (load_index _) as [p|].
  all: eexists; split; [reflexivity|]; cbn; destruct env.(ne_index_history); [|done]; by destruct (filter _ _).
Qed.

(** Every decided value kept in memory is the chain's. *)
Definition served (a : HkApp) : Prop := ∀ k e, a.(ap_decided) !! k = Some e → e.(de_value) = value_new (values k).
Lemma restart_run en handle keys store script s d :
  home_ok s d store →
  ∃ a h, start_node env true (app_new g0 set0 en handle keys store script) = (a, Ok tt) ∧
    follows h a ∧ a.(ap_height) = h + 1 ∧ a.(ap_attached) = true ∧
    same_home (app_new g0 set0 en handle keys store script) a ∧
    image_height store.(so_snaps) ≤ h ∧
    (∀ k, image_height store.(so_snaps) < k ≤ h → ∃ b, load_block store.(so_log) k = Ok (Some b)) ∧
    load_block store.(so_log) (h + 1) = Ok None ∧ d ≤ h ∧ served a.
Proof.
  intros Hhome. pose proof (image_height_base _ _ _ Hhome) as Hs. destruct Hhome as [_ Hlog Hheld Hsn]. set (a0 := app_new g0 set0 en handle keys store script).
  assert (fresh a0) as Hfresh by done.
  assert (follows 0 a0) as F0.
  { constructor; [apply chain_origin|done|]. unfold current. cbn. unfold validator_set_at. cbn.
    split; [by repeat constructor|done]. }
  (* the image *)
  assert (∃ a1, follows (image_height store.(so_snaps)) a1 ∧ same_home a0 a1 ∧ a1.(ap_decided) = ∅ ∧
    restore_from_store env a0 =
      (let* a := getM in
       let heights := block_heights a.(ap_store).(so_log) in
       let snap_height := st_height (ap_chain a) in
       replay env (filter (λ h, snap_height < h) heights) ;;;
       restore_floor heights ;;;
       restore_index env heights snap_height ;;;
       readmit env (wal_load a.(ap_store).(so_wal).(f_visible))) a1) as (a1 & F1 & Hs1 & Hd1 & Hrun).
  { unfold restore_from_store, image_height. rewrite run_get.
    change (so_snaps (ap_store a0)) with (so_snaps store).
    destruct (load_snapshot_ok _ _ Hsn) as [[-> _]|(n & -> & (h & im & Hc & Hof) & _)].
    - by exists a0.
    - destruct (restore_image_run n h im a0 Hc Hof Hfresh) as (a1 & Hr & F1 & Hs1 & Hd1).
      exists a1. rewrite (so_height _ _ _ Hof). split_and!; [done|done|done|]. by rewrite (run_eq _ _ _ _ _ Hr). }
  rewrite run_get in Hrun. pose proof (follows_tip _ _ F1) as Htip. rewrite Htip in Hrun. cbv zeta in Hrun.
  pose proof (sh_log _ _ Hs1) as El. rewrite El in Hrun. change (so_log (ap_store a0)) with (so_log store) in *.
  set (sn := image_height (so_snaps store)) in *. set (hs := block_heights (so_log store)) in *.
  (* the replay *)
  destruct (replay_run (so_log store) (filter (λ h, sn < h) hs) sn a1) as (a2 & h & Hr2 & F2 & Hs2 & Hle & Hall & Hnone & Hd2 & _); [done| | |done|done|].
  { apply sorted_filter, block_heights_sorted. }
  { intros k. rewrite list_elem_of_filter. destruct (read_fine _ k Hlog) as (o & Ho & _).
    unfold hs. rewrite (listed_readable _ _ _ Ho), Ho. split; intros [Hk Hx]; (split; [done|]).
    - destruct Hx as [b ->]. by exists b.
    - destruct Hx as [b [= ->]]. done. }
  rewrite (run_eq _ _ _ _ _ Hr2) in Hrun.
  destruct (restore_floor_run hs a2) as (a3 & Hr3 & Hh3 & Hc3 & Hs3 & Hd3 & _). rewrite (run_eq _ _ _ _ _ Hr3) in Hrun.
  destruct (restore_index_run hs sn a3) as (a4 & Hr4 & Hc4 & Hs4 & Hh4 & Hd4 & _). rewrite (run_eq _ _ _ _ _ Hr4) in Hrun.
  destruct (readmit_run (wal_load (f_visible (so_wal (ap_store a1)))) a4) as [p Hr5]. rewrite Hr5 in Hrun.
  pose proof (follows_tip _ _ F2) as Htip2.
  eexists _, h. split; [|split_and!].
  - unfold start_node. rewrite (run_eq _ _ _ _ _ (run_eq _ _ _ _ _ Hrun)). reflexivity.
  - eapply follows_core, F2. etrans; [exact Hc3|]. etrans; [exact Hc4|].
    constructor; [done|done|apply adopt_seats..].
  - cbn. rewrite Hh4, Hh3, Htip2. done.
  - done.
  - etrans; [|etrans; [exact Hs2|etrans; [exact Hs3|etrans; [exact Hs4|done]]]]. exact Hs1.
  - done.
  - done.
  - done.
  - destruct (Z.le_gt_cases d h) as [|Hgt]; [done|]. destruct (disk_ok_load _ _ (h + 1) Hheld) as (o & Ho & _ & Hsome).
    rewrite Hnone in Ho. apply Ok_inj in Ho as <-. destruct Hsome; [lia|done].
  - intros k e. cbn. rewrite Hd4, Hd3. intros He. destruct (Hd2 k e He) as [Hx|[_ Hx]]; [|done].
    by rewrite Hd1 in Hx.
Qed.

(** * Committing *)

(** Every value that waits for a decision carries the hash of its bytes. *)
Definition honest_value (v : HkValue) : Prop := v = value_new (val_txs v).
Definition honest_proposals (p : Proposals (PeerId := PeerId)) : Prop :=
  ∀ k l v, p.(pr_undecided) !! k = Some l → v ∈ l → honest_value v.(pv_value).

(** The certificate of the value the network decided at [h], for a node that waits
    with [p]: none of the payloads it holds collides with the decided one, and
    the clock of the chain has not wrapped around. *)
Record certified (h : Z) (p : Proposals (PeerId := PeerId)) (cert : CommitCertificate) : Prop := mkCertified {
  ce_height : cert.(cc_height) = h;
  ce_clock : in_u64 env.(ne_start_time) ∧ in_u64 (env.(ne_start_time) + h);
  ce_value : cert.(cc_value_id) = val_id (value_new (values h));
  ce_unique v : v ∈ undecided_of h p → val_id (value_new (val_txs v.(pv_value))) = cert.(cc_value_id) →
    val_txs v.(pv_value) = values h;
}.
Lemma undecided_of_elem h v (p : Proposals (PeerId := PeerId)) :
  v ∈ undecided_of h p ↔ ∃ r l, p.(pr_undecided) !! (h, r) = Some l ∧ v ∈ l.
Proof.
  unfold undecided_of. rewrite list_elem_of_In, in_concat. split.
  - intros (l & Hl%list_elem_of_In & Hv%list_elem_of_In).
    apply list_elem_of_fmap in Hl as ([[h' r] l'] & -> & Hl). rewrite sort_by_perm in Hl.
    apply list_elem_of_filter in Hl as [Eh Hl]. cbn in Eh. subst h'. apply elem_of_map_to_list in Hl. by exists r, l'.
  - intros (r & l & Hl & Hv). exists l. rewrite <-!list_elem_of_In. split; [|done].
    apply list_elem_of_fmap. exists ((h, r), l). split; [done|]. rewrite sort_by_perm. apply list_elem_of_filter.
    split; [done|]. by apply elem_of_map_to_list.
Qed.
Lemma find_decided_value h cert (p : Proposals (PeerId := PeerId)) v :
  certified h p cert → honest_proposals p → find_decided cert p = Some v → v = value_new (values h).
Proof.
  intros [Eh _ Ev Eu] Hp. unfold find_decided. rewrite Eh. destruct (find _ _) as [w|] eqn:Ef; [|done]. intros [= <-].
  apply find_some in Ef as [Hin%list_elem_of_In Hid%bool_decide_eq_true]. cbn in Hid.
  pose proof Hin as (r & l & Hl & Hw)%undecided_of_elem. pose proof (Hp _ _ _ Hl Hw) as Hh.
  unfold honest_value in Hh. rewrite Hh in Hid. rewrite Hh. f_equal. by apply Eu.
Qed.

Lemma rotation_trigger_seats h now s :
  (rotation_trigger cfg h now s).(se_validators) = s.(se_validators) ∧
  (rotation_trigger cfg h now s).(se_history) = s.(se_history).
Proof. unfold rotation_trigger. cbv zeta. by destruct (rotation_due _ _ _ _ _ _ _ _).1. Qed.

(** The part of the node a commit writes to only through the disk. *)
Record same_disk a a' : Prop := mkSameDisk {
  sd_store : a'.(ap_store) = a.(ap_store);
  sd_script : a'.(ap_script) = a.(ap_script);
  sd_attached : a'.(ap_attached) = a.(ap_attached);
  sd_history_min : a'.(ap_history_min) = a.(ap_history_min);
}.
Lemma on_ledger_inv {A} (m : M Ledger NodeError A) a a' r :
  on_ledger m a = (a', r) → ∃ l, m a.(ap_ledger) = (l, r) ∧ a' = ap_set_ledger l a.
Proof.
  intros Hr. unfold on_ledger, zoom in Hr. destruct (m a.(ap_ledger)) as [l [x|e|]]; injection Hr as <- <-; by exists l.
Qed.

Lemma commit_state_ok h a cert now a' b :
  follows h a → certified (h + 1) a.(ap_proposals) cert → honest_proposals a.(ap_proposals) →
  commit_state env cert now a = (a', Ok b) →
  follows (h + 1) a' ∧ good_block (h + 1) b ∧ a'.(ap_height) = h + 1 + 1 ∧ same_disk a a' ∧
  honest_proposals a'.(ap_proposals) ∧
  a'.(ap_decided) = evict env.(ne_decided_window) (<[h + 1 := mkDecided (value_new (values (h + 1))) cert]> a.(ap_decided)).
Proof.
  intros F C Hp Hrun. pose proof C as [Eh _ Ev _]. unfold commit_state in Hrun. rewrite run_get in Hrun.
  destruct (find_decided cert a.(ap_proposals)) as [v|] eqn:Ef; [|done]. cbn [ok_or] in Hrun. rewrite run_ret in Hrun.
  pose proof (find_decided_value _ _ _ _ C Hp Ef) as ->. cbv zeta in Hrun. rewrite Eh in Hrun. cbn [val_txs value_new] in Hrun.
  apply bindM_ok in Hrun as (a1 & v & Hl & Hrun). apply on_ledger_inv in Hl as (l & Hl & ->).
  pose proof (apply_live_verdict _ _ _ _ _ _ _ _ Hl) as ->.
  apply apply_sound in Hl as (Hb & Hcache & _); [|done|apply F].
  apply seats_steps_inv in Hrun as (s' & Hrun & Hv); [|exact (follows_normal h a F)].
  rewrite !run_modify in Hrun. injection Hrun as <- <-.
  destruct (seats_advance _ _ _ F Hv) as [Hset Hcur].
  assert (chain_at (h + 1) (mkImage (persistent l) (set_block cfg (h + 1) (batch_at (h + 1)) a.(ap_seats).(se_validators)))) as Hc'.
  { apply (chain_next env g0 set0 values h (app_image a)); [apply F|exact Hb]. }
  split; [|split; [repeat (split; [done|]); by eexists|split; [done|split; [done|split; [|done]]]]].
  - eapply (follows_core _ (ap_set_seats s' (ap_set_ledger l a))).
    { constructor; [done|done|apply rotation_trigger_seats..]. }
    constructor; [|exact Hcache|exact Hcur]. unfold app_image. cbn. by rewrite Hset.
  - intros k x w. cbn. intros [Hk _]%map_lookup_filter_Some Hw. by eapply Hp.
Qed.
(** The next block is not refused for its height or its time. *)
Lemma next_block_fits h a :
  follows h a → in_u64 env.(ne_start_time) → in_u64 (env.(ne_start_time) + (h + 1)) →
  h + 1 = wrapping u64_max (st_height (ap_chain a) + 1) ∧
  st_time (ap_chain a) ≤ block_time env.(ne_start_time) (h + 1).
Proof.
  intros F Hs Ht. pose proof (follows_ok _ _ F) as I. rewrite (follows_tip _ _ F).
  pose proof (io_range _ _ _ _ I) as Hr. unfold in_u64, block_time in *.
  rewrite !wrapping_small by lia. split; [done|].
  etrans; [apply Z.eq_le_incl, (io_time _ _ _ _ I)|]. destruct (Z.eqb_spec h 0) as [->|Hne].
  - pose proof (gf_time _ _ _ G). lia.
  - unfold block_time. rewrite wrapping_small by lia. lia.
Qed.
(** A commit that fails leaves the node where it was. *)
Lemma commit_state_err h a cert now a' e :
  follows h a → certified (h + 1) a.(ap_proposals) cert → honest_proposals a.(ap_proposals) →
  commit_state env cert now a = (a', Err e) →
  follows h a' ∧ same_disk a a' ∧ (a' = a ∨ a' = ap_set_ledger (lg_set_last None a.(ap_ledger)) a) ∧
  (e = ValueNotFound (h + 1) cert.(cc_value_id) ∧ find_decided cert a.(ap_proposals) = None ∨
   ∃ parent ours, e = AppHashDivergence (h + 1) parent ours).
Proof.
  intros F C Hp Hrun. pose proof C as [Eh [Hs Ht] Ev _]. unfold commit_state in Hrun. rewrite run_get in Hrun.
  destruct (find_decided cert a.(ap_proposals)) as [v|] eqn:Ef; cbn [ok_or] in Hrun.
  2: { injection Hrun as <- <-. rewrite Eh. split_and!; [done|done|by left|by left]. }
  rewrite run_ret in Hrun. pose proof (find_decided_value _ _ _ _ C Hp Ef) as ->.
  cbv zeta in Hrun. rewrite Eh in Hrun. cbn [val_txs value_new] in Hrun.
  apply bindM_inv in Hrun as [(a1 & v & Hl & Hrun)|[(e' & Hl & [= ->])|[_ [=]]]].
  - exfalso. apply on_ledger_inv in Hl as (l & Hl & ->).
    apply seats_steps_inv in Hrun as (s' & Hrun & _); [by rewrite !run_modify in Hrun|exact (follows_normal h a F)].
  - apply on_ledger_inv in Hl as (l & Hl & ->).
    destruct (apply_error _ _ json_total _ _ _ _ _ _ _ Hl) as [[-> Hdiv]|[_ Hwrong]].
    + split_and!; [|done|by right|by right]. by destruct F.
    + exfalso. destruct (next_block_fits h a F Hs Ht) as [Hh Htime]. unfold ap_chain in *.
      destruct Hwrong as [Hwrong|Hwrong]; [by apply Hwrong|lia].
Qed.
(** A commit of a value the node holds goes through whenever the chain goes on. *)
Lemma commit_state_complete h a cert now im :
  follows h a → certified (h + 1) a.(ap_proposals) cert → honest_proposals a.(ap_proposals) →
  is_Some (find_decided cert a.(ap_proposals)) → chain_at (h + 1) im →
  ∃ a' b, commit_state env cert now a = (a', Ok b).
Proof.
  intros F C Hp [v Ef] Hc'. pose proof C as [Eh _ Ev _]. pose proof F as [Hc Hcache _].
  destruct (chain_at_step _ _ _ Hc Hc') as [Hb _].
  destruct (apply_complete env.(ne_agg) env.(ne_start_time) json_total (h + 1) (batch_at (h + 1)) a.(ap_ledger)
              im.(im_ledger) (verdict_at (h + 1)) Hcache Hb) as (l' & Hl & _).
  rewrite <-(apply_live_recorded _ _ _ _ false) in Hl.
  unfold commit_state. rewrite run_get, Ef. cbn [ok_or]. rewrite run_ret.
  pose proof (find_decided_value _ _ _ _ C Hp Ef) as ->. cbv zeta. rewrite Eh. cbn [val_txs value_new].
  erewrite run_eq by (apply on_ledger_run, Hl).
  match goal with |- ∃ a' b, (_ ;;; _ ;;; ?k) ?a = _ =>
    destruct (seats_steps (batch_at (h + 1)) false (h + 1) a k (follows_normal _ _ F)) as (s' & Hs & _) end.
  rewrite !run_modify in Hs. do 2 eexists. exact Hs.
Qed.
End life.
