(* ===== verification/Saving.v ===== *)
(** The life of a node's home directory: every commit, whatever its writes come
    to, leaves a directory from which a restart comes up on the chain. *)

From S2P Require Export Lifecycle.
From S2P Require Import Signer.
#[local] Open Scope Z_scope.

Section saving.
Context {PeerId : Type} `{Countable PeerId} {SHAKE : Shake} {SHA2 : Sha2} {CODECS : Codecs} {STX : StxCodec}
  {SCODECS : StateCodecs} {HSS : Hss} {ROOT : RootScheme} {BATCH : BatchWire} {BLOCK : BlockWire} {BLAWS : BlockWireLaws}
  {SNAP : SnapWire} {SLAWS : SnapWireLaws} {STXW : StxWire} {VALUE : Bincode HkValue} {INDEX : Bincode PersistedIndex}.
#[local] Notation HkApp := (HkApp (PeerId := PeerId)).
#[local] Notation Ap A := (M HkApp NodeError A).
Implicit Types a : HkApp.
Context (env : NodeEnv) (g0 : State) (set0 : HkValidatorSet) (values : Z → bytes).
#[local] Notation chain_at := (chain_at env g0 set0 values).
#[local] Notation follows := (follows env g0 set0 values).
#[local] Notation good_block := (good_block env g0 set0 values).
#[local] Notation good_image := (good_image env g0 set0 values).
#[local] Notation home_ok := (home_ok env g0 set0 values).
#[local] Notation held := (held env g0 set0 values).
#[local] Notation fine := (fine env g0 set0 values).
#[local] Notation snaps_ok := (snaps_ok env g0 set0 values).
#[local] Notation certified := (certified env values).
#[local] Notation served := (served values).
Context (G : genesis_fit env g0 set0) (json_total : ∀ tx, is_Some (json_stx tx)).
(** The blocks of the chain are shorter than 4 GiB when encoded. *)
Context (short : ∀ h b x, good_block h b → enc_block b = Some x → in_u32 (Z.of_nat (length x))).

(** * What persisting leaves *)

(** What a write of the home directory does not touch. *)
Record same_mind a a' : Prop := mkSameMind {
  sm_ledger : a'.(ap_ledger) = a.(ap_ledger);
  sm_seats : a'.(ap_seats) = a.(ap_seats);
  sm_proposals : a'.(ap_proposals) = a.(ap_proposals);
  sm_decided : a'.(ap_decided) = a.(ap_decided);
  sm_height : a'.(ap_height) = a.(ap_height);
  sm_attached : a'.(ap_attached) = a.(ap_attached);
}.
#[local] Instance same_mind_preorder : PreOrder same_mind.
Proof. split; [done|]. intros a b c [] []. constructor; congruence. Qed.
Lemma same_mind_follows h a a' : same_mind a a' → follows h a → follows h a'.
Proof. intros [El Es _ _ _ _] [F1 F2 F3]. constructor; unfold app_image in *; by rewrite ?El, ?Es. Qed.

(** The image a node writes is one of the chain. *)
Lemma make_snapshot_good h a c :
  follows h a → state_commitment (ap_chain a) = Some c → good_image (make_snapshot c a).
Proof.
  intros F Hc. exists h, (app_image a). split; [apply F|]. constructor; try done. by eapply follows_tip.
Qed.
Lemma make_snapshot_height h a c : follows h a → (make_snapshot c a).(ns_height) = h.
Proof. apply follows_tip, G. Qed.

(** A node of height [top] in the middle of persisting: its mind is [a0]'s, and
    a restart would come up at [d] or above, from an image of height [s] or above. *)
Record saving (a0 : HkApp) (s d : Z) (a : HkApp) : Prop := mkSaving {
  sg_mind : same_mind a0 a;
  sg_home : home_ok s d a.(ap_store);
}.
Definition stopped (a0 : HkApp) (top d : Z) (a : HkApp) : Prop := ∃ s, s ≤ top ∧ saving a0 s d a.
Lemma saving_stopped a0 top s d a : s ≤ top → saving a0 s d a → stopped a0 top d a.
Proof. intros. by exists s. Qed.

(** ** One file at a time *)

Lemma home_ok_log s d x l : 0 ≤ s → snaps_ok s x.(so_snaps) → tidy fine l → disk_ok l (held s d) → home_ok s d (so_set_log l x).
Proof. intros. by constructor. Qed.
Lemma home_ok_snaps s d x n : home_ok s d x → snaps_ok s n → home_ok s d (so_set_snaps n x).
Proof. intros [] ?. by constructor. Qed.
Lemma home_ok_other s d x x' : x'.(so_log) = x.(so_log) → x'.(so_snaps) = x.(so_snaps) → home_ok s d x → home_ok s d x'.
Proof. intros El Es []. constructor; by rewrite ?El, ?Es. Qed.
(** An update that leaves the log and the images alone. *)
Lemma saving_modify a0 s d f R :
  (∀ a, same_mind a (f a) ∧ (f a).(ap_store).(so_log) = a.(ap_store).(so_log) ∧
        (f a).(ap_store).(so_snaps) = a.(ap_store).(so_snaps)) →
  run_to (saving a0 s d) (modifyM f : Ap unit) (λ _, saving a0 s d) R.
Proof.
  intros Hf a [Hm Hh]. destruct (Hf a) as (Hm' & El & Es). constructor; [by etrans|by eapply home_ok_other].
Qed.
Lemma saving_next_write a0 s d : run_to (saving a0 s d) next_write (λ _, saving a0 s d) (saving a0 s d).
Proof.
  intros a Hs. unfold next_write. rewrite run_get. destruct (ap_script a) as [|w script]; [done|].
  rewrite run_modify. destruct Hs as [[] Hh]. by constructor.
Qed.
Lemma saving_set_floor a0 s d z R : run_to (saving a0 s d) (set_floor z) (λ _, saving a0 s d) R.
Proof. unfold set_floor. eapply (run_to_bind _ _ _ _ (λ _, saving a0 s d)); [|intros _]; by apply saving_modify. Qed.
Lemma saving_floor_step a0 s d (k : HkApp → bool) z R :
  run_to (saving a0 s d) (let* a := getM in if k a then set_floor z else retM tt) (λ _, saving a0 s d) R.
Proof.
  intros a HP. rewrite run_get. destruct (k a); [by apply saving_set_floor|done].
Qed.
(** A routine of the block log. *)
Lemma saving_log {A} a0 s d d' (m : Io A) (Q : A → Prop) (R : HkApp → Prop) :
  (∀ l script fs r, tidy fine l → disk_ok l (held s d) → m (mkFs l script) = (fs, r) →
     tidy fine fs.(fs_disk) ∧ disk_ok fs.(fs_disk) (held s d) ∧
     (∀ x, r = Ok x → Q x → disk_ok fs.(fs_disk) (held s d'))) →
  (∀ a, saving a0 s d a → R a) →
  run_to (saving a0 s d) (log_io m)
    (λ r a, saving a0 s d a ∧ ∀ x, r = inr x → Q x → saving a0 s d' a) R.
Proof.
  intros Hm HR a [Hmind [Hs0 Ht Hh Hsn]]. unfold log_io.
  destruct (m (mkFs (so_log (ap_store a)) (ap_script a))) as [fs r] eqn:E.
  destruct (Hm _ _ _ _ Ht Hh E) as (Ht' & Hh' & Hr).
  assert (∀ d, disk_ok fs.(fs_disk) (held s d) →
    saving a0 s d (ap_set_script fs.(fs_script) (ap_set_store (so_set_log fs.(fs_disk) a.(ap_store)) a))) as Hs.
  { intros d1 Hd1. constructor; [etrans; [exact Hmind|done]|]. by apply home_ok_log. }
  destruct r as [x|e|]; [|destruct e|]; cbn beta iota zeta; try (split; [by apply Hs|intros ? [=]; fail]).
  1: { split; [by apply Hs|]. intros y [= <-] Hq. by apply Hs, (Hr x). }
  all: try (by apply HR, Hs).
  all: split; [by apply Hs|by intros ? [=]].
Qed.

(** ** The block *)

Lemma saved_held s h b k o : good_block (h + 1) b → with_saved b (held s h) k o → held s (h + 1) k o.
Proof.
  intros Hg. unfold with_saved. pose proof Hg as (Eh & _). rewrite Eh. destruct (decide _) as [->|].
  - intros ->. split; [exact Hg|by eexists].
  - intros [Hf Hs]. split; [done|]. intros Hk. apply Hs. lia.
Qed.
Lemma saving_block s d h b l script fs r :
  good_block (h + 1) b → tidy fine l → disk_ok l (held s d) → save_block b (mkFs l script) = (fs, r) →
  tidy fine fs.(fs_disk) ∧ disk_ok fs.(fs_disk) (held s d) ∧
  (∀ x, r = Ok x → d = h → disk_ok fs.(fs_disk) (held s (h + 1))).
Proof.
  intros Hg Ht Hh Hrun. destruct (enc_block b) as [x|] eqn:He.
  - pose proof (block_roundtrip _ _ He) as Hd. pose proof (short _ _ _ Hg He) as Hx. pose proof Hg as (Eh & _).
    split; [|split].
    + eapply tidy_save; try done. by rewrite Eh.
    + eapply disk_ok_weaken; [|exact (proj1 (save_block_ok _ _ _ _ _ _ _ Hh He Hd Hx Hrun))].
      intros k o [?|[-> ->]]; [done|]. rewrite Eh. split; [exact Hg|by eexists].
    + intros [] -> ->. eapply disk_ok_weaken; [|by eapply save_block_done]. intros k o. by apply saved_held.
  - unfold save_block in Hrun. rewrite He in Hrun. injection Hrun as <- <-. done.
Qed.
Lemma persist_block_saving a0 s d h b :
  good_block (h + 1) b →
  run_to (saving a0 s d) (persist_block b) (λ _, saving a0 s d) (saving a0 s d).
Proof.
  intros Hg. unfold persist_block. eapply run_to_bind.
  - apply (saving_log a0 s d (h + 1) _ (λ _, d = h)); [|done]. intros. by eapply saving_block.
  - intros r. eapply (run_to_pre _ (saving a0 s d)); [|by intros a []].
    destruct r as [e|x]; [apply saving_floor_step with (k := λ _, true)|apply saving_floor_step].
Qed.
(** A block whose write went through is there from then on. *)
Lemma persist_block_written a0 s h b a script :
  good_block (h + 1) b → is_Some (enc_block b) → saving a0 s h a → a.(ap_script) = WDone :: script →
  ∃ a', persist_block b a = (a', Ok tt) ∧ saving a0 s (h + 1) a'.
Proof.
  intros Hg [x He] [Hmind [Hs0 Ht Hh Hsn]] Hw. unfold persist_block.
  destruct (save_block b (mkFs (so_log (ap_store a)) (WDone :: script))) as [fs r] eqn:E.
  assert (r = Ok tt) as ->.
  { unfold save_block in E. rewrite He in E. cbn in E. by injection E as _ <-. }
  destruct (saving_block s h h b _ _ _ _ Hg Ht Hh E) as (Ht' & _ & Hh').
  set (a1 := ap_set_script fs.(fs_script) (ap_set_store (so_set_log fs.(fs_disk) a.(ap_store)) a)).
  rewrite (run_eq _ _ _ a1 (inr tt)) by (unfold log_io; rewrite Hw, E; reflexivity).
  assert (saving a0 s (h + 1) a1) as Hs1.
  { constructor; [etrans; [exact Hmind|done]|]. apply home_ok_log; [done|done|done|by eapply Hh']. }
  pose proof (saving_floor_step a0 s (h + 1) (λ a, ap_history_min a =? 0) (sb_height b) (λ _, True) a1 Hs1) as Hf.
  rewrite run_get in Hf |- *. by destruct (_ =? 0); eexists.
Qed.

(** ** The image *)

Lemma snaps_ok_put s d f prev :
  snaps_ok s d → file_ok f → (∀ c, c ∈ f.(f_survivors) → image_bytes_ok env g0 set0 values s c) →
  snaps_ok s (mkSnapFiles f d.(sf_v3) d.(sf_v2) d.(sf_legacy) prev).
Proof. intros []. by constructor. Qed.
Lemma image_bytes_mono s s' c : s ≤ s' → image_bytes_ok env g0 set0 values s' c → image_bytes_ok env g0 set0 values s c.
Proof. intros Hs. destruct c as [x|]; cbn; [|lia]. intros (n & ? & ? & ?). exists n. split_and!; [done|done|lia]. Qed.
Lemma save_snapshot_ok s d n w d' ok :
  snaps_ok s d → good_image n → s ≤ n.(ns_height) → save_snapshot n w d = (d', ok) →
  snaps_ok s d' ∧ (ok = true → snaps_ok n.(ns_height) d').
Proof.
  intros Hd Hn Hs. unfold save_snapshot. destruct (enc_snap n) as [x|] eqn:He; [|by intros [= <- <-]].
  pose proof (snap_roundtrip _ _ He) as Hx.
  assert (image_bytes_ok env g0 set0 values n.(ns_height) (Some x)) as Hi by (exists n; by split_and!).
  unfold write_atomic. destruct w; intros [= <- <-].
  - split; [|done]. destruct Hd. by constructor.
  - split; [|done]. apply snaps_ok_put; [done| |].
    + apply elem_of_app. right. by left.
    + cbn. intros c [Hc|Hc%list_elem_of_singleton]%elem_of_app; [by apply Hd|subst c; by eapply image_bytes_mono].
  - assert (∀ s', s' ≤ n.(ns_height) → snaps_ok s' (mkSnapFiles (mkFile (Some x) [Some x]) d.(sf_v3) d.(sf_v2) d.(sf_legacy) d.(sf_prev))) as Hput.
    { intros s' Hs'. destruct Hd. constructor; try done; cbn; [by left|].
      intros c Hc%list_elem_of_singleton. subst c. by eapply image_bytes_mono. }
    split; [by apply Hput|]. intros _. by apply Hput.
Qed.
Lemma keep_prev_saving a0 s d : run_to (saving a0 s d) (keep_prev_snapshot env) (λ _, saving a0 s d) (saving a0 s d).
Proof.
  unfold keep_prev_snapshot. destruct (ne_keep_prev env); [|by intros a].
  eapply run_to_bind; [apply saving_next_write|]. intros w a [Hm [Hs0 Ht Hh Hsn]]. cbn.
  constructor; [etrans; [exact Hm|done]|]. constructor; [done|done|done|]. cbn.
  unfold rotate_snapshot_if_configured. destruct (f_visible _) as [x|]; [|done]. destruct (write_done w); [|done].
  destruct Hsn. by constructor.
Qed.
Lemma store_snapshot_saving a0 s d n :
  good_image n → s ≤ n.(ns_height) → d ≤ n.(ns_height) →
  run_to (saving a0 s d) (store_snapshot n)
    (λ ok, if ok then saving a0 n.(ns_height) d else saving a0 s d) (saving a0 s d).
Proof.
  intros Hn Hs Hd. unfold store_snapshot. eapply run_to_bind; [apply saving_next_write|].
  intros w a [Hm [Hs0 Ht Hh Hsn]]. rewrite run_get. destruct (save_snapshot n w _) as [d' ok] eqn:E.
  destruct (save_snapshot_ok _ _ _ _ _ _ Hsn Hn Hs E) as [H1 H2]. cbn.
  destruct ok; (constructor; [etrans; [exact Hm|done]|]).
  - constructor; [cbn; lia|done| |by apply H2]. eapply disk_ok_weaken; [|exact Hh]. intros k o [? Ho]. split; [done|].
    intros. apply Ho. lia.
  - by constructor.
Qed.
(** The pool's log and the search index hold nothing of the chain. *)
Lemma reset_wal_saving a0 s d : run_to (saving a0 s d) reset_wal (λ _, saving a0 s d) (saving a0 s d).
Proof.
  unfold reset_wal. eapply run_to_bind; [apply saving_next_write|]. intros w a Ha. rewrite run_get.
  cbn. destruct Ha as [Hm Hh]. constructor; [etrans; [exact Hm|done]|]. by apply (home_ok_other s d (ap_store a)).
Qed.
Lemma persist_index_saving a0 s d tip : run_to (saving a0 s d) (persist_index tip) (λ _, saving a0 s d) (saving a0 s d).
Proof.
  unfold persist_index. intros a Ha. rewrite run_get. cbv zeta. destruct (_ =? 0); [done|]. 
  generalize (indexed_upto (if a.(ap_index_floor) =? u64_max then tip else a.(ap_index_floor)) a.(ap_ledger).(lg_index)).
  intros p. revert a Ha. eapply run_to_bind; [apply saving_next_write|]. intros w.
  destruct (bin_enc p); [by apply saving_modify|by intros a].
Qed.
Lemma retain_saving a0 s d height :
  d ≤ s → run_to (saving a0 s d) (retain env height) (λ _, saving a0 s d) (saving a0 s d).
Proof.
  intros Hd. assert (∀ k o, fine k o → held s d k o) as Hfine by (intros k o Hk; split; [done|lia]).
  unfold retain. eapply run_to_bind.
  - apply (saving_log a0 s d d _ (λ _, False)); [|done]. intros l script fs r Ht Hh Hrun. split; [|split; [|done]].
    all: assert (tidy fine (fs_disk fs)) as Ht' by (by eapply (tidy_prune _ _ _ (mkFs l script))).
    + done.
    + eapply disk_ok_weaken; [exact Hfine|apply Ht'].
  - intros r. eapply (run_to_pre _ (saving a0 s d)); [|by intros a []].
    destruct r as [e|[m|]]; [|apply (saving_floor_step a0 s d (λ a, ap_history_min a <? m))|].
    all: intros a Ha; rewrite run_get; done.
Qed.
Lemma persist_image_saving a0 s d h :
  follows h a0 → s ≤ h → d ≤ h →
  run_to (saving a0 s d) (persist_image env h) (λ _, stopped a0 h d) (stopped a0 h d).
Proof.
  intros F Hs Hd a Ha. pose proof (same_mind_follows _ _ _ (sg_mind _ _ _ _ Ha) F) as Fa.
  unfold persist_image. rewrite run_get. destruct (state_commitment (ap_chain a)) as [c|] eqn:Hc; cbn [expect].
  2: { by apply (saving_stopped _ _ s). }
  rewrite run_ret. pose proof (make_snapshot_good _ _ _ Fa Hc) as Hgood.
  pose proof (make_snapshot_height _ _ c Fa) as Hheight. revert Ha. generalize a at 1 3. clear Fa Hc.
  revert Hgood Hheight. generalize (make_snapshot c a). intros n Hgood Hheight b Ha. revert b Ha.
  apply (run_to_bind _ _ _ _ (λ _, saving a0 s d)).
  { eapply run_to_conseq; [apply keep_prev_saving|done|done|]. intros a'. by apply saving_stopped. }
  intros _. eapply run_to_bind.
  { eapply run_to_conseq; [apply (store_snapshot_saving a0 s d n); [done|lia..]|done|done|].
    intros a'. by apply saving_stopped. }
  intros ok. destruct ok; [|intros b Hb; by apply (saving_stopped _ _ s)].
  rewrite Hheight. apply (run_to_bind _ _ _ _ (λ _, saving a0 h d)).
  - eapply run_to_conseq; [apply reset_wal_saving|done|done|]. intros a'. by apply saving_stopped.
  - intros _. eapply run_to_conseq; [by apply retain_saving|done|..]; intros; by eapply (saving_stopped _ _ h).
Qed.
(** The part of persisting after the block: the image and the index. *)
Lemma persist_rest_saving a0 s d h :
  follows h a0 → s ≤ h → d ≤ h →
  run_to (saving a0 s d)
    ((if h mod env.(ne_snapshot_every) =? 0 then persist_image env h else retM tt) ;;;
     if h mod env.(ne_index_every) =? 0 then persist_index h else retM tt)
    (λ _, stopped a0 h d) (stopped a0 h d).
Proof.
  intros F Hs Hd. apply (run_to_bind _ _ _ _ (λ _, stopped a0 h d)).
  - destruct (_ =? 0); [by apply persist_image_saving|]. intros a. by apply saving_stopped.
  - intros _ a (s' & Hs' & Ha). destruct (_ =? 0); [|by apply (saving_stopped _ _ s')]. revert a Ha.
    eapply run_to_conseq; [apply persist_index_saving|done|..]; intros; by eapply (saving_stopped _ _ s').
Qed.
Lemma persist_saving a0 s d h b :
  good_block (h + 1) b → follows (h + 1) a0 → s ≤ h → d ≤ h →
  run_to (saving a0 s d) (persist env b) (λ _, stopped a0 (h + 1) d) (stopped a0 (h + 1) d).
Proof.
  intros Hg F Hs Hd. pose proof Hg as (Eh & _). unfold persist. cbv zeta. rewrite Eh.
  apply (run_to_bind _ _ _ _ (λ _, saving a0 s d)); [|intros _; apply persist_rest_saving; [done|lia..]].
  eapply run_to_conseq; [by apply (persist_block_saving a0 s d h)|done|done|].
  intros a. apply saving_stopped. lia.
Qed.
Lemma persist_written a0 s h b a script :
  good_block (h + 1) b → is_Some (enc_block b) → follows (h + 1) a0 → s ≤ h →
  saving a0 s h a → a.(ap_script) = WDone :: script → stopped a0 (h + 1) (h + 1) (persist env b a).1.
Proof.
  intros Hg He F Hs Ha Hw. destruct (persist_block_written a0 s h b a script Hg He Ha Hw) as (a1 & Hr & Ha1).
  pose proof Hg as (Eh & _). unfold persist. cbv zeta. rewrite Eh, (run_eq _ _ _ _ _ Hr).
  revert Ha1. apply run_to_any. apply persist_rest_saving; [done|lia..].
Qed.

(** Persisting is interrupted, never refused. *)
Definition only_stops {A} (m : Ap A) : Prop := ∀ a a' e, m a = (a', Err e) → e = ProcessStopped.
Lemma stops_bind {A B} (m : Ap A) (k : A → Ap B) : only_stops m → (∀ x, only_stops (k x)) → only_stops (bindM m k).
Proof.
  intros Hm Hk a a' e [(a1 & x & H1 & H2)|[(e' & H1 & [= ->])|[_ [=]]]]%bindM_inv; [by eapply Hk|by eapply Hm].
Qed.
Lemma stops_noerr {A} (m : Ap A) : noerr m → only_stops m.
Proof. intros Hm a a' e Hr. by apply Hm in Hr. Qed.
Lemma stops_next_write : only_stops next_write.
Proof. intros a a' e. unfold next_write. rewrite run_get. destruct (ap_script a); [by intros [= _ <-]|done]. Qed.
Lemma stops_log {A} (m : Io A) : only_stops (log_io m).
Proof. intros a a' e. unfold log_io. destruct (m _) as [fs [x|[]|]]; try done. by intros [= _ <-]. Qed.
Lemma stops_set_floor z : only_stops (set_floor z).
Proof. intros a a' e. unfold set_floor, on_store. by rewrite run_modify. Qed.
Lemma persist_height b : ∀ a, (persist env b a).1.(ap_height) = a.(ap_height).
Proof.
  set (R (a a' : HkApp) := a'.(ap_height) = a.(ap_height)). assert (PreOrder R) as HR.
  { split; [done|]. unfold R. intros x y z ? ?. congruence. }
  change (respects R (persist env b)).
  assert (∀ A (m : Io A), respects R (log_io m)) as Hlog.
  { intros A m a. unfold log_io. destruct (m _) as [fs [x|[]|]]; done. }
  assert (respects R next_write) as Hw by (intros a; unfold next_write; rewrite run_get; by destruct (ap_script a)).
  unfold persist, persist_block, persist_image, persist_index, retain, keep_prev_snapshot, store_snapshot, reset_wal, on_store, set_floor.
  cbv zeta. repeat first [ apply Hlog | apply Hw | progress walk_respects ltac:(done) ].
Qed.
Lemma persist_stops b : only_stops (persist env b).
Proof.
  assert (∀ f, only_stops (modifyM (E := NodeError) f)) as Hmod by (intros f; apply stops_noerr; auto with hkframe).
  assert (∀ A (x : A), only_stops (retM x)) as Hret by (intros A x; apply stops_noerr; auto with hkframe).
  assert (∀ A (o : option A), only_stops (expect o)) as Hexp by (intros A o; apply stops_noerr; auto with hkframe).
  assert (only_stops getM) as Hget by (apply stops_noerr; auto with hkframe).
  assert (∀ A, only_stops (failM (A := A) ProcessStopped)) as Hfail by (by intros A a a' e [= _ <-]).
  unfold persist, persist_block, persist_image, persist_index, retain, keep_prev_snapshot, store_snapshot, reset_wal, on_store. cbv zeta.
  repeat first [ apply stops_bind; [|intros ?] | done | apply Hmod | apply Hret | apply Hexp | apply Hfail | apply stops_next_write
               | apply stops_log | apply stops_set_floor
               | match goal with |- context [match ?x with _ => _ end] => destruct x end ].
Qed.
End saving.
