(* ===== verification/World.v ===== *)
(** The world of one node: the loop's messages, the detached threads, the RPC
    door, crashes, power losses and restarts, in any order.  What a node is at
    any time is a height of the chain, and what it serves are the chain's values. *)

From S2P Require Export Saving Door.
From S2P Require Import Signer.
#[local] Open Scope Z_scope.

Section world.
Context {PeerId : Type} `{Countable PeerId} {SHAKE : Shake} {SHA2 : Sha2} {CODECS : Codecs} {STX : StxCodec}
  {SCODECS : StateCodecs} {HSS : Hss} {ROOT : RootScheme} {BATCH : BatchWire} {BLOCK : BlockWire} {BLAWS : BlockWireLaws}
  {SNAP : SnapWire} {SLAWS : SnapWireLaws} {STXW : StxWire} {VALUE : Bincode HkValue} {INDEX : Bincode PersistedIndex}.
#[local] Notation HkApp := (HkApp (PeerId := PeerId)).
#[local] Notation Ap A := (M HkApp NodeError A).
Implicit Types a : HkApp.
Context (env : NodeEnv) (g0 : State) (set0 : HkValidatorSet) (values : Z → bytes).
#[local] Notation chain_at := (chain_at env g0 set0 values).
#[local] Notation follows := (follows env g0 set0 values).
#[local] Notation good_block := (good_block env g0 set0 values).
#[local] Notation home_ok := (home_ok env g0 set0 values).
#[local] Notation certified := (certified env values).
#[local] Notation served := (served values).
Context (G : genesis_fit env g0 set0) (json_total : ∀ tx, is_Some (json_stx tx)).
Context (short : ∀ h b x, good_block h b → enc_block b = Some x → in_u32 (Z.of_nat (length x))).

(** * The running node *)

(** A node at height [h] whose directory restarts at [d] or above. *)
Record up (h d : Z) (a : HkApp) : Prop := mkUp {
  up_follows : follows h a;
  up_home : ∃ s, s ≤ h ∧ home_ok s d a.(ap_store);
  up_durable : d ≤ h;
  up_proposals : honest_proposals a.(ap_proposals);
  up_served : served a;
}.
Definition down (d : Z) (x : Store) : Prop := ∃ s, home_ok s d x.
Lemma up_down h d a : up h d a → down d a.(ap_store).
Proof. intros [_ (s & _ & Hs) _ _ _]. by exists s. Qed.
(** ** A commit *)

Lemma evict_lookup w m k e : evict w m !! k = Some e → m !! k = Some e.
Proof.
  unfold evict. destruct (_ <? _); [|done]. generalize (take (length (decided_heights m) - Z.to_nat w) (decided_heights m)).
  intros l. revert m. induction l as [|x l IH]; intros m; [done|]. cbn. intros Hk. apply IH in Hk.
  by apply lookup_delete_Some in Hk as [_ ?].
Qed.
(** Up to the disk, a commit touches neither the directory nor the script. *)
Lemma commit_state_disk cert now a : same_disk a (commit_state env cert now a).1.
Proof.
  assert (PreOrder (same_disk (PeerId := PeerId))) as P by (split; [done|]; intros x y z [] []; constructor; congruence).
  assert (∀ A (m : M Ledger NodeError A) a, same_disk a (on_ledger m a).1) as Hl.
  { intros A m b. unfold on_ledger, zoom. by destruct (m _) as [l []]. }
  assert (∀ A (m : M Seats NodeError A) a, same_disk a (on_seats m a).1) as Hs.
  { intros A m b. unfold on_seats, zoom. by destruct (m _) as [l []]. }
  revert a. change (respects (same_disk (PeerId := PeerId)) (commit_state env cert now)). unfold commit_state. cbv zeta.
  repeat first [ apply respects_bind; [apply _| |intros ?] | apply respects_quiet; [apply _|solve [auto with hkframe]]
               | apply respects_modify; intros; done ]; intros b; solve [apply Hl|apply Hs].
Qed.
Lemma evict_served w m h e :
  (∀ k x, m !! k = Some x → x.(de_value) = value_new (values k)) → e.(de_value) = value_new (values h) →
  ∀ k x, evict w (<[h := e]> m) !! k = Some x → x.(de_value) = value_new (values k).
Proof. intros Hm He k x Hx%evict_lookup. destruct (decide (k = h)) as [->|]; simplify_map_eq; [done|by eapply Hm]. Qed.
(** The state half of a commit, on a running node. *)
Lemma commit_state_up h d a cert now a' b :
  up h d a → certified (h + 1) a.(ap_proposals) cert → commit_state env cert now a = (a', Ok b) →
  up (h + 1) d a' ∧ good_block (h + 1) b ∧ same_disk a a'.
Proof.
  intros [F (s & Hs & Hh) Hd Hp Hv] C Hrun.
  destruct (commit_state_ok env g0 set0 values G json_total _ _ _ _ _ _ F C Hp Hrun) as (F' & Hb & _ & Hsame & Hp' & Hdec).
  split_and!; [|done|done]. constructor; [done| |lia|done|].
  - exists s. rewrite (sd_store _ _ Hsame). split; [lia|done].
  - intros k e. rewrite Hdec. by apply evict_served.
Qed.
Lemma stopped_up h d a0 a : up h d a0 → stopped env g0 set0 values a0 h d a → up h d a.
Proof.
  intros [F _ Hd Hp Hv] (s & Hs & [Hm Hh]). constructor; [by eapply same_mind_follows|by exists s|done|..].
  - by rewrite (sm_proposals _ _ Hm).
  - intros k e. rewrite (sm_decided _ _ Hm). apply Hv.
Qed.
Lemma commit_up h d a cert now :
  up h d a → certified (h + 1) a.(ap_proposals) cert →
  match commit env cert now a with
  | (a', Ok _) => up (h + 1) d a'
  | (a', Err e) => up h d a' ∨ up (h + 1) d a'
  | (a', Panic) => down d a'.(ap_store)
  end.
Proof.
  intros U C. unfold commit, bindM at 1. pose proof (commit_state_disk cert now a) as Hsame.
  destruct (commit_state env cert now a) as [a1 [b|e|]] eqn:E; cbn [fst] in Hsame.
  - destruct (commit_state_up _ _ _ _ _ _ _ U C E) as (U1 & Hb & _). rewrite run_get.
    destruct (ap_attached a1); [|done]. destruct U as [_ (s & Hs & Hh) Hd _ _].
    assert (saving env g0 set0 values a1 s d a1) as Hsav by (constructor; [done|by rewrite (sd_store _ _ Hsame)]).
    pose proof (persist_saving env g0 set0 values G short a1 s d h b Hb (up_follows _ _ _ U1) Hs Hd a1 Hsav) as Hp.
    destruct (persist env b a1) as [a2 [u|e|]].
    + by eapply stopped_up.
    + right. by eapply stopped_up.
    + eapply up_down. by eapply stopped_up.
  - left. pose proof U as [F (s & Hs & Hh) Hd Hp Hv].
    destruct (commit_state_err env g0 set0 values G json_total _ _ _ _ _ _ F C Hp E) as (F' & _ & Ea & _).
    constructor; [done| |done|by destruct Ea as [-> | ->]|by destruct Ea as [-> | ->]].
    exists s. by rewrite (sd_store _ _ Hsame).
  - rewrite (sd_store _ _ Hsame). by eapply up_down.
Qed.

(** ** The messages of the engine *)

(** Steps that leave the chain, the set, the blocks and images, and the decided values. *)
Record beside a a' : Prop := mkBeside {
  be_core : same_core a a';
  be_log : a'.(ap_store).(so_log) = a.(ap_store).(so_log);
  be_snaps : a'.(ap_store).(so_snaps) = a.(ap_store).(so_snaps);
  be_decided : a'.(ap_decided) = a.(ap_decided);
}.
(** Those that leave the proposals too. *)
Record aside a a' : Prop := mkAside {
  as_beside : beside a a';
  as_proposals : a'.(ap_proposals) = a.(ap_proposals);
}.
#[local] Instance aside_preorder : PreOrder aside.
Proof.
  split; [done|]. intros x y z [[[] ? ? ?] ?] [[[] ? ? ?] ?]. constructor; [|congruence].
  constructor; [|congruence..]. constructor; congruence.
Qed.
Lemma up_beside h d a a' : beside a a' → honest_proposals a'.(ap_proposals) → up h d a → up h d a'.
Proof.
  intros [Hc El Es Ed] Hp [F (s & Hs & Hh) Hd _ Hv]. constructor; [by eapply follows_core| |done|done|].
  - exists s. split; [done|]. by eapply home_ok_other.
  - intros k e. rewrite Ed. apply Hv.
Qed.
Lemma up_aside h d a a' : aside a a' → up h d a → up h d a'.
Proof. intros [Hb Ep] U. eapply up_beside; [exact Hb|rewrite Ep; apply U|exact U]. Qed.
Lemma store_undecided_honest v (p : Proposals (PeerId := PeerId)) :
  honest_value v.(pv_value) → honest_proposals p → honest_proposals (store_undecided v p).
Proof.
  intros Hv Hp k l w. unfold store_undecided. cbn [pr_undecided]. intros Hk Hw.
  destruct (decide (k = round_key (pv_height v) (pv_round v))) as [->|]; [|rewrite lookup_insert_ne in Hk by done; by eapply Hp].
  rewrite lookup_insert_eq in Hk. injection Hk as <-.
  assert (∀ w, w ∈ default [] (pr_undecided p !! round_key (pv_height v) (pv_round v)) → honest_value (pv_value w)) as Hin.
  { intros x. destruct (pr_undecided p !! _) as [l|] eqn:E; [|by intros ?%elem_of_nil]. by eapply Hp. }
  destruct (existsb _ _); [by apply Hin|]. apply elem_of_app in Hw as [Hw| ->%list_elem_of_singleton]; [by apply Hin|done].
Qed.
Lemma build_batch_aside height : respects aside (build_batch env height).
Proof.
  unfold build_batch. cbv zeta. apply respects_bind; [apply _|by apply respects_quiet; [apply _|]|]. intros x.
  apply respects_bind; [apply _|by apply respects_quiet; [apply _|auto with hkframe]|]. intros parent.
  destruct (bundle_ahead _) as [btxs agg]. destruct (ready_changes env height (ap_seats x)) as [kept changes].
  apply respects_bind; [apply _|by apply respects_modify|]. intros _. by apply respects_quiet; [apply _|].
Qed.
(** What the node relies on: the engine decides the height after the chain's with
    the certificate of the network's value, and a syncing peer sends values with
    the hash of their bytes. *)
Definition honest_msg (h : Z) (a : HkApp) (msg : AppMsg (PeerId := PeerId)) : Prop :=
  match msg with
  | Decided cert _ => certified (h + 1) a.(ap_proposals) cert
  | ProcessSyncedValue _ _ _ x => ∀ v, Codec.decode x = Ok v → honest_value v
  | _ => True
  end.
Lemma up_proposals_set h d a p : honest_proposals p → up h d a → up h d (ap_set_proposals p a).
Proof. intros Hp. by apply up_beside. Qed.
Lemma get_value_up h d a height round :
  up h d a →
  match get_value env height round a with
  | (a', Ok _) => up h d a'
  | (a', _) => down d a'.(ap_store)
  end.
Proof.
  intros U. unfold get_value. rewrite run_get. destruct (previously_built _ _ _ _) as [v|]; [done|].
  pose proof (up_aside _ _ _ _ (build_batch_aside height a) U) as U1. unfold bindM at 1.
  destruct (build_batch env height a) as [a1 [payload|e|]]; cbn [fst] in U1; [|by eapply up_down..].
  unfold on_proposals, propose_value. cbn. apply up_proposals_set; [|done].
  apply store_undecided_honest; [done|apply U1].
Qed.
Lemma decided_up h d a cert now :
  up h d a → certified (h + 1) a.(ap_proposals) cert →
  match decided env cert now a with
  | (a', Ok _) => ∃ h', h ≤ h' ≤ h + 1 ∧ up h' d a'
  | (a', _) => down d a'.(ap_store)
  end.
Proof.
  intros U C. pose proof (commit_up _ _ _ _ now U C) as Hc. unfold decided, tryM, bindM at 1.
  destruct (commit env cert now a) as [a1 [x|e|]]; [| |done].
  - rewrite run_get. exists (h + 1). split; [lia|done].
  - assert (∃ h', h ≤ h' ≤ h + 1 ∧ up h' d a1) as Hup by (destruct Hc; [exists h|exists (h + 1)]; split; [lia|done|lia|done]).
    rewrite run_get. destruct e; try done. destruct Hup as (h' & _ & U'). by eapply up_down.
Qed.
Lemma handle_up h d a msg :
  up h d a → honest_msg h a msg →
  match handle env msg a with
  | (a', Ok _) => ∃ h', h ≤ h' ≤ h + 1 ∧ up h' d a'
  | (a', _) => down d a'.(ap_store)
  end.
Proof.
  intros U Hmsg. assert (∀ a', up h d a' → ∃ h', h ≤ h' ≤ h + 1 ∧ up h' d a') as Hstay by (intros a' ?; exists h; split; [lia|done]).
  unfold handle. rewrite run_get. destruct msg as [|height round proposer|height round| | |from part|cert now|height round proposer x|height| |];
    try by apply Hstay.
  - rewrite run_modify. apply Hstay. eapply up_beside; [|apply U|exact U]. by constructor.
  - pose proof (get_value_up _ _ _ height round U) as Hg. unfold bindM at 1.
    destruct (get_value env height round a) as [a1 [v|e|]]; [|done..]. by apply Hstay.
  - unfold on_proposals, bindM at 1. destruct (received_proposal_part from part _) as [p v] eqn:E. apply Hstay.
    apply up_proposals_set; [|done]. unfold received_proposal_part in E.
    destruct (streams_insert _ _ _) as [st [parts|]]; injection E as <- <-; [|apply U].
    apply store_undecided_honest; [done|apply U].
  - pose proof (decided_up _ _ _ _ now U Hmsg) as Hd. unfold bindM at 1.
    destruct (decided env cert now a) as [a1 [r|e|]]; done.
  - unfold process_synced_value. destruct (Codec.decode x) as [v|e|] eqn:Ex; [|by apply Hstay..].
    unfold on_proposals, bindM at 1. apply Hstay, up_proposals_set; [|done].
    apply store_undecided_honest; [by apply Hmsg|apply U].
Qed.

(** ** The doors and the detached threads *)

Inductive Request :=
  | SubmitTx (tx : SignedTx) (written : option nat)
  | GossipTxs (txs : list SignedTx)
  | SubmitBundle (txs : list SignedTx) (agg : bytes)
  | QueueRotation (rules : RotationRules) (cert : RotationCert)
  | QueueSetChange (tip : Z) (cert : SetChangeCert).
(** What a request changes; of a certificate, its last step, the others change nothing. *)
Definition request (rq : Request) : Ap unit :=
  match rq with
  | SubmitTx tx written => admit_one env tx written ;;; retM tt
  | GossipTxs txs => gossip_txs env txs ;;; retM tt
  | SubmitBundle txs agg => on_ledger (submit_bundle txs agg) ;;; retM tt
  | QueueRotation rules cert => on_seats (queue_rotation rules cert) ;;; retM tt
  | QueueSetChange tip cert => on_seats (queue_set_change env.(ne_cfg).(cf_chain_id) tip cert) ;;; retM tt
  end.
Lemma then_ret {A} (R : relation HkApp) `{!PreOrder R} (m : Ap A) : respects R m → respects R (m ;;; retM tt).
Proof. intros Hm. apply respects_bind; [apply _|done|]. intros _. by apply respects_quiet; [apply _|]. Qed.
Lemma on_mempool_aside {E A} (m : M Mempool E A) : respects aside (on_mempool m).
Proof. intros a. unfold on_mempool, on_ledger, zoom, expectM. by destruct (m _) as [p []]. Qed.
Lemma admit_one_aside tx written : respects aside (admit_one env tx written).
Proof.
  unfold admit_one. cbv zeta. apply respects_bind; [apply _|by apply respects_quiet; [apply _|]|]. intros x.
  apply respects_bind; [apply _|apply on_mempool_aside|]. intros [e|id]; [by apply respects_quiet; [apply _|]|].
  apply respects_bind; [apply _| |intros _; by apply respects_quiet; [apply _|]].
  destruct (ap_attached x); [by apply respects_modify|by apply respects_quiet; [apply _|]].
Qed.
Lemma gossip_aside txs i j : respects aside (gossip_loop env txs i j).
Proof.
  revert i j. induction txs as [|tx txs IH]; intros i j; cbn [gossip_loop]; [by apply respects_quiet; [apply _|]|].
  apply respects_bind; [apply _|apply admit_one_aside|]. intros [e|id]; apply IH.
Qed.
Lemma submit_bundle_core txs agg (l : Ledger) :
  persistent (submit_bundle txs agg l).1 = persistent l ∧
  (submit_bundle txs agg l).1.(lg_last_app_hash) = l.(lg_last_app_hash).
Proof.
  unfold submit_bundle. destruct (_ || _); [done|]. destruct (bundle_shape_verdict txs) as [u|e|]; [|done..].
  rewrite run_get. do 2 (case_match; [done|]). unfold bindM at 1, readM.
  destruct (txids (E := NodeError) txs); [|done..]. done.
Qed.
Lemma queues_keep_set :
  (∀ rules cert (s : Seats), (queue_rotation rules cert s).1.(se_validators) = s.(se_validators) ∧
     (queue_rotation rules cert s).1.(se_history) = s.(se_history)) ∧
  (∀ id tip cert (s : Seats), (queue_set_change id tip cert s).1.(se_validators) = s.(se_validators) ∧
     (queue_set_change id tip cert s).1.(se_history) = s.(se_history)).
Proof.
  split; intros; unfold queue_rotation, queue_set_change; rewrite run_get; by destruct (preflight_reply _).
Qed.
Lemma on_seats_aside {A} (m : M Seats NodeError A) :
  (∀ s, (m s).1.(se_validators) = s.(se_validators) ∧ (m s).1.(se_history) = s.(se_history)) → respects aside (on_seats m).
Proof.
  intros Hm a. destruct (Hm a.(ap_seats)) as [E1 E2]. unfold on_seats, zoom.
  destruct (m a.(ap_seats)) as [s [x|e|]]; cbn [fst] in *; constructor; try done; by constructor.
Qed.
Lemma request_aside rq : respects aside (request rq).
Proof.
  destruct rq as [tx written|txs|txs agg|rules cert|tip cert]; cbn [request]; apply then_ret; try apply _.
  - apply admit_one_aside.
  - unfold gossip_txs. case_match; [by apply respects_quiet; [apply _|]|apply gossip_aside].
  - intros a. destruct (submit_bundle_core txs agg a.(ap_ledger)) as [E1 E2]. unfold on_ledger, zoom.
    destruct (submit_bundle txs agg a.(ap_ledger)) as [l [x|e|]]; cbn [fst] in *; constructor; try done; by constructor.
  - apply on_seats_aside, queues_keep_set.
  - apply on_seats_aside, queues_keep_set.
Qed.
Lemma index_pass_aside : respects aside index_pass_step.
Proof.
  assert (∀ h txs, respects aside (on_ledger (PeerId := PeerId) (zoom lg_index lg_set_index id (index_txs_into h txs)))) as Hix.
  { intros h txs a. unfold on_ledger, zoom. by destruct (index_txs_into h txs _) as [ix []]. }
  unfold index_pass_step. apply respects_bind; [apply _|by apply respects_quiet; [apply _|]|]. intros x.
  destruct (ap_index_todo x) as [|h todo]; [by apply respects_quiet; [apply _|]|].
  apply respects_bind; [apply _| |intros _; by apply respects_modify].
  destruct (load_block _ h) as [[sb|]| |]; try by apply respects_quiet; [apply _|].
  destruct (batch_decode _); [apply Hix|by apply respects_quiet; [apply _|]].
Qed.
(** A compaction, on a directory that restarts anywhere. *)
Lemma compact_up h a through : up h 0 a → up h 0 (compact_one through a).1.
Proof.
  intros U. unfold compact_one. rewrite run_get. destruct (compactable_segments _ through) as [|id ids]; [done|].
  pose proof U as [F (s & Hs & Hh) Hd Hp Hv]. unfold bindM at 1, log_io.
  destruct (compact_segment id _) as [fs r] eqn:E.
  assert (up h 0 (ap_set_script fs.(fs_script) (ap_set_store (so_set_log fs.(fs_disk) a.(ap_store)) a))) as U'.
  { constructor; [destruct F; by constructor| |done|done|done]. exists s. split; [done|]. destruct Hh as [Hs0 Ht Hh Hsn].
    pose proof (tidy_compact _ _ (mkFs _ _) _ _ Ht E) as Ht'. apply home_ok_log; [done|done|done|].
    eapply disk_ok_weaken; [|apply Ht']. intros k o Hk. split; [done|lia]. }
  by destruct r as [x|[]|].
Qed.

(** * The world *)

Inductive World := Up (a : HkApp) | Down (x : Store).

(** A power loss: every file keeps something that survives. *)
Record store_power_loss (x x' : Store) : Prop := mkStoreLoss {
  pl_log : disk_power_loss x.(so_log) x'.(so_log);
  pl_current : power_loss x.(so_snaps).(sf_current) x'.(so_snaps).(sf_current);
  pl_v3 : power_loss x.(so_snaps).(sf_v3) x'.(so_snaps).(sf_v3);
  pl_v2 : power_loss x.(so_snaps).(sf_v2) x'.(so_snaps).(sf_v2);
  pl_legacy : power_loss x.(so_snaps).(sf_legacy) x'.(so_snaps).(sf_legacy);
}.
Inductive wstep : World → World → Prop :=
  | w_message a a' msg x :
      honest_msg (st_height (ap_chain a)) a msg → handle env msg a = (a', Ok x) → wstep (Up a) (Up a')
  | w_died a a' msg r :
      honest_msg (st_height (ap_chain a)) a msg → handle env msg a = (a', r) → wstep (Up a) (Down a'.(ap_store))
  | w_request a rq : wstep (Up a) (Up (request rq a).1)
  | w_compact a through : wstep (Up a) (Up (compact_one through a).1)
  | w_index a : wstep (Up a) (Up (index_pass_step a).1)
  | w_seats a s' :
      (** the signer and the rotation tick *)
      s'.(se_validators) = a.(ap_seats).(se_validators) → s'.(se_history) = a.(ap_seats).(se_history) →
      wstep (Up a) (Up (ap_set_seats s' a))
  | w_stop a : wstep (Up a) (Down a.(ap_store))
  | w_power_loss x x' : store_power_loss x x' → wstep (Down x) (Down x')
  | w_boot x en handle keys script a :
      start_node env true (app_new g0 set0 en handle keys x script) = (a, Ok tt) → wstep (Down x) (Up a).
Definition world_ok (w : World) : Prop :=
  match w with Up a => ∃ h, up h 0 a | Down x => down 0 x end.

Lemma absent_power_loss f f' : absent f → power_loss f f' → absent f'.
Proof.
  intros [_ Hs] [Hv E]. split; [by apply Hs|]. intros c. rewrite E. intros ->%list_elem_of_singleton. by apply Hs.
Qed.
Lemma home_ok_power_loss s d x x' : home_ok s d x → store_power_loss x x' → home_ok s d x'.
Proof.
  intros [Hs Ht Hh [Hf Hi H3 H2 H1]] [Pl Pc P3 P2 P1]. constructor; [done| | |].
  - by eapply tidy_power_loss.
  - by eapply disk_ok_power_loss.
  - constructor.
    + by eapply power_loss_visible.
    + intros c Hc. apply Hi. by eapply power_loss_survivor.
    + exact (absent_power_loss _ _ H3 P3).
    + exact (absent_power_loss _ _ H2 P2).
    + exact (absent_power_loss _ _ H1 P1).
Qed.
Lemma boot_up d x en handle keys script :
  down d x →
  ∃ a h, start_node env true (app_new g0 set0 en handle keys x script) = (a, Ok tt) ∧ up h d a ∧
    a.(ap_height) = h + 1 ∧ image_height x.(so_snaps) ≤ h ∧
    (∀ k, image_height x.(so_snaps) < k ≤ h → ∃ b, load_block x.(so_log) k = Ok (Some b)) ∧
    load_block x.(so_log) (h + 1) = Ok None.
Proof.
  intros [s Hh]. pose proof (restart_run (PeerId := PeerId) env g0 set0 values G json_total en handle keys x script s d Hh)
    as (a & h & Hr & F & Ht & _ & Hsame & Hi & Hrun & Hnone & Hd & Hv).
  exists a, h. split_and!; try done. destruct Hsame as [El Es _ _ Ep]. constructor; [done| |done| |done].
  - exists s. split; [|by apply (home_ok_other _ _ _ _ s d x)].
    etrans; [|exact Hi]. by eapply image_height_base, Hh.
  - rewrite Ep. intros k l v. cbn. by rewrite lookup_empty.
Qed.
Lemma wstep_ok w w' : wstep w w' → world_ok w → world_ok w'.
Proof.
  destruct 1 as [a a' msg x Hm Hr|a a' msg r Hm Hr|a rq|a through|a|a s' E1 E2|a|x x' Hl|x en handle keys script a Hb]; cbn.
  - intros [h U]. rewrite (follows_tip env g0 set0 values G h a (up_follows _ _ _ U)) in Hm.
    pose proof (handle_up h 0 a msg U Hm) as Hu. rewrite Hr in Hu. destruct Hu as (h' & _ & U'). by exists h'.
  - intros [h U]. rewrite (follows_tip env g0 set0 values G h a (up_follows _ _ _ U)) in Hm.
    pose proof (handle_up h 0 a msg U Hm) as Hu. rewrite Hr in Hu. destruct r as [x|e|]; [|done..].
    destruct Hu as (h' & _ & U'). by eapply up_down.
  - intros [h U]. exists h. eapply up_aside; [apply request_aside|done].
  - intros [h U]. exists h. by apply compact_up.
  - intros [h U]. exists h. eapply up_aside; [apply index_pass_aside|done].
  - intros [h U]. exists h. eapply up_aside; [|done]. constructor; [by constructor|done].
  - intros [h U]. by eapply up_down.
  - intros [s Hs]. exists s. by eapply home_ok_power_loss.
  - intros Hd. destruct (boot_up 0 x en handle keys script Hd) as (a' & h & Hr & U & _). rewrite Hb in Hr.
    injection Hr as <-. by exists h.
Qed.
Lemma world_reachable_ok w w' : rtc wstep w w' → world_ok w → world_ok w'.
Proof. induction 1 as [|w1 w2 w3 Hs _ IH]; [done|]. intros Hw. by apply IH, (wstep_ok w1). Qed.

(** * Theorems *)

(** What a node serves from its memory or its disk are the chain's values. *)
Lemma decided_value_up h d a k v :
  up h d a → decided_value k a = Some v → ∃ cert, v = mkDecidedValue (value_bytes (value_new (values k))) cert.
Proof.
  intros [_ (s & _ & Hh) _ _ Hv]. unfold decided_value. destruct (ap_decided a !! k) as [e|] eqn:Ek.
  { intros [= <-]. rewrite (Hv _ _ Ek). by eexists. }
  destruct (ap_attached a); [|done]. destruct (disk_ok_load _ _ k (proj1 (ho_tidy _ _ _ _ _ _ _ Hh))) as (o & -> & Hf).
  destruct o as [b|]; [|done]. destruct Hf as (_ & -> & _). destruct (certificate_value_mismatch _ _); [done|].
  intros [= <-]. by eexists.
Qed.

(** C1: a node follows its chain.  Started on a directory of the chain (an empty one is
    one), through any messages of the engine that are honest ([honest_msg]: it decides
    the next height with the certificate of the chain's value, and synced values carry
    the hash of their bytes; [forged_synced_value_is_committed] shows the need),
    requests, compactions, failed writes, stops, power losses and restarts, a
    running node is always at some height of the chain: its ledger, note feeds, receipts and validator set are the
    chain's at that height, it knows the set of the next one, and every decided
    value it serves, from memory or from disk, is the chain's. *)
Theorem node_follows_chain x0 a :
  home_ok 0 0 x0 → rtc wstep (Down x0) (Up a) →
  chain_at (st_height (ap_chain a)) (app_image a) ∧
  current (st_height (ap_chain a) + 1) (view a.(ap_seats)) ∧
  ∀ k v, decided_value k a = Some v → ∃ cert, v = mkDecidedValue (value_bytes (value_new (values k))) cert.
Proof.
  intros Hx Hr. destruct (world_reachable_ok _ _ Hr) as [h U]; [by exists 0|].
  rewrite (follows_tip env g0 set0 values G h a (up_follows _ _ _ U)). destruct U as [F Hh Hd Hp Hv].
  split_and!; [apply F|apply F|]. intros k v. by apply (decided_value_up h 0 a).
Qed.

(** C2: a stopped node can always start again.  After any life on the
    chain's directory whose messages were honest, as above, restoring succeeds
    (the loop over the blocks on disk ends without an error) and resumes at the top
    of the gap-free run of blocks above the image on disk, with the chain's state
    and set of that height, ready to decide the next one. *)
Theorem restart_resumes x0 x en handle keys script :
  home_ok 0 0 x0 → rtc wstep (Down x0) (Down x) →
  ∃ a h, start_node env true (app_new g0 set0 en handle keys x script) = (a, Ok tt) ∧
    chain_at h (app_image a) ∧ a.(ap_height) = h + 1 ∧ image_height x.(so_snaps) ≤ h ∧
    (∀ k, image_height x.(so_snaps) < k ≤ h → ∃ b, load_block x.(so_log) k = Ok (Some b)) ∧
    load_block x.(so_log) (h + 1) = Ok None.
Proof.
  intros Hx Hr. destruct (boot_up 0 x en handle keys script) as (a & h & Hrun & U & Hh & Hi & Hall & Hnone).
  { apply (world_reachable_ok _ _ Hr). by exists 0. }
  exists a, h. split_and!; try done. apply U.
Qed.

(** C3: a commit whose block reached the disk is not undone.  From a node on its chain
    whose directory restarts at its own height and whose proposals carry the hashes of
    their values, on a decision with the chain's certificate, once the block's write
    went through,
    whatever becomes of the writes after it (image, pool log, pruning, index) and
    whatever survives a power loss, a restart comes up at the new height or above. *)
Theorem written_block_survives h s a cert now b script x en handle keys script' :
  follows h a → s ≤ h → home_ok s h a.(ap_store) → honest_proposals a.(ap_proposals) →
  certified (h + 1) a.(ap_proposals) cert → a.(ap_attached) = true → a.(ap_script) = WDone :: script →
  (commit_state env cert now a).2 = Ok b → is_Some (enc_block b) →
  x = (commit env cert now a).1.(ap_store) ∨ store_power_loss (commit env cert now a).1.(ap_store) x →
  ∃ a' h', start_node env true (app_new g0 set0 en handle keys x script') = (a', Ok tt) ∧
    chain_at h' (app_image a') ∧ h + 1 ≤ h'.
Proof.
  intros F Hs Hh Hp C Hatt Hw Hc He Hx. destruct (commit_state env cert now a) as [a1 r] eqn:E. cbn in Hc. subst r.
  destruct (commit_state_ok env g0 set0 values G json_total _ _ _ _ _ _ F C Hp E) as (F1 & Hb & _ & Hsame & _).
  assert (commit env cert now a = persist env b a1) as Ec.
  { unfold commit. by rewrite (run_eq _ _ _ _ _ E), run_get, (sd_attached _ _ Hsame), Hatt. }
  rewrite Ec in Hx.
  assert (saving env g0 set0 values a1 s h a1) as Hsav by (constructor; [done|by rewrite (sd_store _ _ Hsame)]).
  rewrite <-(sd_script _ _ Hsame) in Hw.
  destruct (persist_written env g0 set0 values G short a1 s h b a1 script Hb He F1 Hs Hsav Hw) as (s' & _ & [_ Hh']).
  assert (down (h + 1) x) as Hd.
  { exists s'. destruct Hx as [->|Hl]; [exact Hh'|]. eapply home_ok_power_loss; [exact Hh'|exact Hl]. }
  destruct (boot_up (h + 1) x en handle keys script' Hd) as (a' & h' & Hr & U & _).
  exists a', h'. split_and!; [done|apply U|apply U].
Qed.

(** C4: every decision is answered: of a node that is up on its chain, on the certificate
    of the chain's next value.  Either the node commits it: the height after the next is to be
    decided by the chain's new set, and the node is at the new height; or it
    restarts the height, exactly as it was (but for the cached commitment), because it
    holds no payload with the decided id or the block does not extend the
    chain; or the process stops with a directory to restart from. *)
Theorem decision_answered h a cert now a' r :
  up h 0 a → certified (h + 1) a.(ap_proposals) cert → decided env cert now a = (a', r) →
  (r = Ok (NextStart (h + 1 + 1) (validator_set a')) ∧ up (h + 1) 0 a') ∨
  (r = Ok (NextRestart a.(ap_height) (validator_set a)) ∧ up h 0 a' ∧
     (a' = a ∨ a' = ap_set_ledger (lg_set_last None a.(ap_ledger)) a) ∧
     (find_decided cert a.(ap_proposals) = None ∨ ∀ im, ¬ chain_at (h + 1) im)) ∨
  ((r = Err ProcessStopped ∨ r = Panic) ∧ down 0 a'.(ap_store)).
Proof.
  intros U C. pose proof (commit_up _ _ _ _ now U C) as Hup. unfold decided, tryM, bindM at 1.
  destruct (commit env cert now a) as [a1 [u|e|]] eqn:E; [| |intros [= <- <-]; by right; right; split; [right|]].
  - rewrite run_get. intros [= <- <-]. left. split; [|done]. destruct U as [F _ _ Hp _].
    unfold commit in E. apply bindM_ok in E as (a2 & b & Hcs & E).
    destruct (commit_state_ok env g0 set0 values G json_total _ _ _ _ _ _ F C Hp Hcs) as (_ & _ & Eh & _).
    rewrite run_get in E. replace (ap_height a1) with (h + 1 + 1); [done|].
    destruct (ap_attached a2); [|injection E as <-; done].
    pose proof (persist_height env b a2) as Hh. rewrite E in Hh. cbn in Hh. congruence.
  - rewrite run_get. unfold commit in E. apply bindM_inv in E as [(a2 & b & _ & E)|[(e' & Hcs & [= ->])|[_ [=]]]].
    + rewrite run_get in E. destruct (ap_attached a2); [|done]. apply persist_stops in E as ->.
      intros [= <- <-]. right; right. split; [by left|]. by destruct Hup as [U'|U']; eapply up_down.
    + pose proof U as [F (s & Hs & Hh) Hd Hp Hv].
      destruct (commit_state_err env g0 set0 values G json_total _ _ _ _ _ _ F C Hp Hcs) as (F' & Hsame & Ea & Ee).
      assert (find_decided cert a.(ap_proposals) = None ∨ ∀ im, ¬ chain_at (h + 1) im) as Hwhy.
      { destruct (find_decided cert a.(ap_proposals)) as [v|] eqn:Ef; [|by left]. right. intros im Hc.
        destruct (commit_state_complete env g0 set0 values G json_total h a cert now im F C Hp) as (a2 & b & Hok); [by rewrite Ef|done|].
        by rewrite Hcs in Hok. }
      assert (up h 0 a1) as U1.
      { constructor; [done| |done|by destruct Ea as [-> | ->]|by destruct Ea as [-> | ->]].
        exists s. by rewrite (sd_store _ _ Hsame). }
      right; left. assert (e' ≠ ProcessStopped) as Hne by (destruct Ee as [[-> _]|(? & ? & ->)]; done).
      destruct e'; try done; injection H0 as <- <-; (split; [by destruct Ea as [-> | ->]|done]).
Qed.

(** ** A value whose id is not its hash *)

Lemma commit_state_block cert now a a' b :
  commit_state env cert now a = (a', Ok b) →
  ∃ v, find_decided cert a.(ap_proposals) = Some v ∧ b.(sb_value_bytes) = val_txs v ∧
    b.(sb_certificate) = raw_certificate cert.
Proof.
  unfold commit_state. rewrite run_get. destruct (find_decided cert _) as [v|]; [|done]. cbn [ok_or]. rewrite run_ret. cbv zeta.
  intros (a1 & ? & _ & Hr)%bindM_ok. apply bindM_ok in Hr as (a2 & [] & _ & Hr). apply bindM_ok in Hr as (a3 & [] & _ & Hr).
  rewrite !run_modify in Hr. injection Hr as _ <-. by exists v.
Qed.
Lemma find_decided_single cert v (p : Proposals (PeerId := PeerId)) :
  undecided_of cert.(cc_height) p = [] → v.(pv_height) = cert.(cc_height) → val_id v.(pv_value) = cert.(cc_value_id) →
  find_decided cert (store_undecided v p) = Some v.(pv_value).
Proof.
  intros Hnone Hh Hid.
  assert (∀ w, w ∈ undecided_of cert.(cc_height) (store_undecided v p) ↔ w = v) as Hall.
  { intros w. rewrite undecided_of_elem. unfold store_undecided. cbn [pr_undecided].
    assert (p.(pr_undecided) !! round_key (pv_height v) (pv_round v) = None ∨
            p.(pr_undecided) !! round_key (pv_height v) (pv_round v) = Some []) as Hold.
    { destruct (_ !! _) as [[|w0 l]|] eqn:E; [by right| |by left]. exfalso.
      assert (w0 ∈ undecided_of cert.(cc_height) p) as Hin; [|by rewrite Hnone in Hin; apply elem_of_nil in Hin].
      apply undecided_of_elem. exists (round_key (pv_height v) (pv_round v)).2, (w0 :: l). split; [|by left].
      rewrite <-Hh. exact E. }
    assert (default [] (p.(pr_undecided) !! round_key (pv_height v) (pv_round v)) = []) as -> by (by destruct Hold as [-> | ->]).
    cbn [existsb app]. split.
    - intros (r & l & Hl & Hw). destruct (decide ((cc_height cert, r) = round_key (pv_height v) (pv_round v))) as [E|Hne].
      + rewrite E, lookup_insert_eq in Hl. injection Hl as <-. by apply list_elem_of_singleton in Hw.
      + rewrite lookup_insert_ne in Hl by congruence. exfalso.
        assert (w ∈ undecided_of cert.(cc_height) p) as Hin; [|by rewrite Hnone in Hin; apply elem_of_nil in Hin].
        apply undecided_of_elem. by exists r, l.
    - intros ->. exists (round_key (pv_height v) (pv_round v)).2, [v]. split; [|by left].
      rewrite <-Hh. apply lookup_insert_eq. }
  unfold find_decided. destruct (find _ _) as [w|] eqn:Ef.
  - apply find_some in Ef as [Hw _]. apply list_elem_of_In, Hall in Hw as ->. done.
  - exfalso. assert (bool_decide (val_id v.(pv_value) = cert.(cc_value_id)) = false) as Hb.
    { apply (find_none _ _ Ef v). apply list_elem_of_In. by apply Hall. }
    by rewrite bool_decide_eq_true_2 in Hb.
Qed.

(** C38: the id of a synced value is taken on trust.  The loop decodes what a syncing
    peer sends and stores it as valid with the id the peer wrote; nothing on the way to
    the disk hashes the payload.  So a peer that answers with a certified id and
    other bytes makes the node commit those bytes; and replaying the block it
    then keeps fails, in whatever state, as corrupt history. *)
Theorem forged_synced_value_is_committed a round proposer x v cert now :
  Codec.decode x = Ok v → val_id v = cert.(cc_value_id) → val_id (value_new (val_txs v)) ≠ val_id v →
  undecided_of cert.(cc_height) a.(ap_proposals) = [] →
  let a1 := (handle env (ProcessSyncedValue cert.(cc_height) round proposer x) a).1 in
  find_decided cert a1.(ap_proposals) = Some v ∧
  ∀ a2 b, commit_state env cert now a1 = (a2, Ok b) →
    b.(sb_value_bytes) = val_txs v ∧
    ∀ a3 : HkApp, replay_block env cert.(cc_height) b a3 = (a3, Err (CorruptHistory cert.(cc_height))).
Proof.
  intros Hx Hid Hforged Hnone a1. assert (find_decided cert a1.(ap_proposals) = Some v) as Hfind.
  { subst a1. unfold handle, process_synced_value. rewrite run_get, Hx. cbn. by apply (find_decided_single cert (mkProposedValue _ _ _ _ v Valid)). }
  split; [exact Hfind|]. intros a2 b (w & Hw & Eb & Ec)%commit_state_block. rewrite Hfind in Hw. injection Hw as <-.
  split; [done|]. intros a3. unfold replay_block, certificate_value_mismatch. rewrite Eb, Ec. cbn [rc_value_id raw_certificate].
  rewrite bool_decide_eq_false_2 by congruence. done.
Qed.
End world.
