(* ===== verification/LifeDemo.v ===== *)
(** A small chain and a node that lives on it: the witnesses of World.v. *)

From S2P Require Export World.
From S2P Require Import Signer Toy Demo Governance Proposer.
#[local] Open Scope Z_scope.

Module Sample.
#[local] Existing Instances toy_shake toy_sha2 toy_codecs toy_stx toy_state_codecs toy_hss toy_root.
(** Every height decides the same byte, which is no batch: the blocks are empty. *)
Definition values (h : Z) : bytes := [x07].
Definition value : HkValue := value_new [x07].
(** A value with the decided id and other bytes. *)
Definition forged : HkValue := mkHkValue (val_id value) [x08].
Definition batch_wire : BatchWire := {|
  enc_v1 := λ _, None; dec_v1 := λ _, None; enc_v2 := λ _, None; dec_v2 := λ _, None |}.
Definition value_wire : Bincode HkValue := {|
  bin_enc := λ v, None;
  bin_dec := λ x, if bool_decide (x = [x01]) then Some value else if bool_decide (x = [x02]) then Some forged else None;
|}.
Definition index_wire : Bincode PersistedIndex := {| bin_enc := λ _, None; bin_dec := λ _, None |}.
Definition stx_wire : StxWire := {| enc_stx := λ _, None; dec_stx := λ _, None |}.
Definition snap_wire : SnapWire := {|
  enc_snap := λ _, None; dec_snap := λ _, None; dec_snap3 := λ _, None; dec_snap2 := λ _, None; dec_snap1 := λ _, None |}.
Definition cert (h : Z) : CommitCertificate := mkCommitCert h (RSome 0) (val_id value) [].
Definition block (h : Z) : StoredBlock := mkStoredBlock h [x07] (raw_certificate (cert h)) false.
#[local] Instance block_dec : EqDecision StoredBlock.
Proof. assert (EqDecision RawCommitCertificate) by solve_decision. solve_decision. Defined.
Definition block_wire : BlockWire := {|
  enc_block := λ b, if bool_decide (b = block 1) then Some [x01] else None;
  dec_block := λ x, if bool_decide (x = [x01]) then Some (block 1) else None;
|}.
Definition set : HkValidatorSet := SampleSet.set.
Definition env : NodeEnv :=
  mkNodeEnv Seats.Sample.cfg (address_prefix (id_of 5)) None 0 None 8 16 64 true 0 false.
Definition genesis : State := state_default.
Definition boot : BootEnv := mkBootEnv None None None None None None (None, None) None None.
Definition home : Store :=
  mkStore (mkDisk ∅ ∅) (mkSnapFiles no_file no_file no_file no_file no_file) no_file no_file 0.
End Sample.
#[local] Existing Instances toy_shake toy_sha2 toy_codecs toy_stx toy_state_codecs toy_hss toy_root
  Sample.batch_wire Sample.value_wire Sample.index_wire Sample.stx_wire Sample.snap_wire Sample.block_wire.
#[local] Notation App := (HkApp (PeerId := Z)).
Lemma run_pair {A B} (p : A * B) r : p.2 = r → p = (p.1, r).
Proof. by destruct p; intros <-. Qed.

Lemma sample_block_laws : BlockWireLaws (W := Sample.block_wire).
Proof. constructor. intros b x. cbn. repeat case_bool_decide; intros; simplify_eq; done. Qed.
Lemma sample_snap_laws : SnapWireLaws (W := Sample.snap_wire).
Proof. by constructor. Qed.
Lemma sample_genesis_fit : genesis_fit Sample.env Sample.genesis Sample.set.
Proof.
  constructor; [reflexivity|reflexivity|reflexivity|apply set_ok_normal, sample_set_ok|].
  eexists. vm_compute. reflexivity.
Qed.
Lemma sample_json_total (tx : SignedTx) : is_Some (json_stx tx).
Proof. by eexists. Qed.
Lemma sample_short h b x :
  good_block Sample.env Sample.genesis Sample.set Sample.values h b → enc_block b = Some x → in_u32 (Z.of_nat (length x)).
Proof. intros _. cbn. case_bool_decide; [|done]. by intros [= <-]. Qed.
Lemma sample_home_ok : home_ok Sample.env Sample.genesis Sample.set Sample.values 0 0 Sample.home.
Proof.
  assert (∀ k, block_file (mkDisk ∅ ∅) k = no_file ∧ seg_file (mkDisk ∅ ∅) k = no_file) as Hno by done.
  assert (∀ s d, disk_ok (mkDisk ∅ ∅) (held Sample.env Sample.genesis Sample.set Sample.values s d) ∨ s < d) as Hdisk.
  { intros s d. destruct (Z.lt_ge_cases s d); [by right|left]. constructor.
    - intros k. by left.
    - intros k. by left.
    - intros k x. destruct (Hno k) as [-> _]. by intros ?%list_elem_of_singleton.
    - intros k bf sf. destruct (Hno k) as [-> _]. destruct (Hno (k / SEGMENT_SPAN)) as [_ ->].
      intros ->%list_elem_of_singleton ->%list_elem_of_singleton. exists None. split; [done|]. split; [done|lia]. }
  destruct (Hdisk 0 0) as [Hd|]; [|lia]. constructor; [done| |exact Hd|].
  - split; [eapply disk_ok_weaken; [|exact Hd]; by intros k o []|]. intros id sf.
    change (Sample.home.(so_log)) with (mkDisk ∅ ∅). destruct (Hno id) as [_ ->].
    intros ->%list_elem_of_singleton k _. by exists None.
  - assert (absent no_file) as Ha by (split; [done|by intros c ->%list_elem_of_singleton]).
    constructor; [by left| |exact Ha..]. intros c ->%list_elem_of_singleton. done.
Qed.

(** ** A life: the node starts, syncs the first value and commits it *)

Definition sample_made (script : list WriteOutcome) : App :=
  app_new Sample.genesis Sample.set Sample.boot Seats.Sample.handle ∅ Sample.home script.
Definition sample_start (script : list WriteOutcome) : App := (start_node Sample.env true (sample_made script)).1.
Definition sample_synced (x : bytes) (a : App) : App :=
  (handle Sample.env (ProcessSyncedValue 1 (RSome 0) (address_prefix (id_of 6)) x) a).1.
Definition sample_decided (a : App) : App := (handle Sample.env (Decided (Sample.cert 1) 0) a).1.
Lemma sample_started : (start_node Sample.env true (sample_made [WDone])).2 = Ok tt.
Proof. vm_compute. reflexivity. Qed.
#[local] Notation sample_a0 := (sample_start [WDone]).
#[local] Notation sample_a1 := (sample_synced [x01] (sample_start [WDone])).
#[local] Notation sample_a2 := (sample_decided (sample_synced [x01] (sample_start [WDone]))).
Lemma sample_synced_reply :
  (handle Sample.env (ProcessSyncedValue 1 (RSome 0) (address_prefix (id_of 6)) [x01]) sample_a0).2 =
    Ok (Proposed (Some (mkProposedValue 1 (RSome 0) RNil (address_prefix (id_of 6)) Sample.value Valid)), []).
Proof. vm_compute. reflexivity. Qed.
Lemma sample_undecided :
  undecided_of 1 sample_a1.(ap_proposals) =
    [mkProposedValue 1 (RSome 0) RNil (address_prefix (id_of 6)) Sample.value Valid].
Proof. vm_compute. reflexivity. Qed.
Lemma sample_tip : st_height (ap_chain sample_a0) = 0 ∧ st_height (ap_chain sample_a1) = 0.
Proof. split; vm_compute; reflexivity. Qed.
Lemma sample_certified : certified Sample.env Sample.values 1 sample_a1.(ap_proposals) (Sample.cert 1).
Proof.
  constructor; [reflexivity|split; split; discriminate|reflexivity|].
  intros v. rewrite sample_undecided. by intros ->%list_elem_of_singleton _.
Qed.
Lemma sample_committed :
  ∃ set, (handle Sample.env (Decided (Sample.cert 1) 0) sample_a1).2 = Ok (NextStart 2 set, []).
Proof. eexists. vm_compute. reflexivity. Qed.
#[local] Notation sample_step := (wstep Sample.env Sample.genesis Sample.set Sample.values).
Lemma sample_node_life : rtc sample_step (Down Sample.home) (Up sample_a2).
Proof.
  destruct sample_tip as [T0 T1]. destruct sample_committed as [set Hc].
  eapply rtc_l; [|eapply rtc_l; [|apply rtc_once]].
  - apply (w_boot _ _ _ _ _ Sample.boot Seats.Sample.handle ∅ [WDone] sample_a0).
    apply run_pair, sample_started.
  - eapply (w_message _ _ _ _ _ sample_a1); [|apply run_pair, sample_synced_reply].
    intros v. cbn. intros [= <-]. done.
  - eapply (w_message _ _ _ _ _ sample_a2); [|apply run_pair, Hc].
    rewrite T1. exact sample_certified.
Qed.

Lemma node_follows_chain_witness :
  chain_at Sample.env Sample.genesis Sample.set Sample.values (st_height (ap_chain sample_a2)) (app_image sample_a2).
Proof.
  refine (proj1 (node_follows_chain (BLAWS := sample_block_laws) (SLAWS := sample_snap_laws) _ _ _ _
    sample_genesis_fit sample_json_total sample_short _ _ sample_home_ok sample_node_life)).
Defined.
Lemma restart_resumes_witness :
  ∃ (a : App) h, start_node Sample.env true
      (app_new Sample.genesis Sample.set Sample.boot Seats.Sample.handle ∅ sample_a2.(ap_store) []) = (a, Ok tt) ∧
    a.(ap_height) = h + 1.
Proof.
  destruct (restart_resumes (PeerId := Z) (BLAWS := sample_block_laws) (SLAWS := sample_snap_laws) _ _ _ _
    sample_genesis_fit sample_json_total sample_short Sample.home sample_a2.(ap_store) Sample.boot Seats.Sample.handle ∅ []
    sample_home_ok) as (a & h & H1 & _ & H2 & _).
  - eapply rtc_r; [exact sample_node_life|apply w_stop].
  - exists a, h. split; [exact H1|exact H2].
Defined.

Lemma sample_up : up Sample.env Sample.genesis Sample.set Sample.values 0 0 sample_a1.
Proof.
  destruct sample_tip as [T0 T1].
  assert (rtc sample_step (Down Sample.home) (Up sample_a1)) as Hr.
  { eapply rtc_l; [|apply rtc_once].
    - apply (w_boot _ _ _ _ _ Sample.boot Seats.Sample.handle ∅ [WDone] sample_a0).
      apply run_pair, sample_started.
    - eapply (w_message _ _ _ _ _ sample_a1); [|apply run_pair, sample_synced_reply].
      intros v. cbn. intros [= <-]. done. }
  destruct (world_reachable_ok (BLAWS := sample_block_laws) (SLAWS := sample_snap_laws) _ _ _ _
    sample_genesis_fit sample_json_total sample_short _ _ Hr) as [h U]; [by exists 0; apply sample_home_ok|].
  pose proof (follows_tip _ _ _ _ sample_genesis_fit _ _ (up_follows _ _ _ _ _ _ _ U)) as E. rewrite T1 in E. by subst h.
Qed.
Lemma sample_reply : ∃ set, (decided Sample.env (Sample.cert 1) 0 sample_a1).2 = Ok (NextStart 2 set).
Proof. eexists. vm_compute. reflexivity. Qed.
Lemma decision_answered_witness :
  up Sample.env Sample.genesis Sample.set Sample.values 1 0 (decided Sample.env (Sample.cert 1) 0 sample_a1).1.
Proof.
  destruct sample_reply as [set Hr].
  destruct (decision_answered (BLAWS := sample_block_laws) (SLAWS := sample_snap_laws) _ _ _ _
    sample_genesis_fit sample_json_total sample_short 0 sample_a1 (Sample.cert 1) 0
    (decided Sample.env (Sample.cert 1) 0 sample_a1).1 (Ok (NextStart 2 set)) sample_up sample_certified)
    as [[_ U]|[[[=] _]|[[[=]|[=]] _]]]; [|exact U].
  apply run_pair, Hr.
Defined.
Lemma sample_block_state : (commit_state Sample.env (Sample.cert 1) 0 sample_a1).2 = Ok (Sample.block 1).
Proof. vm_compute. reflexivity. Qed.
Lemma sample_attached : sample_a1.(ap_attached) = true ∧ sample_a1.(ap_script) = [WDone].
Proof. split; vm_compute; reflexivity. Qed.
Lemma sample_home_a1 : sample_a1.(ap_store).(so_log) = Sample.home.(so_log) ∧ sample_a1.(ap_store).(so_snaps) = Sample.home.(so_snaps).
Proof. split; vm_compute; reflexivity. Qed.
Lemma written_block_survives_witness :
  ∃ (a' : App) h', start_node Sample.env true
      (app_new Sample.genesis Sample.set Sample.boot Seats.Sample.handle ∅
        (commit Sample.env (Sample.cert 1) 0 sample_a1).1.(ap_store) []) = (a', Ok tt) ∧ 1 ≤ h'.
Proof.
  destruct (written_block_survives (BLAWS := sample_block_laws) (SLAWS := sample_snap_laws) _ _ _ _
    sample_genesis_fit sample_json_total sample_short 0 0 sample_a1 (Sample.cert 1) 0 (Sample.block 1) []
    (commit Sample.env (Sample.cert 1) 0 sample_a1).1.(ap_store) Sample.boot Seats.Sample.handle ∅ [])
    as (a' & h' & H1 & _ & H2).
  - apply sample_up.
  - lia.
  - apply (home_ok_other _ _ _ _ 0 0 Sample.home); [apply sample_home_a1..|exact sample_home_ok].
  - apply sample_up.
  - exact sample_certified.
  - apply sample_attached.
  - apply sample_attached.
  - exact sample_block_state.
  - by eexists.
  - by left.
  - exists a', h'. split; [exact H1|exact H2].
Defined.

Lemma sample_unproposed : undecided_of 1 sample_a0.(ap_proposals) = [].
Proof. vm_compute. reflexivity. Qed.
Lemma sample_forged_block :
  (commit_state Sample.env (Sample.cert 1) 0 (sample_synced [x02] sample_a0)).2 =
    Ok (mkStoredBlock 1 [x08] (raw_certificate (Sample.cert 1)) false).
Proof. vm_compute. reflexivity. Qed.
Lemma forged_synced_value_is_committed_witness :
  replay_block Sample.env 1 (mkStoredBlock 1 [x08] (raw_certificate (Sample.cert 1)) false) sample_a0 =
    (sample_a0, Err (CorruptHistory 1)).
Proof.
  destruct (forged_synced_value_is_committed Sample.env sample_a0 (RSome 0) (address_prefix (id_of 6)) [x02] Sample.forged
    (Sample.cert 1) 0) as [_ H].
  - reflexivity.
  - reflexivity.
  - vm_compute. discriminate.
  - exact sample_unproposed.
  - refine (proj2 (H (commit_state Sample.env (Sample.cert 1) 0 (sample_synced [x02] sample_a0)).1 _ _) sample_a0).
    apply run_pair, sample_forged_block.
Defined.
